(* ===== verification/_CoqProject ===== *)
-Q . S2P
Prelude.v
Streambuf.v
Varint.v
Queries.v
Identity.v
Session.v
Bridge.v
VtermPolicy.v
VtermIO.v
VtermOutput.v
VtermControl.v
VtermEviction.v
VtermInput.v
GoStrings.v
WalletCaps.v
Base58.v
GoTime.v
Delegation.v
Fold.v
Cert.v
Handshake.v
AuthPSK.v
AuthCert.v
AuthWallet.v
AuthWrap.v
Sha256.v
Base64.v
Solana.v
SolanaTx.v
SolanaWire.v
Ledger.v
Landing.v
Refreshers.v
Hex.v
GoPath.v
Json.v
Rpc.v
Watch.v
Grants.v
CertCmd.v
WalletFlags.v
SessionCmd.v
Gateway.v
SignPage.v
Governance.v
GoUrl.v
Transport.v
Backends.v
Attach.v
AttachInput.v
Launch.v
ControlCmd.v
Commands.v
WebBridge.v
Terminal.v
GoFlag.v
Flags.v
System.v
Trust.v
CertTrust.v
Lockout.v
Screen.v
Framing.v
Spike.v
H2Stream.v
