(* ===== verification/Prelude.v ===== *)
(** * mosey: a verification development of a peer-to-peer terminal

    mosey runs a program under a PTY (`mosey launch`), lets clients attach to
    it over several transports (`mosey attach`, browsers through `mosey web`),
    authenticates every peer (pre-shared keys, workspace certificates, wallet
    delegations rooted in an on-chain session account) and shares the terminal
    between clients under a policy.  This library models the Go code of the
    repository and its on-chain Rust program, and proves what makes each part
    correct and what they achieve together.

    ** The parts, how they interact, and where they are

    The server.  [Streambuf] (src/streambuf): the sequence-numbered output
    ring and the input queue.  [Queries] (src/vterm/queries.go): the
    device-attributes responder.  [Identity] (src/auth/identity.go,
    src/vterm/mode.go): identities, capabilities, modes.  [Session]
    (src/vterm/session.go, control.go): the record behind the session's mutex,
    clients as heap objects reached through the registry, every locked
    operation and control message.  [Bridge] (src/vterm/vterm.go): Run, the
    handlers and the goroutines of bridgeClient as a transition system
    [wstep], one step per critical section, channel operation or stream write
    (the replay is read in one step and sent in another, a chunk is taken in
    one and written in another), and an abstract policy machine it refines.  [VtermPolicy], [VtermIO],
    [VtermOutput], [VtermControl], [VtermEviction], [VtermInput]: the theorems
    over all interleavings.  [Varint]: the resume header, the unix framing and Solana's
    compact lengths.

    Authentication.  [Handshake]: interactive programs over a stream, run
    against scripted peers or against each other.  [AuthPSK], [AuthCert],
    [AuthWallet] (src/auth): the three authenticators, both sides. [AuthWrap]
    (src/auth/wrap.go): the authenticating transport, against the class
    [Authenticator] that the three discharge.  [Framing]: the message readers
    and writers, handshakes and dials over the bytes of a stream.  [Cert]
    (src/cert): certificates, master key, revocation file.  [WalletCaps],
    [Base58], [Delegation], [Fold] (src/wallet): capabilities, text formats,
    signed delegations and the validation of chains against a snapshot.

    The chain.  [Solana] (src/walletsolana decode, snapshot, source,
    subscribe, dashboard): account decoding, snapshots, freshness.
    [Refreshers]: refreshes of one source that run at once.  [Rpc]: the
    JSON-RPC requests and answers.  [Watch]: Run, the subscription watcher and
    its connections as a transition system.
    [SolanaTx] (tx.go, txbuild.go): addresses, instructions, message
    compilation, signing, submission.  [SolanaWire]: the wire format as its
    reader sees it.  [Ledger] (src/programs/mosey-session/src/lib.rs): the
    on-chain program as a transition function.  [Landing]: what it means for
    the client's bytes to land on that ledger.

    Transports.  [Transport] (src/transport): errors, the interface as a class
    with laws, the aggregator Multi.  [Backends] (src/transport/unix,
    websocket, http2, libp2p): the four backends as instances.  [H2Stream]:
    the streams of the HTTP/2 backend.  [Attach] (src/attach): the client's
    reconnecting loop as a transition system.  [AttachInput]: the goroutines
    that share its standard input.  [Screen] (src/screen): the
    rendered screen over an emulator.

    Commands (src/cmd).  [Hex]: key files.  [Grants]: chain files and `mosey
    grant`.  [CertCmd]: `mosey cert` and the certificate flags.
    [WalletFlags]: the wallet flags.  [SessionCmd]: `mosey session`.
    [Gateway]: the web gateway's handlers and the signing page's.
    [Governance]: an owner's operations, abstractly, and the session commands
    and the gateway's /govern endpoints that carry them out.
    [WebBridge]: a browser terminal over the attach client.
    [SignPage]: `mosey wallet sign` and the script of its page.  [Launch]:
    authenticators, listeners, the dial stack, detaching.  [ControlCmd]:
    `mosey control`.  [Commands]: runLaunch, runAttach and runWeb whole.
    [Flags]: every command's flag set and what its values configure.
    [Spike] (src/spike/wallet-sig/verify.go): the stand-alone checker of
    delegation texts.

    Together.  [System]: the authenticating transport and the session as one
    transition system, the way `mosey launch` composes them.  [Trust]: the
    same with the wallet authenticator over a source that reads the ledger.
    [CertTrust]: the same with the certificate authenticator, its revocation
    file re-read on SIGHUP.  [Lockout]: a bump of the epoch seen from the
    wallet handshake.  [Terminal]: the attach client and the session at the
    two ends of a stream.

    What the code uses of Go's library is modelled in [GoStrings], [GoTime],
    [GoPath], [GoUrl], [GoFlag], [Json], [Base64], [Sha256] and here.

    ** What the theorems show

    Together: every byte typed into a launched session comes from a client
    whose remote completed the handshake as the identity the session knows,
    and under the wallet authenticator that identity traces through the signed
    nonce of that handshake and signed delegations to a wallet the ledger
    entitles, under the certificate authenticator, again through the nonce of
    that handshake, to a certificate the master signed; a remote
    that authenticates as a writer does get to type; what the user types is
    what the child gets and what the child prints is what the user sees, when
    no chunk of the child is under way while the client's replay is being read
    and queued ([VtermOutput.replay_races_with_pump] shows what happens
    otherwise: such a chunk is seen twice, or before the replay); and
    who is revoked (by a bump of the epoch that the server has read, by a
    revoked serial that it has reloaded) completes no further handshake,
    although the transport keeps the identity a remote proved before.
    Sharing: at most one
    writer in primary-observer mode, one client in exclusive mode, all but the
    newest kicked in supersede mode, fields within their types, bytes reach
    the PTY only from clients allowed to write and in the order they were
    sent, non-owners change nothing of
    others, a kicked client is gone after at most 520 steps of its goroutines,
    however they are scheduled, unless a write to its stream blocks
    ([VtermEviction.blocked_write_keeps_client]), resizes and attaches
    commute; an attached client sees the replay and then every chunk. Authentication: exactly which
    peers each server accepts, that handlers see only authenticated streams,
    that honest peers succeed, that a chain is accepted exactly if it is a
    delegation, and that no command gets to the network without an
    authenticator.  Chain: a refresh reads exactly what the program holds,
    from the HTTP answer on; refreshes that overlap amount to one loop in the
    order of their stores, which need not be that of their reads
    ([Refreshers.older_read_can_win]); a change notification is never lost and
    subscriptions cover what the last refresh found; only owners change
    sessions; what `mosey session` sends and what the gateway has a browser
    sign lands with the effect it names, is refused, or is still waited for,
    and a bump of the epoch is final.  Transports and client: routing, framing under any fragmentation,
    message concatenation, resume positions, capped backoff, the reasons for
    giving up.  Commands: files written by one command open the door for
    another, what list-clients shows is what kick acts on, browser sockets run
    under a signed login, the signing page run by an honest wallet yields the
    delegation asked for, the command lines of a launch and an attach with one
    secret lead to a completed handshake, and a browser terminal carries
    exactly the attach client's input and output.

    ** Conventions, bounds and fuel

    A Go string or byte slice is [bytes]; machine integers are [Z] with
    wrap-around written out ([u16], [u32], [u64], [i64]); errors are values of
    [res].  Maps are [gmap]; where Go leaves the iteration order open the
    operation is given any order, or is shown not to depend on it.  A step
    relation has one step per atomic action, so theorems over runs cover every
    interleaving; runs are shorter than 2^63 events where ids are counted.
    Fuel occurs where a loop is not structural: varints (ten groups), decimal
    numerals (twenty digits), base58, duration and JSON readers (the length of
    the input), address search (256 bumps), delegation chains (structural);
    each is enough for every input of the Go types, and the round-trip or
    totality lemmas say so.  Floating point (the lookup budget, fractions of
    durations) uses the Standard Library's [spec_float] with the parameters of
    binary64.

    ** Interfaces

    Ed25519, HMAC and HKDF, BIP-39, protobuf encoding, the curve test, peer
    ids, multiaddrs, URL authorities, protodelim's reader, the terminal
    emulator and foreign error texts are classes with
    their documented laws ([Ed25519Laws], [ProtoLaws], [CertCodecLaws],
    [TransportLaws] and the like), each with a concrete instance used by the
    witnesses.  The browser wallet that signs a governance transaction is a
    function with its one documented behaviour as a hypothesis.

    ** Not modelled

    Generated protobuf code, the TypeScript clients and pages, usage texts and
    logging are left out.  Sockets, TLS, net/http, gorilla/websocket, libp2p,
    PTYs, signals and processes are inputs of the definitions that use them;
    so are the bytes of a Solana node's answers and of its subscription
    socket. *)

(** ** Shared prelude *)

From Stdlib Require Export Strings.Byte ZArith Lia.
From stdpp Require Export base list list_numbers gmap strings numbers option.

#[global] Open Scope Z_scope.
#[global] Open Scope list_scope.

(** ** Scope, tactics and hint databases *)

Declare Scope go_scope.
Delimit Scope go_scope with go.
#[global] Open Scope go_scope.

Create HintDb mosey.
Create Rewrite HintDb mosey.

(** Split every boolean conjunction, comparison and decision in the context. *)
Ltac go_bool :=
  repeat match goal with
  | H : _ && _ = true |- _ => apply andb_true_iff in H as [? ?]
  | H : _ || _ = false |- _ => apply orb_false_iff in H as [? ?]
  | H : negb _ = true |- _ => apply negb_true_iff in H
  | H : negb _ = false |- _ => apply negb_false_iff in H
  | H : bool_decide _ = true |- _ => apply bool_decide_eq_true in H
  | H : bool_decide _ = false |- _ => apply bool_decide_eq_false in H
  | H : (_ =? _) = true |- _ => apply Z.eqb_eq in H
  | H : (_ =? _) = false |- _ => apply Z.eqb_neq in H
  | H : (_ <=? _) = true |- _ => apply Z.leb_le in H
  | H : (_ <=? _) = false |- _ => apply Z.leb_gt in H
  | H : (_ <? _) = true |- _ => apply Z.ltb_lt in H
  | H : (_ <? _) = false |- _ => apply Z.ltb_ge in H
  end.

(** Case on the next test of a translated Go body, keeping the equation. *)
Ltac go_case :=
  match goal with
  | |- context [if ?b then _ else _] => destruct b eqn:?
  | |- context [match ?x with _ => _ end] => destruct x eqn:?
  | H : context [if ?b then _ else _] |- _ => destruct b eqn:?
  | H : context [match ?x with _ => _ end] |- _ => destruct x eqn:?
  end.

(** Run a translated Go body to its return statements. *)
Ltac go_run := repeat (go_case; simplify_eq/=); go_bool; simplify_eq/=.

(** ** Results: a Go function that returns (value, error) *)

Inductive res (E A : Type) : Type :=
| Ok (a : A)
| Err (e : E).
Arguments Ok {E A} a.
Arguments Err {E A} e.

#[global] Instance res_ret {E} : MRet (res E) := fun A a => Ok a.
#[global] Instance res_bind {E} : MBind (res E) :=
  fun A B f m => match m with Ok a => f a | Err e => Err e end.

Definition guard_ok {E} (b : bool) (e : E) : res E unit :=
  if b then Ok tt else Err e.

Definition is_ok {E A} (r : res E A) : bool :=
  match r with Ok _ => true | Err _ => false end.

(** [map_err f r] is Go's fmt.Errorf(prefix + "%w", err) wrapping. *)
Definition map_err {E F A} (f : E -> F) (r : res E A) : res F A :=
  match r with Ok a => Ok a | Err e => Err (f e) end.

Lemma bind_ok {E A B} (m : res E A) (f : A -> res E B) b :
  m ≫= f = Ok b <-> exists a, m = Ok a /\ f a = Ok b.
Proof.
  destruct m as [a|e']; unfold mbind, res_bind; split.
  - intros ?. by exists a.
  - intros (? & ? & ?); congruence.
  - done.
  - intros (? & ? & ?); congruence.
Qed.

Lemma bind_err {E A B} (m : res E A) (f : A -> res E B) e :
  m ≫= f = Err e <-> m = Err e \/ exists a, m = Ok a /\ f a = Err e.
Proof.
  destruct m as [a|e']; unfold mbind, res_bind; split.
  - intros ?; right. by exists a.
  - intros [?|(? & ? & ?)]; congruence.
  - intros [= ->]; by left.
  - intros [?|(? & ? & ?)]; congruence.
Qed.

Lemma guard_ok_ok {E} (b : bool) (e : E) u : guard_ok b e = Ok u <-> b = true.
Proof. destruct b, u; naive_solver. Qed.

(** Close the error case of a computation that evaluates to [Ok]. *)
Ltac not_err H :=
  match type of H with
  | ?t = Err _ =>
      let X := fresh in
      assert (is_ok t = true) as X by (vm_compute; reflexivity); rewrite H in X; discriminate
  end.

(** ** Bytes: Go's byte (uint8); []byte and string are both [list byte] *)

#[global] Instance byte_eq_dec : EqDecision byte := Byte.byte_eq_dec.

#[global] Instance byte_countable : Countable byte :=
  inj_countable Byte.to_N Byte.of_N Byte.of_to_N.

Abbreviation bytes := (list byte).

(** The unsigned value of a byte, and Go's byte(z) conversion (wraps). *)
Definition b2z (b : byte) : Z := Z.of_N (Byte.to_N b).

Definition z2b (z : Z) : byte :=
  match Byte.of_N (Z.to_N (z mod 256)) with Some b => b | None => x00 end.

(** A string literal of the source as its bytes. *)
Definition str (s : string) : bytes := String.list_byte_of_string s.

Lemma b2z_range b : 0 <= b2z b < 256.
Proof. unfold b2z. pose proof (Byte.to_N_bounded b). lia. Qed.

Lemma b2z_z2b z : b2z (z2b z) = z mod 256.
Proof.
  unfold b2z, z2b. pose proof (Z.mod_pos_bound z 256 ltac:(lia)).
  destruct (Byte.of_N (Z.to_N (z mod 256))) as [b|] eqn:E.
  - apply Byte.to_of_N in E. rewrite E. lia.
  - apply Byte.of_N_None_iff in E. lia.
Qed.

Lemma b2z_inj b c : b2z b = b2z c -> b = c.
Proof.
  unfold b2z. intros H%N2Z.inj.
  pose proof (Byte.of_to_N b) as Hb. rewrite H, Byte.of_to_N in Hb. congruence.
Qed.

Lemma z2b_b2z b : z2b (b2z b) = b.
Proof. apply b2z_inj. rewrite b2z_z2b. apply Z.mod_small, b2z_range. Qed.

#[export] Hint Resolve b2z_range : mosey.

(** ** Machine integers: conversions wrap *)

Definition u16 (z : Z) : Z := z mod 2 ^ 16.
Definition u32 (z : Z) : Z := z mod 2 ^ 32.
Definition u64 (z : Z) : Z := z mod 2 ^ 64.
Definition i64 (z : Z) : Z := (z + 2 ^ 63) mod 2 ^ 64 - 2 ^ 63.

Definition is_u64 (z : Z) : Prop := 0 <= z < 2 ^ 64.

Lemma u64_small z : is_u64 z -> u64 z = z.
Proof. apply Z.mod_small. Qed.

Lemma i64_small z : - 2 ^ 63 <= z < 2 ^ 63 -> i64 z = z.
Proof. intros. unfold i64. rewrite Z.mod_small; lia. Qed.

(** ** Lists: lengths as Go's int *)

Definition len {A} (l : list A) : Z := Z.of_nat (length l).

(** Go's slice expressions s[:n] and s[n:] for an in-range n. *)
Definition slice_to {A} (l : list A) (n : Z) : list A := take (Z.to_nat n) l.
Definition slice_from {A} (l : list A) (n : Z) : list A := drop (Z.to_nat n) l.

Lemma len_nonneg {A} (l : list A) : 0 <= len l.
Proof. unfold len. lia. Qed.

Lemma len_app {A} (l k : list A) : len (l ++ k) = len l + len k.
Proof. unfold len. rewrite length_app. lia. Qed.

(** [rewrite] would unify [len []] with any literal 0, hence [change]. *)
Ltac len_nil := change (@len _ []) with 0 in *.

Lemma len_cons {A} (x : A) l : len (x :: l) = 1 + len l.
Proof. unfold len. simpl. lia. Qed.

Lemma len_0 {A} (l : list A) : len l = 0 <-> l = [].
Proof. unfold len. destruct l; simpl; split; [done|done|lia|done]. Qed.

Lemma len_slice_from {A} (l : list A) n :
  0 <= n <= len l -> len (slice_from l n) = len l - n.
Proof. unfold len, slice_from. rewrite length_drop. lia. Qed.

Lemma len_slice_to {A} (l : list A) n :
  0 <= n <= len l -> len (slice_to l n) = n.
Proof. unfold len, slice_to. rewrite length_take. lia. Qed.

Lemma slice_split {A} (l : list A) n : slice_to l n ++ slice_from l n = l.
Proof. apply take_drop. Qed.

Lemma drop_app_slice {A} (l k : list A) n :
  0 <= n <= len l -> slice_from (l ++ k) n = slice_from l n ++ k.
Proof.
  unfold slice_from, len. intros. rewrite drop_app.
  replace (Z.to_nat n - length l)%nat with 0%nat by lia. done.
Qed.

Lemma slice_from_app_ge {A} (l k : list A) n :
  len l <= n -> slice_from (l ++ k) n = slice_from k (n - len l).
Proof.
  unfold slice_from, len. intros.
  rewrite drop_app_ge by lia. f_equal. lia.
Qed.

Lemma slice_from_0 {A} (l : list A) : slice_from l 0 = l.
Proof. done. Qed.

Lemma slice_from_all {A} (l : list A) n : len l <= n -> slice_from l n = [].
Proof. unfold slice_from, len. intros. apply drop_ge. lia. Qed.

Lemma slice_from_slice {A} (l : list A) n m :
  0 <= n -> 0 <= m -> slice_from (slice_from l n) m = slice_from l (n + m).
Proof. unfold slice_from. intros. rewrite drop_drop. f_equal. lia. Qed.

#[export] Hint Rewrite @len_app @len_cons @app_nil_r : mosey.
#[export] Hint Resolve len_nonneg : mosey.

(** Lift [len_nonneg] of every list in sight, then linear arithmetic. *)
Ltac len_lia :=
  autorewrite with mosey in *; len_nil;
  repeat match goal with
  | |- context [len ?l] =>
      lazymatch goal with
      | _ : 0 <= len l |- _ => fail
      | _ => pose proof (len_nonneg l)
      end
  | _ : context [len ?l] |- _ =>
      lazymatch goal with
      | _ : 0 <= len l |- _ => fail
      | _ => pose proof (len_nonneg l)
      end
  end; try lia.

(** ** Reachability of a step relation *)

Section reachability.
Context {S E : Type} (step : S -> E -> S -> Prop).

Inductive steps : S -> list E -> S -> Prop :=
| steps_nil s : steps s [] s
| steps_snoc s es t e u : steps s es t -> step t e u -> steps s (es ++ [e]) u.

(** An invariant of every step holds of every reachable state. *)
Lemma steps_invariant (I : S -> Prop) s es t :
  I s -> (forall a e b, I a -> step a e b -> I b) -> steps s es t -> I t.
Proof. intros H0 Hstep Hs. induction Hs; eauto. Qed.

(** The same for an invariant that needs a property of the events. *)
Lemma steps_invariant_events (I : S -> Prop) (P : E -> Prop) s es t :
  I s -> (forall a e b, I a -> P e -> step a e b -> I b) ->
  steps s es t -> Forall P es -> I t.
Proof.
  intros H0 Hstep Hs. induction Hs as [|? ? ? ? ? ? IH]; [done|].
  rewrite Forall_app, Forall_singleton. intros [? ?]. eauto.
Qed.

(** An invariant that depends on the number of steps taken, for counters that
    cannot wrap within [N] steps. *)
Lemma steps_invariant_len (I : Z -> S -> Prop) (N : Z) s es t :
  I 0 s -> (forall n a e b, 0 <= n < N -> I n a -> step a e b -> I (n + 1) b) ->
  steps s es t -> len es <= N -> I (len es) t.
Proof.
  intros H0 Hstep Hs. induction Hs as [|? es ? e ? ? IH]; intros Hl; [done|].
  rewrite len_app in *. change (len [e]) with 1 in *. pose proof (len_nonneg es).
  eapply Hstep; [|apply IH; [done|lia]|done]. lia.
Qed.

Lemma steps_app s es t es' u : steps s es t -> steps t es' u -> steps s (es ++ es') u.
Proof.
  intros H1 H2. induction H2 as [|t es' v e u ? IH ?]; [by rewrite app_nil_r|].
  rewrite app_assoc. econstructor; eauto.
Qed.

Lemma steps_one s e t : step s e t -> steps s [e] t.
Proof. intros. apply (steps_snoc s [] s e t); [constructor|done]. Qed.
End reachability.
