(* ===== verification/Streambuf.v ===== *)
(** * streambuf: the bounded buffers behind disconnection tolerance

    [OutputRing] (src/streambuf/output_ring.go) is the sequence-numbered ring
    of PTY output replayed on reattach; [InputQueue]
    (src/streambuf/input_queue.go) is the bounded FIFO of input chunks held
    across a disconnect.  Every method locks the same mutex for its whole body,
    so each is one atomic state transformer here.  [int] lengths are [Z];
    [firstSeq] is a uint64 and its arithmetic wraps.

    The ring is proved to refine an append-only log of everything ever
    written; the queue is proved to drop exactly the oldest bytes. *)

From S2P Require Import Prelude.

(** Go's copy(dst, src): overwrites a prefix of dst, returns the new dst. *)
Definition copy_into {A} (dst src : list A) : list A :=
  take (length dst) src ++ drop (length src) dst.

Lemma copy_shift {A} (l : list A) n :
  0 <= n <= len l -> slice_to (copy_into l (slice_from l n)) (len l - n) = slice_from l n.
Proof.
  intros Hn. unfold copy_into, slice_to, slice_from, len in *.
  rewrite (take_ge (drop _ _) (length l)) by (rewrite length_drop; lia).
  rewrite take_app_le by (rewrite length_drop; lia).
  apply take_ge. rewrite length_drop. lia.
Qed.

(** What a client of the output buffer may rely on: it stands for the log of
    all bytes written so far; a replay request is answered from that log. *)
Class ReplayLog (L : Type) := {
  log_of : L -> bytes -> Prop;
  log_write : L -> bytes -> L;
  log_from : L -> Z -> bytes;
  log_write_spec l h p :
    log_of l h -> len h + len p + 1 < 2 ^ 64 -> log_of (log_write l p) (h ++ p);
  (** A replay is always a suffix of the log, complete for a position that is
      still retained. *)
  log_from_suffix l h since :
    log_of l h -> 0 <= since -> exists n, 0 <= n <= len h /\ log_from l since = slice_from h n;
}.

Module OutputRing.

Definition DefaultOutputRingBytes : Z := 256 * 1024.

Inductive RingError := ErrSeqBehindRing.

Record OutputRing := MkRing { data : bytes; capacity : Z; firstSeq : Z }.

Definition NewOutputRing (cap : Z) : OutputRing :=
  let cap := if cap <=? 0 then DefaultOutputRingBytes else cap in
  {| data := []; capacity := cap; firstSeq := 1 |}.

Definition Capacity (r : OutputRing) : Z := capacity r.

Definition nextSeqLocked (r : OutputRing) : Z := u64 (firstSeq r + u64 (len (data r))).

Definition Write (r : OutputRing) (p : bytes) : OutputRing * (Z * Z) :=
  if len p =? 0 then (r, (nextSeqLocked r, 0))
  else
    let first := nextSeqLocked r in
    if capacity r <=? len p then
      ({| data := slice_from p (len p - capacity r);
          capacity := capacity r;
          firstSeq := u64 (first + u64 (len p - capacity r)) |}, (first, len p))
    else
      let overflow := len (data r) + len p - capacity r in
      let '(d, fs) :=
        if 0 <? overflow then
          let shifted := copy_into (data r) (slice_from (data r) overflow) in
          (slice_to shifted (len (data r) - overflow), u64 (firstSeq r + u64 overflow))
        else (data r, firstSeq r) in
      ({| data := d ++ p; capacity := capacity r; firstSeq := fs |}, (first, len p)).

Record RingState := { FirstSeq : Z; NextSeq : Z; Bytes : Z }.

Definition State (r : OutputRing) : RingState :=
  if len (data r) =? 0 then
    {| FirstSeq := firstSeq r; NextSeq := firstSeq r; Bytes := 0 |}
  else
    {| FirstSeq := firstSeq r;
       NextSeq := u64 (firstSeq r + u64 (len (data r)));
       Bytes := len (data r) |}.

Definition From (r : OutputRing) (since : Z) : bytes * Z * option RingError :=
  if len (data r) =? 0 then ([], firstSeq r, None)
  else
    let ringEnd := u64 (firstSeq r + u64 (len (data r))) in
    if ringEnd <=? since then ([], ringEnd, None)
    else
      let '(start, dropped) :=
        if since =? 0 then (0, false)
        else if since <? firstSeq r then (0, true)
        else (since - firstSeq r, false) in
      let out := slice_from (data r) start in
      (out, ringEnd, if dropped : bool then Some ErrSeqBehindRing else None).

Definition Reset (r : OutputRing) : OutputRing :=
  {| data := []; capacity := capacity r; firstSeq := 1 |}.

(** Writing a sequence of chunks, in order. *)
Definition write_all (r : OutputRing) (ps : list bytes) : OutputRing :=
  foldl (fun r p => fst (Write r p)) r ps.

(** ** The ring against the log of everything written *)

(** [repr r h]: [r] is what a ring looks like after the bytes [h]. *)
Definition repr (r : OutputRing) (h : bytes) : Prop :=
  0 < capacity r /\
  data r = slice_from h (Z.max 0 (len h - capacity r)) /\
  firstSeq r = 1 + Z.max 0 (len h - capacity r) /\
  len h + 1 < 2 ^ 64.

Lemma repr_empty cap : 0 < cap -> repr (MkRing [] cap 1) [].
Proof.
  intros ?. repeat split; simpl; len_nil; try lia.
  unfold slice_from. by rewrite drop_nil.
Qed.

Lemma repr_new cap : repr (NewOutputRing cap) [].
Proof.
  apply repr_empty. unfold DefaultOutputRingBytes. destruct (cap <=? 0) eqn:?; go_bool; lia.
Qed.

Lemma repr_reset r h : repr r h -> repr (Reset r) [].
Proof. intros (? & _). by apply repr_empty. Qed.

Lemma repr_len r h : repr r h -> len (data r) = Z.min (len h) (capacity r).
Proof.
  intros (? & -> & ? & ?). pose proof (len_nonneg h).
  rewrite len_slice_from; lia.
Qed.

Lemma repr_next r h : repr r h -> nextSeqLocked r = len h + 1.
Proof.
  intros Hr. pose proof (repr_len _ _ Hr) as Hl. destruct Hr as (? & ? & ? & ?).
  pose proof (len_nonneg h). unfold nextSeqLocked.
  rewrite (u64_small (len _)) by (unfold is_u64; lia).
  rewrite u64_small; unfold is_u64; lia.
Qed.

Lemma repr_write r h p :
  repr r h -> len h + len p + 1 < 2 ^ 64 -> repr (fst (Write r p)) (h ++ p).
Proof.
  intros Hr Hb. pose proof (repr_len _ _ Hr) as Hl. pose proof (repr_next _ _ Hr) as Hn.
  destruct Hr as (Hc & Hd & Hf & _).
  pose proof (len_nonneg h). pose proof (len_nonneg p).
  unfold Write. destruct (len p =? 0) eqn:E0; go_bool.
  { apply len_0 in E0 as ->. rewrite app_nil_r. repeat split; try done. simpl in *. lia. }
  destruct (capacity r <=? len p) eqn:E1; go_bool; simpl.
  - repeat split; simpl; rewrite ?len_app; try lia.
    + rewrite slice_from_app_ge by lia. f_equal. lia.
    + rewrite Hn, (u64_small (_ - _)) by (unfold is_u64; lia).
      rewrite u64_small; unfold is_u64; lia.
  - destruct (0 <? len (data r) + len p - capacity r) eqn:E2; go_bool;
      repeat split; simpl; rewrite ?len_app; try lia.
    + rewrite copy_shift by lia. rewrite Hl, Hd, slice_from_slice by lia.
      rewrite drop_app_slice by lia. f_equal. f_equal. lia.
    + rewrite Hf, (u64_small (_ - _)) by (unfold is_u64; lia).
      rewrite u64_small; unfold is_u64; lia.
    + rewrite Hd, drop_app_slice by lia. f_equal. f_equal. lia.
Qed.

Lemma repr_write_all r h ps :
  repr r h -> len h + len (concat ps) + 1 < 2 ^ 64 ->
  repr (write_all r ps) (h ++ concat ps).
Proof.
  revert r h. induction ps as [|p ps IH]; intros r h Hr Hb; simpl in *.
  { by rewrite app_nil_r. }
  rewrite len_app in Hb. pose proof (len_nonneg (concat ps)).
  rewrite app_assoc. apply IH; [apply repr_write; [done|lia]|rewrite len_app; lia].
Qed.

Lemma from_repr r h since :
  repr r h -> 0 <= since ->
  From r since =
    (if since =? 0 then data r
     else slice_from h (Z.min (len h) (Z.max (firstSeq r) since - 1)),
     len h + 1,
     if (0 <? since) && (since <? firstSeq r) && negb (len h =? 0)
     then Some ErrSeqBehindRing else None).
Proof.
  intros Hr Hs. pose proof (repr_len _ _ Hr) as Hl. pose proof (repr_next _ _ Hr) as Hn.
  unfold nextSeqLocked in Hn. destruct Hr as (Hc & Hd & Hf & Hb).
  pose proof (len_nonneg h). unfold From.
  destruct (len (data r) =? 0) eqn:E0; go_bool.
  { apply len_0 in E0. assert (len h = 0) as Hh by (rewrite E0 in Hl; len_nil; lia).
    rewrite E0. apply len_0 in Hh as ->. len_nil.
    rewrite Hf, andb_false_r. f_equal. f_equal; [|lia].
    case_match; [done|]. by rewrite slice_from_all by (len_nil; lia). }
  rewrite Hn. destruct (len h + 1 <=? since) eqn:E1; go_bool.
  { assert ((len h =? 0) = false) as -> by lia.
    assert ((since <? firstSeq r) = false) as -> by lia.
    assert ((since =? 0) = false) as -> by lia.
    rewrite andb_false_r. simpl. by rewrite slice_from_all by lia. }
  assert ((len h =? 0) = false) as -> by lia.
  destruct (since =? 0) eqn:E2; go_bool.
  { subst since. done. }
  assert ((0 <? since) = true) as -> by lia.
  destruct (since <? firstSeq r) eqn:E3; go_bool; simpl; rewrite Hd; f_equal; f_equal.
  - rewrite slice_from_0. f_equal. lia.
  - rewrite slice_from_slice by lia. f_equal. lia.
Qed.

Lemma from_suffix r h since :
  repr r h -> 0 <= since ->
  exists n, 0 <= n <= len h /\ fst (fst (From r since)) = slice_from h n.
Proof.
  intros Hr Hs. rewrite (from_repr r h since Hr Hs). simpl.
  pose proof (len_nonneg h). destruct Hr as (? & Hd & ? & ?). destruct (since =? 0) eqn:E.
  - rewrite Hd. eexists; split; [|done]. lia.
  - eexists; split; [|done]. go_bool. lia.
Qed.

#[global] Instance ring_log : ReplayLog OutputRing := {|
  log_of := repr;
  log_write r p := fst (Write r p);
  log_from r since := fst (fst (From r since));
  log_write_spec := repr_write;
  log_from_suffix := from_suffix;
|}.

Lemma state_repr r h :
  repr r h ->
  State r = {| FirstSeq := 1 + Z.max 0 (len h - capacity r);
               NextSeq := len h + 1;
               Bytes := Z.min (len h) (capacity r) |}.
Proof.
  intros Hr. pose proof (repr_len _ _ Hr) as Hl. pose proof (repr_next _ _ Hr) as Hn.
  unfold nextSeqLocked in Hn. destruct Hr as (Hc & Hd & Hf & Hb). unfold State.
  rewrite Hn, Hl, Hf. destruct (_ =? 0) eqn:E; go_bool; [|done].
  f_equal; lia.
Qed.

Lemma write_all_capacity r ps : capacity (write_all r ps) = capacity r.
Proof.
  revert r. induction ps as [|p ps IH]; intros r; [done|]. simpl. rewrite IH.
  unfold Write. by repeat (go_case; simplify_eq/=).
Qed.

(** C19: the ring refines the log of all output.  Whatever chunks were written,
    the ring holds exactly the last min(capacity, total) bytes of the
    concatenated output, its cursors are the 1-based positions of that window
    in the log, and the next Write reports the sequence number of its first
    byte in the log. *)
Theorem ring_refines_log cap ps p
  (Hfits : len (concat ps) + len p + 1 < 2 ^ 64) :
  let c := Capacity (NewOutputRing cap) in
  let h := concat ps in
  let r := write_all (NewOutputRing cap) ps in
  data r = slice_from h (Z.max 0 (len h - c)) /\
  State r = {| FirstSeq := 1 + Z.max 0 (len h - c);
               NextSeq := len h + 1;
               Bytes := Z.min (len h) c |} /\
  snd (Write r p) = (len h + 1, len p).
Proof.
  intros c h r. pose proof (len_nonneg p).
  assert (repr r h) as Hr.
  { apply (repr_write_all _ [] ps); [apply repr_new|len_lia]. }
  assert (capacity r = c) as Hc by (unfold r; by rewrite write_all_capacity).
  pose proof (repr_next _ _ Hr) as Hn. rewrite (state_repr _ _ Hr), Hc.
  split; [|split]; [|done|].
  - destruct Hr as (_ & Hd & _). by rewrite Hc in Hd.
  - unfold Write. destruct (len p =? 0) eqn:E; go_bool; simpl; [by rewrite Hn, E|].
    rewrite Hn. by repeat (go_case; simplify_eq/=).
Qed.

Lemma ring_refines_log_witness :
  len (concat [str "abc"; str "de"]) + len (str "f") + 1 < 2 ^ 64 /\
  data (write_all (NewOutputRing 4) [str "abc"; str "de"]) = str "bcde".
Proof.
  split; [vm_compute; reflexivity|].
  destruct (ring_refines_log 4 [str "abc"; str "de"] (str "f")) as [H _];
    [vm_compute; reflexivity|].
  rewrite H. vm_compute. reflexivity.
Defined.

(** A replay request on a ring is answered from the log: 0 returns the
    whole retained window; a retained position returns every byte of the log
    from that position on; a position past the end returns nothing; and only
    an evicted position is reported as ErrSeqBehindRing, with the window. *)
Theorem ring_replay_from_log cap ps since
  (Hfits : len (concat ps) + 1 < 2 ^ 64) (Hsince : is_u64 since) :
  let h := concat ps in
  let r := write_all (NewOutputRing cap) ps in
  let first := FirstSeq (State r) in
  From r since =
    if since =? 0 then (slice_from h (first - 1), len h + 1, None)
    else if len h <? since then ([], len h + 1, None)
    else if since <? first then (slice_from h (first - 1), len h + 1, Some ErrSeqBehindRing)
    else (slice_from h (since - 1), len h + 1, None).
Proof.
  intros h r first. pose proof (len_nonneg h).
  assert (repr r h) as Hr.
  { apply (repr_write_all _ [] ps); [apply repr_new|len_lia]. }
  unfold first. rewrite (state_repr _ _ Hr), (from_repr _ _ _ Hr) by (unfold is_u64 in *; lia).
  simpl. destruct Hr as (? & Hd & Hf & _). unfold is_u64 in *.
  destruct (since =? 0) eqn:E0; go_bool.
  { subst. simpl. rewrite Hd. do 3 f_equal. lia. }
  assert ((0 <? since) = true) as -> by lia.
  destruct (len h <? since) eqn:E1; go_bool.
  { rewrite slice_from_all by lia.
    assert ((since <? firstSeq r) = false) as -> by lia. done. }
  assert ((len h =? 0) = false) as -> by lia. rewrite Hf.
  destruct (since <? _) eqn:E2; go_bool; simpl; do 3 f_equal; lia.
Qed.

Lemma ring_replay_from_log_witness :
  len (concat [str "abc"; str "de"]) + 1 < 2 ^ 64 /\ is_u64 4 /\
  From (write_all (NewOutputRing 4) [str "abc"; str "de"]) 4 = (str "de", 6, None).
Proof.
  split; [vm_compute; reflexivity|]. split; [vm_compute; split; congruence|].
  rewrite (ring_replay_from_log 4 [str "abc"; str "de"] 4);
    [vm_compute; reflexivity|vm_compute; reflexivity|vm_compute; split; congruence].
Defined.

End OutputRing.

Module InputQueue.

Definition DefaultInputQueueBytes : Z := 64 * 1024.

Inductive DropPolicy := DropOldest | DropNew.

#[global] Instance DropPolicy_eq_dec : EqDecision DropPolicy.
Proof. solve_decision. Defined.

Inductive QueueError := ErrQueueFull.

Record InputQueue := MkQueue {
  chunks : list bytes; bytesq : Z; capacity : Z; policy : DropPolicy }.

Definition NewInputQueue (cap : Z) (pol : DropPolicy) : InputQueue :=
  let cap := if cap <=? 0 then DefaultInputQueueBytes else cap in
  {| chunks := []; bytesq := 0; capacity := cap; policy := pol |}.

Definition Capacity (q : InputQueue) : Z := capacity q.
Definition Len (q : InputQueue) : Z := len (chunks q).
Definition Bytes (q : InputQueue) : Z := bytesq q.

(** The eviction loop: drop head chunks until [need] more bytes fit. *)
Fixpoint evict (cs : list bytes) (total need cap dropped : Z) : list bytes * Z * Z :=
  if cap <? total + need then
    match cs with
    | [] => ([], total, dropped)
    | head :: rest => evict rest (total - len head) need cap (dropped + len head)
    end
  else (cs, total, dropped).

Definition Enqueue (q : InputQueue) (chunk : bytes) : InputQueue * Z * option QueueError :=
  if len chunk =? 0 then (q, 0, None)
  else if capacity q <? len chunk then
    if bool_decide (policy q = DropNew) then (q, 0, Some ErrQueueFull)
    else
      let tail := slice_from chunk (len chunk - capacity q) in
      let droppedBefore := bytesq q in
      ({| chunks := [tail]; bytesq := len tail; capacity := capacity q; policy := policy q |},
       droppedBefore + (len chunk - capacity q), None)
  else if bytesq q + len chunk <=? capacity q then
    ({| chunks := chunks q ++ [chunk]; bytesq := bytesq q + len chunk;
        capacity := capacity q; policy := policy q |}, 0, None)
  else if bool_decide (policy q = DropNew) then (q, 0, Some ErrQueueFull)
  else
    let '(cs, total, dropped) := evict (chunks q) (bytesq q) (len chunk) (capacity q) 0 in
    ({| chunks := cs ++ [chunk]; bytesq := total + len chunk;
        capacity := capacity q; policy := policy q |}, dropped, None).

Definition Drain (q : InputQueue) : InputQueue * list bytes :=
  ({| chunks := []; bytesq := 0; capacity := capacity q; policy := policy q |}, chunks q).

Definition Reset (q : InputQueue) : InputQueue :=
  {| chunks := []; bytesq := 0; capacity := capacity q; policy := policy q |}.

(** ** Well-formedness: the byte counter is the content's size, within bounds *)

Definition wf (q : InputQueue) : Prop :=
  0 < capacity q /\ bytesq q = len (concat (chunks q)) /\ bytesq q <= capacity q.

Lemma wf_new cap pol : wf (NewInputQueue cap pol).
Proof.
  unfold wf, NewInputQueue, DefaultInputQueueBytes; simpl.
  destruct (cap <=? 0) eqn:?; go_bool; repeat split; len_nil; lia.
Qed.

Lemma wf_drain q : wf q -> wf (fst (Drain q)).
Proof. intros (? & ? & ?). repeat split; simpl; len_nil; lia. Qed.

(** The loop ends with room for the new chunk and has dropped a prefix. *)
Lemma evict_spec cs need cap dropped :
  need <= cap ->
  let '(cs', total', dropped') := evict cs (len (concat cs)) need cap dropped in
  total' = len (concat cs') /\ total' + need <= cap /\ dropped <= dropped' /\
  dropped' - dropped <= len (concat cs) /\
  concat cs' = slice_from (concat cs) (dropped' - dropped).
Proof.
  intros Hneed. revert dropped. induction cs as [|c cs IH]; intros dropped.
  - simpl. len_nil. go_case; go_bool; repeat split; len_nil; try lia;
      unfold slice_from; by rewrite drop_nil.
  - cbn [evict concat]. go_case; go_bool.
    + rewrite len_app. replace (len c + len (concat cs) - len c) with (len (concat cs)) by lia.
      specialize (IH (dropped + len c)). destruct (evict _ _ _ _ _) as [[cs' t'] d'].
      pose proof (len_nonneg c). destruct IH as (? & ? & ? & ? & Hc).
      repeat split; try lia. rewrite Hc, slice_from_app_ge by lia. f_equal. lia.
    + pose proof (len_nonneg (c ++ concat cs)).
      repeat split; try lia. by rewrite Z.sub_diag, slice_from_0.
Qed.

Lemma enqueue_wf q chunk : wf q -> wf (fst (fst (Enqueue q chunk))).
Proof.
  intros (Hc & Hb & Hle). unfold Enqueue.
  destruct (len chunk =? 0); [done|]. destruct (capacity q <? len chunk) eqn:E1; go_bool.
  { case_bool_decide; [done|]. pose proof (len_slice_from chunk (len chunk - capacity q)).
    repeat split; simpl; autorewrite with mosey; lia. }
  destruct (_ <=? capacity q) eqn:E2; go_bool.
  { repeat split; simpl; rewrite ?concat_app, ?len_app; simpl; autorewrite with mosey; lia. }
  case_bool_decide; [done|]. pose proof (evict_spec (chunks q) (len chunk) (capacity q) 0 E1) as He.
  rewrite <- Hb in He. destruct (evict _ _ _ _ _) as [[cs t] d]. destruct He as (? & ? & ? & ? & ?).
  repeat split; simpl; rewrite ?concat_app, ?len_app; simpl; autorewrite with mosey; lia.
Qed.

Lemma enqueue_oldest q chunk :
  wf q -> policy q = DropOldest ->
  let '(q', d, err) := Enqueue q chunk in
  err = None /\ policy q' = DropOldest /\ capacity q' = capacity q /\
  0 <= d <= len (concat (chunks q) ++ chunk) /\
  concat (chunks q') = slice_from (concat (chunks q) ++ chunk) d.
Proof.
  intros (Hc & Hb & Hle) Hp. unfold Enqueue. pose proof (len_nonneg chunk).
  pose proof (len_nonneg (concat (chunks q))). rewrite len_app.
  destruct (len chunk =? 0) eqn:E0; go_bool.
  { apply len_0 in E0 as ->. rewrite app_nil_r, slice_from_0. repeat split; auto; lia. }
  rewrite Hp. destruct (capacity q <? len chunk) eqn:E1; go_bool.
  { simpl. repeat split; try done; try lia.
    rewrite app_nil_r, slice_from_app_ge by lia. f_equal. lia. }
  destruct (_ <=? capacity q) eqn:E2; go_bool.
  { simpl. rewrite concat_app. simpl. rewrite app_nil_r, slice_from_0. repeat split; auto; lia. }
  simpl. pose proof (evict_spec (chunks q) (len chunk) (capacity q) 0 E1) as He.
  rewrite <- Hb in He. destruct (evict _ _ _ _ _) as [[cs t] d].
  destruct He as (? & ? & ? & ? & He). rewrite Z.sub_0_r in *. simpl.
  rewrite concat_app. simpl. rewrite app_nil_r, He, drop_app_slice by lia.
  repeat split; auto; lia.
Qed.

(** Enqueue a sequence of chunks, adding up the reported drop counts. *)
Definition enqueue_all (q : InputQueue) (cs : list bytes) : InputQueue * Z :=
  foldl (fun '(q, d) c => let '(q', d', _) := Enqueue q c in (q', d + d')) (q, 0) cs.

Lemma enqueue_all_oldest q d h cs :
  wf q -> policy q = DropOldest -> 0 <= d <= len h ->
  concat (chunks q) = slice_from h d ->
  let '(q', d') := foldl (fun '(q, d) c => let '(q', d', _) := Enqueue q c in (q', d + d')) (q, d) cs in
  wf q' /\ capacity q' = capacity q /\ 0 <= d' <= len (h ++ concat cs) /\
  concat (chunks q') = slice_from (h ++ concat cs) d'.
Proof.
  revert q d h. induction cs as [|c cs IH]; intros q d h Hwf Hp Hd Hq; simpl.
  { rewrite app_nil_r. auto. }
  pose proof (enqueue_wf q c Hwf) as Hwf'. pose proof (enqueue_oldest q c Hwf Hp) as He.
  destruct (Enqueue q c) as [[q1 d1] err]. destruct He as (-> & Hp1 & Hc1 & Hd1 & Hq1). simpl in Hwf'.
  assert (slice_from h d ++ c = slice_from (h ++ c) d) as Hhc by (by rewrite drop_app_slice).
  rewrite Hq, Hhc, slice_from_slice in Hq1 by lia.
  rewrite Hq, Hhc, len_slice_from in Hd1 by (len_lia).
  specialize (IH q1 (d + d1) (h ++ c) Hwf' Hp1 ltac:(lia) Hq1).
  destruct (foldl _ _ _) as [q2 d2]. rewrite <- app_assoc in IH. rewrite Hc1 in IH. done.
Qed.

(** Under DropOldest no Enqueue fails, and after any sequence of enqueues a
    Drain returns, in order, exactly the input bytes that follow the reported
    number of dropped bytes: what is lost is only ever the oldest input, the
    loss is fully reported, and the queue never exceeds its capacity. *)
Theorem queue_drops_only_oldest cap cs :
  let '(q, dropped) := enqueue_all (NewInputQueue cap DropOldest) cs in
  let '(q', out) := Drain q in
  concat out = slice_from (concat cs) dropped /\
  0 <= dropped <= len (concat cs) /\
  len (concat out) = Bytes q /\ Bytes q <= Capacity (NewInputQueue cap DropOldest) /\
  Bytes q' = 0 /\ Len q' = 0.
Proof.
  pose proof (enqueue_all_oldest (NewInputQueue cap DropOldest) 0 [] cs (wf_new _ _)
    eq_refl ltac:(len_nil; lia) eq_refl) as H.
  unfold enqueue_all. destruct (foldl _ _ _) as [q d].
  destruct H as ((? & Hb & Hle) & Hcap & Hd & Hq).
  unfold Drain, Bytes, Capacity. cbv iota. rewrite <- Hcap.
  cbn [chunks bytesq]. rewrite Hb. repeat split; try done; len_lia.
Qed.

(** Under DropNew an Enqueue either appends the whole chunk and drops
    nothing, or fails with ErrQueueFull and leaves the queue as it was; it
    fails exactly when the (non-empty) chunk does not fit. *)
Theorem queue_drop_new_all_or_nothing q chunk (Hwf : wf q) (Hp : policy q = DropNew) :
  Enqueue q chunk =
    if (len chunk =? 0) then (q, 0, None)
    else if Bytes q + len chunk <=? Capacity q then
      ({| chunks := chunks q ++ [chunk]; bytesq := Bytes q + len chunk;
          capacity := Capacity q; policy := DropNew |}, 0, None)
    else (q, 0, Some ErrQueueFull).
Proof.
  destruct Hwf as (Hc & Hb & Hle). unfold Enqueue, Bytes, Capacity.
  pose proof (len_nonneg (concat (chunks q))). pose proof (len_nonneg chunk). rewrite Hp.
  destruct (len chunk =? 0) eqn:E0; [done|]. go_bool.
  destruct (capacity q <? len chunk) eqn:E1; go_bool; [|done].
  by assert ((bytesq q + len chunk <=? capacity q) = false) as -> by lia.
Qed.

Lemma queue_drop_new_all_or_nothing_witness :
  let q := NewInputQueue 4 DropNew in
  wf q /\ policy q = DropNew /\ snd (Enqueue q (str "hello")) = Some ErrQueueFull.
Proof.
  assert (wf (NewInputQueue 4 DropNew)) as H by apply wf_new.
  split; [exact H|]. split; [reflexivity|].
  rewrite (queue_drop_new_all_or_nothing (NewInputQueue 4 DropNew) (str "hello") H eq_refl).
  vm_compute. reflexivity.
Defined.

End InputQueue.
