(* ===== verification/Varint.v ===== *)
(** * Varint codecs

    Four places of the program speak base-128 varints: the resume header of
    /mosey/pty-resume (readResumeSeq / encodeResumeSeq in
    src/vterm/session.go and the duplicate encoder encodeVarint in
    src/attach/attach.go), the protocol-id prefix of the unix backend
    (writeProto / readProto in src/transport/unix/unix.go, over
    encoding/binary's uvarint) and Solana's compact-u16 (appendShortVec in
    src/walletsolana/tx.go).  All are compared with one reference encoder,
    [uvarint]. *)

From S2P Require Import Prelude.

(** The reference encoding: 7 bits per byte, least significant group first,
    the top bit set on every byte but the last.  [fuel] bounds the number of
    continuation bytes; 9 is enough for any v < 2^70. *)
Fixpoint uvarint (fuel : nat) (v : Z) : bytes :=
  match fuel with
  | O => [z2b v]
  | S fuel =>
      if 128 <=? v then z2b (Z.lor (b2z (z2b v)) 128) :: uvarint fuel (Z.shiftr v 7)
      else [z2b v]
  end.

(** One r.Read(one) with a one-byte buffer: a byte, no byte and no error, or
    no byte and an error.  A reader that has run dry reports EOF. *)
Inductive read1 := RByte (b : byte) | RZero | RErr (e : bytes).

Inductive ReadError := EOF | ErrUnexpectedEOF | EReader (e : bytes) | EOverflow
  | EEmptyProto | EProtoTooLong (n : Z).

Module Resume.

(** The loop of readResumeSeq; [i] counts the remaining of its 10 rounds. *)
Fixpoint read_loop (i : nat) (r : list read1) (result shift : Z) : res ReadError Z * list read1 :=
  match i with
  | O => (Err EOverflow, r)
  | S i =>
      match r with
      | [] => (Err EOF, [])
      | RZero :: r => (Err ErrUnexpectedEOF, r)
      | RErr e :: r => (Err (EReader e), r)
      | RByte b :: r =>
          let result := Z.lor result (u64 (Z.shiftl (Z.land (b2z b) 127) shift)) in
          if Z.land (b2z b) 128 =? 0 then (Ok result, r)
          else read_loop i r result (shift + 7)
      end
  end.

Definition readResumeSeq (r : list read1) : res ReadError Z * list read1 :=
  read_loop 10 r 0 0.

(** The loop of encodeResumeSeq on its [10]byte array; [None] is the
    index-out-of-range panic. *)
Fixpoint encode_loop (fuel : nat) (out : bytes) (i : nat) (v : Z) : option (bytes * nat * Z) :=
  if 128 <=? v then
    match fuel with
    | O => None
    | S fuel =>
        if (i <? length out)%nat then
          encode_loop fuel (<[i := z2b (Z.lor (b2z (z2b v)) 128)]> out) (S i) (Z.shiftr v 7)
        else None
    end
  else Some (out, i, v).

Definition encodeResumeSeq (v : Z) : option bytes :=
  '(out, i, v) ← encode_loop 10 (replicate 10 x00) 0 v;
  if (i <? length out)%nat then Some (take (S i) (<[i := z2b v]> out)) else None.

(** attach.encodeVarint, the client-side copy of the encoder. *)
Definition encodeVarint (v : Z) : option bytes :=
  '(out, i, v) ← encode_loop 10 (replicate 10 x00) 0 v;
  if (i <? length out)%nat then Some (take (S i) (<[i := z2b v]> out)) else None.

End Resume.

Module UnixProto.

Definition maxProtoLen : Z := 256.

(** encoding/binary.ReadUvarint over a reader that ends with EOF. *)
Fixpoint ReadUvarint_loop (i : nat) (first : bool) (r : bytes) (x s : Z) : res ReadError (Z * bytes) :=
  match i with
  | O => Err EOverflow
  | S i' =>
      match r with
      | [] => Err (if first then EOF else ErrUnexpectedEOF)
      | b :: r =>
          if b2z b <? 128 then
            if (i' =? 0)%nat && (1 <? b2z b) then Err EOverflow
            else Ok (Z.lor x (u64 (Z.shiftl (b2z b) s)), r)
          else ReadUvarint_loop i' false r (Z.lor x (u64 (Z.shiftl (Z.land (b2z b) 127) s))) (s + 7)
      end
  end.

Definition ReadUvarint (r : bytes) : res ReadError (Z * bytes) := ReadUvarint_loop 10 true r 0 0.

(** io.ReadFull of [n] bytes. *)
Definition ReadFull (r : bytes) (n : Z) : res ReadError (bytes * bytes) :=
  if len r <? n then Err (if len r =? 0 then EOF else ErrUnexpectedEOF)
  else Ok (slice_to r n, slice_from r n).

Definition writeProto (proto : bytes) : bytes := uvarint 9 (u64 (len proto)) ++ proto.

Definition readProto (r : bytes) : res ReadError (bytes * bytes) :=
  '(length, r) ← ReadUvarint r;
  _ ← guard_ok (negb (length =? 0)) EEmptyProto;
  _ ← guard_ok (negb (maxProtoLen <? length)) (EProtoTooLong length);
  ReadFull r length.

End UnixProto.

Module ShortVec.

(** appendShortVec's loop; an int has at most ten 7-bit groups. *)
Fixpoint shortvec_loop (fuel : nat) (dst : bytes) (n : Z) : option bytes :=
  match fuel with
  | O => None
  | S fuel =>
      let b := z2b (Z.land n 127) in
      let n := Z.shiftr n 7 in
      if n =? 0 then Some (dst ++ [b])
      else shortvec_loop fuel (dst ++ [z2b (Z.lor (b2z b) 128)]) n
  end.

Definition appendShortVec (dst : bytes) (n : Z) : option bytes := shortvec_loop 10 dst n.

End ShortVec.

(** ** Arithmetic of 7-bit groups *)

Lemma cont_low b : Z.land (b2z (z2b (Z.lor (b2z b) 128))) 127 = b2z b mod 128.
Proof. by destruct b. Qed.

Lemma cont_high b : Z.land (b2z (z2b (Z.lor (b2z b) 128))) 128 = 128.
Proof. by destruct b. Qed.

Lemma cont_ge b : (b2z (z2b (Z.lor (b2z b) 128)) <? 128) = false.
Proof. by destruct b. Qed.

Lemma last_low b : b2z b < 128 -> Z.land (b2z b) 127 = b2z b.
Proof. destruct b; vm_compute; congruence. Qed.

Lemma last_high b : b2z b < 128 -> Z.land (b2z b) 128 = 0.
Proof. destruct b; vm_compute; congruence. Qed.

Lemma z2b_small v : 0 <= v < 256 -> b2z (z2b v) = v.
Proof. intros. rewrite b2z_z2b. by apply Z.mod_small. Qed.

Lemma group_low v : b2z (z2b v) mod 128 = v mod 128.
Proof. rewrite b2z_z2b. apply Z.mod_mod_divide. by exists 2. Qed.

Lemma shiftr7 v : Z.shiftr v 7 = v / 128.
Proof. by rewrite Z.shiftr_div_pow2. Qed.

(** Or-ing a group in above the bits already read adds it. *)
Lemma lor_group x g s :
  0 <= s -> 0 <= x < 2 ^ s -> 0 <= g -> Z.lor x (Z.shiftl g s) = x + g * 2 ^ s.
Proof.
  intros Hs Hx Hg. rewrite Z.shiftl_mul_pow2 by done.
  rewrite Z.add_nocarry_lxor, Z.lxor_lor; [done| |].
  all: apply Z.bits_inj'; intros n Hn; rewrite Z.land_spec, Z.bits_0;
    destruct (Z.lt_ge_cases n s).
  all: try (rewrite Z.mul_pow2_bits_low by lia; apply andb_false_r).
  all: destruct (Z.eq_dec x 0) as [->|]; [by rewrite Z.bits_0|].
  all: rewrite (Z.bits_above_log2 x); [done|lia|].
  all: apply Z.lt_le_trans with s; [apply Z.log2_lt_pow2; lia|lia].
Qed.

(** ** Reading back what was encoded *)

(** A group is consumed: accumulator, shift and remaining value move on. *)
Lemma group_step x v s :
  0 <= s -> 0 <= x < 2 ^ s -> 0 <= v -> x + v * 2 ^ s < 2 ^ 64 ->
  Z.lor x (u64 (Z.shiftl (v mod 128) s)) = x + (v mod 128) * 2 ^ s /\
  0 <= x + (v mod 128) * 2 ^ s < 2 ^ (s + 7) /\
  x + (v mod 128) * 2 ^ s + v / 128 * 2 ^ (s + 7) = x + v * 2 ^ s.
Proof.
  intros Hs Hx Hv Hb. pose proof (Z.pow_pos_nonneg 2 s ltac:(lia) Hs) as Hp.
  pose proof (Z.mod_pos_bound v 128 ltac:(lia)).
  pose proof (Z.div_mod v 128 ltac:(lia)). pose proof (Z.div_pos v 128 Hv ltac:(lia)).
  rewrite Z.pow_add_r by lia. change (2 ^ 7) with 128.
  assert (0 <= (v mod 128) * 2 ^ s <= v * 2 ^ s) by nia.
  repeat split; try nia.
  rewrite u64_small; [by apply lor_group; lia|].
  unfold is_u64. rewrite Z.shiftl_mul_pow2 by done. lia.
Qed.

Lemma uvarint_last v fuel : v < 128 -> uvarint fuel v = [z2b v].
Proof. intros. destruct fuel; simpl; [done|]. by assert ((128 <=? v) = false) as -> by lia. Qed.

Lemma pow128_S f : 128 ^ (Z.of_nat (S f) + 1) = 128 * 128 ^ (Z.of_nat f + 1).
Proof. rewrite <- Z.pow_succ_r by lia. f_equal. lia. Qed.

Lemma read_loop_last i v x s rest :
  0 <= v < 128 -> 0 <= s -> 0 <= x < 2 ^ s -> x + v * 2 ^ s < 2 ^ 64 ->
  Resume.read_loop (S i) (RByte (z2b v) :: rest) x s = (Ok (x + v * 2 ^ s), rest).
Proof.
  intros Hv Hs Hx Hb. simpl. rewrite last_low, last_high by (rewrite z2b_small; lia).
  simpl. rewrite z2b_small by lia.
  destruct (group_step x v s Hs Hx ltac:(lia) Hb) as (Hl & _ & _).
  rewrite Z.mod_small in Hl by lia. by rewrite Hl.
Qed.

Lemma read_loop_uvarint f i v x s rest :
  0 <= v < 128 ^ (Z.of_nat f + 1) -> 0 <= s -> 0 <= x < 2 ^ s -> x + v * 2 ^ s < 2 ^ 64 ->
  (f < i)%nat ->
  Resume.read_loop i (map RByte (uvarint f v) ++ rest) x s = (Ok (x + v * 2 ^ s), rest).
Proof.
  revert i v x s. induction f as [|f IH]; intros i v x s Hv Hs Hx Hb Hi;
    (destruct i as [|i]; [lia|]).
  { rewrite uvarint_last by lia. apply read_loop_last; auto; lia. }
  rewrite pow128_S in Hv. destruct (Z.lt_ge_cases v 128) as [Hlt|Hge].
  { rewrite uvarint_last by lia. apply read_loop_last; auto; lia. }
  cbn [uvarint]. assert ((128 <=? v) = true) as -> by lia.
  cbn [map app Resume.read_loop]. rewrite cont_low, cont_high, group_low, shiftr7.
  change (128 =? 0) with false. cbv iota.
  destruct (group_step x v s Hs Hx ltac:(lia) Hb) as (-> & Hx' & Heq).
  rewrite IH; [by rewrite Heq| |lia|done|lia|lia].
  split; [apply Z.div_pos; lia|apply Z.div_lt_upper_bound; lia].
Qed.

Lemma insert_take_snoc (out : bytes) i b :
  (i < length out)%nat -> take (S i) (<[i := b]> out) = take i out ++ [b].
Proof.
  intros. rewrite (take_S_r _ _ b) by (by apply list_lookup_insert_eq).
  by rewrite take_insert_ge.
Qed.

Lemma encode_loop_uvarint f fuel out i v :
  0 <= v < 128 ^ (Z.of_nat f + 1) -> (f <= fuel)%nat -> (i + f < length out)%nat ->
  exists out' i' v', Resume.encode_loop fuel out i v = Some (out', i', v') /\
    (i' < length out')%nat /\
    take (S i') (<[i' := z2b v']> out') = take i out ++ uvarint f v.
Proof.
  revert fuel out i v. induction f as [|f IH]; intros fuel out i v Hv Hf Hi.
  - rewrite uvarint_last by lia. exists out, i, v.
    destruct fuel; simpl; (assert ((128 <=? v) = false) as -> by lia);
      (split; [done|]); split; [lia| |lia|]; apply insert_take_snoc; lia.
  - rewrite pow128_S in Hv. destruct (Z.lt_ge_cases v 128) as [Hlt|Hge].
    { rewrite uvarint_last by lia. exists out, i, v.
      destruct fuel; simpl; (assert ((128 <=? v) = false) as -> by lia);
        (split; [done|]); split; [lia| |lia|]; apply insert_take_snoc; lia. }
    destruct fuel as [|fuel]; [lia|]. cbn [Resume.encode_loop uvarint].
    assert ((128 <=? v) = true) as -> by lia.
    assert ((i <? length out)%nat = true) as -> by (apply Nat.ltb_lt; lia).
    rewrite shiftr7.
    destruct (IH fuel (<[i:=z2b (Z.lor (b2z (z2b v)) 128)]> out) (S i) (v / 128))
      as (out' & i' & v' & Hl & Hi' & Ht).
    { split; [apply Z.div_pos; lia|apply Z.div_lt_upper_bound; lia]. }
    { lia. }
    { rewrite length_insert. lia. }
    exists out', i', v'. split; [done|]. split; [done|].
    rewrite Ht, insert_take_snoc by lia. by rewrite <- app_assoc.
Qed.

Lemma u64_fits v : is_u64 v -> 0 <= v < 128 ^ (Z.of_nat 9 + 1).
Proof.
  intros [? Hv]. split; [done|]. eapply Z.lt_trans; [exact Hv|]. vm_compute. reflexivity.
Qed.

Lemma encodeResumeSeq_uvarint v : is_u64 v -> Resume.encodeResumeSeq v = Some (uvarint 9 v).
Proof.
  intros Hv. destruct (encode_loop_uvarint 9 10 (replicate 10 x00) 0 v)
    as (out & i & v' & Hl & Hi & Ht).
  { by apply u64_fits. }
  { lia. }
  { rewrite length_replicate. lia. }
  unfold Resume.encodeResumeSeq. rewrite Hl. unfold mbind, option_bind.
  apply Nat.ltb_lt in Hi. rewrite Hi, Ht, take_0, app_nil_l. reflexivity.
Qed.

Lemma uvarint_length f v : (1 <= length (uvarint f v) <= S f)%nat.
Proof.
  revert v. induction f as [|f IH]; intros v; simpl; [lia|].
  destruct (128 <=? v); simpl; [specialize (IH (Z.shiftr v 7)); lia|lia].
Qed.

Lemma resume_seq_reads v rest :
  is_u64 v -> exists bs, Resume.encodeVarint v = Some bs /\ Resume.encodeResumeSeq v = Some bs /\
    1 <= len bs <= 10 /\ Resume.readResumeSeq (map RByte bs ++ rest) = (Ok v, rest).
Proof.
  intros Hv.
  exists (uvarint 9 v). split; [by apply encodeResumeSeq_uvarint|].
  split; [by apply encodeResumeSeq_uvarint|]. split.
  { pose proof (uvarint_length 9 v). unfold len. lia. }
  unfold Resume.readResumeSeq. pose proof (u64_fits v Hv). unfold is_u64 in Hv.
  rewrite (read_loop_uvarint 9 10 v 0 0 rest); [by rewrite Z.mul_1_r|done|lia|lia|lia|lia].
Qed.

(** The resume header round-trips between the two programs.  For every
    uint64 sequence number the attach client's encoder and the vterm's encoder
    return the same one to ten bytes (neither indexes outside its ten-byte
    array), and the vterm reads exactly that number back and leaves every
    following byte of the stream unread. *)
Theorem resume_seq_roundtrip v rest (Hv : is_u64 v) :
  exists bs, Resume.encodeVarint v = Some bs /\ Resume.encodeResumeSeq v = Some bs /\
    1 <= len bs <= 10 /\
    Resume.readResumeSeq (map RByte bs ++ rest) = (Ok v, rest).
Proof. by apply resume_seq_reads. Qed.

Lemma resume_seq_roundtrip_witness :
  is_u64 (2 ^ 64 - 1) /\
  exists bs, Resume.encodeVarint (2 ^ 64 - 1) = Some bs /\
    Resume.encodeResumeSeq (2 ^ 64 - 1) = Some bs /\ 1 <= len bs <= 10 /\
    Resume.readResumeSeq (map RByte bs ++ [RZero]) = (Ok (2 ^ 64 - 1), [RZero]).
Proof.
  assert (is_u64 (2 ^ 64 - 1)) as H by (unfold is_u64; lia).
  split; [exact H|]. exact (resume_seq_roundtrip (2 ^ 64 - 1) [RZero] H).
Defined.

(** ** encoding/binary's uvarint and the protocol-id frame *)

Lemma ReadUvarint_loop_last i first v x s rest :
  0 <= v < 128 -> 0 <= s -> 0 <= x < 2 ^ s -> x + v * 2 ^ s < 2 ^ 64 -> (i = 0%nat -> v <= 1) ->
  UnixProto.ReadUvarint_loop (S i) first (z2b v :: rest) x s = Ok (x + v * 2 ^ s, rest).
Proof.
  intros Hv Hs Hx Hb Hi. simpl. rewrite z2b_small by lia.
  assert ((v <? 128) = true) as -> by lia.
  assert ((i =? 0)%nat && (1 <? v) = false) as ->.
  { destruct i; simpl; [specialize (Hi eq_refl); lia|done]. }
  destruct (group_step x v s Hs Hx ltac:(lia) Hb) as (Hl & _ & _).
  rewrite Z.mod_small in Hl by lia. by rewrite Hl.
Qed.

Lemma ReadUvarint_loop_uvarint f i first v x s rest :
  0 <= v < 128 ^ (Z.of_nat f + 1) -> 0 <= s -> 0 <= x < 2 ^ s -> x + v * 2 ^ s < 2 ^ 64 ->
  (S f < i)%nat ->
  UnixProto.ReadUvarint_loop i first (uvarint f v ++ rest) x s = Ok (x + v * 2 ^ s, rest).
Proof.
  revert i first v x s. induction f as [|f IH]; intros i first v x s Hv Hs Hx Hb Hi;
    (destruct i as [|i]; [lia|]).
  { rewrite uvarint_last by lia. apply ReadUvarint_loop_last; auto; lia. }
  rewrite pow128_S in Hv. destruct (Z.lt_ge_cases v 128) as [Hlt|Hge].
  { rewrite uvarint_last by lia. apply ReadUvarint_loop_last; auto; lia. }
  cbn [uvarint]. assert ((128 <=? v) = true) as -> by lia.
  cbn [app UnixProto.ReadUvarint_loop]. rewrite cont_ge, cont_low, group_low, shiftr7.
  destruct (group_step x v s Hs Hx ltac:(lia) Hb) as (-> & Hx' & Heq).
  rewrite IH; [by rewrite Heq| |lia|done|lia|lia].
  split; [apply Z.div_pos; lia|apply Z.div_lt_upper_bound; lia].
Qed.

(** Short lengths need two groups at most. *)
Lemma uvarint_two v : 0 <= v < 128 ^ 2 -> uvarint 9 v = uvarint 1 v.
Proof.
  intros Hv. change (128 ^ 2) with 16384 in Hv.
  destruct (Z.lt_ge_cases v 128); [by rewrite !uvarint_last by lia|].
  cbn [uvarint]. assert ((128 <=? v) = true) as -> by lia. f_equal.
  rewrite shiftr7. apply (uvarint_last _ 8). apply Z.div_lt_upper_bound; lia.
Qed.

Lemma ReadUvarint_uvarint v rest :
  0 <= v < 128 ^ 2 -> UnixProto.ReadUvarint (uvarint 9 v ++ rest) = Ok (v, rest).
Proof.
  intros Hv. rewrite uvarint_two by done. unfold UnixProto.ReadUvarint.
  rewrite ReadUvarint_loop_uvarint; [by rewrite Z.mul_1_r|exact Hv|lia|lia| |lia].
  change (128 ^ 2) with 16384 in Hv. lia.
Qed.

Lemma readProto_writeProto proto rest :
  len proto < 128 ^ 2 ->
  UnixProto.readProto (UnixProto.writeProto proto ++ rest) =
    if len proto =? 0 then Err EEmptyProto
    else if UnixProto.maxProtoLen <? len proto then Err (EProtoTooLong (len proto))
    else Ok (proto, rest).
Proof.
  intros Hlen.
  pose proof (len_nonneg proto). pose proof (len_nonneg rest).
  unfold UnixProto.readProto, UnixProto.writeProto.
  rewrite u64_small by (unfold is_u64; change (128 ^ 2) with 16384 in *; lia).
  rewrite <- app_assoc, ReadUvarint_uvarint by lia. unfold mbind, res_bind, guard_ok.
  destruct (len proto =? 0) eqn:E0; [done|]. simpl.
  destruct (UnixProto.maxProtoLen <? len proto) eqn:E1; [done|]. simpl.
  unfold UnixProto.ReadFull. rewrite len_app.
  assert ((len proto + len rest <? len proto) = false) as -> by lia.
  rewrite slice_from_app_ge, Z.sub_diag, slice_from_0 by lia.
  unfold slice_to, len. rewrite Nat2Z.id, take_app_length. done.
Qed.

(** The unix backend's stream prefix round-trips: whatever protocol id
    the dialer is allowed to send (1 to 256 bytes), the listener reads exactly
    that id and the rest of the socket is left for the stream; an empty or
    longer id is refused before any of its bytes is read. *)
Theorem unix_proto_prefix_roundtrip proto rest
  (Hlen : len proto < 128 ^ 2) :
  UnixProto.readProto (UnixProto.writeProto proto ++ rest) =
    if len proto =? 0 then Err EEmptyProto
    else if UnixProto.maxProtoLen <? len proto then Err (EProtoTooLong (len proto))
    else Ok (proto, rest).
Proof. by apply readProto_writeProto. Qed.

Lemma unix_proto_prefix_roundtrip_witness :
  len (str "/mosey/pty-resume/1.0.0") < 128 ^ 2 /\
  UnixProto.readProto (UnixProto.writeProto (str "/mosey/pty-resume/1.0.0") ++ str "abc") =
    Ok (str "/mosey/pty-resume/1.0.0", str "abc").
Proof.
  assert (len (str "/mosey/pty-resume/1.0.0") < 128 ^ 2) as H by (vm_compute; reflexivity).
  split; [exact H|]. rewrite (unix_proto_prefix_roundtrip _ (str "abc") H). vm_compute. reflexivity.
Defined.

(** ** Solana's compact length prefix *)

Lemma land127 n : Z.land n 127 = n mod 128.
Proof. exact (Z.land_ones n 7 ltac:(lia)). Qed.

Lemma low_cont b : z2b (Z.lor (b2z (z2b (b2z b mod 128))) 128) = z2b (Z.lor (b2z b) 128).
Proof. by destruct b. Qed.

Lemma shortvec_loop_uvarint f dst n :
  0 <= n < 128 ^ (Z.of_nat f + 1) ->
  ShortVec.shortvec_loop (S f) dst n = Some (dst ++ uvarint f n).
Proof.
  revert dst n. induction f as [|f IH]; intros dst n Hn; cbn [ShortVec.shortvec_loop];
    rewrite land127, shiftr7.
  - change (128 ^ (Z.of_nat 0 + 1)) with 128 in Hn.
    rewrite Z.div_small, Z.mod_small by lia. by rewrite uvarint_last by lia.
  - rewrite pow128_S in Hn. destruct (Z.lt_ge_cases n 128) as [Hlt|Hge].
    { rewrite Z.div_small, Z.mod_small by lia. by rewrite uvarint_last by lia. }
    assert ((n / 128 =? 0) = false) as ->.
    { apply Z.eqb_neq. pose proof (Z.div_le_lower_bound n 128 1). lia. }
    cbn [ShortVec.shortvec_loop] in IH. rewrite IH.
    + cbn [uvarint]. assert ((128 <=? n) = true) as -> by lia.
      rewrite <- group_low, low_cont, shiftr7, <- app_assoc. done.
    + split; [apply Z.div_pos; lia|apply Z.div_lt_upper_bound; lia].
Qed.

Lemma appendShortVec_uvarint dst n :
  is_u64 n -> ShortVec.appendShortVec dst n = Some (dst ++ uvarint 9 n).
Proof. intros Hn. apply shortvec_loop_uvarint. by apply u64_fits. Qed.
