(* ===== verification/Queries.v ===== *)
(** * vterm/queries.go: the Device Attribute responder

    [daResponder] scans the PTY output, answers Primary / Secondary Device
    Attribute queries and strips them from what attachers see.  [step] is the
    body of process's loop for one byte; [process] is the loop.  The state
    machine is proved to remove exactly the four queries, wherever read
    boundaries cut them, and to pass every other byte through. *)

From S2P Require Import Prelude.

Inductive daState := daGround | daEsc | daCSI.

#[global] Instance daState_eq_dec : EqDecision daState.
Proof. solve_decision. Defined.

Record daResponder := MkDA { state : daState; held : bytes }.

Definition ESC : byte := x1b.
Definition LBRACK : byte := x5b.

Definition da1Response : bytes := ESC :: str "[?62;22c".
Definition da2Response : bytes := ESC :: str "[>0;10;0c".

Definition newDA : daResponder := {| state := daGround; held := [] |}.

(** Reprocessing a byte from the ground state, as the flush branches do. *)
Definition from_ground (b : byte) : daResponder * bytes :=
  if bool_decide (b = ESC) then ({| state := daEsc; held := [b] |}, [])
  else ({| state := daGround; held := [] |}, [b]).

(** One iteration: the new responder, the bytes appended to out and to resp. *)
Definition step (d : daResponder) (b : byte) : daResponder * bytes * bytes :=
  match state d with
  | daGround =>
      if bool_decide (b = ESC) then ({| state := daEsc; held := [b] |}, [], [])
      else ({| state := daGround; held := held d |}, [b], [])
  | daEsc =>
      if bool_decide (b = LBRACK) then ({| state := daCSI; held := held d ++ [b] |}, [], [])
      else let '(d', o) := from_ground b in (d', held d ++ o, [])
  | daCSI =>
      if bool_decide (b = x30) || bool_decide (b = x3e) then
        ({| state := daCSI; held := held d ++ [b] |}, [], [])
      else if bool_decide (b = x63) then
        let params := slice_from (held d) 2 in
        if bool_decide (params = []) || bool_decide (params = str "0") then
          (newDA, [], da1Response)
        else if bool_decide (params = str ">") || bool_decide (params = str ">0") then
          (newDA, [], da2Response)
        else (newDA, held d ++ [b], [])
      else let '(d', o) := from_ground b in (d', held d ++ o, [])
  end.

Fixpoint process (d : daResponder) (inp : bytes) : daResponder * bytes * bytes :=
  match inp with
  | [] => (d, [], [])
  | b :: inp =>
      let '(d1, o1, r1) := step d b in
      let '(d2, o2, r2) := process d1 inp in
      (d2, o1 ++ o2, r1 ++ r2)
  end.

(** The queries the responder answers, with their replies. *)
Inductive query := Q1 | Q1_0 | Q2 | Q2_0.

Definition query_params (q : query) : bytes :=
  match q with Q1 => [] | Q1_0 => str "0" | Q2 => str ">" | Q2_0 => str ">0" end.

Definition query_bytes (q : query) : bytes := [ESC; LBRACK] ++ query_params q ++ [x63].

Definition query_reply (q : query) : bytes :=
  match q with Q1 | Q1_0 => da1Response | Q2 | Q2_0 => da2Response end.

(** What is held back: nothing, an ESC, or ESC [ and possible parameters. *)
Definition wf (d : daResponder) : Prop :=
  match state d with
  | daGround => held d = []
  | daEsc => held d = [ESC]
  | daCSI => exists ps, held d = [ESC; LBRACK] ++ ps
  end.

(** ** Lemmas *)

Lemma da_wf_new : wf newDA.
Proof. done. Qed.

Lemma step_wf d b : wf d -> wf (fst (fst (step d b))).
Proof.
  destruct d as [[] h]; unfold wf, step, from_ground; simpl;
    repeat case_bool_decide; subst; simpl; try done; intros Hw.
  - subst. by exists [].
  - destruct Hw as [ps ->]. by exists (ps ++ [x30]).
  - destruct Hw as [ps ->]. by exists (ps ++ [x3e]).
Qed.

Lemma process_app d a b :
  process d (a ++ b) =
    let '(d1, o1, r1) := process d a in
    let '(d2, o2, r2) := process d1 b in (d2, o1 ++ o2, r1 ++ r2).
Proof.
  revert d. induction a as [|x a IH]; intros d; simpl.
  { by destruct (process d b) as [[? ?] ?]. }
  destruct (step d x) as [[d1 o1] r1]. rewrite IH.
  destruct (process d1 a) as [[d2 o2] r2]. destruct (process d2 b) as [[d3 o3] r3].
  by rewrite !app_assoc.
Qed.

Lemma process_wf d inp : wf d -> wf (fst (fst (process d inp))).
Proof.
  revert d. induction inp as [|b inp IH]; intros d Hw; [done|]. simpl.
  pose proof (step_wf d b Hw) as H. destruct (step d b) as [[d1 o1] r1].
  specialize (IH d1 H). by destruct (process d1 inp) as [[? ?] ?].
Qed.

(** An ESC restarts recognition from every state, flushing what was held. *)
Lemma step_esc d :
  wf d -> step d ESC = ({| state := daEsc; held := [ESC] |}, held d, []).
Proof.
  destruct d as [[] h]; unfold wf, step; simpl.
  - by intros ->.
  - by intros ->.
  - intros [ps ->]. by rewrite app_nil_r.
Qed.

Lemma process_query d q :
  wf d -> process d (query_bytes q) = (newDA, held d, query_reply q).
Proof.
  intros Hw. unfold query_bytes. change ([ESC; LBRACK] ++ query_params q ++ [x63])
    with (ESC :: LBRACK :: query_params q ++ [x63]).
  cbn [process]. rewrite step_esc by done. by destruct q; simpl; rewrite app_nil_r.
Qed.

(** Pieces of the scanned stream. *)
Inductive seg := Pass (b : byte) | Answered (q : query).

Definition seg_in (s : seg) : bytes := match s with Pass b => [b] | Answered q => query_bytes q end.
Definition seg_out (s : seg) : bytes := match s with Pass b => [b] | Answered _ => [] end.
Definition seg_resp (s : seg) : bytes := match s with Pass _ => [] | Answered q => query_reply q end.

Definition passes (bs : bytes) : list seg := map Pass bs.

Lemma passes_in bs : concat (map seg_in (passes bs)) = bs.
Proof. induction bs; simpl; f_equal; done. Qed.
Lemma passes_out bs : concat (map seg_out (passes bs)) = bs.
Proof. induction bs; simpl; f_equal; done. Qed.
Lemma passes_resp bs : concat (map seg_resp (passes bs)) = [].
Proof. by induction bs. Qed.

(** One step explains its input: held bytes and the new byte are split into
    passed bytes, at most one answered query, and the new held bytes. *)
Definition explains (before after : bytes) (out resp : bytes) : Prop :=
  exists segs, before = concat (map seg_in segs) ++ after /\
    out = concat (map seg_out segs) /\ resp = concat (map seg_resp segs).

Lemma explains_pass bs after : explains (bs ++ after) after bs [].
Proof. exists (passes bs). by rewrite passes_in, passes_out, passes_resp. Qed.

Lemma explains_query q : explains (query_bytes q) [] [] (query_reply q).
Proof. exists [Answered q]. simpl. by rewrite !app_nil_r. Qed.

Lemma explains_app a b o r x b' o' r' :
  explains a b o r -> explains (b ++ x) b' o' r' -> explains (a ++ x) b' (o ++ o') (r ++ r').
Proof.
  intros (s & -> & -> & ->) (s' & Hb & -> & ->). exists (s ++ s').
  rewrite !map_app, !concat_app. split; [|done]. by rewrite <- !app_assoc, Hb.
Qed.

Lemma step_explains d b :
  wf d -> let '(d', o, r) := step d b in explains (held d ++ [b]) (held d') o r.
Proof.
  destruct d as [[] h]; unfold wf, step, from_ground; cbn [state held].
  - intros ->. case_bool_decide; simpl; [apply (explains_pass [] [b])|apply (explains_pass [b] [])].
  - intros ->. case_bool_decide; [apply (explains_pass [] _)|].
    case_bool_decide; simpl; [apply (explains_pass [ESC] [b])|apply (explains_pass [ESC; b] [])].
  - intros [ps ->]. destruct (_ || _); [apply (explains_pass [] _)|].
    case_bool_decide as Hc.
    + subst b. change (slice_from _ 2) with ps.
      destruct (bool_decide (ps = []) || _) eqn:E1.
      { apply orb_true_iff in E1 as [->%bool_decide_eq_true| ->%bool_decide_eq_true];
          [apply (explains_query Q1)|apply (explains_query Q1_0)]. }
      destruct (bool_decide (ps = str ">") || _) eqn:E2.
      { apply orb_true_iff in E2 as [->%bool_decide_eq_true| ->%bool_decide_eq_true];
          [apply (explains_query Q2)|apply (explains_query Q2_0)]. }
      rewrite <- (app_nil_r (_ ++ [x63])) at 1. apply explains_pass.
    + case_bool_decide.
      * rewrite app_nil_r. apply explains_pass.
      * rewrite <- (app_nil_r (_ ++ [b])) at 1. apply explains_pass.
Qed.

Lemma process_explains d inp :
  wf d -> let '(d', o, r) := process d inp in explains (held d ++ inp) (held d') o r.
Proof.
  revert d. induction inp as [|b inp IH]; intros d Hw; simpl.
  { rewrite app_nil_r. apply (explains_pass [] _). }
  pose proof (step_explains d b Hw) as Hs. pose proof (step_wf d b Hw) as Hw1.
  destruct (step d b) as [[d1 o1] r1]. specialize (IH d1 Hw1).
  destruct (process d1 inp) as [[d2 o2] r2].
  change (held d ++ b :: inp) with (held d ++ [b] ++ inp). rewrite app_assoc.
  by eapply explains_app.
Qed.

(** Feeding the stream in reads of any size. *)
Definition process_reads (d : daResponder) (reads : list bytes) : daResponder * bytes * bytes :=
  foldl (fun '(d, o, r) inp => let '(d', o', r') := process d inp in (d', o ++ o', r ++ r'))
        (d, [], []) reads.

Lemma process_reads_concat d reads : process_reads d reads = process d (concat reads).
Proof.
  unfold process_reads.
  assert (forall d o r, foldl (fun '(d, o, r) inp =>
      let '(d', o', r') := process d inp in (d', o ++ o', r ++ r')) (d, o, r) reads =
    let '(d', o', r') := process d (concat reads) in (d', o ++ o', r ++ r')) as H.
  { induction reads as [|x reads IH]; intros d0 o r; simpl; [by rewrite !app_nil_r|].
    rewrite process_app. destruct (process d0 x) as [[d1 o1] r1]. rewrite IH.
    destruct (process d1 (concat reads)) as [[d2 o2] r2]. by rewrite !app_assoc. }
  rewrite H. by destruct (process d (concat reads)) as [[? ?] ?].
Qed.

(** Every Device Attribute query in the PTY output is answered exactly
    once and stripped, however the reads cut the stream: if the reads
    concatenate to [pre ++ query ++ post], attachers get the output for [pre]
    (with anything it held back), then the output for [post] alone, and the
    program is sent the reply between the replies of [pre] and [post]. *)
Theorem da_query_answered_once reads pre q post
  (Hreads : concat reads = pre ++ query_bytes q ++ post) :
  let '(d1, out1, resp1) := process newDA pre in
  let '(d2, out2, resp2) := process newDA post in
  process_reads newDA reads =
    (d2, out1 ++ held d1 ++ out2, resp1 ++ query_reply q ++ resp2).
Proof.
  rewrite process_reads_concat, Hreads, process_app.
  pose proof (process_wf newDA pre da_wf_new) as Hw.
  destruct (process newDA pre) as [[d1 o1] r1]. rewrite process_app, (process_query d1) by done.
  by destruct (process newDA post) as [[d2 o2] r2].
Qed.

Lemma da_query_answered_once_witness :
  concat [ESC :: str "[31"; str "mhi" ++ [ESC]; str "[>cyo"] =
    (ESC :: str "[31mhi") ++ query_bytes Q2 ++ str "yo" /\
  process_reads newDA [ESC :: str "[31"; str "mhi" ++ [ESC]; str "[>cyo"] =
    (newDA, (ESC :: str "[31mhi") ++ str "yo", da2Response).
Proof.
  split; [vm_compute; reflexivity|].
  exact (da_query_answered_once [ESC :: str "[31"; str "mhi" ++ [ESC]; str "[>cyo"]
    (ESC :: str "[31mhi") Q2 (str "yo") eq_refl).
Defined.

(** The responder is transparent: on a stream that contains no Device
    Attribute query the attachers' bytes plus the few bytes still held back
    are the stream itself, byte for byte, and the program is sent nothing. *)
Theorem da_transparent reads
  (Hno : forall pre q post, concat reads <> pre ++ query_bytes q ++ post) :
  let '(d, out, resp) := process_reads newDA reads in
  out ++ held d = concat reads /\ resp = [].
Proof.
  rewrite process_reads_concat. pose proof (process_explains newDA (concat reads) da_wf_new) as H.
  destruct (process newDA (concat reads)) as [[d o] r]. destruct H as (segs & Hin & -> & ->).
  simpl in Hin. assert (exists bs, segs = passes bs) as [bs ->].
  { clear -Hin Hno. revert Hno. rewrite Hin. clear Hin. generalize (held d) as tl.
    induction segs as [|[b|q] segs IH]; intros tl Hno; [by exists []| |].
    - destruct (IH tl) as [bs ->]; [|by exists (b :: bs)].
      intros pre q post Heq. apply (Hno (b :: pre) q post). simpl. by rewrite Heq.
    - destruct (Hno [] q (concat (map seg_in segs) ++ tl)). simpl. by rewrite app_assoc. }
  by rewrite passes_out, passes_resp, Hin, passes_in.
Qed.

Lemma da_transparent_witness :
  (forall pre q post, concat [str "ls"; str " -l"] <> pre ++ query_bytes q ++ post) /\
  let '(d, out, resp) := process_reads newDA [str "ls"; str " -l"] in
  out ++ held d = str "ls -l" /\ resp = [].
Proof.
  assert (forall pre q post, concat [str "ls"; str " -l"] <> pre ++ query_bytes q ++ post) as H.
  { intros pre q post Heq. assert (ESC ∈ concat [str "ls"; str " -l"]) as Hin.
    { rewrite Heq. unfold query_bytes. set_solver. }
    revert Hin. apply (bool_decide_unpack _). vm_compute. exact I. }
  split; [exact H|]. exact (da_transparent [str "ls"; str " -l"] H).
Defined.
