(* ===== verification/Identity.v ===== *)
(** * Identities and modes (src/auth/identity.go, src/vterm/mode.go)

    [Identity] is what the authentication layer attaches to every stream; its
    capability bits gate input, resizes and the owner-only control messages.
    [Mode] is the session's multi-client policy with its command-line form
    and its wire form. *)

From S2P Require Import Prelude.

(** ** auth.Capabilities and auth.Identity *)

Record Capabilities := mkCaps { Owner : bool; Write : bool; Resize : bool }.

Record Identity := mkIdentity { Label : bytes; Caps : Capabilities }.

#[global] Instance Capabilities_eq_dec : EqDecision Capabilities.
Proof. solve_decision. Defined.

#[global] Instance Identity_eq_dec : EqDecision Identity.
Proof. solve_decision. Defined.

Definition zeroCaps : Capabilities := mkCaps false false false.
Definition zeroIdentity : Identity := mkIdentity [] zeroCaps.

Definition CanWrite (i : Identity) : bool := Owner (Caps i) || Write (Caps i).
Definition CanResize (i : Identity) : bool := Owner (Caps i) || Resize (Caps i).
Definition IsOwner (i : Identity) : bool := Owner (Caps i).
Definition IsZero (i : Identity) : bool := bool_decide (i = zeroIdentity).

(** ** vterm.Mode *)

Inductive Mode :=
| ModeUnspecified
| ModeSupersede
| ModeExclusive
| ModePrimaryObserver
| ModeMultiWrite.

#[global] Instance Mode_eq_dec : EqDecision Mode.
Proof. solve_decision. Defined.

Definition ModeString (m : Mode) : bytes :=
  match m with
  | ModeSupersede => str "supersede"
  | ModeExclusive => str "exclusive"
  | ModePrimaryObserver => str "primary-observer"
  | ModeMultiWrite => str "multi-write"
  | ModeUnspecified => str "unspecified"
  end.

(** The error carries the string it rejects (the %q of the message). *)
Inductive ModeError := UnknownMode (s : bytes).

Definition ParseMode (s : bytes) : res ModeError Mode :=
  if bool_decide (s = str "supersede") then Ok ModeSupersede
  else if bool_decide (s = str "exclusive") then Ok ModeExclusive
  else if bool_decide (s = str "primary-observer") then Ok ModePrimaryObserver
  else if bool_decide (s = str "multi-write") then Ok ModeMultiWrite
  else Err (UnknownMode s).

(** api.SetMode_Kind is an open proto3 enum, an int32 on the wire. *)
Definition SetMode_KIND_SUPERSEDE : Z := 1.
Definition SetMode_KIND_EXCLUSIVE : Z := 2.
Definition SetMode_KIND_PRIMARY_OBSERVER : Z := 3.
Definition SetMode_KIND_MULTI_WRITE : Z := 4.

Definition modeFromAPI (k : Z) : Mode :=
  if k =? SetMode_KIND_SUPERSEDE then ModeSupersede
  else if k =? SetMode_KIND_EXCLUSIVE then ModeExclusive
  else if k =? SetMode_KIND_PRIMARY_OBSERVER then ModePrimaryObserver
  else if k =? SetMode_KIND_MULTI_WRITE then ModeMultiWrite
  else ModeUnspecified.

(** ParseMode accepts exactly the rendered forms of the four real modes. *)
Lemma ParseMode_iff s m :
  ParseMode s = Ok m <-> m <> ModeUnspecified /\ s = ModeString m.
Proof.
  unfold ParseMode. split.
  - repeat case_bool_decide; intros; simplify_eq; by subst.
  - intros [? ->]. by destruct m.
Qed.

(** The client's own table (src/cmd/mosey/control.go, parseSetModeKind):
    the command-line word to the wire kind. *)
Definition parseSetModeKind (s : bytes) : res ModeError Z :=
  if bool_decide (s = str "supersede") then Ok SetMode_KIND_SUPERSEDE
  else if bool_decide (s = str "exclusive") then Ok SetMode_KIND_EXCLUSIVE
  else if bool_decide (s = str "primary-observer") then Ok SetMode_KIND_PRIMARY_OBSERVER
  else if bool_decide (s = str "multi-write") then Ok SetMode_KIND_MULTI_WRITE
  else Err (UnknownMode s).

(** The mode names agree across the command line and the wire: a word is
    accepted by `mosey control set-mode` exactly when `--mode` accepts it, and
    the mode the server derives from the wire kind is the one the word names;
    and rendering a mode parses back to it. *)
Theorem mode_tables_agree (s : bytes) :
  match ParseMode s, parseSetModeKind s with
  | Ok m, Ok k => modeFromAPI k = m /\ ModeString m = s
  | Err _, Err _ => forall m, m <> ModeUnspecified -> ModeString m <> s
  | _, _ => False
  end.
Proof.
  destruct (ParseMode s) as [m|e] eqn:Hp.
  - apply ParseMode_iff in Hp as [? ->]. by destruct m.
  - assert (Hno : forall m, m <> ModeUnspecified -> ModeString m <> s).
    { intros m Hm <-. assert (ParseMode (ModeString m) = Ok m) as Hok
        by (by apply ParseMode_iff). congruence. }
    unfold ParseMode, parseSetModeKind in *.
    repeat case_bool_decide; done.
Qed.
