(* ===== verification/Session.v ===== *)
(** * vterm: the session's registry and its operations
    (src/vterm/session.go, the message handlers of src/vterm/control.go)

    A [Session] is the Go struct.  The client objects are shared between the
    registry and the goroutines that bridge them, and outlive their registry
    entry, so they live in a store: [heap] maps an object's address (its id,
    which addClientLocked never reuses) to the object, and [clients] is the
    set of registered ids, s.clients being the map from each of them to its
    object.  The PTY is the log of the calls made on it, and the child the log
    of the signals sent to it: what the kernel does with them is outside this
    code.  Each operation that holds s.mu for its whole body is one function;
    where the code computes a size under the lock and applies it after the
    unlock, the function returns the size and Bridge.v interleaves the rest. *)

From S2P Require Import Prelude Streambuf Queries Identity.

Definition outputRingCapacity : Z := 256 * 1024.
Definition clientBufferChunks : Z := 256.

(** What a session uses of a transport.Stream. *)
Record stream := mkStream { RemoteID : bytes; IdentityOf : Identity }.

(** [sent] records what the output goroutine wrote to the client's stream. *)
Record sessionClient := mkClient {
  id : Z;
  identity : Identity;
  remote : bytes;
  outCh : list bytes;
  done : bool;
  canWrite : bool;
  cols : Z;
  rows : Z;
  dropped : Z;
  sent : list bytes;
}.

(** The signals of package syscall that the allow-list can produce. *)
Inductive osSignal := SIGHUP | SIGINT | SIGTERM | SIGUSR1 | SIGUSR2.

(** The calls made on the PTY file, the input ones tagged with the client. *)
Inductive ptyCall :=
| Setsize (c r : Z)
| WriteInput (cid : Z) (p : bytes)
| WriteReply (p : bytes).

Record Session := mkSession {
  signals : list osSignal;
  running : bool;
  ptyf : list ptyCall;
  mode : Mode;
  output : OutputRing.OutputRing;
  daResp : daResponder;
  nextID : Z;
  heap : gmap Z sessionClient;
  clients : gset Z;
  writerID : Z;
  pendingResize : gmap bytes (Z * Z);
}.

Definition with_ptyf (s : Session) x := mkSession (signals s) (running s) x (mode s)
  (output s) (daResp s) (nextID s) (heap s) (clients s) (writerID s) (pendingResize s).
Definition with_mode (s : Session) x := mkSession (signals s) (running s) (ptyf s) x
  (output s) (daResp s) (nextID s) (heap s) (clients s) (writerID s) (pendingResize s).
Definition with_output (s : Session) x y := mkSession (signals s) (running s) (ptyf s) (mode s)
  x y (nextID s) (heap s) (clients s) (writerID s) (pendingResize s).
Definition with_heap (s : Session) x := mkSession (signals s) (running s) (ptyf s) (mode s)
  (output s) (daResp s) (nextID s) x (clients s) (writerID s) (pendingResize s).
Definition with_clients (s : Session) x := mkSession (signals s) (running s) (ptyf s) (mode s)
  (output s) (daResp s) (nextID s) (heap s) x (writerID s) (pendingResize s).
Definition with_writerID (s : Session) x := mkSession (signals s) (running s) (ptyf s) (mode s)
  (output s) (daResp s) (nextID s) (heap s) (clients s) x (pendingResize s).
Definition with_pending (s : Session) x := mkSession (signals s) (running s) (ptyf s) (mode s)
  (output s) (daResp s) (nextID s) (heap s) (clients s) (writerID s) x.
Definition with_nextID (s : Session) x := mkSession (signals s) (running s) (ptyf s) (mode s)
  (output s) (daResp s) x (heap s) (clients s) (writerID s) (pendingResize s).
Definition with_signals (s : Session) x := mkSession x (running s) (ptyf s) (mode s)
  (output s) (daResp s) (nextID s) (heap s) (clients s) (writerID s) (pendingResize s).

(** ** Client objects *)

Definition kick (c : sessionClient) : sessionClient :=
  mkClient (id c) (identity c) (remote c) (outCh c) true (canWrite c)
    (cols c) (rows c) (dropped c) (sent c).

Definition set_canWrite (b : bool) (c : sessionClient) : sessionClient :=
  mkClient (id c) (identity c) (remote c) (outCh c) (done c) b
    (cols c) (rows c) (dropped c) (sent c).

Definition set_geometry (w h : Z) (c : sessionClient) : sessionClient :=
  mkClient (id c) (identity c) (remote c) (outCh c) (done c) (canWrite c)
    w h (dropped c) (sent c).

(** select { case c.outCh <- chunk: default: c.dropped.Add(1) } *)
Definition offer (chunk : bytes) (c : sessionClient) : sessionClient :=
  if len (outCh c) <? clientBufferChunks then
    mkClient (id c) (identity c) (remote c) (outCh c ++ [chunk]) (done c) (canWrite c)
      (cols c) (rows c) (dropped c) (sent c)
  else
    mkClient (id c) (identity c) (remote c) (outCh c) (done c) (canWrite c)
      (cols c) (rows c) (i64 (dropped c + 1)) (sent c).

(** ** The registry *)

(** The registered clients: s.clients with its pointers followed. *)
Definition live (s : Session) : gmap Z sessionClient :=
  filter (fun p => p.1 ∈ clients s) (heap s).

(** s.clients[k] *)
Definition client (s : Session) (k : Z) : option sessionClient :=
  if bool_decide (k ∈ clients s) then heap s !! k else None.

(** for _, c := range s.clients { c.f() } *)
Definition for_clients (s : Session) (f : sessionClient -> sessionClient) : Session :=
  with_heap s (map_imap (fun k c => Some (if bool_decide (k ∈ clients s) then f c else c)) (heap s)).

Definition update (s : Session) (k : Z) (f : sessionClient -> sessionClient) : Session :=
  with_heap s (alter f k (heap s)).

Definition applyPTYSize (s : Session) (w h : Z) : Session :=
  with_ptyf s (ptyf s ++ [Setsize (u16 w) (u16 h)]).

Definition latest_step (r : bytes) (_ : Z) (c : sessionClient) (latest : option sessionClient) :=
  if negb (bool_decide (remote c = r)) then latest
  else match latest with
       | None => Some c
       | Some l => if id l <? id c then Some c else latest
       end.

Definition clientByRemoteIDLocked (s : Session) (r : bytes) : option sessionClient :=
  map_fold (latest_step r) None (live s).

Definition min_step (_ : Z) (cl : sessionClient) (acc : Z * Z) : Z * Z :=
  let '(c, r) := acc in
  if (cols cl =? 0) || (rows cl =? 0) then (c, r)
  else (if (c =? 0) || (cols cl <? c) then cols cl else c,
        if (r =? 0) || (rows cl <? r) then rows cl else r).

Definition minGeometryLocked (s : Session) : Z * Z := map_fold min_step (0, 0) (live s).

(** The admission decision of addClientLocked's switch: refused, or the
    session with the client's write permission. *)
Definition admission (s : Session) (i : Identity) : option (Session * bool) :=
  match mode s with
  | ModeExclusive => if bool_decide (clients s = ∅) then Some (s, CanWrite i) else None
  | ModeSupersede => Some (for_clients s kick, CanWrite i)
  | ModePrimaryObserver =>
      let s := if bool_decide (writerID s ∈ clients s) then s else with_writerID s 0 in
      Some (s, CanWrite i && (writerID s =? 0))
  | ModeMultiWrite => Some (s, CanWrite i)
  | ModeUnspecified => None
  end.

(** Returns the new client's id (the pointer) and the size to apply. *)
Definition addClientLocked (s : Session) (st : stream) (i : Identity)
    : Session * option Z * (Z * Z) :=
  match admission s i with
  | None => (s, None, (0, 0))
  | Some (s, cw) =>
      let s := with_nextID s (i64 (nextID s + 1)) in
      let k := nextID s in
      let pending := pendingResize s !! RemoteID st in
      let '(pc, pr) := default (0, 0) pending in
      let s := match pending with
               | Some _ => with_pending s (delete (RemoteID st) (pendingResize s))
               | None => s
               end in
      let c := mkClient k i (RemoteID st) [] false cw pc pr 0 [] in
      let s := with_clients (with_heap s (<[k := c]> (heap s))) ({[k]} ∪ clients s) in
      let s := if bool_decide (mode s = ModePrimaryObserver) && cw then with_writerID s k else s in
      (s, Some k, if (0 <? pc) && (0 <? pr) then minGeometryLocked s else (0, 0))
  end.

Definition addClient (s : Session) (st : stream) : Session * option Z :=
  let '(s, c, (w, h)) := addClientLocked s st (IdentityOf st) in
  (if bool_decide (is_Some c) && (0 <? w) && (0 <? h) then applyPTYSize s w h else s, c).

(** applyResizeForRemote up to its unlock: the new state, and the minimum
    when the remote has a client. *)
Definition resizeLocked (s : Session) (r : bytes) (w h : Z) : Session * (Z * Z) :=
  match clientByRemoteIDLocked s r with
  | None => (with_pending s (<[r := (w, h)]> (pendingResize s)), (0, 0))
  | Some c =>
      let s := update s (id c) (set_geometry w h) in
      (s, minGeometryLocked s)
  end.

Inductive ControlError :=
| ResizeIgnored (w h : Z)
| SetsizeFailed
| SignalNotAllowed (kind : Z)
| ChildNotRunning
| SignalFailed.

(** [fails]: the TIOCSWINSZ call returns an error. *)
Definition applyResizeForRemote (fails : bool) (s : Session) (r : bytes) (w h : Z)
    : Session * res ControlError (Z * Z) :=
  let '(s, (pw, ph)) := resizeLocked s r w h in
  if (pw =? 0) || (ph =? 0) then (s, Ok (0, 0))
  else (applyPTYSize s pw ph, if fails then Err SetsizeFailed else Ok (pw, ph)).

(** The size the goroutine that recomputeGeometryAfterRemoveLocked starts
    will apply, if it starts one. *)
Definition recomputeGeometryAfterRemoveLocked (s : Session) : option (Z * Z) :=
  let '(w, h) := minGeometryLocked s in
  if (w =? 0) || (h =? 0) then None else Some (w, h).

Definition setMode (s : Session) (m : Mode) : Session * Mode := (with_mode s m, mode s).

Definition demoteRemote (s : Session) (r : bytes) : Session * bool :=
  match clientByRemoteIDLocked s r with
  | None => (s, false)
  | Some c =>
      let s := update s (id c) (set_canWrite false) in
      (if writerID s =? id c then with_writerID s 0 else s, true)
  end.

Record clientSnapshot := mkSnap {
  ID : Z; SLabel : bytes; SCanWrite : bool; Cols : Z; Rows : Z
}.

Definition snapshot_of (c : sessionClient) : clientSnapshot :=
  mkSnap (id c) (Label (identity c)) (canWrite c) (cols c) (rows c).

(** Go leaves the iteration order open; the model's is one of them. *)
Definition listClients (s : Session) : list clientSnapshot :=
  (fun p => snapshot_of p.2) <$> map_to_list (live s).

Definition promoteClient (s : Session) (k : Z) : Session * bool :=
  match client s k with
  | None => (s, false)
  | Some _ =>
      let s :=
        if bool_decide (mode s = ModePrimaryObserver) then
          let s := match client s (writerID s) with
                   | Some _ => if negb (writerID s =? k)
                               then update s (writerID s) (set_canWrite false) else s
                   | None => s
                   end in
          with_writerID s k
        else s in
      (update s k (set_canWrite true), true)
  end.

Definition kickClient (s : Session) (k : Z) : Session * bool :=
  match client s k with
  | Some _ => (update s k kick, true)
  | None => (s, false)
  end.

Definition removeClient (s : Session) (k : Z) : Session * option (Z * Z) :=
  let s := match client s k with
           | Some _ => with_clients (update s k kick) (clients s ∖ {[k]})
           | None => s
           end in
  let s := if writerID s =? k then with_writerID s 0 else s in
  (s, recomputeGeometryAfterRemoveLocked s).

Definition broadcast (s : Session) (chunk : bytes) : Session := for_clients s (offer chunk).

Definition shutdown (s : Session) : Session :=
  with_writerID (with_clients (for_clients s kick) ∅) 0.

(** One iteration of pumpOutput on the bytes of a read: the reply, the ring
    write, and the chunk the broadcast call that follows is given. *)
Definition pumpRead (s : Session) (buf : bytes) : Session * option bytes :=
  let '(d, out, resp) := process (daResp s) buf in
  let s := with_output s (output s) d in
  let s := if 0 <? len resp then with_ptyf s (ptyf s ++ [WriteReply resp]) else s in
  if 0 <? len out then
    (with_output s (fst (OutputRing.Write (output s) out)) (daResp s), Some out)
  else (s, None).

Definition pumpStep (s : Session) (buf : bytes) : Session :=
  if 0 <? len buf then
    match pumpRead s buf with
    | (s, Some out) => broadcast s out
    | (s, None) => s
    end
  else s.

(** The pump over the sequence of reads up to the PTY's EOF or error. *)
Definition pumpOutput (s : Session) (reads : list bytes) : Session := foldl pumpStep s reads.

Definition newOutputRing : OutputRing.OutputRing := OutputRing.NewOutputRing outputRingCapacity.

(** ** Control messages *)

Record ClientInfo := mkInfo {
  ClientId : Z; ILabel : bytes; ICanWrite : bool; ICols : Z; IRows : Z
}.

(** The payload oneof; [Unset] is an absent or unknown payload. *)
Inductive ControlMessage :=
| CResize (w h : Z)
| CSignal (kind : Z)
| CSetMode (kind : Z)
| CDemote
| CListClients
| CClientList (l : list ClientInfo)
| CPromote (k : Z)
| CKick (k : Z)
| Unset.

Definition snapshotToProto (snap : list clientSnapshot) : list ClientInfo :=
  (fun c => mkInfo (ID c) (SLabel c) (SCanWrite c) (Cols c) (Rows c)) <$> snap.

(** The allow-list of Signal_Kind values. *)
Definition os_signal (kind : Z) : option osSignal :=
  match kind with
  | 1 => Some SIGHUP
  | 2 => Some SIGINT
  | 3 => Some SIGTERM
  | 4 => Some SIGUSR1
  | 5 => Some SIGUSR2
  | _ => None
  end.

Definition applySignal (fails : bool) (s : Session) (kind : Z) : Session * res ControlError unit :=
  match os_signal kind with
  | None => (s, Err (SignalNotAllowed kind))
  | Some sig =>
      if negb (running s) then (s, Err ChildNotRunning)
      else (with_signals s (signals s ++ [sig]), if fails then Err SignalFailed else Ok tt)
  end.

Definition applyResize (fails : bool) (s : Session) (r : bytes) (w h : Z)
    : Session * res ControlError unit :=
  if (w =? 0) || (h =? 0) then (s, Err (ResizeIgnored w h))
  else
    let '(s, rr) := applyResizeForRemote fails s r w h in
    (s, match rr with Ok _ => Ok tt | Err e => Err e end).

(** One turn of handleControl's loop: the state, and the response written on
    the stream.  Errors are only logged there. *)
Definition handleMessage (fails : bool) (s : Session) (st : stream) (msg : ControlMessage)
    : Session * option ControlMessage :=
  let i := IdentityOf st in
  let r := RemoteID st in
  match msg with
  | CResize w h => if negb (CanResize i) then (s, None) else (fst (applyResize fails s r w h), None)
  | CSignal k => if negb (CanWrite i) then (s, None) else (fst (applySignal fails s k), None)
  | CSetMode k =>
      if negb (IsOwner i) then (s, None)
      else let m := modeFromAPI k in
           if bool_decide (m = ModeUnspecified) then (s, None) else (fst (setMode s m), None)
  | CDemote => (fst (demoteRemote s r), None)
  | CListClients => (s, Some (CClientList (snapshotToProto (listClients s))))
  | CPromote k => if negb (IsOwner i) then (s, None) else (fst (promoteClient s k), None)
  | CKick k => if negb (IsOwner i) then (s, None) else (fst (kickClient s k), None)
  | CClientList _ | Unset => (s, None)
  end.

(** The loop over the frames read until the read error that ends it; [wok n]
    tells whether the n-th response can be written, an error there returns. *)
Fixpoint handleControl (wok : nat -> bool) (fails : bool) (s : Session) (st : stream)
    (reads : list ControlMessage) (resp : list ControlMessage)
    : Session * list ControlMessage :=
  match reads with
  | [] => (s, resp)
  | msg :: reads =>
      match handleMessage fails s st msg with
      | (s, None) => handleControl wok fails s st reads resp
      | (s, Some m) =>
          if wok (length resp) then handleControl wok fails s st reads (resp ++ [m]) else (s, resp)
      end
  end.

(** ** Run: the checks and the initial session *)

Inductive RunError := TransportRequired | ArgvEmpty | PtyStart | ChildExit (code : Z) | ChildWait.

Definition initSession (m : Mode) : Session :=
  mkSession [] true [Setsize 80 24] m newOutputRing newDA 0 ∅ ∅ 0 ∅.

(** Run up to the handlers' registration; [start_ok]: pty.StartWithSize. *)
Definition runStart (has_transport start_ok : bool) (m : Mode) (argv : list bytes)
    : res RunError Session :=
  _ ← guard_ok has_transport TransportRequired;
  _ ← guard_ok (negb (len argv =? 0)) ArgvEmpty;
  let m := if bool_decide (m = ModeUnspecified) then ModeSupersede else m in
  _ ← guard_ok start_ok PtyStart;
  Ok (initSession m).

(** What cmd.Wait returned: nil, an ExitError with its code, another error. *)
Inductive waitResult := WaitNil | WaitExit (code : Z) | WaitErr.

(** Run's tail: shutdown, and the error it returns. *)
Definition runFinish (s : Session) (w : waitResult) : Session * option RunError :=
  (shutdown s, match w with
               | WaitNil => None
               | WaitExit code => Some (ChildExit code)
               | WaitErr => Some ChildWait
               end).

(** ** The registry's lemmas *)

Lemma lookup_live s k : live s !! k = client s k.
Proof.
  unfold live, client. case_bool_decide as Hk.
  - destruct (heap s !! k) eqn:E; [by apply map_lookup_filter_Some|].
    apply map_lookup_filter_None. by left.
  - apply map_lookup_filter_None. right. intros ? ? ?. done.
Qed.

Lemma client_Some s k c : client s k = Some c <-> k ∈ clients s /\ heap s !! k = Some c.
Proof. unfold client. case_bool_decide; naive_solver. Qed.

Lemma heap_for_clients s f k :
  heap (for_clients s f) !! k =
    (fun c => if bool_decide (k ∈ clients s) then f c else c) <$> heap s !! k.
Proof.
  unfold for_clients. simpl. rewrite map_lookup_imap. by destruct (heap s !! k).
Qed.

Lemma client_for_clients s f k : client (for_clients s f) k = f <$> client s k.
Proof.
  unfold client at 1. rewrite heap_for_clients. unfold client. simpl.
  case_bool_decide; by destruct (heap s !! k).
Qed.

Lemma client_update s k f j :
  client (update s k f) j = if bool_decide (j = k) then f <$> client s j else client s j.
Proof.
  unfold client, update. simpl. case_bool_decide as Hj.
  - case_bool_decide as E; [subst; by rewrite lookup_alter_eq|by rewrite lookup_alter_ne].
  - by case_bool_decide.
Qed.

(** What the "most recent client of this remote" loop finds. *)
Definition latest_of (m : gmap Z sessionClient) (r : bytes) (l : option sessionClient) : Prop :=
  match l with
  | None => forall k c, m !! k = Some c -> remote c <> r
  | Some l => exists k, m !! k = Some l /\ remote l = r /\
      forall k' c, m !! k' = Some c -> remote c = r -> id c <= id l
  end.

Lemma latest_fold m r : latest_of m r (map_fold (latest_step r) None m).
Proof.
  apply (map_fold_weak_ind (fun l m => latest_of m r l)); simpl; clear m.
  { intros k c. by rewrite lookup_empty. }
  intros k c m l Hk IH. unfold latest_step. case_bool_decide as Hr; simpl.
  - destruct l as [l|]; simpl in *.
    + destruct IH as (kl & Hkl & Hrl & Hmax).
      assert (kl <> k) by congruence.
      destruct (id l <? id c) eqn:E; go_bool; simpl.
      * exists k. rewrite lookup_insert_eq. split_and!; try done.
        intros k' c' [[<- <-]|[_ Hc']]%lookup_insert_Some ?; [done|].
        specialize (Hmax k' c' Hc' ltac:(done)). lia.
      * exists kl. rewrite lookup_insert_ne by done. split_and!; try done.
        intros k' c' [[<- <-]|[_ Hc']]%lookup_insert_Some ?; [done|eauto].
    + exists k. rewrite lookup_insert_eq. split_and!; try done.
      intros k' c' [[<- <-]|[_ Hc']]%lookup_insert_Some ?; [done|]. by destruct (IH k' c').
  - destruct l as [l|]; simpl in *.
    + destruct IH as (kl & Hkl & Hrl & Hmax). exists kl.
      rewrite lookup_insert_ne by congruence. split_and!; try done.
      intros k' c' [[<- <-]|[_ Hc']]%lookup_insert_Some ?; [done|eauto].
    + intros k' c' [[<- <-]|[_ Hc']]%lookup_insert_Some; [done|eauto].
Qed.

(** A client that has reported a geometry. *)
Definition reported (c : sessionClient) : Prop := cols c <> 0 /\ rows c <> 0.

(** The componentwise minimum over the reporting clients, 0 x 0 for none. *)
Definition is_min (m : gmap Z sessionClient) (w h : Z) : Prop :=
  (w = 0 /\ h = 0 /\ forall k c, m !! k = Some c -> ~ reported c) \/
  (0 < w /\ 0 < h /\
   (forall k c, m !! k = Some c -> reported c -> w <= cols c /\ h <= rows c) /\
   (exists k c, m !! k = Some c /\ reported c /\ cols c = w) /\
   (exists k c, m !! k = Some c /\ reported c /\ rows c = h)).

Lemma min_fold m :
  map_Forall (fun _ c => 0 <= cols c /\ 0 <= rows c) m ->
  is_min m (map_fold min_step (0, 0) m).1 (map_fold min_step (0, 0) m).2.
Proof.
  apply (map_fold_weak_ind (fun p m =>
    map_Forall (fun _ c => 0 <= cols c /\ 0 <= rows c) m -> is_min m p.1 p.2)); clear m.
  { intros _. left. done. }
  intros k c m [w h] Hk IH Hall. apply map_Forall_insert in Hall as [Hc Hall]; [|done].
  specialize (IH Hall). simpl in IH. unfold min_step.
  assert (Hno : forall P : Z -> sessionClient -> Prop,
    (exists j d, m !! j = Some d /\ P j d) -> exists j d, <[k:=c]> m !! j = Some d /\ P j d).
  { intros P (j & d & Hj & ?). exists j, d. by rewrite lookup_insert_ne by congruence. }
  destruct ((cols c =? 0) || (rows c =? 0)) eqn:E; simpl.
  - assert (~ reported c) by (unfold reported; lia).
    destruct IH as [(-> & -> & IH)|(Hw & Hh & IH & Ew & Eh)]; [left|right];
      split_and!; try done; eauto.
    + intros j d [[<- <-]|[_ ?]]%lookup_insert_Some; eauto.
    + intros j d [[<- <-]|[_ ?]]%lookup_insert_Some ?; [done|eauto].
  - assert (reported c) as Hr by (unfold reported; lia). right.
    destruct IH as [(-> & -> & IH)|(Hw & Hh & IH & Ew & Eh)]; simpl; unfold reported in *.
    + split_and!; try lia.
      * intros j d [[<- <-]|[_ Hd]]%lookup_insert_Some ?; [lia|by destruct (IH j d)].
      * exists k, c. by rewrite lookup_insert_eq.
      * exists k, c. by rewrite lookup_insert_eq.
    + assert ((w =? 0) = false) as -> by lia. assert ((h =? 0) = false) as -> by lia. simpl.
      split_and!.
      * destruct (_ <? _); lia.
      * destruct (_ <? _); lia.
      * intros j d [[<- <-]|[_ Hd]]%lookup_insert_Some Hrd;
          [|specialize (IH j d Hd Hrd)]; destruct (cols c <? w) eqn:?, (rows c <? h) eqn:?; lia.
      * destruct (cols c <? w); [|eauto]. exists k, c. by rewrite lookup_insert_eq.
      * destruct (rows c <? h); [|eauto]. exists k, c. by rewrite lookup_insert_eq.
Qed.

(** The specification pins the size down, whatever order the map is ranged in. *)
Lemma is_min_unique m w h w' h' : is_min m w h -> is_min m w' h' -> w = w' /\ h = h'.
Proof.
  intros [(-> & -> & H)|(? & ? & H & (k1 & c1 & ? & ? & ?) & (k2 & c2 & ? & ? & ?))]
    [(-> & -> & H')|(? & ? & H' & (k3 & c3 & ? & ? & ?) & (k4 & c4 & ? & ? & ?))].
  - done.
  - by destruct (H k3 c3).
  - by destruct (H' k1 c1).
  - pose proof (H k3 c3 ltac:(done) ltac:(done)). pose proof (H k4 c4 ltac:(done) ltac:(done)).
    pose proof (H' k1 c1 ltac:(done) ltac:(done)). pose proof (H' k2 c2 ltac:(done) ltac:(done)).
    lia.
Qed.

(** ** The well-formedness invariant *)

Definition client_ok (n k : Z) (c : sessionClient) : Prop :=
  id c = k /\ 0 < k <= n /\ 0 <= cols c < 2 ^ 32 /\ 0 <= rows c < 2 ^ 32 /\ len (outCh c) <= clientBufferChunks.

Record wf (s : Session) : Prop := mk_wf {
  wf_next : 0 <= nextID s;
  wf_heap : map_Forall (client_ok (nextID s)) (heap s);
  wf_clients : forall k, k ∈ clients s -> is_Some (heap s !! k);
  wf_writer : writerID s = 0 \/ writerID s ∈ clients s;
  wf_pending : map_Forall (fun _ p => 0 <= p.1 < 2 ^ 32 /\ 0 <= p.2 < 2 ^ 32) (pendingResize s);
}.

(** The updates of client objects the session makes keep them well formed. *)
Definition keeps_ok (f : sessionClient -> sessionClient) : Prop :=
  forall n k c, client_ok n k c -> client_ok n k (f c).

Lemma kick_ok : keeps_ok kick.
Proof. intros n k c H. exact H. Qed.

Lemma set_canWrite_ok b : keeps_ok (set_canWrite b).
Proof. intros n k c H. exact H. Qed.

Lemma set_geometry_ok w h : 0 <= w < 2 ^ 32 -> 0 <= h < 2 ^ 32 -> keeps_ok (set_geometry w h).
Proof. intros ? ? n k c (? & ? & ? & ? & ?). unfold client_ok. simpl. lia. Qed.

Lemma offer_ok chunk : keeps_ok (offer chunk).
Proof.
  intros n k c (? & ? & ? & ? & ?). unfold offer.
  destruct (_ <? _) eqn:E; go_bool; unfold client_ok; simpl; [|lia].
  rewrite len_app, len_cons. len_nil. lia.
Qed.

#[export] Hint Resolve kick_ok set_canWrite_ok set_geometry_ok offer_ok : mosey.

Lemma wf_client s k c : wf s -> client s k = Some c -> client_ok (nextID s) k c.
Proof. intros Hw [_ Hc]%client_Some. by apply (wf_heap s Hw). Qed.

Lemma wf_update s k f : keeps_ok f -> wf s -> wf (update s k f).
Proof.
  intros Hf [Hn Hh Hc Hwr Hp]. constructor; simpl; try done.
  - intros j c Hj. apply lookup_alter_Some in Hj as [(<- & c' & ? & ->)|[? ?]]; [|by apply Hh].
    by apply Hf, Hh.
  - intros j [c Hj]%Hc. rewrite lookup_alter. case_decide; rewrite ?Hj; [subst; rewrite Hj|]; eauto.
Qed.

Lemma wf_for_clients s f : keeps_ok f -> wf s -> wf (for_clients s f).
Proof.
  intros Hf [Hn Hh Hc Hwr Hp]. constructor; try done.
  - intros j c Hj. rewrite heap_for_clients in Hj. apply fmap_Some in Hj as (c' & Hj & ->).
    case_bool_decide; [apply Hf|]; by apply Hh.
  - intros j [c Hj]%Hc. rewrite heap_for_clients, Hj. eauto.
Qed.

Lemma wf_vacate s : wf s -> wf (with_writerID s 0).
Proof. intros []. constructor; simpl; auto. Qed.

Lemma wf_seat s k : wf s -> k ∈ clients s -> wf (with_writerID s k).
Proof. intros [] ?. constructor; simpl; auto. Qed.

Lemma wf_with_mode s m : wf s -> wf (with_mode s m).
Proof. by intros []. Qed.

Lemma wf_with_ptyf s l : wf s -> wf (with_ptyf s l).
Proof. by intros []. Qed.

Lemma wf_applyPTYSize s w h : wf s -> wf (applyPTYSize s w h).
Proof. apply wf_with_ptyf. Qed.

Lemma wf_with_output s r d : wf s -> wf (with_output s r d).
Proof. by intros []. Qed.

Lemma wf_with_signals s l : wf s -> wf (with_signals s l).
Proof. by intros []. Qed.

#[export] Hint Resolve wf_update wf_for_clients wf_vacate wf_with_mode wf_with_ptyf wf_applyPTYSize
  wf_with_output wf_with_signals : mosey.

Lemma wf_init m : wf (initSession m).
Proof. constructor; simpl; auto; try done; try set_solver. Qed.

Lemma wf_live_geometry s : wf s -> map_Forall (fun _ c => 0 <= cols c /\ 0 <= rows c) (live s).
Proof.
  intros Hw k c Hk. rewrite lookup_live in Hk.
  destruct (wf_client s k c Hw Hk) as (_ & _ & ? & ? & _). lia.
Qed.

Lemma minGeometry_spec s :
  wf s -> is_min (live s) (minGeometryLocked s).1 (minGeometryLocked s).2.
Proof. intros Hw. by apply min_fold, wf_live_geometry. Qed.

Lemma clientByRemoteID_spec s r :
  wf s ->
  match clientByRemoteIDLocked s r with
  | None => forall k c, client s k = Some c -> remote c <> r
  | Some l => client s (id l) = Some l /\ remote l = r /\
      forall k c, client s k = Some c -> remote c = r -> k <= id l
  end.
Proof.
  intros Hw. pose proof (latest_fold (live s) r) as H.
  unfold clientByRemoteIDLocked. destruct (map_fold _ _ _) as [l|]; simpl in H.
  - destruct H as (k & Hk & Hr & Hmax). rewrite lookup_live in Hk.
    destruct (wf_client s k l Hw Hk) as (<- & _). split_and!; try done.
    intros k' c Hc. destruct (wf_client s k' c Hw Hc) as (<- & _). rewrite <- lookup_live in Hc. eauto.
  - intros k c. rewrite <- lookup_live. eauto.
Qed.

Lemma wf_admit s i s' cw : wf s -> admission s i = Some (s', cw) -> wf s'.
Proof.
  intros Hw. unfold admission. destruct (mode s); intros; repeat case_bool_decide; simplify_eq;
    auto with mosey.
Qed.

Lemma admit_frame s i s' cw :
  admission s i = Some (s', cw) ->
  nextID s' = nextID s /\ clients s' = clients s /\ mode s' = mode s /\
  pendingResize s' = pendingResize s /\ ptyf s' = ptyf s /\
  output s' = output s /\ daResp s' = daResp s.
Proof.
  unfold admission. destruct (mode s) eqn:?; intros; repeat case_bool_decide; by simplify_eq/=.
Qed.

Lemma wf_addClientLocked s st i :
  wf s -> nextID s + 1 < 2 ^ 63 -> wf (addClientLocked s st i).1.1.
Proof.
  intros Hw Hn. unfold addClientLocked. destruct (admission s i) as [[s' cw]|] eqn:Ha; [|done].
  pose proof (wf_admit _ _ _ _ Hw Ha) as [H1 Hh Hc Hwr Hp].
  destruct (admit_frame _ _ _ _ Ha) as (En & Ec & Em & Ep & _). simpl.
  rewrite En in *. rewrite i64_small by lia.
  assert (forall g, 0 <= g.1 < 2 ^ 32 /\ 0 <= g.2 < 2 ^ 32 ->
    wf (with_clients (with_heap (with_pending (with_nextID s' (nextID s + 1))
       (delete (RemoteID st) (pendingResize s')))
       (<[nextID s + 1 := mkClient (nextID s + 1) i (RemoteID st) [] false cw g.1 g.2 0 []]> (heap s')))
       ({[nextID s + 1]} ∪ clients s')) /\
    (pendingResize s' !! RemoteID st = None ->
     wf (with_clients (with_heap (with_nextID s' (nextID s + 1))
       (<[nextID s + 1 := mkClient (nextID s + 1) i (RemoteID st) [] false cw g.1 g.2 0 []]> (heap s')))
       ({[nextID s + 1]} ∪ clients s')))) as Hadd.
  { intros g Hg.
    assert (map_Forall (client_ok (nextID s + 1)) (<[nextID s + 1 :=
      mkClient (nextID s + 1) i (RemoteID st) [] false cw g.1 g.2 0 []]> (heap s'))) as Hall.
    { apply map_Forall_insert_2.
      - unfold client_ok, clientBufferChunks. simpl. len_nil. lia.
      - intros k c Hk. destruct (Hh k c Hk) as (? & ? & ? & ? & ?). unfold client_ok. lia. }
    assert (forall k, k ∈ {[nextID s + 1]} ∪ clients s' -> is_Some (<[nextID s + 1 :=
      mkClient (nextID s + 1) i (RemoteID st) [] false cw g.1 g.2 0 []]> (heap s') !! k)) as Hin.
    { intros k [->%elem_of_singleton|Hk]%elem_of_union; [rewrite lookup_insert_eq; eauto|].
      destruct (decide (k = nextID s + 1)) as [->|];
        [rewrite lookup_insert_eq|rewrite lookup_insert_ne by done]; eauto. }
    split; intros; constructor; simpl; try done; try lia; try set_solver.
    by apply map_Forall_delete. }
  destruct (pendingResize s' !! RemoteID st) as [g|] eqn:Eg; simpl.
  - pose proof (Hp _ _ Eg) as Hg. destruct (Hadd g Hg) as [Hok _]. destruct g as [pc pr].
    simpl in *. case_bool_decide; destruct cw; simpl; try done.
    apply wf_seat; [done|simpl; set_solver].
  - destruct (Hadd (0, 0) ltac:(simpl; lia)) as [_ Hok]. specialize (Hok eq_refl).
    case_bool_decide; destruct cw; simpl; try done.
    apply wf_seat; [done|simpl; set_solver].
Qed.

Lemma wf_resizeLocked s r w h : wf s -> 0 <= w < 2 ^ 32 -> 0 <= h < 2 ^ 32 -> wf (resizeLocked s r w h).1.
Proof.
  intros Hw ? ?. unfold resizeLocked. destruct (clientByRemoteIDLocked s r); simpl.
  - auto with mosey.
  - destruct Hw. constructor; simpl; try done. by apply map_Forall_insert_2.
Qed.

Lemma wf_demoteRemote s r : wf s -> wf (demoteRemote s r).1.
Proof.
  intros Hw. unfold demoteRemote. destruct (clientByRemoteIDLocked s r); [|done].
  simpl. destruct (_ =? _); auto with mosey.
Qed.

Lemma wf_promoteClient s k : wf s -> wf (promoteClient s k).1.
Proof.
  intros Hw. unfold promoteClient. destruct (client s k) as [c|] eqn:Hc; [|done].
  apply client_Some in Hc as [Hk _]. simpl.
  case_bool_decide; [|by auto with mosey].
  apply wf_update; [auto with mosey|].
  apply wf_seat; repeat case_match; auto with mosey.
Qed.

Lemma wf_kickClient s k : wf s -> wf (kickClient s k).1.
Proof. intros Hw. unfold kickClient. destruct (client s k); simpl; auto with mosey. Qed.

Lemma wf_removeClient s k : wf s -> wf (removeClient s k).1.
Proof.
  intros Hw. unfold removeClient. simpl.
  assert (writerID s = k -> wf (with_writerID (with_clients (update s k kick) (clients s ∖ {[k]})) 0))
    as H1.
  { intros ?. destruct (wf_update s k kick ltac:(auto with mosey) Hw). constructor; simpl in *; auto.
    intros j Hj. set_solver. }
  assert (writerID s <> k -> wf (with_clients (update s k kick) (clients s ∖ {[k]}))) as H2.
  { intros ?. destruct (wf_update s k kick ltac:(auto with mosey) Hw). constructor; simpl in *; auto.
    - intros j Hj. set_solver.
    - set_solver. }
  destruct (client s k); simpl; destruct (writerID s =? k) eqn:?; go_bool; auto with mosey.
Qed.

Lemma wf_shutdown s : wf s -> wf (shutdown s).
Proof.
  intros Hw. destruct (wf_for_clients s kick ltac:(auto with mosey) Hw).
  constructor; simpl in *; auto. set_solver.
Qed.

Lemma wf_pumpRead s buf : wf s -> wf (pumpRead s buf).1.
Proof.
  intros Hw. unfold pumpRead. destruct (process _ _) as [[d o] r].
  repeat case_match; simplify_eq/=; auto 10 with mosey.
Qed.

#[export] Hint Resolve wf_addClientLocked wf_resizeLocked wf_demoteRemote wf_promoteClient
  wf_kickClient wf_removeClient wf_shutdown wf_pumpRead wf_init : mosey.
