(* ===== verification/Bridge.v ===== *)
(** * vterm: the goroutines around a session
    (src/vterm/vterm.go bridgeClient, handlePTY, handlePTYResume; the
    lock-free tails of src/vterm/session.go and src/vterm/control.go)

    A [world] is a session together with every goroutine that works on it:
    one bridge per attached client (its own program counter, its output and
    its input goroutine), one handler per control stream, the size goroutines
    removeClient starts, and the PTY pump.  [wstep] runs one of them up to its
    next release of s.mu, channel operation or PTY call, so every interleaving
    the Go scheduler may choose is a sequence of events. *)

From S2P Require Import Prelude Streambuf Varint Queries Identity Session.

(** Where bridgeClient stands: admitted with a size still to apply, about to
    read the ring for its replay, holding the replay it is about to send on
    outCh, waiting on errc with both pumps started, stream closed with the
    deferred removeClient to run, returned. *)
Inductive bridge_pc :=
| BAdmitted (fromSeq : Z) (size : Z * Z)
| BReplay (fromSeq : Z)
| BSend (replay : bytes)
| BPump
| BClosed
| BDone.

(** The input goroutine: at its Read, holding bytes it may write (and whether
    the same Read returned an error), or returned. *)
Inductive input_pc := InRead | InWrite (buf : bytes) (err : bool) | InStop.

(** The output goroutine: at its select, inside stream.Write with a chunk it
    took off outCh, or not running (not started yet, or returned). *)
Inductive output_pc := OutSelect | OutWrite (chunk : bytes) | OutStop.

#[global] Instance output_pc_eq_dec : EqDecision output_pc.
Proof. solve_decision. Defined.

Record bridge := mkBridge {
  b_pc : bridge_pc;
  b_out : output_pc;
  b_in : input_pc;
  b_err : bool;       (* errc holds a value *)
}.

Record world := mkWorld {
  sess : Session;
  bridges : gmap Z bridge;
  controls : gmap Z (Z * Z);   (* sizes control handlers are about to apply *)
  asyncs : list (Z * Z);       (* sizes removal goroutines are about to apply *)
  pumping : option bytes;      (* chunk in the ring, not broadcast yet *)
  printed : bytes;             (* all output given to the ring so far *)
}.

(** How a PTY stream arrives: on /mosey/pty, or on /mosey/pty-resume with the
    reads its header yields. *)
Inductive attachKind := FreshPTY | ResumePTY (header : list read1).

Definition fromSeq_of (a : attachKind) : option Z :=
  match a with
  | FreshPTY => Some 0
  | ResumePTY h => match fst (Resume.readResumeSeq h) with Ok n => Some n | Err _ => None end
  end.

Inductive event :=
| EvAttach (st : stream) (a : attachKind)
| EvAttachSize (k : Z)
| EvReplay (k : Z)
| EvSend (k : Z)
| EvTake (k : Z)
| EvWritten (k : Z) (fail : option nat)   (* an error comes with a count of bytes written *)
| EvOutDone (k : Z)
| EvInput (k : Z) (buf : bytes) (err : bool)
| EvInWrite (k : Z)
| EvClose (k : Z)
| EvRemove (k : Z)
| EvControl (h : Z) (st : stream) (msg : ControlMessage)
| EvControlSize (h : Z)
| EvAsyncSize (i : nat)
| EvPump (buf : bytes)
| EvBroadcast
| EvShutdown.

Definition with_sess (w : world) (s : Session) : world :=
  mkWorld s (bridges w) (controls w) (asyncs w) (pumping w) (printed w).
Definition with_bridge (w : world) (k : Z) (b : bridge) : world :=
  mkWorld (sess w) (<[k := b]> (bridges w)) (controls w) (asyncs w) (pumping w) (printed w).

(** handlePTY / handlePTYResume up to the admission of bridgeClient.  A bad
    header or a refusal closes the stream and changes nothing else. *)
Definition attachStep (w : world) (st : stream) (a : attachKind) : world :=
  match fromSeq_of a with
  | None => w
  | Some fs =>
      let '(s, c, size) := addClientLocked (sess w) st (IdentityOf st) in
      match c with
      | None => with_sess w s
      | Some k => with_bridge (with_sess w s) k (mkBridge (BAdmitted fs size) OutStop InStop false)
      end
  end.

(** What the replay block reads: the ring from [fromSeq], nothing if the ring
    has dropped that position. *)
Definition replayOf (s : Session) (fromSeq : Z) : bytes :=
  let '(replay, _, err) := OutputRing.From (output s) fromSeq in
  match err with None => replay | Some _ => [] end.

(** The non-blocking send of the replay on the client's outCh. *)
Definition sendReplay (s : Session) (k : Z) (replay : bytes) : Session :=
  if 0 <? len replay then update s k (offer replay) else s.

(** Receive from outCh: its head leaves the channel. *)
Definition take_chunk (c : sessionClient) : sessionClient :=
  mkClient (id c) (identity c) (remote c) (List.tl (outCh c)) (done c) (canWrite c) (cols c) (rows c)
    (dropped c) (sent c).

(** The bytes a Write of [chunk] put on the stream: all of it, or the first
    [n] when it failed after [n]. *)
Definition put (chunk : bytes) (fail : option nat) : bytes :=
  match fail with None => chunk | Some n => take n chunk end.

Definition written (chunk : bytes) (fail : option nat) (c : sessionClient) : sessionClient :=
  mkClient (id c) (identity c) (remote c) (outCh c) (done c) (canWrite c) (cols c) (rows c)
    (dropped c) (sent c ++ [put chunk fail]).

(** A control handler's turn up to its unlock, and the size it then applies. *)
Definition controlLocked (s : Session) (st : stream) (msg : ControlMessage)
    : Session * option (Z * Z) :=
  match msg with
  | CResize c r =>
      if negb (CanResize (IdentityOf st)) || ((c =? 0) || (r =? 0)) then (s, None)
      else let '(s, (pc, pr)) := resizeLocked s (RemoteID st) c r in
           (s, if (pc =? 0) || (pr =? 0) then None else Some (pc, pr))
  | _ => (fst (handleMessage false s st msg), None)
  end.

Definition wstep (w : world) (e : event) : option world :=
  match e with
  | EvAttach st a => Some (attachStep w st a)
  | EvAttachSize k =>
      b ← bridges w !! k;
      match b_pc b with
      | BAdmitted fs (c, r) =>
          let s := if (0 <? c) && (0 <? r) then applyPTYSize (sess w) c r else sess w in
          Some (with_bridge (with_sess w s) k (mkBridge (BReplay fs) OutStop InStop false))
      | _ => None
      end
  | EvReplay k =>
      b ← bridges w !! k;
      match b_pc b with
      | BReplay fs =>
          Some (with_bridge w k (mkBridge (BSend (replayOf (sess w) fs)) OutStop InStop false))
      | _ => None
      end
  | EvSend k =>
      b ← bridges w !! k;
      match b_pc b with
      | BSend replay =>
          Some (with_bridge (with_sess w (sendReplay (sess w) k replay)) k
                  (mkBridge BPump OutSelect InRead false))
      | _ => None
      end
  | EvTake k =>
      b ← bridges w !! k;
      c ← heap (sess w) !! k;
      match b_out b, outCh c with
      | OutSelect, chunk :: _ =>
          Some (with_bridge (with_sess w (update (sess w) k take_chunk)) k
                  (mkBridge (b_pc b) (OutWrite chunk) (b_in b) (b_err b)))
      | _, _ => None
      end
  | EvWritten k fail =>
      b ← bridges w !! k;
      match b_out b with
      | OutWrite chunk =>
          Some (with_bridge (with_sess w (update (sess w) k (written chunk fail))) k
                  (mkBridge (b_pc b) (match fail with None => OutSelect | Some _ => OutStop end)
                     (b_in b) (b_err b || bool_decide (is_Some fail))))
      | _ => None
      end
  | EvOutDone k =>
      b ← bridges w !! k;
      c ← heap (sess w) !! k;
      if bool_decide (b_out b = OutSelect) && done c
      then Some (with_bridge w k (mkBridge (b_pc b) OutStop (b_in b) true))
      else None
  | EvInput k buf err =>
      b ← bridges w !! k;
      c ← heap (sess w) !! k;
      match b_in b with
      | InRead =>
          if (0 <? len buf) && canWrite c
          then Some (with_bridge w k (mkBridge (b_pc b) (b_out b) (InWrite buf err) (b_err b)))
          else Some (with_bridge w k (mkBridge (b_pc b) (b_out b)
                       (if err then InStop else InRead) (b_err b || err)))
      | _ => None
      end
  | EvInWrite k =>
      b ← bridges w !! k;
      match b_in b with
      | InWrite buf err =>
          Some (with_bridge
                  (with_sess w (with_ptyf (sess w) (ptyf (sess w) ++ [WriteInput k buf]))) k
                  (mkBridge (b_pc b) (b_out b) (if err then InStop else InRead) (b_err b || err)))
      | _ => None
      end
  | EvClose k =>
      b ← bridges w !! k;
      match b_pc b with
      | BPump => if b_err b then Some (with_bridge w k (mkBridge BClosed (b_out b) (b_in b) true))
                 else None
      | _ => None
      end
  | EvRemove k =>
      b ← bridges w !! k;
      match b_pc b with
      | BClosed =>
          let '(s, size) := removeClient (sess w) k in
          let w := with_bridge (with_sess w s) k (mkBridge BDone (b_out b) (b_in b) true) in
          Some (mkWorld (sess w) (bridges w) (controls w)
                  (asyncs w ++ match size with Some p => [p] | None => [] end)
                  (pumping w) (printed w))
      | _ => None
      end
  | EvControl h st msg =>
      match controls w !! h with
      | Some _ => None
      | None =>
          let '(s, size) := controlLocked (sess w) st msg in
          Some (mkWorld s (bridges w)
                  (match size with Some p => <[h := p]> (controls w) | None => controls w end)
                  (asyncs w) (pumping w) (printed w))
      end
  | EvControlSize h =>
      '(c, r) ← controls w !! h;
      Some (mkWorld (applyPTYSize (sess w) c r) (bridges w) (delete h (controls w))
              (asyncs w) (pumping w) (printed w))
  | EvAsyncSize i =>
      '(c, r) ← asyncs w !! i;
      Some (mkWorld (applyPTYSize (sess w) c r) (bridges w) (controls w)
              (delete i (asyncs w)) (pumping w) (printed w))
  | EvPump buf =>
      match pumping w with
      | Some _ => None
      | None =>
          if 0 <? len buf then
            let '(s, out) := pumpRead (sess w) buf in
            Some (mkWorld s (bridges w) (controls w) (asyncs w) out (printed w ++ default [] out))
          else Some w
      end
  | EvBroadcast =>
      chunk ← pumping w;
      Some (mkWorld (broadcast (sess w) chunk) (bridges w) (controls w) (asyncs w) None (printed w))
  | EvShutdown => Some (with_sess w (shutdown (sess w)))
  end.

(** Proto fields are uint32: what a decoded message satisfies. *)
Definition msg_ok (msg : ControlMessage) : Prop :=
  match msg with
  | CResize c r => 0 <= c < 2 ^ 32 /\ 0 <= r < 2 ^ 32
  | _ => True
  end.

Definition event_ok (e : event) : Prop :=
  match e with EvControl _ _ msg => msg_ok msg | _ => True end.

Definition wrel (w : world) (e : event) (w' : world) : Prop :=
  event_ok e /\ wstep w e = Some w'.

Definition initWorld (m : Mode) : world := mkWorld (initSession m) ∅ ∅ [] None [].

(** A run: [w] is reached from Run's initial state in mode [m] by [es]. *)
Definition reach (m : Mode) (es : list event) (w : world) : Prop :=
  steps wrel (initWorld m) es w.

(** A resume from a position the ring has dropped replays nothing. *)
Lemma overrun_resume_replays_nothing s k fromSeq replay next e :
  OutputRing.From (output s) fromSeq = (replay, next, Some e) ->
  sendReplay s k (replayOf s fromSeq) = s.
Proof. intros H. unfold replayOf. by rewrite H. Qed.

(** ** The abstract policy machine

    What the registry promises, without channels, geometry or goroutines: who
    is attached, with which permission, and who holds the writer seat. *)

Record reg := mkReg { r_identity : Identity; r_remote : bytes; r_write : bool; r_done : bool }.

Record policy := mkPolicy {
  p_mode : Mode; p_next : Z; p_regs : gmap Z reg; p_writer : Z
}.

Inductive pevent :=
| PAttach (r : bytes) (i : Identity)
| PDemote (k : Z)
| PPromote (k : Z)
| PKick (k : Z)
| PRemove (k : Z)
| PShutdown
| PSetMode (m : Mode).

Definition r_kick (r : reg) : reg := mkReg (r_identity r) (r_remote r) (r_write r) true.
Definition r_set (b : bool) (r : reg) : reg := mkReg (r_identity r) (r_remote r) b (r_done r).

(** A client joins with write permission [b], taking the seat if [seat]. *)
Definition p_join (p : policy) (rem : bytes) (i : Identity) (b : bool) (regs : gmap Z reg)
    (writer : Z) : policy :=
  let k := i64 (p_next p + 1) in
  mkPolicy (p_mode p) k (<[k := mkReg i rem b false]> regs)
    (if bool_decide (p_mode p = ModePrimaryObserver) && b then k else writer).

Definition pstep (p : policy) (e : pevent) : policy :=
  match e with
  | PAttach rem i =>
      match p_mode p with
      | ModeUnspecified => p
      | ModeExclusive =>
          if bool_decide (p_regs p = ∅) then p_join p rem i (CanWrite i) (p_regs p) (p_writer p)
          else p
      | ModeSupersede => p_join p rem i (CanWrite i) (r_kick <$> p_regs p) (p_writer p)
      | ModeMultiWrite => p_join p rem i (CanWrite i) (p_regs p) (p_writer p)
      | ModePrimaryObserver =>
          let wr := if bool_decide (is_Some (p_regs p !! p_writer p)) then p_writer p else 0 in
          p_join p rem i (CanWrite i && (wr =? 0)) (p_regs p) wr
      end
  | PDemote k =>
      mkPolicy (p_mode p) (p_next p) (alter (r_set false) k (p_regs p))
        (if p_writer p =? k then 0 else p_writer p)
  | PPromote k =>
      match p_regs p !! k with
      | None => p
      | Some _ =>
          if bool_decide (p_mode p = ModePrimaryObserver) then
            mkPolicy (p_mode p) (p_next p)
              (alter (r_set true) k (alter (r_set false) (p_writer p) (p_regs p))) k
          else mkPolicy (p_mode p) (p_next p) (alter (r_set true) k (p_regs p)) (p_writer p)
      end
  | PKick k => mkPolicy (p_mode p) (p_next p) (alter r_kick k (p_regs p)) (p_writer p)
  | PRemove k =>
      mkPolicy (p_mode p) (p_next p) (delete k (p_regs p))
        (if p_writer p =? k then 0 else p_writer p)
  | PShutdown => mkPolicy (p_mode p) (p_next p) ∅ 0
  | PSetMode m => mkPolicy m (p_next p) (p_regs p) (p_writer p)
  end.

Definition reg_of (c : sessionClient) : reg :=
  mkReg (identity c) (remote c) (canWrite c) (done c).

Definition policy_of (s : Session) : policy :=
  mkPolicy (mode s) (nextID s) (reg_of <$> live s) (writerID s).

(** The policy event behind an event of the world, if there is one. *)
Definition label (w : world) (e : event) : option pevent :=
  match e with
  | EvAttach st a => _ ← fromSeq_of a; Some (PAttach (RemoteID st) (IdentityOf st))
  | EvRemove k => Some (PRemove k)
  | EvShutdown => Some PShutdown
  | EvControl _ st msg =>
      match msg with
      | CDemote => c ← clientByRemoteIDLocked (sess w) (RemoteID st); Some (PDemote (id c))
      | CSetMode kd =>
          if IsOwner (IdentityOf st) && negb (bool_decide (modeFromAPI kd = ModeUnspecified))
          then Some (PSetMode (modeFromAPI kd)) else None
      | CPromote k => if IsOwner (IdentityOf st) then Some (PPromote k) else None
      | CKick k => if IsOwner (IdentityOf st) then Some (PKick k) else None
      | _ => None
      end
  | _ => None
  end.

Definition pstep_opt (p : policy) (e : option pevent) : policy :=
  match e with Some e => pstep p e | None => p end.

(** ** Refinement lemmas: each operation through [policy_of] *)

Definition regs (s : Session) : gmap Z reg := reg_of <$> live s.

Lemma lookup_regs s k : regs s !! k = reg_of <$> client s k.
Proof. unfold regs. by rewrite lookup_fmap, lookup_live. Qed.

(** An object update invisible to the policy. *)
Definition silent (f : sessionClient -> sessionClient) : Prop := forall c, reg_of (f c) = reg_of c.

Lemma offer_silent chunk : silent (offer chunk).
Proof. intros c. unfold offer. by case_match. Qed.

Lemma take_silent : silent take_chunk.
Proof. done. Qed.

Lemma written_silent chunk fail : silent (written chunk fail).
Proof. done. Qed.

Lemma set_geometry_silent w h : silent (set_geometry w h).
Proof. done. Qed.

#[export] Hint Resolve offer_silent take_silent written_silent set_geometry_silent : mosey.

Lemma regs_update s k f g :
  (forall c, reg_of (f c) = g (reg_of c)) -> regs (update s k f) = alter g k (regs s).
Proof.
  intros Hf. apply map_eq. intros j. rewrite lookup_regs, client_update.
  case_bool_decide as E.
  - subst. rewrite lookup_alter_eq, lookup_regs. destruct (client s k); simpl; by rewrite ?Hf.
  - by rewrite lookup_alter_ne, lookup_regs by done.
Qed.

Lemma regs_update_silent s k f : silent f -> regs (update s k f) = regs s.
Proof.
  intros Hf. rewrite (regs_update s k f (fun r => r)) by done. by rewrite alter_id by done.
Qed.

Lemma regs_for_clients s f g :
  (forall c, reg_of (f c) = g (reg_of c)) -> regs (for_clients s f) = g <$> regs s.
Proof.
  intros Hf. apply map_eq. intros j.
  rewrite lookup_regs, client_for_clients, lookup_fmap, lookup_regs.
  destruct (client s j); simpl; by rewrite ?Hf.
Qed.

Lemma regs_for_clients_silent s f : silent f -> regs (for_clients s f) = regs s.
Proof.
  intros Hf. rewrite (regs_for_clients s f (fun r => r)) by done.
  by rewrite map_fmap_id.
Qed.

Lemma policy_eq s s' :
  mode s' = mode s -> nextID s' = nextID s -> writerID s' = writerID s ->
  regs s' = regs s -> policy_of s' = policy_of s.
Proof. unfold policy_of. fold (regs s) (regs s'). by intros -> -> -> ->. Qed.

Lemma regs_empty s : wf s -> regs s = ∅ <-> clients s = ∅.
Proof.
  intros Hw. split.
  - intros He. apply set_eq. intros k. split; [|set_solver]. intros Hk.
    destruct (wf_clients s Hw k Hk) as [c Hc].
    assert (regs s !! k = Some (reg_of c)) as H.
    { rewrite lookup_regs. rewrite (proj2 (client_Some s k c)) by done. done. }
    rewrite He in H. done.
  - intros He. apply map_empty. intros k. rewrite lookup_regs. unfold client.
    rewrite bool_decide_eq_false_2; [done|set_solver].
Qed.

Lemma regs_dom s k : wf s -> is_Some (regs s !! k) <-> k ∈ clients s.
Proof.
  intros Hw. rewrite lookup_regs, fmap_is_Some. split.
  - intros [c [? _]%client_Some]. done.
  - intros Hk. destruct (wf_clients s Hw k Hk) as [c Hc]. exists c. by apply client_Some.
Qed.

(** The entry addClientLocked inserts. *)
Lemma regs_insert s s' k c :
  heap s' = <[k := c]> (heap s) -> clients s' = {[k]} ∪ clients s ->
  regs s' = <[k := reg_of c]> (regs s).
Proof.
  intros Hh Hc. apply map_eq. intros j. rewrite lookup_regs. unfold client. rewrite Hh, Hc.
  destruct (decide (j = k)) as [->|Hj].
  - rewrite bool_decide_eq_true_2 by set_solver. by rewrite !lookup_insert_eq.
  - rewrite !lookup_insert_ne by done. rewrite lookup_regs. unfold client.
    repeat case_bool_decide; done || set_solver.
Qed.

Lemma addClientLocked_join s st i s' cw :
  admission s i = Some (s', cw) ->
  policy_of (addClientLocked s st i).1.1 =
    p_join (policy_of s') (RemoteID st) i cw (regs s') (writerID s').
Proof.
  intros Ha. unfold addClientLocked, p_join. rewrite Ha.
  destruct (default (0, 0) _) as [pc pr]. simpl.
  destruct (pendingResize s' !! RemoteID st); simpl;
    destruct (bool_decide _ && cw); simpl; unfold policy_of; f_equal;
    by apply (regs_insert s' _ _
      (mkClient (i64 (nextID s' + 1)) i (RemoteID st) [] false cw pc pr 0 [])).
Qed.

Lemma policy_attach s st i :
  wf s -> policy_of (addClientLocked s st i).1.1 = pstep (policy_of s) (PAttach (RemoteID st) i).
Proof.
  intros Hw. destruct (admission s i) as [[s' cw]|] eqn:Ha.
  - rewrite (addClientLocked_join _ _ _ _ _ Ha). unfold admission in Ha. simpl.
    destruct (mode s) eqn:Em; simplify_eq/=.
    + fold (regs s). rewrite <- (regs_for_clients s kick r_kick) by done.
      unfold p_join, policy_of. simpl. by rewrite Em.
    + fold (regs s). case_bool_decide as He; simplify_eq.
      rewrite bool_decide_eq_true_2 by (by apply regs_empty). done.
    + fold (regs s). unfold p_join. simpl.
      pose proof (regs_dom s (writerID s) Hw) as Hd.
      destruct (decide (writerID s ∈ clients s)).
      * rewrite !bool_decide_eq_true_2 by tauto. done.
      * rewrite !(bool_decide_eq_false_2 (_ ∈ _)) by tauto.
        rewrite !(bool_decide_eq_false_2 (is_Some _)) by tauto. done.
    + done.
  - unfold addClientLocked. rewrite Ha. simpl. unfold admission in Ha.
    destruct (mode s) eqn:Em; simplify_eq/=; try done.
    fold (regs s). case_bool_decide; simplify_eq.
    rewrite bool_decide_eq_false_2; [done|]. by rewrite regs_empty.
Qed.

Lemma policy_demote s r c :
  clientByRemoteIDLocked s r = Some c ->
  policy_of (demoteRemote s r).1 = pstep (policy_of s) (PDemote (id c)).
Proof.
  intros Hc. unfold demoteRemote. rewrite Hc. simpl.
  fold (regs s). rewrite <- (regs_update s (id c) (set_canWrite false)) by done.
  by destruct (writerID s =? id c).
Qed.

Lemma policy_promote s k :
  policy_of (promoteClient s k).1 = pstep (policy_of s) (PPromote k).
Proof.
  unfold promoteClient. simpl. fold (regs s). rewrite (lookup_regs s k).
  destruct (client s k) as [c|] eqn:Hc; simpl; [|done].
  case_bool_decide as Hm.
  - assert (forall s', mode s' = mode s -> nextID s' = nextID s ->
      regs s' = alter (r_set false) (writerID s) (regs s) \/
      (regs s' = regs s /\ (writerID s = k \/ client s (writerID s) = None)) ->
      policy_of (update (with_writerID s' k) k (set_canWrite true)) =
      mkPolicy (mode s) (nextID s)
        (alter (r_set true) k (alter (r_set false) (writerID s) (regs s))) k) as H.
    { intros s' Hm' Hn' Hr. unfold policy_of. simpl. rewrite Hm', Hn'. f_equal.
      fold (regs (update (with_writerID s' k) k (set_canWrite true))).
      rewrite (regs_update _ _ _ (r_set true)) by done.
      change (regs (with_writerID s' k)) with (regs s').
      destruct Hr as [->|[-> [->|Hnone]]]; [done| |].
      - apply map_eq. intros j. rewrite !lookup_alter. case_decide; [|done].
        rewrite decide_True by done. by destruct (regs s !! k).
      - f_equal. symmetry. apply map_eq. intros j.
        destruct (decide (j = writerID s)) as [->|]; [|by rewrite lookup_alter_ne].
        rewrite lookup_alter_eq, lookup_regs, Hnone. done. }
    destruct (client s (writerID s)) eqn:Hw; [destruct (negb (writerID s =? k)) eqn:E|];
      go_bool; apply H; simpl; try done; auto.
    left. by apply regs_update.
  - unfold policy_of. simpl. f_equal. by apply regs_update.
Qed.

Lemma policy_kick s k : policy_of (kickClient s k).1 = pstep (policy_of s) (PKick k).
Proof.
  unfold kickClient. simpl. fold (regs s). destruct (client s k) as [c|] eqn:Hc; simpl.
  - unfold policy_of. simpl. f_equal. by apply regs_update.
  - unfold policy_of. f_equal. fold (regs s). symmetry. apply map_eq. intros j.
    destruct (decide (j = k)) as [->|]; [|by rewrite lookup_alter_ne].
    rewrite lookup_alter_eq, lookup_regs, Hc. done.
Qed.

Lemma policy_remove s k : policy_of (removeClient s k).1 = pstep (policy_of s) (PRemove k).
Proof.
  unfold removeClient. simpl. fold (regs s).
  assert (forall s', mode s' = mode s -> nextID s' = nextID s -> writerID s' = writerID s ->
    regs s' = delete k (regs s) ->
    policy_of (if writerID s' =? k then with_writerID s' 0 else s') =
    mkPolicy (mode s) (nextID s) (delete k (regs s))
      (if writerID s =? k then 0 else writerID s)) as H.
  { intros s' Hm Hn Hw Hr. rewrite <- Hm, <- Hn, <- Hr, <- Hw.
    by destruct (writerID s' =? k). }
  apply H; destruct (client s k) as [c|] eqn:Hc; simpl; try done.
  - apply map_eq. intros j. rewrite lookup_regs. unfold client. simpl.
    destruct (decide (j = k)) as [->|Hj].
    + rewrite bool_decide_eq_false_2 by set_solver. by rewrite lookup_delete_eq.
    + rewrite lookup_delete_ne, lookup_regs, lookup_alter_ne by done. unfold client.
      repeat case_bool_decide; done || set_solver.
  - symmetry. apply delete_id. by rewrite lookup_regs, Hc.
Qed.

Lemma policy_shutdown s : policy_of (shutdown s) = pstep (policy_of s) PShutdown.
Proof.
  unfold policy_of. simpl. f_equal. fold (regs (shutdown s)).
  apply map_empty. intros k. rewrite lookup_regs. unfold client. simpl.
  by rewrite bool_decide_eq_false_2 by set_solver.
Qed.

Lemma policy_pumpRead s buf : policy_of (pumpRead s buf).1 = policy_of s.
Proof.
  unfold pumpRead. destruct (process _ _) as [[d o] r]. by destruct (0 <? len r), (0 <? len o).
Qed.

Lemma policy_resize s r w h : policy_of (resizeLocked s r w h).1 = policy_of s.
Proof.
  unfold resizeLocked. destruct (clientByRemoteIDLocked s r); [|done].
  apply policy_eq; try done. apply regs_update_silent. auto with mosey.
Qed.

#[local] Arguments pstep : simpl never.

Lemma policy_control w h st msg :
  policy_of (controlLocked (sess w) st msg).1 =
  pstep_opt (policy_of (sess w)) (label w (EvControl h st msg)).
Proof.
  destruct msg; simpl; try done.
  - destruct (_ || _); [done|]. pose proof (policy_resize (sess w) (RemoteID st) w0 h0) as H.
    by destruct (resizeLocked _ _ _ _) as [s' [pc pr]].
  - destruct (CanWrite _); simpl; [|done]. unfold applySignal.
    by destruct (os_signal kind), (running (sess w)).
  - destruct (IsOwner _); simpl; [|done]. by case_bool_decide.
  - destruct (clientByRemoteIDLocked _ _) as [c|] eqn:Hc; simpl; [by apply policy_demote|].
    unfold demoteRemote. by rewrite Hc.
  - destruct (IsOwner _); simpl; [apply policy_promote|done].
  - destruct (IsOwner _); simpl; [apply policy_kick|done].
Qed.

Lemma policy_send s k replay : policy_of (sendReplay s k replay) = policy_of s.
Proof.
  unfold sendReplay. destruct (_ <? _); [|done]. apply policy_eq; try done.
  apply regs_update_silent. auto with mosey.
Qed.

(** Invert a successful [wstep]. *)
Ltac wstep_inv H :=
  simpl in H;
  repeat first
    [ progress simplify_option_eq
    | match type of H with
      | context [match ?x with _ => _ end] => destruct x eqn:?
      end ];
  simplify_eq/=.

(** Every event of the world is one policy event or invisible to the policy. *)
Lemma policy_step w e w' :
  wf (sess w) -> wstep w e = Some w' ->
  policy_of (sess w') = pstep_opt (policy_of (sess w)) (label w e).
Proof.
  intros Hw He. destruct e.
  - simpl in *. simplify_eq. unfold attachStep. destruct (fromSeq_of a); simpl; [|done].
    rewrite <- (policy_attach (sess w) st) by done.
    by destruct (addClientLocked _ _ _) as [[s' [k|]] sz].
  - wstep_inv He. by destruct (_ && _).
  - wstep_inv He. done.
  - wstep_inv He. apply policy_send.
  - wstep_inv He. apply policy_eq; try done. apply regs_update_silent. auto with mosey.
  - wstep_inv He; (apply policy_eq; try done; apply regs_update_silent; auto with mosey).
  - wstep_inv He; done.
  - wstep_inv He; done.
  - wstep_inv He; done.
  - wstep_inv He; done.
  - wstep_inv He; rewrite <- policy_remove; by simplify_eq/=.
  - rewrite <- (policy_control w h). wstep_inv He; by simplify_eq/=.
  - wstep_inv He; done.
  - wstep_inv He; done.
  - pose proof (policy_pumpRead (sess w) buf) as Hp. simpl in He.
    destruct (pumpRead (sess w) buf) as [s' o]. wstep_inv He; [by apply policy_eq|done].
  - wstep_inv He. apply policy_eq; try done. apply regs_for_clients_silent. auto with mosey.
  - wstep_inv He. apply policy_shutdown.
Qed.

(** ** The well-formedness invariant along a run *)

Lemma take_ok : keeps_ok take_chunk.
Proof.
  intros n k c (? & ? & ? & ? & Hl). unfold client_ok. simpl.
  do 4 (split; [done|]). destruct (outCh c); simpl; [done|]. rewrite len_cons in Hl. lia.
Qed.

Lemma written_ok chunk fail : keeps_ok (written chunk fail).
Proof. intros n k c Hc. exact Hc. Qed.

#[export] Hint Resolve take_ok written_ok : mosey.

Lemma addClientLocked_next s st i :
  nextID s + 1 < 2 ^ 63 -> 0 <= nextID s ->
  nextID s <= nextID (addClientLocked s st i).1.1 <= nextID s + 1.
Proof.
  intros Hb ?. unfold addClientLocked. destruct (admission s i) as [[s' cw]|] eqn:Ha; simpl; [|lia].
  destruct (admit_frame _ _ _ _ Ha) as (En & _). rewrite En, i64_small by lia.
  destruct (default _ _), (pendingResize s' !! _), (bool_decide _ && cw); simpl; lia.
Qed.

Lemma wf_controlLocked s st msg : wf s -> msg_ok msg -> wf (controlLocked s st msg).1.
Proof.
  intros Hw Hm. destruct msg; simpl in *; try done.
  - destruct (_ || _); [done|].
    pose proof (wf_resizeLocked s (RemoteID st) w h Hw ltac:(lia) ltac:(lia)) as H.
    by destruct (resizeLocked _ _ _ _) as [s' [pc pr]].
  - destruct (CanWrite _); simpl; [|done]. unfold applySignal.
    destruct (os_signal kind), (running s); simpl; auto with mosey.
  - destruct (IsOwner _); simpl; [|done]. case_bool_decide; simpl; auto with mosey.
  - auto with mosey.
  - destruct (IsOwner _); simpl; auto with mosey.
  - destruct (IsOwner _); simpl; auto with mosey.
Qed.

(** nextID moves only on attach. *)
Lemma nextID_step w e w' :
  wf (sess w) -> nextID (sess w) + 1 < 2 ^ 63 -> wstep w e = Some w' ->
  nextID (sess w) <= nextID (sess w') <= nextID (sess w) + 1.
Proof.
  intros Hw Hb He. pose proof (policy_step w e w' Hw He) as Hp.
  pose proof (wf_next _ Hw). apply (f_equal p_next) in Hp. simpl in Hp.
  destruct (label w e) as [pe|]; simpl in Hp; [|lia].
  unfold pstep, p_join in Hp. rewrite Hp.
  repeat case_match; simpl; rewrite ?i64_small; lia.
Qed.

Lemma wf_step w e w' :
  wf (sess w) -> nextID (sess w) + 1 < 2 ^ 63 -> wrel w e w' -> wf (sess w').
Proof.
  intros Hw Hb [Hok He]. destruct e; simpl in Hok.
  - simpl in He. simplify_eq. unfold attachStep. destruct (fromSeq_of a); [|done].
    pose proof (wf_addClientLocked (sess w) st (IdentityOf st) Hw Hb).
    by destruct (addClientLocked _ _ _) as [[s' [k|]] sz].
  - wstep_inv He. destruct (_ && _); simpl; auto with mosey.
  - wstep_inv He. done.
  - wstep_inv He. unfold sendReplay. case_match; auto with mosey.
  - wstep_inv He. auto with mosey.
  - wstep_inv He; auto with mosey.
  - wstep_inv He; done.
  - wstep_inv He; done.
  - wstep_inv He; auto with mosey.
  - wstep_inv He; done.
  - wstep_inv He; exact (wf_removeClient (sess w) k Hw).
  - pose proof (wf_controlLocked (sess w) st msg Hw Hok) as Hr. simpl in He.
    destruct (controlLocked (sess w) st msg) as [s' sz]. wstep_inv He; done.
  - wstep_inv He; auto with mosey.
  - wstep_inv He; auto with mosey.
  - pose proof (wf_pumpRead (sess w) buf Hw) as Hr. simpl in He.
    destruct (pumpRead (sess w) buf) as [s' o]. wstep_inv He; done.
  - wstep_inv He. unfold broadcast. auto with mosey.
  - wstep_inv He. auto with mosey.
Qed.

Lemma reach_wf m es w :
  reach m es w -> len es < 2 ^ 63 -> wf (sess w) /\ nextID (sess w) <= len es.
Proof.
  intros Hr Hl. pattern (len es), w.
  eapply (steps_invariant_len wrel (fun n w => wf (sess w) /\ nextID (sess w) <= n) (2 ^ 63 - 1));
    [| |exact Hr|lia].
  - split; [apply wf_init|done].
  - intros n a e b Hn [Hw Hx] Hs. split; [eapply wf_step; eauto; lia|].
    destruct Hs as [_ Hs]. apply nextID_step in Hs; [|done|]; lia.
Qed.

(** What well-formedness says of the policy: ids are fresh. *)
Definition policy_ok (p : policy) : Prop :=
  0 <= p_next p /\ p_next p + 1 < 2 ^ 63 /\
  forall k r, p_regs p !! k = Some r -> 0 < k <= p_next p.

Lemma policy_ok_of s : wf s -> nextID s + 1 < 2 ^ 63 -> policy_ok (policy_of s).
Proof.
  intros Hw Hb. split_and!; [apply (wf_next s Hw)|done|].
  intros k r Hk. change (p_regs (policy_of s)) with (regs s) in Hk.
  rewrite lookup_regs in Hk. apply fmap_Some in Hk as (c & Hc & _).
  by destruct (wf_client s k c Hw Hc) as (_ & ? & _).
Qed.

(** Reason about the policy of a run: an invariant of [pstep] over the labels
    that satisfy [P], holding initially, holds of every run whose labels do. *)
Lemma reach_policy (I : policy -> Prop) (P : pevent -> Prop) m es w :
  I (mkPolicy m 0 ∅ 0) ->
  (forall p e, policy_ok p -> I p -> P e -> I (pstep p e)) ->
  reach m es w -> len es < 2 ^ 63 ->
  (forall w e w', wrel w e w' -> e ∈ es -> forall pe, label w e = Some pe -> P pe) ->
  I (policy_of (sess w)).
Proof.
  intros H0 Hstep Hr. unfold reach in Hr. remember (initWorld m) as w0 eqn:E0.
  induction Hr as [|w0 es w1 e w2 Hr IH Hs]; intros Hl HP; subst.
  - unfold policy_of. fold (regs (sess (initWorld m))).
    replace (regs (sess (initWorld m))) with (∅ : gmap Z reg); [done|].
    apply map_eq. intros k. by rewrite lookup_regs.
  - rewrite len_app in Hl. change (len [e]) with 1 in Hl.
    destruct (reach_wf m es w1 Hr ltac:(lia)) as [Hw Hn].
    rewrite (policy_step w1 e w2 Hw (proj2 Hs)).
    assert (I (policy_of (sess w1))) as HI.
    { apply IH; [done|lia|]. intros w e' w' Hs' He'. apply (HP w e' w' Hs'). set_solver. }
    destruct (label w1 e) as [pe|] eqn:El; simpl; [|done].
    apply Hstep; [by apply policy_ok_of; [|lia]|done|]. apply (HP w1 e w2 Hs); [set_solver|done].
Qed.
