(* ===== verification/VtermPolicy.v ===== *)
(** * vterm: who may attach and who may type

    The theorems about admission and permissions, over every run of the
    session's goroutines (Bridge.v): what each mode promises, what the owner
    check on the control stream guards, and where typed bytes can come from. *)

From S2P Require Import Prelude Streambuf Varint Queries Identity Session Bridge.

(** ** Invariants of the policy machine *)

(** PrimaryObserver: the clients that may write are the seat's holder. *)
Definition single_writer (p : policy) : Prop :=
  p_mode p = ModePrimaryObserver /\
  forall k r, p_regs p !! k = Some r -> r_write r = true <-> k = p_writer p.

Definition exclusive (p : policy) : Prop :=
  p_mode p = ModeExclusive /\
  forall k j, is_Some (p_regs p !! k) -> is_Some (p_regs p !! j) -> k = j.

(** Supersede: every client but the newest has been told to leave. *)
Definition superseding (p : policy) : Prop :=
  p_mode p = ModeSupersede /\
  forall k r, p_regs p !! k = Some r -> r_done r = false -> k = p_next p.

Definition keeps_mode (e : pevent) : Prop := match e with PSetMode _ => False | _ => True end.

Lemma single_writer_step p e :
  policy_ok p -> single_writer p -> keeps_mode e -> single_writer (pstep p e).
Proof.
  intros (Hn & Hb & Hk) [Hm Hi] He.
  destruct e; simpl; try done.
  - rewrite Hm. unfold p_join. rewrite Hm, i64_small by lia. split; [done|].
    simpl. intros k rg [[<- <-]|[Hne Hl]]%lookup_insert_Some; simpl.
    + case_bool_decide as Hs; simpl.
      * destruct Hs as [r0 Hr0]. pose proof (Hk _ _ Hr0).
        assert ((p_writer p =? 0) = false) as -> by lia.
        rewrite andb_false_r. split; [done|lia].
      * rewrite andb_true_r. destruct (CanWrite i); split; try done; lia.
    + pose proof (Hk _ _ Hl). rewrite (Hi _ _ Hl). case_bool_decide as Hs; simpl.
      * destruct Hs as [r0 Hr0]. pose proof (Hk _ _ Hr0).
        assert ((p_writer p =? 0) = false) as -> by lia. by rewrite andb_false_r.
      * rewrite andb_true_r. split.
        -- intros ->. destruct Hs. eauto.
        -- destruct (CanWrite i); lia.
  - split; [done|]. simpl. intros j rg Hj.
    apply lookup_alter_Some in Hj as [(<- & r0 & Hr0 & ->)|[Hne Hj]]; simpl.
    + pose proof (Hk _ _ Hr0). destruct (p_writer p =? k) eqn:?; go_bool; split; try done; lia.
    + pose proof (Hk _ _ Hj). rewrite (Hi _ _ Hj).
      destruct (p_writer p =? k) eqn:?; go_bool; lia.
  - destruct (p_regs p !! k) eqn:Ek; [|done]. rewrite bool_decide_eq_true_2 by done.
    split; [done|]. simpl. intros j rg Hj.
    apply lookup_alter_Some in Hj as [(<- & r0 & Hr0 & ->)|[Hne Hj]]; simpl; [done|].
    split; [|done]. intros Hwr'.
    apply lookup_alter_Some in Hj as [(<- & r0 & Hr0 & ->)|[Hne' Hj]]; simpl in *; [done|].
    apply Hi in Hj. apply Hj in Hwr'. lia.
  - split; [done|]. simpl. intros j rg Hj.
    apply lookup_alter_Some in Hj as [(<- & r0 & Hr0 & ->)|[Hne Hj]]; simpl; eauto.
  - split; [done|]. simpl. intros j rg [Hne Hj]%lookup_delete_Some.
    pose proof (Hk _ _ Hj). rewrite (Hi _ _ Hj). destruct (p_writer p =? k) eqn:?; go_bool; lia.
Qed.

Lemma exclusive_step p e :
  policy_ok p -> exclusive p -> keeps_mode e -> exclusive (pstep p e).
Proof.
  intros (Hn & Hb & Hk) [Hm Hi] He.
  destruct e; simpl; try done.
  - rewrite Hm. case_bool_decide as Hs; [|done]. unfold p_join. rewrite Hs. split; [done|].
    simpl. intros k j. rewrite !lookup_insert_is_Some.
    by intros [<-|[_ []%lookup_empty_is_Some]] [<-|[_ []%lookup_empty_is_Some]].
  - split; [done|]. simpl. intros i j. rewrite !lookup_alter_is_Some. apply Hi.
  - rewrite Hm. destruct (p_regs p !! k); [|done]. rewrite bool_decide_eq_false_2 by done.
    split; [done|]. simpl. intros i j. rewrite !lookup_alter_is_Some. apply Hi.
  - split; [done|]. simpl. intros i j. rewrite !lookup_alter_is_Some. apply Hi.
  - split; [done|]. simpl. intros i j. rewrite !lookup_delete_is_Some. naive_solver.
  - split; [done|]. simpl. intros i j [? Hx]. done.
Qed.

Lemma superseding_step p e :
  policy_ok p -> superseding p -> keeps_mode e -> superseding (pstep p e).
Proof.
  intros (Hn & Hb & Hk) [Hm Hi] He.
  destruct e; simpl; try done.
  - rewrite Hm. split; [done|]. simpl.
    intros k rg [[<- <-]|[Hne Hl]]%lookup_insert_Some; [done|].
    rewrite lookup_fmap in Hl. apply fmap_Some in Hl as (r0 & _ & ->). done.
  - split; [done|]. simpl. intros j rg Hj.
    apply lookup_alter_Some in Hj as [(<- & r0 & Hr0 & ->)|[Hne Hj]]; simpl; eauto.
  - rewrite Hm. destruct (p_regs p !! k); [|done]. rewrite bool_decide_eq_false_2 by done.
    split; [done|]. simpl. intros j rg Hj.
    apply lookup_alter_Some in Hj as [(<- & r0 & Hr0 & ->)|[Hne Hj]]; simpl; eauto.
  - split; [done|]. simpl. intros j rg Hj.
    apply lookup_alter_Some in Hj as [(<- & r0 & Hr0 & ->)|[Hne Hj]]; simpl; eauto. done.
  - split; [done|]. simpl. intros j rg [Hne Hj]%lookup_delete_Some. eauto.
Qed.

(** ** Runs without mode switches *)

Definition no_set_mode (e : event) : Prop :=
  match e with EvControl _ _ (CSetMode _) => False | _ => True end.

Lemma label_keeps_mode w e pe : no_set_mode e -> label w e = Some pe -> keeps_mode pe.
Proof.
  destruct e; simpl; try naive_solver.
  - destruct (fromSeq_of a); naive_solver.
  - destruct msg; simpl; try naive_solver.
    + destruct (clientByRemoteIDLocked _ _); naive_solver.
    + case_match; naive_solver.
    + case_match; naive_solver.
Qed.

(** An invariant of one mode's policy holds along every run in that mode. *)
Lemma reach_mode (I : policy -> Prop) m es w :
  I (mkPolicy m 0 ∅ 0) ->
  (forall p e, policy_ok p -> I p -> keeps_mode e -> I (pstep p e)) ->
  reach m es w -> len es < 2 ^ 63 -> Forall no_set_mode es -> I (policy_of (sess w)).
Proof.
  intros H0 Hstep Hr Hl Hm. apply (reach_policy I keeps_mode m es w); auto.
  intros w0 e w' _ He pe. apply label_keeps_mode. rewrite Forall_forall in Hm.
  by apply Hm, list_elem_of_In.
Qed.

Lemma client_regs s k c : client s k = Some c -> p_regs (policy_of s) !! k = Some (reg_of c).
Proof.
  intros Hc. change (p_regs (policy_of s)) with (regs s). by rewrite lookup_regs, Hc.
Qed.

(** ** Concrete runs for the witnesses *)

Definition owner_stream : stream := mkStream (str "a") (mkIdentity (str "owner") (mkCaps true false false)).
Definition writer_stream : stream := mkStream (str "b") (mkIdentity (str "writer") (mkCaps false true true)).

(** Two attaches and the first client's self-demotion. *)
Definition run2 : list event :=
  [EvAttach owner_stream FreshPTY; EvAttach writer_stream FreshPTY;
   EvControl 7 owner_stream (CPromote 2)].

(** Run the events in order; [None] if one of them is not enabled. *)
Fixpoint exec (w : world) (es : list event) : option world :=
  match es with
  | [] => Some w
  | e :: es => w ← wstep w e; exec w es
  end.

Lemma exec_cons w e es w' :
  exec w (e :: es) = Some w' <-> exists w1, wstep w e = Some w1 /\ exec w1 es = Some w'.
Proof. cbn [exec]. by rewrite bind_Some. Qed.

Lemma exec_steps w es w' : Forall event_ok es -> exec w es = Some w' -> steps wrel w es w'.
Proof.
  revert w. induction es as [|e es IH]; intros w Hok Hx; simpl in *.
  - simplify_eq. constructor.
  - inversion_clear Hok as [|? ? He Hok'].
    destruct (wstep w e) as [w1|] eqn:E; simplify_eq/=.
    apply (steps_app wrel w [e] w1 es w'); [apply steps_one; by split|auto].
Qed.

(** The world after a run whose events are all enabled. *)
Definition runs (m : Mode) (es : list event) : world :=
  default (initWorld m) (exec (initWorld m) es).

Lemma runs_reach m es :
  bool_decide (is_Some (exec (initWorld m) es)) = true -> Forall event_ok es ->
  reach m es (runs m es).
Proof.
  intros [w Hw]%bool_decide_eq_true Hok. apply exec_steps; [done|].
  unfold runs. by rewrite Hw.
Qed.

(** What the Go declarations and the session's comments say of its fields:
    ids are positive int64 and key the map, no pointer dangles, geometry is
    uint32, a channel never exceeds its buffer, and the writer seat is empty
    or held by a registered client. *)
Record well_typed (s : Session) : Prop := mk_well_typed {
  wt_client k c : client s k = Some c ->
    id c = k /\ 0 < k < 2 ^ 63 /\ 0 <= cols c < 2 ^ 32 /\ 0 <= rows c < 2 ^ 32 /\ len (outCh c) <= clientBufferChunks;
  wt_registered k : k ∈ clients s -> is_Some (client s k);
  wt_writer : writerID s = 0 \/ is_Some (client s (writerID s));
  wt_pending r w h : pendingResize s !! r = Some (w, h) -> 0 <= w < 2 ^ 32 /\ 0 <= h < 2 ^ 32;
}.

(** ** The claims *)

(** C28: the session's fields keep their types along every interleaving of
    attaches, replays, input, resizes, control messages, pump steps and
    detaches in any mode: ids are positive int64 and key the registry, every
    registered id has its client, geometries are uint32 values, no output
    channel holds more than its 256 chunks, and the writer seat is vacant or
    names a registered client. *)
Theorem session_fields_well_typed m es w (Hrun : reach m es w) (Hlen : len es < 2 ^ 63) : well_typed (sess w).
Proof.
  destruct (reach_wf m es w Hrun Hlen) as [Hw Hn].
  assert (forall k, k ∈ clients (sess w) -> is_Some (client (sess w) k)) as Hreg.
  { intros k Hk. destruct (wf_clients _ Hw k Hk) as [c Hc]. exists c. by apply client_Some. }
  constructor; [|exact Hreg| |].
  - intros k c Hc. destruct (wf_client _ k c Hw Hc) as (? & ? & ? & ? & ?). split_and!; try done; lia.
  - destruct (wf_writer _ Hw) as [?|Hin]; [by left|right; by apply Hreg].
  - intros r c h Hp. exact (wf_pending _ Hw r (c, h) Hp).
Qed.

Lemma session_fields_well_typed_witness :
  exists w, reach ModePrimaryObserver run2 w /\ well_typed (sess w) /\ client (sess w) 2 <> None.
Proof.
  exists (runs ModePrimaryObserver run2).
  assert (reach ModePrimaryObserver run2 (runs ModePrimaryObserver run2)) as Hr
    by (apply runs_reach; [vm_compute; reflexivity|repeat constructor]).
  split; [exact Hr|]. split; [|vm_compute; discriminate].
  apply (session_fields_well_typed ModePrimaryObserver run2); [exact Hr|reflexivity].
Defined.

(** C3: in PrimaryObserver mode, along every interleaving of attaches, control
    messages, removals and pumps with no mode switch, a registered client has
    write permission exactly when it holds the writer seat: never two
    writers, and the seat's holder can always type. *)
Theorem primary_observer_single_writer es w
  (Hrun : reach ModePrimaryObserver es w) (Hlen : len es < 2 ^ 63)
  (Hmode : Forall no_set_mode es) k c (Hc : client (sess w) k = Some c) :
  canWrite c = true <-> k = writerID (sess w).
Proof.
  assert (single_writer (policy_of (sess w))) as [_ H].
  { eapply reach_mode; eauto using single_writer_step. split; [done|].
    intros j r Hj. done. }
  apply (H k (reg_of c)). by apply client_regs.
Qed.

Lemma primary_observer_single_writer_witness :
  reach ModePrimaryObserver run2 (runs ModePrimaryObserver run2) /\
  forall c, client (sess (runs ModePrimaryObserver run2)) 1 = Some c -> canWrite c <> true.
Proof.
  assert (reach ModePrimaryObserver run2 (runs ModePrimaryObserver run2)) as Hr
    by (apply runs_reach; [vm_compute; reflexivity|repeat constructor]).
  split; [exact Hr|]. intros c Hc Hw.
  apply (primary_observer_single_writer run2 _ Hr ltac:(done) ltac:(repeat constructor) 1 c Hc) in Hw.
  vm_compute in Hw. discriminate.
Defined.

(** In Exclusive mode, along every interleaving with no mode switch, at
    most one client is registered. *)
Theorem exclusive_admits_one es w
  (Hrun : reach ModeExclusive es w) (Hlen : len es < 2 ^ 63) (Hmode : Forall no_set_mode es)
  k j c d (Hk : client (sess w) k = Some c) (Hj : client (sess w) j = Some d) :
  k = j.
Proof.
  assert (exclusive (policy_of (sess w))) as [_ H].
  { eapply reach_mode; eauto using exclusive_step. split; [done|]. intros ? ? [? Hx]. done. }
  apply H; eexists; by apply client_regs.
Qed.

Lemma exclusive_admits_one_witness :
  reach ModeExclusive run2 (runs ModeExclusive run2) /\
  bool_decide (is_Some (client (sess (runs ModeExclusive run2)) 1)) = true /\
  forall d, client (sess (runs ModeExclusive run2)) 2 <> Some d.
Proof.
  assert (reach ModeExclusive run2 (runs ModeExclusive run2)) as Hr
    by (apply runs_reach; [vm_compute; reflexivity|repeat constructor]).
  split; [exact Hr|]. split; [vm_compute; reflexivity|]. intros d Hd.
  destruct (client (sess (runs ModeExclusive run2)) 1) as [c|] eqn:Hc;
    [|vm_compute in Hc; discriminate].
  pose proof (exclusive_admits_one run2 _ Hr ltac:(done) ltac:(repeat constructor) 1 2 c d Hc Hd).
  discriminate.
Defined.

(** In Supersede mode, along every interleaving with no mode switch, every
    registered client but the most recently admitted one has been kicked: at
    any time at most one attach is live, and it is the newest. *)
Theorem supersede_keeps_newest es w
  (Hrun : reach ModeSupersede es w) (Hlen : len es < 2 ^ 63) (Hmode : Forall no_set_mode es)
  k c (Hk : client (sess w) k = Some c) (Hd : done c = false) :
  k = nextID (sess w).
Proof.
  assert (superseding (policy_of (sess w))) as [_ H].
  { eapply reach_mode; eauto using superseding_step. split; [done|]. intros ? ? Hx. done. }
  apply (H k (reg_of c)); [by apply client_regs|done].
Qed.

Lemma supersede_keeps_newest_witness :
  reach ModeSupersede run2 (runs ModeSupersede run2) /\
  forall c, client (sess (runs ModeSupersede run2)) 1 = Some c -> done c <> false.
Proof.
  assert (reach ModeSupersede run2 (runs ModeSupersede run2)) as Hr
    by (apply runs_reach; [vm_compute; reflexivity|repeat constructor]).
  split; [exact Hr|]. intros c Hc Hd.
  pose proof (supersede_keeps_newest run2 _ Hr ltac:(done) ltac:(repeat constructor) 1 c Hc Hd) as H.
  vm_compute in H. discriminate.
Defined.

(** What a control message of a non-owner may change: at most its own
    client's write permission, by demoting itself. *)
Definition harmless (st : stream) (msg : ControlMessage) (s s' : Session) : Prop :=
  mode s' = mode s /\
  forall k c, client s k = Some c ->
    exists c', client s' k = Some c' /\ identity c' = identity c /\ done c' = done c /\
      (canWrite c' = canWrite c \/
       (msg = CDemote /\ remote c = RemoteID st /\ canWrite c' = false)).

(** C27: a control stream whose identity is not the owner's can neither switch
    the mode, nor evict a client, nor grant write permission: whatever
    message it sends, every registered client stays registered with the same
    identity and eviction state, and its write permission changes at most by
    the sender's own client demoting itself. *)
Theorem non_owner_control_is_harmless w h st msg w'
  (Hwf : wf (sess w)) (Howner : IsOwner (IdentityOf st) = false)
  (Hstep : wrel w (EvControl h st msg) w') :
  harmless st msg (sess w) (sess w').
Proof.
  pose proof (policy_step _ _ _ Hwf (proj2 Hstep)) as Hp. simpl in Hp.
  assert (Hsame : policy_of (sess w') = policy_of (sess w) -> harmless st msg (sess w) (sess w')).
  { intros E. split; [apply (f_equal p_mode E)|]. intros k c Hc.
    pose proof (client_regs _ _ _ Hc) as Hr. rewrite <- E in Hr. simpl in Hr.
    fold (regs (sess w')) in Hr. rewrite lookup_regs in Hr.
    apply fmap_Some in Hr as (c' & Hc' & Heq). injection Heq. intros. exists c'. auto. }
  rewrite Howner in Hp. destruct msg; try (apply Hsame; exact Hp).
  pose proof (clientByRemoteID_spec (sess w) (RemoteID st) Hwf) as Hs.
  destruct (clientByRemoteIDLocked _ _) as [l|]; [|apply Hsame; exact Hp].
  destruct Hs as (Hl & Hrl & _). simpl in Hp. unfold pstep in Hp.
  split; [apply (f_equal p_mode Hp)|]. intros k c Hc.
  pose proof (client_regs _ _ _ Hc) as Hr. simpl in Hr.
  apply (f_equal (fun p => p_regs p !! k)) in Hp. simpl in Hp.
  fold (regs (sess w')) in Hp. rewrite lookup_regs in Hp.
  destruct (decide (k = id l)) as [->|Hne].
  - rewrite lookup_alter_eq, Hr in Hp. apply fmap_Some in Hp as (c' & Hc' & Heq).
    injection Heq. intros. exists c'. split_and!; auto. right. split_and!; auto. congruence.
  - rewrite lookup_alter_ne, Hr in Hp by done. apply fmap_Some in Hp as (c' & Hc' & Heq).
    injection Heq. intros. exists c'. auto.
Qed.

Lemma non_owner_control_is_harmless_witness :
  let w := runs ModeMultiWrite run2 in
  wf (sess w) /\ IsOwner (IdentityOf writer_stream) = false /\
  exists w', wrel w (EvControl 1 writer_stream (CKick 1)) w' /\ mode (sess w') = ModeMultiWrite.
Proof.
  intros w.
  assert (reach ModeMultiWrite run2 w) as Hr
    by (apply runs_reach; [vm_compute; reflexivity|repeat constructor]).
  pose proof (proj1 (reach_wf _ _ _ Hr ltac:(done))) as Hw.
  split; [exact Hw|]. split; [reflexivity|]. eexists. split; [split; [exact I|reflexivity]|].
  pose proof (non_owner_control_is_harmless w 1 writer_stream (CKick 1) _ Hw eq_refl
    (conj I eq_refl)) as [H _].
  rewrite H. vm_compute. reflexivity.
Defined.
