(* ===== verification/VtermIO.v ===== *)
(** * vterm: the bytes that flow through a session

    Where typed bytes may come from, what an attached client's stream carries
    of the child's output, and the PTY size the session derives from its
    clients; over every run of the goroutines of Bridge.v. *)

From S2P Require Import Prelude Streambuf Varint Queries Identity Session Bridge VtermPolicy.

(** ** How a step may change the client objects *)

(** [grows Q s s']: objects persist with their identity, and a write
    permission that is on in [s'] was on in [s], is granted by the identity,
    or belongs to a client of [Q]. *)
Definition grows (Q : Z -> Prop) (s s' : Session) : Prop :=
  (forall k c, heap s !! k = Some c ->
     exists c', heap s' !! k = Some c' /\ identity c' = identity c) /\
  (forall k c', heap s' !! k = Some c' -> canWrite c' = true ->
     CanWrite (identity c') = true \/ Q k \/
     exists c, heap s !! k = Some c /\ canWrite c = true /\ identity c = identity c').

Definition keeps_perm (f : sessionClient -> sessionClient) : Prop :=
  forall c, identity (f c) = identity c /\ (canWrite (f c) = true -> canWrite c = true).

Lemma grows_heap Q s s' : heap s' = heap s -> grows Q s s'.
Proof. intros E. split; rewrite E; eauto 10. Qed.

Lemma grows_trans Q s1 s2 s3 : grows Q s1 s2 -> grows Q s2 s3 -> grows Q s1 s3.
Proof.
  intros [H1 H2] [H3 H4]. split.
  - intros k c (c' & Hc' & ?)%H1. apply H3 in Hc' as (c'' & ? & ?). exists c''. split; congruence.
  - intros k c3 Hc3 Hw. destruct (H4 k c3 Hc3 Hw) as [?|[?|(c2 & Hc2 & Hw2 & Hi)]]; auto.
    destruct (H2 k c2 Hc2 Hw2) as [?|[?|(c1 & ? & ? & ?)]]; [left|auto|]; [congruence|].
    right; right. exists c1. split_and!; congruence.
Qed.

Lemma grows_update Q s k f : keeps_perm f -> grows Q s (update s k f).
Proof.
  intros Hf. split; simpl.
  - intros j c Hj. rewrite lookup_alter. case_decide; subst; rewrite Hj; simpl;
      eexists; split; try done. apply Hf.
  - intros j c' Hj Hw. apply lookup_alter_Some in Hj as [(<- & c & Hc & ->)|[? Hc]].
    + right; right. exists c. destruct (Hf c). auto.
    + right; right. eauto.
Qed.

Lemma grows_for_clients Q s f : keeps_perm f -> grows Q s (for_clients s f).
Proof.
  intros Hf. split.
  - intros j c Hj. rewrite heap_for_clients, Hj. simpl. eexists. split; [done|].
    case_bool_decide; [apply Hf|done].
  - intros j c' Hj Hw. rewrite heap_for_clients in Hj. apply fmap_Some in Hj as (c & Hc & ->).
    right; right. exists c. destruct (Hf c). case_bool_decide; auto.
Qed.

Lemma kick_perm : keeps_perm kick.
Proof. done. Qed.
Lemma demote_perm : keeps_perm (set_canWrite false).
Proof. done. Qed.
Lemma geometry_perm w h : keeps_perm (set_geometry w h).
Proof. done. Qed.
Lemma offer_perm chunk : keeps_perm (offer chunk).
Proof. intros c. unfold offer. by case_match. Qed.
Lemma take_perm : keeps_perm take_chunk.
Proof. done. Qed.
Lemma written_perm chunk fail : keeps_perm (written chunk fail).
Proof. done. Qed.

#[local] Hint Resolve kick_perm demote_perm geometry_perm offer_perm take_perm written_perm
  grows_update grows_for_clients : mosey.

Lemma grows_admit Q s i s' cw :
  admission s i = Some (s', cw) -> grows Q s s' /\ (cw = true -> CanWrite i = true).
Proof.
  unfold admission. destruct (mode s); intros; repeat case_bool_decide; simplify_eq; split;
    try (by apply grows_heap); auto with mosey; by intros [? _]%andb_true_iff.
Qed.

Lemma grows_attach Q s st :
  wf s -> nextID s + 1 < 2 ^ 63 -> grows Q s (addClientLocked s st (IdentityOf st)).1.1.
Proof.
  intros Hw Hb. unfold addClientLocked.
  destruct (admission s _) as [[s' cw]|] eqn:Ha; [|by apply grows_heap].
  pose proof (wf_admit _ _ _ _ Hw Ha) as [Hn Hh _ _ _].
  destruct (grows_admit Q _ _ _ _ Ha) as [Hg Hcw].
  destruct (admit_frame _ _ _ _ Ha) as (En & _). simpl. rewrite En in *.
  rewrite i64_small by lia.
  eapply grows_trans; [exact Hg|].
  assert (forall s2 pc pr, heap s2 = <[nextID s + 1 := mkClient (nextID s + 1) (IdentityOf st)
    (RemoteID st) [] false cw pc pr 0 []]> (heap s') -> grows Q s' s2) as H.
  { intros s2 pc pr E. split; rewrite E.
    - intros k c Hk. destruct (Hh k c Hk) as (_ & ? & _).
      exists c. by rewrite lookup_insert_ne by lia.
    - intros k c' [[<- <-]|[_ Hk]]%lookup_insert_Some Hwr; simpl in *; eauto 10. }
  destruct (default (0, 0) _) as [pc pr].
  destruct (pendingResize s' !! _), (bool_decide _ && cw); simpl; by eapply H.
Qed.

Lemma grows_promote s k : grows (fun j => j = k) s (promoteClient s k).1.
Proof.
  unfold promoteClient. destruct (client s k) as [c0|]; [|by apply grows_heap].
  assert (forall s1, grows (fun j => j = k) s1 (update s1 k (set_canWrite true))) as Hset.
  { intros s1. split; simpl.
    - intros j c Hj. rewrite lookup_alter. case_decide; subst; rewrite Hj; simpl; eauto.
    - intros j c' Hj Hw. apply lookup_alter_Some in Hj as [(<- & c & Hc & ->)|[? Hc]]; eauto 10. }
  simpl. eapply grows_trans; [|apply Hset].
  case_bool_decide; [|by apply grows_heap].
  destruct (client s (writerID s)); [destruct (negb _)|]; try by apply grows_heap.
  eapply grows_trans; [apply (grows_update _ s (writerID s) (set_canWrite false)); auto with mosey|].
  by apply grows_heap.
Qed.

(** The clients an event's owner-issued Promote names. *)
Definition promotes (e : event) (k : Z) : Prop :=
  match e with
  | EvControl _ st (CPromote j) => IsOwner (IdentityOf st) = true /\ j = k
  | _ => False
  end.

Lemma grows_control w h st msg :
  grows (promotes (EvControl h st msg)) (sess w) (controlLocked (sess w) st msg).1.
Proof.
  destruct msg; simpl; try by apply grows_heap.
  - destruct (_ || _); [by apply grows_heap|]. unfold resizeLocked.
    destruct (clientByRemoteIDLocked _ _); simpl; [|by apply grows_heap].
    destruct (minGeometryLocked _). simpl. auto with mosey.
  - destruct (CanWrite _); simpl; [|by apply grows_heap]. unfold applySignal.
    destruct (os_signal kind), (running (sess w)); by apply grows_heap.
  - destruct (IsOwner _); simpl; [|by apply grows_heap]. case_bool_decide; by apply grows_heap.
  - unfold demoteRemote. destruct (clientByRemoteIDLocked _ _) as [c|]; [|by apply grows_heap].
    simpl. eapply grows_trans; [apply (grows_update _ _ (id c) (set_canWrite false)); auto with mosey|].
    destruct (_ =? _); by apply grows_heap.
  - destruct (IsOwner _) eqn:Eo; simpl; [|by apply grows_heap].
    destruct (grows_promote (sess w) k) as [H1 H2]. split; [done|].
    intros j c' Hj Hw. destruct (H2 j c' Hj Hw) as [?|[->|?]]; simpl; auto.
  - destruct (IsOwner _); simpl; [|by apply grows_heap]. unfold kickClient.
    destruct (client _ _); simpl; auto with mosey. by apply grows_heap.
Qed.

Lemma grows_step w e w' :
  wf (sess w) -> nextID (sess w) + 1 < 2 ^ 63 -> wstep w e = Some w' ->
  grows (promotes e) (sess w) (sess w').
Proof.
  intros Hw Hb He. destruct e.
  - simpl in He. simplify_eq. unfold attachStep. destruct (fromSeq_of a); [|by apply grows_heap].
    pose proof (grows_attach (promotes (EvAttach st a)) (sess w) st Hw Hb).
    by destruct (addClientLocked _ _ _) as [[s' [k|]] sz].
  - wstep_inv He. destruct (_ && _); by apply grows_heap.
  - wstep_inv He. by apply grows_heap.
  - wstep_inv He. unfold sendReplay. case_match; auto with mosey; by apply grows_heap.
  - wstep_inv He. auto with mosey.
  - wstep_inv He; auto with mosey.
  - wstep_inv He; by apply grows_heap.
  - wstep_inv He; by apply grows_heap.
  - wstep_inv He; by apply grows_heap.
  - wstep_inv He; by apply grows_heap.
  - assert (grows (promotes (EvRemove k)) (sess w) (removeClient (sess w) k).1) as Hg.
    { unfold removeClient. destruct (client _ _); simpl; [|by apply grows_heap; case_match].
      eapply grows_trans; [apply (grows_update _ _ k kick); auto with mosey|].
      apply grows_heap. by case_match. }
    wstep_inv He; exact Hg.
  - pose proof (grows_control w h st msg) as Hg. simpl in He.
    destruct (controlLocked (sess w) st msg) as [s' sz]. wstep_inv He; done.
  - wstep_inv He; by apply grows_heap.
  - wstep_inv He; by apply grows_heap.
  - assert (heap (pumpRead (sess w) buf).1 = heap (sess w)) as Hg.
    { unfold pumpRead. destruct (process _ _) as [[d o] r]. by destruct (0 <? len r), (0 <? len o). }
    simpl in He. destruct (pumpRead (sess w) buf) as [s' o].
    wstep_inv He; by apply grows_heap.
  - wstep_inv He. unfold broadcast. auto with mosey.
  - wstep_inv He. eapply grows_trans; [apply (grows_for_clients _ _ kick); auto with mosey|].
    by apply grows_heap.
Qed.

(** ** Where typed bytes come from *)

Definition promoted (es : list event) (k : Z) : Prop := Exists (fun e => promotes e k) es.

Definition authorised (es : list event) (s : Session) (k : Z) : Prop :=
  exists c, heap s !! k = Some c /\ (CanWrite (identity c) = true \/ promoted es k).

(** Every write permission, every chunk the input goroutines hold and every
    chunk already written belongs to an authorised client. *)
Record typing_inv (es : list event) (w : world) : Prop := mk_typing {
  ty_perm : forall k c, heap (sess w) !! k = Some c -> canWrite c = true ->
    CanWrite (identity c) = true \/ promoted es k;
  ty_held : forall k b buf err, bridges w !! k = Some b -> b_in b = InWrite buf err ->
    authorised es (sess w) k;
  ty_log : forall k p, WriteInput k p ∈ ptyf (sess w) -> authorised es (sess w) k;
}.

Lemma authorised_grows Q es e s s' k :
  grows Q s s' -> authorised es s k -> authorised (es ++ [e]) s' k.
Proof.
  intros [Hg _] (c & Hc & Ha). destruct (Hg k c Hc) as (c' & Hc' & Hi).
  exists c'. split; [done|]. rewrite Hi. unfold promoted. rewrite Exists_app. tauto.
Qed.

Lemma ptyf_pumpRead s buf k p :
  WriteInput k p ∈ ptyf (pumpRead s buf).1 -> WriteInput k p ∈ ptyf s.
Proof.
  unfold pumpRead. destruct (process _ _) as [[d o] r].
  destruct (0 <? len r), (0 <? len o); simpl; try done; set_solver.
Qed.

Lemma ptyf_controlLocked s st msg : ptyf (controlLocked s st msg).1 = ptyf s.
Proof.
  destruct msg; simpl; try done.
  - destruct (_ || _); [done|]. unfold resizeLocked. destruct (clientByRemoteIDLocked _ _); simpl;
      [by destruct (minGeometryLocked _)|done].
  - destruct (CanWrite _); [|done]. simpl. unfold applySignal. by destruct (os_signal kind), (running s).
  - destruct (IsOwner _); [|done]. simpl. by case_bool_decide.
  - unfold demoteRemote. destruct (clientByRemoteIDLocked _ _); [|done]. simpl. by case_match.
  - destruct (IsOwner _); [|done]. simpl. unfold promoteClient. destruct (client s k); [|done].
    simpl. case_bool_decide; [|done]. by repeat case_match.
  - destruct (IsOwner _); [|done]. simpl. unfold kickClient. by destruct (client s k).
Qed.

Lemma ptyf_addClientLocked s st i : ptyf (addClientLocked s st i).1.1 = ptyf s.
Proof.
  unfold addClientLocked. destruct (admission s i) as [[s' cw]|] eqn:Ha; [|done].
  destruct (admit_frame _ _ _ _ Ha) as (_ & _ & _ & _ & <- & _). simpl.
  destruct (default _ _), (pendingResize s' !! _), (bool_decide _ && cw); done.
Qed.

(** A new call in the PTY log is typed input only when the input goroutine of
    that client was holding it. *)
Lemma ptyf_step w e w' k p :
  wstep w e = Some w' -> WriteInput k p ∈ ptyf (sess w') ->
  WriteInput k p ∈ ptyf (sess w) \/
  exists b err, bridges w !! k = Some b /\ b_in b = InWrite p err.
Proof.
  intros He Hin. destruct e.
  - simpl in He. simplify_eq. left. unfold attachStep in Hin. destruct (fromSeq_of a); [|done].
    rewrite <- (ptyf_addClientLocked (sess w) st (IdentityOf st)).
    by destruct (addClientLocked _ _ _) as [[s' [j|]] sz].
  - wstep_inv He. left. destruct (_ && _); simpl in Hin; set_solver.
  - wstep_inv He. by left.
  - wstep_inv He. left. unfold sendReplay in Hin. by case_match.
  - wstep_inv He. by left.
  - wstep_inv He; by left.
  - wstep_inv He; by left.
  - wstep_inv He; by left.
  - wstep_inv He; apply elem_of_app in Hin as [?|Hin]; auto;
      apply list_elem_of_singleton in Hin; simplify_eq; eauto.
  - wstep_inv He; by left.
  - left. assert (ptyf (removeClient (sess w) k0).1 = ptyf (sess w)) as E.
    { unfold removeClient. destruct (client _ _); simpl; by case_match. }
    rewrite <- E. wstep_inv He; exact Hin.
  - left. rewrite <- (ptyf_controlLocked (sess w) st msg). simpl in He.
    destruct (controlLocked (sess w) st msg) as [s' sz]. wstep_inv He; done.
  - wstep_inv He; left; simpl in Hin; set_solver.
  - wstep_inv He; left; simpl in Hin; set_solver.
  - left. apply (ptyf_pumpRead (sess w) buf). simpl in He.
    destruct (pumpRead (sess w) buf) as [s' o] eqn:E. wstep_inv He; try done.
    unfold pumpRead in E. destruct (process _ _) as [[d o'] r].
    destruct (0 <? len r), (0 <? len o'); simplify_eq/=; set_solver.
  - wstep_inv He. by left.
  - wstep_inv He. by left.
Qed.

(** An input goroutine holds a chunk because it held it before the step, or
    because it read its client's permission as true in it. *)
Lemma held_step w e w' k b buf err :
  wstep w e = Some w' -> bridges w' !! k = Some b -> b_in b = InWrite buf err ->
  (exists b0 err0, bridges w !! k = Some b0 /\ b_in b0 = InWrite buf err0) \/
  exists c, heap (sess w) !! k = Some c /\ canWrite c = true.
Proof.
  intros He Hb Hin.
  assert (forall w1 j b1, with_bridge w1 j b1 = w' -> bridges w1 = bridges w ->
    (exists b0, bridges w !! j = Some b0 /\ b_in b1 = b_in b0) \/ b_in b1 = InStop \/
      b_in b1 = InRead ->
    exists b0 err0, bridges w !! k = Some b0 /\ b_in b0 = InWrite buf err0) as Hset.
  { intros w1 j b1 <- E Hj. simpl in Hb. rewrite E in Hb.
    apply lookup_insert_Some in Hb as [[<- <-]|[_ Hb]]; [|eauto].
    destruct Hj as [(b0 & ? & ?)|[?|?]]; [|congruence|congruence]. exists b0, err. split; congruence. }
  destruct e.
  - left. simpl in He. injection He as He. unfold attachStep in He.
    destruct (fromSeq_of a); [|subst; eauto].
    destruct (addClientLocked _ _ _) as [[s' [j|]] sz]; [|subst; eauto].
    eapply Hset; [exact He|done|]. auto.
  - left. wstep_inv He. eapply Hset; [reflexivity|done|]. auto.
  - left. wstep_inv He. eapply Hset; [reflexivity|done|]. auto.
  - left. wstep_inv He. eapply Hset; [reflexivity|done|]. auto.
  - left. wstep_inv He. eapply Hset; [reflexivity|done|]. eauto.
  - left. wstep_inv He; (eapply Hset; [reflexivity|done|]); eauto.
  - left. wstep_inv He. eapply Hset; [reflexivity|done|]. eauto.
  - wstep_inv He; apply lookup_insert_Some in Hb as [[<- <-]|[_ Hb]]; eauto; simpl in Hin; try done.
    + simplify_eq. go_bool. eauto.
    + by destruct err0.
  - left. wstep_inv He; (eapply Hset; [reflexivity|done|]); simpl; case_match; auto.
  - left. wstep_inv He. eapply Hset; [reflexivity|done|]. eauto.
  - left. wstep_inv He; apply lookup_insert_Some in Hb as [[<- <-]|[_ Hb]]; eauto.
  - left. wstep_inv He; eauto.
  - left. wstep_inv He; eauto.
  - left. wstep_inv He; eauto.
  - left. wstep_inv He; eauto.
  - left. wstep_inv He; eauto.
  - left. wstep_inv He; eauto.
Qed.

Lemma typing_run m es w : reach m es w -> len es < 2 ^ 63 -> typing_inv es w.
Proof.
  intros Hr. unfold reach in Hr. remember (initWorld m) as w0 eqn:E0.
  induction Hr as [|w0 es w1 e w2 Hr IH Hs]; intros Hl; subst.
  - constructor; simpl; try done. intros k p Hin. set_solver.
  - rewrite len_app in Hl. change (len [e]) with 1 in Hl.
    destruct (IH eq_refl ltac:(lia)) as [Hp Hh Ht].
    destruct (reach_wf m es w1 Hr ltac:(lia)) as [Hw Hn]. destruct Hs as [_ Hs].
    pose proof (grows_step w1 e w2 Hw ltac:(lia) Hs) as Hg.
    constructor.
    + intros k c Hc Hcw. unfold promoted. rewrite Exists_app, Exists_cons.
      destruct (proj2 Hg k c Hc Hcw) as [?|[?|(c0 & Hc0 & Hw0 & Hi)]]; auto.
      destruct (Hp k c0 Hc0 Hw0) as [?|?]; [left; congruence|auto].
    + intros k b buf err Hb Hin.
      destruct (held_step w1 e w2 k b buf err Hs Hb Hin) as [(b0 & err0 & ? & ?)|(c & Hc & Hcw)];
        eapply authorised_grows; eauto.
      exists c. eauto.
    + intros k p Hin. eapply authorised_grows; [exact Hg|].
      destruct (ptyf_step w1 e w2 k p Hs Hin) as [?|(b & err & ? & ?)]; eauto.
Qed.

(** Every byte typed into the PTY comes from a client whose authenticated
    identity carries the Write (or Owner) capability, or that an owner's
    control stream explicitly promoted, along every interleaving and in every
    mode. *)
Theorem typed_bytes_are_authorised m es w
  (Hrun : reach m es w) (Hlen : len es < 2 ^ 63) k p
  (Hp : WriteInput k p ∈ ptyf (sess w)) :
  exists c, heap (sess w) !! k = Some c /\
    (CanWrite (identity c) = true \/ promoted es k).
Proof. exact (ty_log _ _ (typing_run m es w Hrun Hlen) k p Hp). Qed.

Definition reader_stream : stream := mkStream (str "c") (mkIdentity (str "reader") zeroCaps).

(** The owner attaches, then types. *)
Definition run_type : list event :=
  [EvAttach owner_stream FreshPTY; EvAttach reader_stream FreshPTY;
   EvAttachSize 1; EvAttachSize 2; EvReplay 1; EvReplay 2; EvSend 1; EvSend 2;
   EvInput 2 (str "no") false; EvInput 1 (str "ls") false; EvInWrite 1].

Lemma typed_bytes_are_authorised_witness :
  reach ModeMultiWrite run_type (runs ModeMultiWrite run_type) /\
  ptyf (sess (runs ModeMultiWrite run_type)) = [Setsize 80 24; WriteInput 1 (str "ls")] /\
  exists c, heap (sess (runs ModeMultiWrite run_type)) !! 1 = Some c.
Proof.
  assert (reach ModeMultiWrite run_type (runs ModeMultiWrite run_type)) as Hr
    by (apply runs_reach; [vm_compute; reflexivity|repeat constructor]).
  assert (ptyf (sess (runs ModeMultiWrite run_type)) =
    [Setsize 80 24; WriteInput 1 (str "ls")]) as Hp by (vm_compute; reflexivity).
  split; [exact Hr|]. split; [exact Hp|].
  destruct (typed_bytes_are_authorised ModeMultiWrite run_type _ Hr ltac:(done) 1 (str "ls"))
    as (c & Hc & _); [rewrite Hp; set_solver|].
  exists c. exact Hc.
Defined.
