(* ===== verification/VtermOutput.v ===== *)
(** * vterm: what an attached client sees of the child's output

    The output log of a session ([printed]) against the ring and against the
    bytes queued for and sent to one client, along every run. *)

From S2P Require Import Prelude Streambuf Varint Queries Identity Session Bridge VtermPolicy.

(** ** The ring stands for the output log *)

Definition ring_inv (w : world) : Prop :=
  len (printed w) + 1 < 2 ^ 64 ->
  OutputRing.repr (output (sess w)) (printed w) /\
  OutputRing.capacity (output (sess w)) = outputRingCapacity.

Lemma output_pumpRead s buf s' o :
  pumpRead s buf = (s', o) ->
  heap s' = heap s /\ clients s' = clients s /\
  match o with
  | None => output s' = output s
  | Some out => output s' = (OutputRing.Write (output s) out).1 /\ 0 < len out
  end.
Proof.
  unfold pumpRead. destruct (process _ _) as [[d out] r].
  destruct (0 <? len r), (0 <? len out) eqn:E; intros; simplify_eq/=; go_bool; done.
Qed.

Lemma output_controlLocked s st msg : output (controlLocked s st msg).1 = output s.
Proof.
  destruct msg; simpl; try done.
  - destruct (_ || _); [done|]. unfold resizeLocked. destruct (clientByRemoteIDLocked _ _); simpl;
      [by destruct (minGeometryLocked _)|done].
  - destruct (CanWrite _); [|done]. simpl. unfold applySignal. by destruct (os_signal kind), (running s).
  - destruct (IsOwner _); [|done]. simpl. by case_bool_decide.
  - unfold demoteRemote. destruct (clientByRemoteIDLocked _ _); [|done]. simpl. by case_match.
  - destruct (IsOwner _); [|done]. simpl. unfold promoteClient. destruct (client s k); [|done].
    simpl. case_bool_decide; [|done]. by repeat case_match.
  - destruct (IsOwner _); [|done]. simpl. unfold kickClient. by destruct (client s k).
Qed.

Lemma output_addClientLocked s st i : output (addClientLocked s st i).1.1 = output s.
Proof.
  unfold addClientLocked. destruct (admission s i) as [[s' cw]|] eqn:Ha; [|done].
  destruct (admit_frame _ _ _ _ Ha) as (_ & _ & _ & _ & _ & <- & _). simpl.
  destruct (default _ _), (pendingResize s' !! _), (bool_decide _ && cw); done.
Qed.

(** The output log moves only with the pump, and the ring with it. *)
Lemma output_step w e w' :
  wstep w e = Some w' ->
  match e with
  | EvPump buf =>
      pumping w = None /\
      ((output (sess w') = output (sess w) /\ printed w' = printed w /\ pumping w' = None) \/
       exists out, output (sess w') = (OutputRing.Write (output (sess w)) out).1 /\
         printed w' = printed w ++ out /\ pumping w' = Some out)
  | EvBroadcast =>
      exists chunk, pumping w = Some chunk /\ pumping w' = None /\
        output (sess w') = output (sess w) /\ printed w' = printed w /\
        sess w' = broadcast (sess w) chunk /\ bridges w' = bridges w
  | _ => output (sess w') = output (sess w) /\ printed w' = printed w /\ pumping w' = pumping w
  end.
Proof.
  intros He. destruct e.
  - simpl in He. simplify_eq. unfold attachStep. destruct (fromSeq_of a); [|done].
    pose proof (output_addClientLocked (sess w) st (IdentityOf st)).
    by destruct (addClientLocked _ _ _) as [[s' [k|]] sz].
  - wstep_inv He. by destruct (_ && _).
  - wstep_inv He. done.
  - wstep_inv He. unfold sendReplay. by case_match.
  - wstep_inv He. done.
  - wstep_inv He; done.
  - wstep_inv He; done.
  - wstep_inv He; done.
  - wstep_inv He; done.
  - wstep_inv He; done.
  - assert (output (removeClient (sess w) k).1 = output (sess w)) as Hg.
    { unfold removeClient. destruct (client _ _); simpl; by case_match. }
    wstep_inv He; (split; [exact Hg|done]).
  - pose proof (output_controlLocked (sess w) st msg). simpl in He.
    destruct (controlLocked (sess w) st msg) as [s' sz]. wstep_inv He; done.
  - wstep_inv He; done.
  - wstep_inv He; done.
  - simpl in He. destruct (pumping w) eqn:Ep; [done|]. split; [done|].
    destruct (0 <? len buf); [|simplify_eq; auto].
    destruct (pumpRead (sess w) buf) as [s' o] eqn:E. apply output_pumpRead in E as (_ & _ & E).
    simplify_eq/=. destruct o as [out|]; simpl; [right|left].
    + exists out. naive_solver.
    + by rewrite app_nil_r.
  - wstep_inv He. eauto 10.
  - wstep_inv He. done.
Qed.

Lemma ring_step w e w' : ring_inv w -> wstep w e = Some w' -> ring_inv w'.
Proof.
  intros Hi He. pose proof (output_step w e w' He) as Ho. unfold ring_inv in *.
  assert (output (sess w') = output (sess w) -> printed w' = printed w ->
    len (printed w') + 1 < 2 ^ 64 -> OutputRing.repr (output (sess w')) (printed w') /\
    OutputRing.capacity (output (sess w')) = outputRingCapacity) as Hsame.
  { intros -> ->. exact Hi. }
  destruct e; try (destruct Ho as (? & ? & ?); by apply Hsame).
  - destruct Ho as (_ & [(? & ? & _)|(out & Eo & Ep & _)]); [by apply Hsame|].
    rewrite Eo, Ep, len_app. intros Hl. pose proof (len_nonneg out).
    destruct (Hi ltac:(lia)) as [Hr Hc]. split; [apply OutputRing.repr_write; [done|lia]|].
    rewrite <- Hc. unfold OutputRing.Write. by repeat (go_case; simplify_eq/=).
  - destruct Ho as (chunk & ? & ? & ? & ? & _). by apply Hsame.
Qed.

Lemma reach_ring m es w : reach m es w -> ring_inv w.
Proof.
  apply steps_invariant.
  - intros _. split; [apply OutputRing.repr_new|done].
  - intros a e b Ha [_ Hs]. eapply ring_step; eauto.
Qed.

(** ** Steps that leave a client's queue alone *)

Definition same_io (c c' : sessionClient) : Prop :=
  outCh c' = outCh c /\ sent c' = sent c /\ dropped c' = dropped c.

Definition frames (P : Z -> Prop) (s s' : Session) : Prop :=
  forall k c, P k -> heap s !! k = Some c ->
    exists c', heap s' !! k = Some c' /\ same_io c c' /\ (k ∈ clients s' -> k ∈ clients s).

Lemma frames_refl P s s' : heap s' = heap s -> clients s' ⊆ clients s -> frames P s s'.
Proof. intros E Hc k c _ Hk. exists c. rewrite E. split_and!; try done. set_solver. Qed.

Lemma frames_trans P s1 s2 s3 : frames P s1 s2 -> frames P s2 s3 -> frames P s1 s3.
Proof.
  intros H1 H2 k c Hp Hk. destruct (H1 k c Hp Hk) as (c2 & Hk2 & (? & ? & ?) & ?).
  destruct (H2 k c2 Hp Hk2) as (c3 & ? & (? & ? & ?) & ?).
  exists c3. split; [done|]. split; [split_and!; congruence|auto].
Qed.

Lemma frames_update (P : Z -> Prop) s j f :
  (forall c, P j -> same_io c (f c)) -> frames P s (update s j f).
Proof.
  intros Hf k c Hp Hk. simpl. rewrite lookup_alter. case_decide; subst.
  - rewrite Hk. simpl. eauto 10.
  - exists c. done.
Qed.

Lemma frames_kick P s : frames P s (for_clients s kick).
Proof.
  intros k c Hp Hk. rewrite heap_for_clients, Hk. simpl. eexists. split; [done|].
  split; [by case_bool_decide|done].
Qed.

Lemma frames_attach s st i :
  wf s -> nextID s + 1 < 2 ^ 63 -> frames (fun _ => True) s (addClientLocked s st i).1.1.
Proof.
  intros Hw Hb. unfold addClientLocked.
  destruct (admission s i) as [[s' cw]|] eqn:Ha; [|by apply frames_refl].
  pose proof (wf_admit _ _ _ _ Hw Ha) as [Hn Hh _ _ _].
  destruct (admit_frame _ _ _ _ Ha) as (En & _).
  assert (frames (fun _ => True) s s') as Hg.
  { unfold admission in Ha. destruct (mode s); simplify_eq; try by apply frames_refl.
    - apply frames_kick.
    - case_bool_decide; simplify_eq. by apply frames_refl.
    - case_bool_decide; by apply frames_refl. }
  simpl. rewrite En in *. rewrite i64_small by lia. eapply frames_trans; [exact Hg|].
  assert (forall s2 c0, heap s2 = <[nextID s + 1 := c0]> (heap s') ->
    clients s2 = {[nextID s + 1]} ∪ clients s' -> frames (fun _ => True) s' s2) as H.
  { intros s2 c0 E Ec k c _ Hk. destruct (Hh k c Hk) as (_ & ? & _).
    exists c. rewrite E, Ec, lookup_insert_ne by lia. split_and!; try done. set_solver by lia. }
  destruct (default (0, 0) _) as [pc pr].
  destruct (pendingResize s' !! _), (bool_decide _ && cw); simpl; by eapply H.
Qed.

Lemma frames_control s st msg : frames (fun _ => True) s (controlLocked s st msg).1.
Proof.
  destruct msg; simpl; try by apply frames_refl.
  - destruct (_ || _); [by apply frames_refl|]. unfold resizeLocked.
    destruct (clientByRemoteIDLocked _ _); simpl; [|by apply frames_refl].
    destruct (minGeometryLocked _). simpl. by apply frames_update.
  - destruct (CanWrite _); simpl; [|by apply frames_refl]. unfold applySignal.
    destruct (os_signal kind), (running s); by apply frames_refl.
  - destruct (IsOwner _); simpl; [|by apply frames_refl]. case_bool_decide; by apply frames_refl.
  - unfold demoteRemote. destruct (clientByRemoteIDLocked _ _) as [c|]; [|by apply frames_refl].
    simpl. eapply frames_trans; [by apply (frames_update _ _ (id c) (set_canWrite false))|].
    destruct (_ =? _); by apply frames_refl.
  - destruct (IsOwner _); simpl; [|by apply frames_refl]. unfold promoteClient.
    destruct (client s k); [|by apply frames_refl]. simpl.
    eapply frames_trans; [|by apply frames_update].
    case_bool_decide; [|by apply frames_refl].
    destruct (client s (writerID s)); [destruct (negb _)|]; try by apply frames_refl.
    eapply frames_trans; [by apply (frames_update _ s (writerID s) (set_canWrite false))|].
    by apply frames_refl.
  - destruct (IsOwner _); simpl; [|by apply frames_refl]. unfold kickClient.
    destruct (client _ _); simpl; [by apply frames_update|by apply frames_refl].
Qed.

Lemma frames_remove s k : frames (fun _ => True) s (removeClient s k).1.
Proof.
  unfold removeClient. destruct (client _ _); simpl; [|case_match; by apply frames_refl].
  eapply frames_trans; [by apply (frames_update _ _ k kick)|].
  case_match; apply frames_refl; simpl; set_solver.
Qed.

(** Every step but the client's own receives, writes and replay, and a
    broadcast, leaves its queue, its sent bytes and its drop count alone. *)
Lemma frames_step w e w' :
  wf (sess w) -> nextID (sess w) + 1 < 2 ^ 63 -> wstep w e = Some w' ->
  match e with
  | EvSend j | EvTake j | EvWritten j _ => frames (fun k => k <> j) (sess w) (sess w')
  | EvBroadcast => True
  | _ => frames (fun _ => True) (sess w) (sess w')
  end.
Proof.
  intros Hw Hb He. destruct e.
  - simpl in He. simplify_eq. unfold attachStep. destruct (fromSeq_of a); [|by apply frames_refl].
    pose proof (frames_attach (sess w) st (IdentityOf st) Hw Hb).
    by destruct (addClientLocked _ _ _) as [[s' [k|]] sz].
  - wstep_inv He. destruct (_ && _); by apply frames_refl.
  - wstep_inv He. by apply frames_refl.
  - wstep_inv He. unfold sendReplay. case_match; [by apply frames_update|by apply frames_refl].
  - wstep_inv He. by apply frames_update.
  - wstep_inv He; by apply frames_update.
  - wstep_inv He; by apply frames_refl.
  - wstep_inv He; by apply frames_refl.
  - wstep_inv He; by apply frames_refl.
  - wstep_inv He; by apply frames_refl.
  - pose proof (frames_remove (sess w) k) as Hg. wstep_inv He; exact Hg.
  - pose proof (frames_control (sess w) st msg) as Hg. simpl in He.
    destruct (controlLocked (sess w) st msg) as [s' sz]. wstep_inv He; done.
  - wstep_inv He; by apply frames_refl.
  - wstep_inv He; by apply frames_refl.
  - simpl in He. destruct (pumping w); [done|]. destruct (0 <? len buf); [|simplify_eq; by apply frames_refl].
    destruct (pumpRead (sess w) buf) as [s' o] eqn:E. apply output_pumpRead in E as (? & Hc & _).
    simplify_eq/=. apply frames_refl; [done|]. by rewrite Hc.
  - done.
  - wstep_inv He. eapply frames_trans; [apply frames_kick|]. apply frames_refl; simpl; [done|set_solver].
Qed.

(** ** One client's stream against the log *)

(** The chunk the output goroutine is writing. *)
Definition inflight (b : bridge) : bytes :=
  match b_out b with OutWrite chunk => chunk | _ => [] end.

(** Everything the client was given so far, sent, being written or queued. *)
Definition given (c : sessionClient) (b : bridge) : bytes :=
  concat (sent c) ++ inflight b ++ concat (outCh c).

Definition past (b : bridge) : bool :=
  match b_pc b with BPump | BClosed | BDone => true | _ => false end.

(** The replay position of a bridge that has not read the ring yet. *)
Definition early (b : bridge) : option Z :=
  match b_pc b with BAdmitted fs _ | BReplay fs => Some fs | _ => None end.

(** What stands for the log on its way to the client: the replay it holds,
    then everything it was given while its output goroutine runs. *)
Definition due (c : sessionClient) (b : bridge) : option bytes :=
  match b_pc b with
  | BAdmitted _ _ | BReplay _ => None
  | BSend replay => Some replay
  | _ => match b_out b with OutStop => None | _ => Some (given c b) end
  end.

(** Client [k], attached afresh, is on course from position [n] of the log:
    before it reads the ring the pump is idle and [n] is the ring's first
    byte; from then on, unless chunks are dropped, what is due to it is a
    prefix of the log from [n], and is all of it, but for the chunk about to
    be broadcast, while the client is registered. *)
Record on_course (k n : Z) (w : world) (c : sessionClient) (b : bridge) : Prop := mk_course {
  oc_pos : 0 <= n <= len (printed w);
  oc_early : forall fs, early b = Some fs ->
    fs = 0 /\ pumping w = None /\ n = Z.max 0 (len (printed w) - outputRingCapacity);
  oc_fresh : past b = false -> outCh c = [] /\ sent c = [] /\ b_out b = OutStop;
  oc_due : forall x, due c b = Some x ->
    x `prefix_of` slice_from (printed w) n /\
    (k ∈ clients (sess w) -> x ++ default [] (pumping w) = slice_from (printed w) n);
  oc_sent : concat (sent c) `prefix_of` slice_from (printed w) n;
}.

Definition follows (k n : Z) (w : world) : Prop :=
  exists c b, heap (sess w) !! k = Some c /\ bridges w !! k = Some b /\ on_course k n w c b.

(** [lossless k N w]: the drop counter of [k] is within [N] of no wrap. *)
Definition drops (k : Z) (w : world) : option Z := dropped <$> heap (sess w) !! k.

(** Between the admission of client [k] and its read of the ring the pump
    writes nothing to the ring, and between that read and the send of the
    replay it broadcasts nothing: the two windows in which the replay and the
    live output do not interleave as the code means them to. *)
Definition calm (k : Z) (w : world) (e : event) : bool :=
  match bridges w !! k with
  | None => true
  | Some b =>
      match b_pc b, e with
      | BAdmitted _ _, EvPump _ | BReplay _, EvPump _ => false
      | BSend _, EvBroadcast => false
      | _, _ => true
      end
  end.

Definition undisturbed (k : Z) (w : world) (e : event) (w' : world) : Prop :=
  wrel w e w' /\ calm k w e = true.

Lemma prefix_slice (l x : bytes) n q :
  0 <= n <= len l -> q `prefix_of` slice_from l n -> q `prefix_of` slice_from (l ++ x) n.
Proof. intros ? [y Hy]. rewrite drop_app_slice, Hy by done. by rewrite <- app_assoc; apply prefix_app_r. Qed.

Lemma prefix_app_l' (a b l : bytes) : a ++ b `prefix_of` l -> a `prefix_of` l.
Proof. intros [x ->]. rewrite <- app_assoc. by eexists. Qed.

(** The bridge of [k] after a step that is not its own receive, write or
    replay: the same phase, the same goroutine or none. *)
Definition same_phase (b b' : bridge) : Prop :=
  (b_pc b' = b_pc b \/ early b = early b' /\ is_Some (early b) \/ past b = true /\ past b' = true) /\
  (b_out b' = b_out b \/ b_out b' = OutStop).

Lemma due_frame c c' b b' x :
  same_io c c' -> same_phase b b' -> due c' b' = Some x -> due c b = Some x.
Proof.
  intros (E1 & E2 & _) [Hp Ho]. unfold due, given, inflight. rewrite E1, E2. unfold early, past in Hp.
  destruct Hp as [->|[[Hp [? Hs]]|[Hp Hp']]].
  - destruct Ho as [Ho|Ho]; rewrite Ho; by destruct (b_pc b).
  - rewrite Hs in Hp. by destruct (b_pc b').
  - destruct Ho as [Ho|Ho]; rewrite Ho; by destruct (b_pc b'), (b_pc b).
Qed.

Lemma phase_past b b' : same_phase b b' -> past b' = past b /\ early b' = early b.
Proof.
  intros [[Hp|[[Hp [? Hs]]|[Hp Hp']]] _]; unfold past, early in *; [by rewrite Hp| |].
  - rewrite Hs in Hp. by destruct (b_pc b), (b_pc b'); simplify_eq.
  - by destruct (b_pc b), (b_pc b').
Qed.

(** A step that leaves the client's queue, the phase of its bridge and the
    log alone keeps it on course. *)
Lemma course_frame k n w w' c c' b b' :
  on_course k n w c b -> same_io c c' -> same_phase b b' ->
  (k ∈ clients (sess w') -> k ∈ clients (sess w)) ->
  printed w' = printed w -> pumping w' = pumping w -> on_course k n w' c' b'.
Proof.
  intros [Hn He Hf Hd Hs] Hio Hph Hreg Ep Eq. destruct (phase_past b b' Hph) as [Hpast Hearly].
  constructor; rewrite ?Ep, ?Eq, ?Hpast, ?Hearly; [done|exact He| | |].
  - intros (E1 & E2 & E3)%Hf. pose proof (proj2 Hph) as Ho. destruct Hio as (-> & -> & _).
    split_and!; [done|done|]. destruct Ho; congruence.
  - intros x Hx%(due_frame c c' b b' x Hio Hph). destruct (Hd x Hx). auto.
  - by destruct Hio as (_ & -> & _).
Qed.

(** The pump only extends the log, by the chunk it is about to broadcast. *)
Lemma course_pump k n w w' c b out :
  on_course k n w c b -> early b = None -> clients (sess w') = clients (sess w) ->
  pumping w = None -> pumping w' = Some out -> printed w' = printed w ++ out -> on_course k n w' c b.
Proof.
  intros [Hn He Hf Hd Hs] Hb Ec E1 E2 E3. constructor; rewrite ?E3, ?E2, ?Ec.
  - rewrite len_app. len_lia.
  - congruence.
  - done.
  - intros x Hx. destruct (Hd x Hx) as [Hp Heq]. split; [by apply prefix_slice|].
    intros Hk%Heq. rewrite E1 in Hk. cbn [default] in *. rewrite drop_app_slice, <- Hk by done. by rewrite app_nil_r.
  - by apply prefix_slice.
Qed.

Lemma offer_cases chunk c :
  (outCh (offer chunk c) = outCh c ++ [chunk] /\ sent (offer chunk c) = sent c /\
   dropped (offer chunk c) = dropped c) \/
  (outCh (offer chunk c) = outCh c /\ sent (offer chunk c) = sent c /\
   dropped (offer chunk c) = i64 (dropped c + 1)).
Proof. unfold offer. case_match; [left|right]; done. Qed.

Lemma given_offered chunk c c' b :
  outCh c' = outCh c ++ [chunk] -> sent c' = sent c -> given c' b = given c b ++ chunk.
Proof. intros E1 E2. unfold given. rewrite E1, E2, concat_app. simpl. by rewrite app_nil_r, !app_assoc. Qed.

(** A broadcast that is not dropped hands the pumped chunk over. *)
Lemma course_broadcast k n w w' chunk c b :
  on_course k n w c b -> past b = true -> heap (sess w) !! k = Some c ->
  pumping w = Some chunk -> pumping w' = None -> printed w' = printed w ->
  sess w' = broadcast (sess w) chunk -> drops k w' = Some (dropped c) ->
  0 <= dropped c < 2 ^ 63 - 1 ->
  exists c', heap (sess w') !! k = Some c' /\ on_course k n w' c' b.
Proof.
  intros [Hn He Hf Hd Hs] Hpast Hc E1 E2 E3 E4 Hdr Hlt. unfold drops in Hdr.
  assert (clients (sess w') = clients (sess w)) as Ec by (by rewrite E4).
  rewrite E4 in Hdr |- *. unfold broadcast in *. rewrite heap_for_clients, Hc in *. cbn [fmap option_fmap option_map] in *.
  eexists. split; [done|].
  assert (early b = None) as Hne by (unfold early, past in *; by destruct (b_pc b)).
  destruct (decide (k ∈ clients (sess w))) as [Hk|Hk].
  - rewrite bool_decide_eq_true_2 in * by done.
    destruct (offer_cases chunk c) as [(Eo & Es & Ed)|(Eo & Es & Ed)];
      [|injection Hdr as Hdr; rewrite Ed, i64_small in Hdr by lia; lia].
    constructor; rewrite ?E2, ?E3, ?Ec, ?Es; [done|congruence|congruence| |done].
    intros x Hx. assert (x = given c b ++ chunk /\ due c b = Some (given c b)) as [-> Hg].
    { unfold due, past in *. rewrite (given_offered chunk c) in Hx by done. destruct (b_pc b), (b_out b); naive_solver. }
    destruct (Hd _ Hg) as [_ Heq]. rewrite E1 in Heq. cbn [default] in *. rewrite <- (Heq Hk). by rewrite app_nil_r.
  - rewrite bool_decide_eq_false_2 in * by done.
    constructor; rewrite ?E2, ?E3, ?Ec; [done|congruence|congruence| |done].
    intros x Hx. by destruct (Hd x Hx).
Qed.

Lemma addClientLocked_id s st i k :
  wf s -> nextID s + 1 < 2 ^ 63 -> (addClientLocked s st i).1.2 = Some k -> k = nextID s + 1.
Proof.
  intros Hw Hb. pose proof (wf_next s Hw). unfold addClientLocked.
  destruct (admission s i) as [[s' cw]|] eqn:Ha; [|done].
  destruct (admit_frame _ _ _ _ Ha) as (En & _). destruct (default _ _). simpl.
  intros [= <-]. by rewrite En, i64_small by lia.
Qed.

(** The steps of client [k]'s own bridge that move its output along. *)
Definition moves_output (k : Z) (e : event) : bool :=
  match e with
  | EvReplay j | EvSend j | EvTake j | EvWritten j _ => bool_decide (j = k)
  | _ => false
  end.

Lemma bridge_step w e w' k c b :
  wf (sess w) -> nextID (sess w) + 1 < 2 ^ 63 -> wstep w e = Some w' ->
  heap (sess w) !! k = Some c -> bridges w !! k = Some b -> moves_output k e = false ->
  exists b', bridges w' !! k = Some b' /\ same_phase b b'.
Proof.
  intros Hw Hb He Hc Hk Hm.
  assert (forall w1 j b1, bridges w' = bridges (with_bridge w1 j b1) -> bridges w1 = bridges w ->
    (j = k -> same_phase b b1) -> exists b', bridges w' !! k = Some b' /\ same_phase b b') as Hset.
  { intros w1 j b1 E E1 Hj. rewrite E. simpl. rewrite E1.
    destruct (decide (j = k)) as [->|]; [rewrite lookup_insert_eq|rewrite lookup_insert_ne by done];
      [eauto|]. exists b. split; [done|]. by split; left. }
  assert (bridges w' = bridges w -> exists b', bridges w' !! k = Some b' /\ same_phase b b') as Hkeep.
  { intros ->. exists b. split; [done|]. by split; left. }
  destruct e; simpl in Hm; try (apply bool_decide_eq_false_1 in Hm).
  - simpl in He. injection He as <-. unfold attachStep in *. destruct (fromSeq_of a); [|by apply Hkeep].
    pose proof (addClientLocked_id (sess w) st (IdentityOf st)) as Hid.
    destruct (addClientLocked _ _ _) as [[s' [j|]] sz]; simpl in *; [|by apply Hkeep].
    eapply Hset; [done|done|]. intros ->. rewrite (Hid k Hw Hb eq_refl) in *.
    destruct (wf_heap _ Hw _ _ Hc) as (_ & ? & _). lia.
  - wstep_inv He. eapply Hset; [done|done|]. intros ->. simplify_eq. split; [|by right].
    right. left. unfold early. simpl. rewrite Heqb0. eauto.
  - wstep_inv He. by eapply Hset; [done|done|].
  - wstep_inv He. by eapply Hset; [done|done|].
  - wstep_inv He. by eapply Hset; [done|done|].
  - wstep_inv He; by eapply Hset; [done|done|].
  - wstep_inv He. eapply Hset; [done|done|]. intros ->. simplify_eq. split; [by left|by right].
  - wstep_inv He; (eapply Hset; [done|done|]); intros ->; simplify_eq; by split; left.
  - wstep_inv He; (eapply Hset; [done|done|]); intros ->; simplify_eq; by split; left.
  - wstep_inv He; (eapply Hset; [done|done|]); intros ->; simplify_eq; (split; [|by left]); right; right;
      unfold past; simpl; by case_match.
  - wstep_inv He; (eapply (Hset w k0); [done|done|]); intros ->; simplify_eq; (split; [|by left]); right; right;
      unfold past; simpl; by case_match.
  - wstep_inv He; by apply Hkeep.
  - wstep_inv He; by apply Hkeep.
  - wstep_inv He; by apply Hkeep.
  - wstep_inv He; by apply Hkeep.
  - wstep_inv He; by apply Hkeep.
  - wstep_inv He; by apply Hkeep.
Qed.

(** *** The client's own output steps *)

(** Reading the ring while the pump is idle: the replay is the whole log from
    the ring's first byte. *)
Lemma follows_replay k n w w' :
  follows k n w -> ring_inv w -> len (printed w) + 1 < 2 ^ 64 ->
  wstep w (EvReplay k) = Some w' -> follows k n w'.
Proof.
  intros (c & b & Hc & Hb & [Hn He Hf Hd Hs]) Hring Hlen Hst. simpl in Hst. rewrite Hb in Hst. simpl in Hst.
  destruct (b_pc b) as [|fs| | | |] eqn:Hpc; try done. injection Hst as <-.
  destruct (He fs ltac:(unfold early; by rewrite Hpc)) as (-> & Hidle & En).
  destruct (Hf ltac:(unfold past; by rewrite Hpc)) as (Eo & Es & _).
  destruct (Hring Hlen) as [Hrep Hcap]. pose proof (len_nonneg (printed w)).
  assert (replayOf (sess w) 0 = slice_from (printed w) n) as Hr.
  { unfold replayOf. rewrite (OutputRing.from_repr _ _ 0 Hrep) by lia. simpl.
    destruct Hrep as (_ & -> & _). by rewrite Hcap, En. }
  eexists c, _. split; [done|]. split; [simpl; by rewrite lookup_insert_eq|].
  constructor; simpl; [done|done|done| |done].
  intros x [= <-]. rewrite Hr, Hidle. cbn [default]. by rewrite app_nil_r.
Qed.

(** Sending the replay: the queue is empty, so it fits. *)
Lemma follows_send k n w w' :
  follows k n w -> wstep w (EvSend k) = Some w' -> follows k n w'.
Proof.
  intros (c & b & Hc & Hb & [Hn He Hf Hd Hs]) Hst. simpl in Hst. rewrite Hb in Hst. simpl in Hst.
  destruct (b_pc b) as [| |replay| | |] eqn:Hpc; try done. injection Hst as <-.
  destruct (Hf ltac:(unfold past; by rewrite Hpc)) as (Eo & Es & _).
  destruct (Hd replay ltac:(unfold due; by rewrite Hpc)) as [Hp Heq].
  assert (exists c', heap (sendReplay (sess w) k replay) !! k = Some c' /\ sent c' = [] /\
    clients (sendReplay (sess w) k replay) = clients (sess w) /\
    given c' (mkBridge BPump OutSelect InRead false) = replay) as (c' & Hc' & Es' & Ec & Eg).
  { unfold sendReplay, given. destruct (0 <? len replay) eqn:El; go_bool; simpl.
    - rewrite lookup_alter_eq, Hc. simpl. eexists. split; [done|]. unfold offer. rewrite Eo, Es. simpl.
      by rewrite app_nil_r.
    - exists c. rewrite Eo, Es. split_and!; try done. symmetry. apply len_0. pose proof (len_nonneg replay). lia. }
  eexists c', _. split; [done|]. split; [simpl; by rewrite lookup_insert_eq|].
  constructor; simpl; [done|done|done| |rewrite Es'; by apply prefix_nil].
  intros x [= <-]. rewrite Eg, Ec. auto.
Qed.

(** Taking a chunk off the queue and writing it keeps the client on course; a
    failed write stops its output goroutine. *)
Lemma follows_take k n w w' :
  follows k n w -> wstep w (EvTake k) = Some w' -> follows k n w'.
Proof.
  intros (c & b & Hc & Hb & [Hn He Hf Hd Hs]) Hst. simpl in Hst. rewrite Hb, Hc in Hst. simpl in Hst.
  destruct (b_out b) eqn:Eo; try done. destruct (outCh c) as [|chunk rest] eqn:Ech; [done|]. injection Hst as <-.
  assert (past b = true) as Hp by (destruct (past b) eqn:E; [done|]; destruct (Hf eq_refl) as (? & ? & ?); congruence).
  eexists (take_chunk c), _. simpl. rewrite lookup_alter_eq, Hc, lookup_insert_eq.
  split; [done|]. split; [done|]. constructor; simpl; [done|exact He| | |done].
  - unfold past in *. simpl. congruence.
  - intros x Hx. apply Hd. rewrite <- Hx. unfold due, given, inflight, past in *. simpl. rewrite Eo, Ech. simpl.
    by destruct (b_pc b).
Qed.

Lemma follows_written k n w w' fail :
  follows k n w -> wstep w (EvWritten k fail) = Some w' -> follows k n w'.
Proof.
  intros (c & b & Hc & Hb & [Hn He Hf Hd Hs]) Hst. simpl in Hst. rewrite Hb in Hst. simpl in Hst.
  destruct (b_out b) as [|chunk|] eqn:Eo; try done. injection Hst as <-.
  assert (past b = true) as Hp by (destruct (past b) eqn:E; [done|]; destruct (Hf eq_refl) as (? & ? & ?); congruence).
  assert (due c b = Some (given c b)) as Hg by (unfold due, past in *; rewrite Eo; by destruct (b_pc b)).
  destruct (Hd _ Hg) as [Hpre Heq].
  eexists (written chunk fail c), _. simpl. rewrite lookup_alter_eq, Hc, lookup_insert_eq.
  split; [done|]. split; [done|]. constructor; simpl; [done|exact He| | |].
  - unfold past in *. simpl. congruence.
  - intros x Hx. destruct fail as [i|]; [unfold due, past in *; simpl in *; by destruct (b_pc b)|].
    apply Hd. rewrite Hg, <- Hx. unfold due, given, inflight, past in *. simpl. rewrite Eo, concat_app. simpl.
    rewrite app_nil_r, <- app_assoc. by destruct (b_pc b).
  - rewrite concat_app. cbn [concat]. rewrite app_nil_r. unfold given, inflight in Hpre. rewrite Eo in Hpre.
    rewrite app_assoc in Hpre. apply prefix_app_l' in Hpre. etransitivity; [|exact Hpre]. apply prefix_app.
    destruct fail; simpl; [apply prefix_take|done].
Qed.

(** The drop counter moves by at most one per step. *)
Lemma dropped_step w e w' k c :
  wf (sess w) -> nextID (sess w) + 1 < 2 ^ 63 -> wstep w e = Some w' ->
  heap (sess w) !! k = Some c -> 0 <= dropped c < 2 ^ 63 - 1 ->
  exists c', heap (sess w') !! k = Some c' /\ dropped c <= dropped c' <= dropped c + 1.
Proof.
  intros Hw Hb He Hc Hd. pose proof (frames_step w e w' Hw Hb He) as Hfr.
  assert (forall P, P k -> frames P (sess w) (sess w') ->
    exists c', heap (sess w') !! k = Some c' /\ dropped c <= dropped c' <= dropped c + 1) as Hframe.
  { intros P HP Hx. destruct (Hx k c HP Hc) as (c' & ? & (_ & _ & E) & _).
    exists c'. split; [done|lia]. }
  assert (forall chunk, dropped c <= dropped (offer chunk c) <= dropped c + 1) as Hoff.
  { intros chunk. destruct (offer_cases chunk c) as [(_ & _ & ->)|(_ & _ & ->)];
      rewrite ?i64_small; lia. }
  destruct e; try (eapply Hframe; [|exact Hfr]; done);
    try (destruct (decide (k = k0)) as [<-|Hne]; [|by eapply Hframe; [|exact Hfr]]).
  - wstep_inv He. unfold sendReplay. case_match; [|exists c; split; [done|lia]].
    simpl. rewrite lookup_alter_eq, Hc. simpl. eauto.
  - wstep_inv He. rewrite lookup_alter_eq, Hc. simpl. eexists. split; [done|]. simpl. lia.
  - wstep_inv He; rewrite lookup_alter_eq, Hc; simpl; (eexists; split; [done|]; simpl; lia).
  - destruct (output_step _ _ _ He) as (chunk & _ & _ & _ & _ & -> & _).
    unfold broadcast. rewrite heap_for_clients, Hc. eexists.
    split; [done|]. simpl. case_bool_decide; [auto|lia].
Qed.

Lemma follows_step k n w e w' c :
  wf (sess w) -> nextID (sess w) + 1 < 2 ^ 63 -> ring_inv w -> len (printed w) + 1 < 2 ^ 64 ->
  wstep w e = Some w' -> calm k w e = true ->
  heap (sess w) !! k = Some c -> 0 <= dropped c < 2 ^ 63 - 1 -> follows k n w ->
  drops k w' = Some (dropped c) -> follows k n w'.
Proof.
  intros Hw Hb Hring Hlen He Hcalm Hc Hd Hf Hd'.
  destruct (moves_output k e) eqn:Hm.
  { destruct e; try done; apply bool_decide_eq_true_1 in Hm; subst;
      eauto using follows_replay, follows_send, follows_take, follows_written. }
  pose proof (frames_step w e w' Hw Hb He) as Hfr. pose proof (output_step w e w' He) as Ho.
  pose proof Hf as (c0 & b & Hc0 & Hk & Hon). assert (c0 = c) as -> by congruence.
  destruct (bridge_step w e w' k c b Hw Hb He Hc Hk Hm) as (b' & Hk' & Hph).
  assert (forall P, P k -> frames P (sess w) (sess w') -> printed w' = printed w ->
    pumping w' = pumping w -> follows k n w') as Hframe.
  { intros P HP Hx Ep Eq. destruct (Hx k c HP Hc) as (c' & Hc' & Hio & Hreg).
    exists c', b'. split; [done|]. split; [done|]. by eapply course_frame. }
  unfold calm in Hcalm. rewrite Hk in Hcalm.
  destruct e; try (destruct Ho as (? & ? & ?); eapply Hframe; [|exact Hfr|done|done]; done);
    try (apply bool_decide_eq_false_1 in Hm; destruct Ho as (? & ? & ?); by eapply Hframe; [|exact Hfr|..]).
  - destruct Ho as (E1 & [(_ & E2 & E3)|(out & _ & E2 & E3)]).
    + eapply Hframe; [|exact Hfr|done|congruence]. done.
    + simpl in He. rewrite E1 in He. destruct (0 <? len buf); [|congruence].
      destruct (pumpRead (sess w) buf) as [s' o] eqn:E. apply output_pumpRead in E as (Eh & Ec & _).
      injection He as <-. exists c, b. simpl in *. split; [by rewrite Eh|]. split; [done|].
      eapply (course_pump k n w _ c b out); [done| |done..]. unfold early. by destruct (b_pc b).
  - destruct Ho as (chunk & E1 & E2 & _ & E3 & E4 & E5).
    destruct (course_broadcast k n w w' chunk c b) as (c' & Hc' & Hon'); try done.
    + destruct (past b) eqn:E; [done|]. unfold past in E. destruct (b_pc b) eqn:Ep; try done;
        (destruct (oc_early _ _ _ _ _ Hon fromSeq) as (_ & ? & _); [unfold early; by rewrite Ep|congruence]).
    + exists c', b. rewrite E5. done.
Qed.

(** ** Attaching *)

Lemma addClientLocked_entry s st i k :
  (addClientLocked s st i).1.2 = Some k ->
  k ∈ clients (addClientLocked s st i).1.1 /\
  exists cw pc pr, heap (addClientLocked s st i).1.1 !! k =
    Some (mkClient k i (RemoteID st) [] false cw pc pr 0 []).
Proof.
  unfold addClientLocked. destruct (admission s i) as [[s' cw]|] eqn:Ha; [|done].
  destruct (default _ _) as [pc pr]. simpl. intros [= <-].
  destruct (pendingResize s' !! _), (bool_decide _ && cw); simpl; (split; [set_solver|]);
    exists cw, pc, pr; by rewrite lookup_insert_eq.
Qed.

Lemma printed_steps w es w' : steps wrel w es w' -> len (printed w) <= len (printed w').
Proof.
  intros Hs. induction Hs as [|w es w1 e w2 _ IH [_ He]]; [lia|].
  pose proof (output_step w1 e w2 He) as Ho.
  destruct e; try (destruct Ho as (_ & -> & _); exact IH).
  - destruct Ho as (_ & [(_ & -> & _)|(out & _ & -> & _)]); rewrite ?len_app; len_lia.
  - destruct Ho as (? & _ & _ & _ & -> & _). exact IH.
Qed.

(** A fresh attach while the pump is idle is on course from the ring's first
    retained byte. *)
Lemma fresh_attach_follows w0 st k w1 :
  pumping w0 = None -> bridges w0 !! k = None ->
  wstep w0 (EvAttach st FreshPTY) = Some w1 -> is_Some (bridges w1 !! k) ->
  follows k (Z.max 0 (len (printed w0) - outputRingCapacity)) w1 /\ drops k w1 = Some 0.
Proof.
  intros Hidle Hnew E1 Hadm. pose proof (output_step _ _ _ E1) as (_ & P1 & Q1).
  pose proof (len_nonneg (printed w0)). simpl in E1. injection E1 as <-.
  unfold attachStep in *. simpl fromSeq_of in *.
  pose proof (addClientLocked_entry (sess w0) st (IdentityOf st)) as Hent.
  destruct (addClientLocked _ _ _) as [[s' [j|]] sz]; cbn [fst snd] in *;
    [|simpl in Hadm; rewrite Hnew in Hadm; by destruct Hadm].
  destruct (decide (j = k)) as [->|Hne];
    [|simpl in Hadm; rewrite lookup_insert_ne, Hnew in Hadm by done; by destruct Hadm].
  destruct (Hent k eq_refl) as (_ & cw & pc & pr & Hh).
  split; [|unfold drops; simpl; by rewrite Hh].
  eexists _, _. split; [exact Hh|]. split; [simpl; by rewrite lookup_insert_eq|].
  constructor; simpl; [unfold outputRingCapacity; lia| |done|done|apply prefix_nil].
  intros fs [= <-]. done.
Qed.

Lemma follows_run k n w N es w' :
  steps (undisturbed k) w es w' -> wf (sess w) -> ring_inv w -> nextID (sess w) <= N ->
  N + len es < 2 ^ 63 - 1 -> follows k n w -> drops k w = Some 0 -> 0 <= N ->
  len (printed w') + 1 < 2 ^ 64 ->
  exists c, heap (sess w') !! k = Some c /\ (dropped c = 0 -> follows k n w').
Proof.
  intros Hs Hw Hring Hn Hl Hf Hd HN.
  set (I := fun (i : Z) w => wf (sess w) /\ ring_inv w /\ nextID (sess w) <= N + i /\
    (len (printed w) + 1 < 2 ^ 64 ->
     exists c, heap (sess w) !! k = Some c /\ 0 <= dropped c <= i /\
      (dropped c = 0 -> follows k n w))).
  assert (I (len es) w') as (_ & _ & _ & HI); [|intros (c & Hc & _ & ?)%HI; by eauto].
  apply (steps_invariant_len (undisturbed k) I (2 ^ 63 - 2 - N) w); [| |exact Hs|lia].
  - split; [done|]. split; [done|]. split; [lia|]. intros _. unfold drops in Hd. apply fmap_Some in Hd as (c & Hc & E).
    exists c. rewrite <- E. split_and!; try done; lia.
  - intros i a e b Hi (Ha & Hra & Hna & HIa) [Hst Hcalm].
    pose proof (wf_step a e b Ha ltac:(lia) Hst) as Hb. pose proof Hst as Hst0. destruct Hst as [_ Hst].
    pose proof (nextID_step a e b Ha ltac:(lia) Hst).
    split; [done|]. split; [by eapply ring_step|]. split; [lia|]. intros Hlen.
    pose proof (printed_steps a [e] b (steps_one _ _ _ _ Hst0)).
    destruct (HIa ltac:(lia)) as (c & Hc & Hdc & Hfc).
    destruct (dropped_step a e b k c Ha ltac:(lia) Hst Hc ltac:(lia)) as (c' & Hc' & Hdc').
    exists c'. split; [done|]. split; [lia|]. intros E.
    apply (follows_step k n a e b c); auto; try lia; [apply Hfc; lia|].
    unfold drops. rewrite Hc'. simpl. f_equal. lia.
Qed.

(** ** The claim *)

(** An attached terminal sees the child's output, exactly.  After a fresh
    attach made while no chunk is between the ring and the broadcast, along
    every later interleaving in which the pump stays out of the two windows of
    [calm], and as long as the client's queue dropped nothing: the bytes sent
    on its stream are a prefix of the session's output from the first byte
    the ring retained at attach time; and while the client is registered and
    its output goroutine runs, the bytes sent, being written and queued, with
    the chunk being pumped, are all of it: no byte is lost, repeated or
    reordered. *)
Lemma client_follows m es0 w0 st k w1 es w c b
  (Hrun : reach m es0 w0) (Hidle : pumping w0 = None) (Hnew : bridges w0 !! k = None)
  (Hattach : wrel w0 (EvAttach st FreshPTY) w1) (Hadmitted : is_Some (bridges w1 !! k))
  (Hafter : steps (undisturbed k) w1 es w) (Hlen : len es0 + len es + 2 < 2 ^ 63)
  (Hlog : len (printed w) + 1 < 2 ^ 64)
  (Hc : heap (sess w) !! k = Some c) (Hb : bridges w !! k = Some b) (Hlossless : dropped c = 0) :
  let seen := slice_from (printed w) (Z.max 0 (len (printed w0) - outputRingCapacity)) in
  concat (sent c) `prefix_of` seen /\
  (k ∈ clients (sess w) -> b_out b <> OutStop ->
   given c b ++ default [] (pumping w) = seen).
Proof.
  pose proof (len_nonneg es). pose proof (len_nonneg es0).
  destruct (fresh_attach_follows w0 st k w1 Hidle Hnew (proj2 Hattach) Hadmitted) as (Hf & Hd).
  pose proof (steps_app _ _ _ _ _ _ Hrun (steps_one _ _ _ _ Hattach)) as Hrun1.
  destruct (reach_wf m _ w1 Hrun1) as [Hw1 Hn1]; [rewrite len_app; change (len [_]) with 1; lia|].
  rewrite len_app in Hn1. change (len [_]) with 1 in Hn1.
  destruct (follows_run k _ w1 (len es0 + 1) es w Hafter Hw1 (reach_ring _ _ _ Hrun1) Hn1 ltac:(lia) Hf Hd ltac:(lia) Hlog)
    as (c' & Hc' & Hfin).
  assert (c' = c) as -> by congruence.
  destruct (Hfin Hlossless) as (c2 & b2 & Hc2 & Hb2 & [_ _ Hfr Hg Hp]).
  assert (c2 = c) as -> by congruence. assert (b2 = b) as -> by congruence.
  split; [done|]. intros Hk Ho. apply Hg; [|done].
  destruct (past b) eqn:Ep; [|by destruct (Hfr eq_refl) as (_ & _ & ?)].
  unfold due, past in *. by destruct (b_pc b), (b_out b).
Qed.

(** ** Concrete runs *)

Fixpoint calm_run (k : Z) (w : world) (es : list event) : bool :=
  match es with
  | [] => true
  | e :: es => calm k w e && match wstep w e with Some w' => calm_run k w' es | None => true end
  end.

Lemma exec_undisturbed k w es w' :
  Forall event_ok es -> calm_run k w es = true -> exec w es = Some w' -> steps (undisturbed k) w es w'.
Proof.
  revert w. induction es as [|e es IH]; intros w Hok Hcalm Hx; cbn [exec calm_run] in *.
  - injection Hx as ->. constructor.
  - apply Forall_cons_1 in Hok as [He Hok]. apply andb_true_iff in Hcalm as [Hc Hcalm].
    destruct (wstep w e) as [w1|] eqn:E; [|done].
    apply (steps_app (undisturbed k) w [e] w1 es w'); [apply steps_one; repeat split|]; auto.
Qed.

(** Output before an attach; then, with other goroutines and the pump at work
    around the attach, more output. *)
Definition run_before : list event := [EvPump (str "$ "); EvBroadcast].
Definition run_after : list event :=
  [EvAttachSize 1; EvControl 7 owner_stream (CResize 90 30); EvReplay 1; EvPump (str "hello"); EvSend 1;
   EvTake 1; EvWritten 1 None; EvBroadcast; EvTake 1; EvPump (str "!")].

Lemma client_follows_witness :
  let w0 := runs ModeSupersede run_before in
  pumping w0 = None /\ bridges w0 !! 1 = None /\
  exists w1 w c b,
    wstep w0 (EvAttach owner_stream FreshPTY) = Some w1 /\
    exec w1 run_after = Some w /\ heap (sess w) !! 1 = Some c /\ bridges w !! 1 = Some b /\
    dropped c = 0 /\ given c b ++ default [] (pumping w) = str "$ hello!".
Proof.
  intros w0.
  assert (reach ModeSupersede run_before w0) as Hr
    by (apply runs_reach; [vm_compute; reflexivity|repeat constructor]).
  split; [vm_compute; reflexivity|]. split; [vm_compute; reflexivity|].
  destruct (wstep w0 (EvAttach owner_stream FreshPTY)) as [w1|] eqn:E1;
    [|vm_compute in E1; discriminate].
  pose proof E1 as F1. vm_compute in F1. injection F1 as F1.
  destruct (exec w1 run_after) as [w|] eqn:E2;
    [|rewrite <- F1 in E2; vm_compute in E2; discriminate].
  pose proof E2 as F2. rewrite <- F1 in F2. vm_compute in F2. injection F2 as F2.
  assert (exists c, heap (sess w) !! 1 = Some c /\ dropped c = 0) as (c & Hc & Hd)
    by (rewrite <- F2; eexists; split; vm_compute; reflexivity).
  assert (exists b, bridges w !! 1 = Some b /\ b_out b = OutWrite (str "hello")) as (b & Hb & Ho)
    by (rewrite <- F2; eexists; split; vm_compute; reflexivity).
  exists w1, w, c, b. split_and!; try done.
  destruct (client_follows ModeSupersede run_before w0 owner_stream 1 w1 run_after
    w c b Hr ltac:(vm_compute; reflexivity) ltac:(vm_compute; reflexivity) (conj I E1)
    ltac:(rewrite <- F1; eexists; vm_compute; reflexivity)
    (exec_undisturbed 1 w1 run_after w ltac:(repeat constructor; simpl; lia)
       ltac:(rewrite <- F1; vm_compute; reflexivity) E2) ltac:(done)
    ltac:(rewrite <- F2; vm_compute; reflexivity) Hc Hb Hd) as [_ H].
  rewrite H; [|rewrite <- F2; apply (bool_decide_eq_true_1 _); vm_compute; reflexivity|by rewrite Ho].
  rewrite <- F2. vm_compute. reflexivity.
Defined.

(** *** Why [calm] is asked for

    The replay is read outside s.mu, after the client is in the registry, so
    the pump can run between the two.  In [run_twice] it writes a chunk to the
    ring after the admission and broadcasts it after the replay was sent: the
    client gets the chunk in its replay and again live.  In [run_swapped] it
    broadcasts a chunk between the read of the ring and the send of the
    replay: the client gets the live chunk before the replay that precedes it
    in the log.  Neither run drops anything. *)
Definition run_twice : list event :=
  [EvAttach owner_stream FreshPTY; EvAttachSize 1; EvPump (str "$ "); EvReplay 1; EvSend 1; EvBroadcast;
   EvTake 1; EvWritten 1 None; EvTake 1; EvWritten 1 None].

Definition run_swapped : list event :=
  [EvPump (str "$ "); EvBroadcast; EvAttach owner_stream FreshPTY; EvAttachSize 1; EvReplay 1;
   EvPump (str "ls"); EvBroadcast; EvSend 1; EvTake 1; EvWritten 1 None; EvTake 1; EvWritten 1 None].

Theorem replay_races_with_pump :
  (reach ModeMultiWrite run_twice (runs ModeMultiWrite run_twice) /\
   printed (runs ModeMultiWrite run_twice) = str "$ " /\
   exists c, heap (sess (runs ModeMultiWrite run_twice)) !! 1 = Some c /\
     dropped c = 0 /\ concat (sent c) = str "$ $ ") /\
  (reach ModeMultiWrite run_swapped (runs ModeMultiWrite run_swapped) /\
   printed (runs ModeMultiWrite run_swapped) = str "$ ls" /\
   exists c, heap (sess (runs ModeMultiWrite run_swapped)) !! 1 = Some c /\
     dropped c = 0 /\ concat (sent c) = str "ls$ ").
Proof.
  split; (split; [apply runs_reach; [vm_compute; reflexivity|repeat constructor]|]);
    (split; [vm_compute; reflexivity|]); eexists; repeat split; vm_compute; reflexivity.
Qed.
