(* ===== verification/VtermControl.v ===== *)
(** * vterm: geometry and eviction

    The PTY size a Resize leads to, the independence of the order in which a
    client's control and PTY streams arrive, and that an evicted client's
    bridge can always finish. *)

From S2P Require Import Prelude Streambuf Varint Queries Identity Session Bridge VtermPolicy VtermOutput.

Lemma u16_small z : 0 <= z < 2 ^ 16 -> u16 z = z.
Proof. apply Z.mod_small. Qed.

Lemma is_min_le m w h k c :
  is_min m w h -> m !! k = Some c -> 0 < cols c -> 0 < rows c ->
  0 < w <= cols c /\ 0 < h <= rows c.
Proof.
  intros Hm Hk Hc1 Hc2. assert (reported c) as Hr by (unfold reported; lia).
  destruct Hm as [(_ & _ & H)|(Hw & Hh & H & _)]; [by destruct (H k c)|].
  specialize (H k c Hk Hr). lia.
Qed.

(** The state and result a Resize leads to, on every branch. *)
Definition resized (fails : bool) (s : Session) (r : bytes) (w h : Z) (s' : Session) (e : res ControlError unit) : Prop :=
  if (w =? 0) || (h =? 0) then s' = s /\ e = Err (ResizeIgnored w h)
  else match clientByRemoteIDLocked s r with
       | None =>
           s' = with_pending s (<[r := (w, h)]> (pendingResize s)) /\ e = Ok tt /\ ptyf s' = ptyf s
       | Some c =>
           exists pw ph,
             client s' (id c) = Some (set_geometry w h c) /\
             (forall k, k <> id c -> client s' k = client s k) /\
             is_min (live s') pw ph /\ 0 < pw <= w /\ 0 < ph <= h /\
             ptyf s' = ptyf s ++ [Setsize pw ph] /\
             e = if fails then Err SetsizeFailed else Ok tt
       end.

(** What a Resize from a client does, on every branch.  A zero dimension
    is refused and changes nothing.  With no attached client of that remote
    the size is remembered for its next attach and the PTY is untouched.
    Otherwise it is recorded on the remote's most recent client and the PTY is
    set to the minimum over all clients that have reported a size, which does
    not exceed the one just reported. *)
Theorem resize_applies_minimum fails s r w h
  (Hwf : wf s) (Hw : 0 <= w < 2 ^ 16) (Hh : 0 <= h < 2 ^ 16) :
  let '(s', e) := applyResize fails s r w h in resized fails s r w h s' e.
Proof.
  unfold applyResize, resized. destruct ((w =? 0) || (h =? 0)) eqn:E; [done|].
  unfold applyResizeForRemote, resizeLocked.
  pose proof (clientByRemoteID_spec s r Hwf) as Hs.
  destruct (clientByRemoteIDLocked s r) as [c|]; [|done].
  destruct Hs as (Hc & _). set (s1 := update s (id c) (set_geometry w h)).
  assert (wf s1) as Hw1 by (apply wf_update; [apply set_geometry_ok; lia|done]).
  pose proof (minGeometry_spec s1 Hw1) as Hm.
  assert (client s1 (id c) = Some (set_geometry w h c)) as Hc1.
  { unfold s1. by rewrite client_update, bool_decide_eq_true_2, Hc. }
  destruct (minGeometryLocked s1) as [pw ph]. simpl in Hm.
  pose proof Hc1 as Hc2. rewrite <- lookup_live in Hc2.
  destruct (is_min_le _ _ _ _ _ Hm Hc2) as [? ?]; simpl in *; try lia.
  assert ((pw =? 0) || (ph =? 0) = false) as -> by lia.
  assert (Hother : forall k, k <> id c -> client s1 k = client s k).
  { intros k Hk. unfold s1. by rewrite client_update, bool_decide_eq_false_2. }
  assert (ptyf (applyPTYSize s1 pw ph) = ptyf s ++ [Setsize pw ph]) as Hp
    by (simpl; by rewrite !u16_small by lia).
  destruct fails; exists pw, ph; split_and!; try done; lia.
Qed.

Lemma resize_applies_minimum_witness :
  wf (sess (runs ModeMultiWrite run2)) /\
  exists pw ph, 0 < pw <= 100 /\ 0 < ph <= 40 /\
    ptyf (applyResize false (sess (runs ModeMultiWrite run2)) (str "a") 100 40).1
    = [Setsize 80 24; Setsize pw ph].
Proof.
  assert (reach ModeMultiWrite run2 (runs ModeMultiWrite run2)) as Hr
    by (apply runs_reach; [vm_compute; reflexivity|repeat constructor]).
  pose proof (proj1 (reach_wf _ _ _ Hr ltac:(done))) as Hw. split; [exact Hw|].
  pose proof (resize_applies_minimum false (sess (runs ModeMultiWrite run2)) (str "a") 100 40
    Hw ltac:(lia) ltac:(lia)) as H.
  destruct (applyResize _ _ _ _ _) as [s' e]. cbn [fst]. unfold resized in H.
  change ((100 =? 0) || (40 =? 0)) with false in H. cbv iota in H.
  destruct (clientByRemoteIDLocked (sess (runs ModeMultiWrite run2)) (str "a")) as [c|] eqn:Ec;
    [|vm_compute in Ec; discriminate].
  destruct H as (pw & ph & _ & _ & _ & ? & ? & Hp & _). exists pw, ph.
  split; [assumption|]. split; [assumption|]. rewrite Hp. vm_compute. reflexivity.
Defined.

(** ** Resize before attach, attach before resize *)

(** Registering a client of a remote makes it that remote's latest. *)
Lemma latest_new s r c :
  wf s -> client s (nextID s) = Some c -> remote c = r ->
  clientByRemoteIDLocked s r = Some c.
Proof.
  intros Hw Hc Hr. pose proof (clientByRemoteID_spec s r Hw) as Hs.
  destruct (clientByRemoteIDLocked s r) as [l|].
  - destruct Hs as (Hl & _ & Hmax). specialize (Hmax _ _ Hc Hr).
    pose proof (wf_client _ _ _ Hw Hl) as (_ & ? & _).
    assert (id l = nextID s) as E by lia. rewrite E in Hl. congruence.
  - by destruct (Hs _ _ Hc).
Qed.

Lemma Session_eq s s' :
  signals s' = signals s -> running s' = running s -> ptyf s' = ptyf s -> mode s' = mode s ->
  output s' = output s -> daResp s' = daResp s -> nextID s' = nextID s -> heap s' = heap s ->
  clients s' = clients s -> writerID s' = writerID s -> pendingResize s' = pendingResize s -> s' = s.
Proof. destruct s, s'; simpl; intros; by subst. Qed.

(** The session addClientLocked builds, once admission has answered. *)
Lemma addClientLocked_session s st i s' cw :
  admission s i = Some (s', cw) ->
  let k := i64 (nextID s' + 1) in
  let g := default (0, 0) (pendingResize s' !! RemoteID st) in
  let s2 := mkSession (signals s') (running s') (ptyf s') (mode s') (output s') (daResp s') k
    (<[k := mkClient k i (RemoteID st) [] false cw g.1 g.2 0 []]> (heap s')) ({[k]} ∪ clients s')
    (if bool_decide (mode s' = ModePrimaryObserver) && cw then k else writerID s')
    (delete (RemoteID st) (pendingResize s')) in
  addClientLocked s st i =
    (s2, Some k, if (0 <? g.1) && (0 <? g.2) then minGeometryLocked s2 else (0, 0)).
Proof.
  intros Ha k g s2. unfold addClientLocked. rewrite Ha. simpl. subst g s2.
  destruct (pendingResize s' !! RemoteID st) as [[pc pr]|] eqn:Ep; simpl.
  - by destruct (bool_decide _ && cw).
  - rewrite delete_id by done. by destruct (bool_decide _ && cw).
Qed.

(** admission neither reads nor writes the pending sizes. *)
Lemma admit_pending s i p :
  admission (with_pending s p) i = prod_map (fun s => with_pending s p) (fun b => b) <$> admission s i.
Proof.
  unfold admission. simpl. destruct (mode s); try done; by case_bool_decide.
Qed.

(** A client with a size makes the minimum a size. *)
Lemma minGeometry_positive s k c :
  wf s -> live s !! k = Some c -> 0 < cols c -> 0 < rows c ->
  exists pw ph, minGeometryLocked s = (pw, ph) /\ 0 < pw /\ 0 < ph.
Proof.
  intros Hwf Hl Hc Hr. pose proof (minGeometry_spec s Hwf) as Hm. destruct (minGeometryLocked s) as [pw ph].
  exists pw, ph. simpl in Hm. destruct (is_min_le _ _ _ _ _ Hm Hl); [done|done|]. split; [done|lia].
Qed.

(** The two arrival orders of a client's Resize and its PTY stream. *)
Definition resize_then_attach (s : Session) (st : stream) (w h : Z) : Session :=
  (addClient (applyResize false s (RemoteID st) w h).1 st).1.
Definition attach_then_resize (s : Session) (st : stream) (w h : Z) : Session :=
  (applyResize false (addClient s st).1 (RemoteID st) w h).1.

(** C39: control and PTY streams arrive in either order.  When a remote has no
    attached client and no remembered size, sending a Resize first and
    attaching then leaves the session in exactly the state that attaching
    first and sending the Resize then does, PTY calls included, in every
    mode that admits the client. *)
Theorem resize_and_attach_commute s st w h
  (Hwf : wf s) (Hid : nextID s + 1 < 2 ^ 63)
  (Hw : 0 < w < 2 ^ 32) (Hh : 0 < h < 2 ^ 32)
  (Hnone : clientByRemoteIDLocked s (RemoteID st) = None)
  (Hfresh : pendingResize s !! RemoteID st = None)
  (Hadmit : is_Some (admission s (IdentityOf st))) :
  resize_then_attach s st w h = attach_then_resize s st w h.
Proof.
  unfold resize_then_attach, attach_then_resize.
  destruct Hadmit as [[s' cw] Ha].
  destruct (admit_frame _ _ _ _ Ha) as (En & _ & _ & Ep & _).
  pose proof (wf_next s Hwf). set (r := RemoteID st) in *.
  assert ((w =? 0) || (h =? 0) = false) as Ez by lia.
  unfold applyResize. rewrite Ez. unfold applyResizeForRemote at 1, resizeLocked at 1.
  rewrite Hnone. simpl.
  set (sA := with_pending s (<[r := (w, h)]> (pendingResize s))).
  assert (admission sA (IdentityOf st) =
    Some (with_pending s' (<[r := (w, h)]> (pendingResize s)), cw)) as HaA
    by (unfold sA; by rewrite admit_pending, Ha).
  unfold addClient.
  rewrite (addClientLocked_session _ st _ _ _ HaA), (addClientLocked_session _ st _ _ _ Ha).
  simpl. fold r. rewrite lookup_insert_eq, Ep, Hfresh, delete_insert_id, delete_id by done. simpl.
  assert ((0 <? w) && (0 <? h) = true) as -> by lia.
  set (k := i64 (nextID s' + 1)).
  set (mk := fun a b => mkSession (signals s') (running s') (ptyf s') (mode s') (output s')
    (daResp s') k (<[k := mkClient k (IdentityOf st) r [] false cw a b 0 []]> (heap s'))
    ({[k]} ∪ clients s')
    (if bool_decide (mode s' = ModePrimaryObserver) && cw then k else writerID s')
    (pendingResize s)).
  change (mkSession (signals s') (running s') (ptyf s') (mode s') (output s')
    (daResp s') k (<[k := mkClient k (IdentityOf st) r [] false cw w h 0 []]> (heap s')) _ _ _)
    with (mk w h).
  change (mkSession (signals s') (running s') (ptyf s') (mode s') (output s')
    (daResp s') k (<[k := mkClient k (IdentityOf st) r [] false cw 0 0 0 []]> (heap s')) _ _ _)
    with (mk 0 0).
  assert (wf (mk 0 0)) as Hw0.
  { pose proof (wf_addClientLocked s st (IdentityOf st) Hwf Hid) as Hx.
    rewrite (addClientLocked_session _ st _ _ _ Ha) in Hx. simpl in Hx. fold r k in Hx.
    rewrite Ep, Hfresh, delete_id in Hx by done. exact Hx. }
  assert (client (mk 0 0) k = Some (mkClient k (IdentityOf st) r [] false cw 0 0 0 [])) as Hc0.
  { apply client_Some. simpl. split; [set_solver|by rewrite lookup_insert_eq]. }
  assert (update (mk 0 0) k (set_geometry w h) = mk w h) as Hup.
  { unfold update, mk, with_heap. simpl. f_equal. by rewrite alter_insert_eq. }
  unfold applyResizeForRemote, resizeLocked. rewrite (latest_new (mk 0 0) r _ Hw0 Hc0 eq_refl).
  simpl id. rewrite Hup.
  assert (wf (mk w h)) as Hwg
    by (rewrite <- Hup; apply wf_update; [apply set_geometry_ok; lia|done]).
  assert (live (mk w h) !! k = Some (mkClient k (IdentityOf st) r [] false cw w h 0 [])) as Hl.
  { rewrite lookup_live. apply client_Some. simpl. split; [set_solver|by rewrite lookup_insert_eq]. }
  destruct (minGeometry_positive _ _ _ Hwg Hl) as (pw & ph & -> & ? & ?); [simpl; lia..|]. simpl.
  assert ((0 <? pw) = true) as -> by lia. assert ((0 <? ph) = true) as -> by lia.
  assert ((pw =? 0) = false) as -> by lia. by assert ((ph =? 0) = false) as -> by lia.
Qed.

Lemma resize_and_attach_commute_witness :
  let s := initSession ModePrimaryObserver in
  clientByRemoteIDLocked s (RemoteID writer_stream) = None /\
  ptyf (resize_then_attach s writer_stream 120 50) = ptyf (attach_then_resize s writer_stream 120 50).
Proof.
  intros s. split; [vm_compute; reflexivity|].
  rewrite (resize_and_attach_commute s writer_stream 120 50); try reflexivity; try (simpl; lia).
  - apply wf_init.
  - eexists. reflexivity.
Defined.
