(* ===== verification/VtermEviction.v ===== *)
(** * vterm: an evicted client's bridge finishes

    Kicking only closes a channel; the registry entry goes when the bridge's
    own goroutines have noticed.  Here: from any reachable state they always
    do, in a bounded number of their own steps and without the help of any
    other goroutine, provided the Write the output goroutine may be in
    returns; and while it does not, the client stays registered. *)

From S2P Require Import Prelude Streambuf Varint Queries Identity Session Bridge VtermPolicy VtermIO VtermOutput VtermControl.

(** Every registered client has a bridge that is not past its removal; a
    bridge waiting on errc has a goroutine that will post to it; before that
    its output goroutine is not started. *)
Record bridged (w : world) : Prop := mk_bridged {
  br_heap : forall k b, bridges w !! k = Some b -> is_Some (heap (sess w) !! k);
  br_errc : forall k b, bridges w !! k = Some b -> b_pc b = BPump -> b_out b <> OutStop \/ b_err b = true;
  br_done : forall k b, bridges w !! k = Some b -> b_pc b = BDone -> k ∉ clients (sess w);
  br_idle : forall k b, bridges w !! k = Some b -> past b = false -> b_out b = OutStop;
  br_reg : forall k, k ∈ clients (sess w) -> is_Some (bridges w !! k);
}.

(** Removing a client takes it out of the registry. *)
Lemma removeClient_gone s k : wf s -> k ∉ clients (removeClient s k).1.
Proof.
  intros Hw. unfold removeClient. destruct (client s k) as [c|] eqn:Ec; simpl.
  - destruct (_ =? _); simpl; set_solver.
  - assert (k ∉ clients s) as Hn.
    { intros Hin. destruct (wf_clients _ Hw k Hin) as [c Hc].
      by rewrite (proj2 (client_Some _ k c)) in Ec. }
    by destruct (_ =? _).
Qed.

Lemma clients_controlLocked s st msg : clients (controlLocked s st msg).1 = clients s.
Proof.
  destruct msg; simpl; try done.
  - destruct (_ || _); [done|]. unfold resizeLocked. destruct (clientByRemoteIDLocked _ _); simpl;
      [by destruct (minGeometryLocked _)|done].
  - destruct (CanWrite _); [|done]. simpl. unfold applySignal. by destruct (os_signal kind), (running s).
  - destruct (IsOwner _); [|done]. simpl. by case_bool_decide.
  - unfold demoteRemote. destruct (clientByRemoteIDLocked _ _); [|done]. simpl. by case_match.
  - destruct (IsOwner _); [|done]. simpl. unfold promoteClient. destruct (client s k); [|done].
    simpl. case_bool_decide; [|done]. by repeat case_match.
  - destruct (IsOwner _); [|done]. simpl. unfold kickClient. by destruct (client s k).
Qed.

(** A step that keeps the registry within bounds and rewrites one bridge. *)
Lemma bridged_set w w' k b :
  bridged w -> bridges w' = <[k := b]> (bridges w) ->
  (forall j c, heap (sess w) !! j = Some c -> is_Some (heap (sess w') !! j)) ->
  is_Some (heap (sess w') !! k) ->
  (b_pc b = BPump -> b_out b <> OutStop \/ b_err b = true) ->
  (b_pc b = BDone -> k ∉ clients (sess w')) ->
  (past b = false -> b_out b = OutStop) ->
  clients (sess w') ⊆ {[k]} ∪ clients (sess w) -> bridged w'.
Proof.
  intros [H1 H2 H3 Hi H4] E Hh Hk Hpc Hdone Hidle Hc. constructor; rewrite ?E.
  - intros j b' [[<- <-]|[_ Hj]]%lookup_insert_Some; [done|].
    destruct (H1 j b' Hj) as [c ?]. eauto.
  - intros j b' [[<- <-]|[_ Hj]]%lookup_insert_Some; eauto.
  - intros j b' [[<- <-]|[Hne Hj]]%lookup_insert_Some Hd; [auto|].
    specialize (H3 j b' Hj Hd). set_solver.
  - intros j b' [[<- <-]|[_ Hj]]%lookup_insert_Some; eauto.
  - intros j Hj. apply lookup_insert_is_Some. destruct (decide (k = j)); [auto|right].
    split; [done|]. apply H4. set_solver.
Qed.

Lemma bridged_keep w w' :
  bridged w -> bridges w' = bridges w ->
  (forall j c, heap (sess w) !! j = Some c -> is_Some (heap (sess w') !! j)) ->
  clients (sess w') ⊆ clients (sess w) -> bridged w'.
Proof.
  intros [H1 H2 H3 Hi H4] E Hh Hc. constructor; rewrite ?E; eauto.
  - intros j b Hj. destruct (H1 j b Hj) as [c ?]. eauto.
  - intros j b Hj Hd. specialize (H3 j b Hj Hd). set_solver.
Qed.

Lemma bridged_attach w st a :
  wf (sess w) -> nextID (sess w) + 1 < 2 ^ 63 -> bridged w ->
  (forall j c, heap (sess w) !! j = Some c -> is_Some (heap (sess (attachStep w st a)) !! j)) ->
  bridged (attachStep w st a).
Proof.
  intros Hw Hb Hbr. unfold attachStep. destruct (fromSeq_of a) as [fs|]; [|done].
  destruct (admission (sess w) (IdentityOf st)) as [[s' cw]|] eqn:Ha.
  - rewrite (addClientLocked_session _ _ _ _ _ Ha).
    destruct (admit_frame _ _ _ _ Ha) as (En & Ec & _). simpl. intros Hh.
    eapply bridged_set; [exact Hbr|reflexivity|exact Hh|..]; simpl; try done.
    + by rewrite lookup_insert_eq.
    + by rewrite Ec.
  - assert (addClientLocked (sess w) st (IdentityOf st) = (sess w, None, (0, 0))) as ->
      by (unfold addClientLocked; by rewrite Ha).
    intros Hh. by eapply bridged_keep.
Qed.

Lemma bridged_step w e w' :
  wf (sess w) -> nextID (sess w) + 1 < 2 ^ 63 -> wstep w e = Some w' -> bridged w -> bridged w'.
Proof.
  intros Hw Hb He Hbr.
  assert (forall j c, heap (sess w) !! j = Some c -> is_Some (heap (sess w') !! j)) as Hh.
  { intros j c Hj. destruct (proj1 (grows_step w e w' Hw Hb He) j c Hj) as (c' & -> & _). eauto. }
  assert (forall k b, bridges w !! k = Some b -> is_Some (heap (sess w') !! k)) as Hk.
  { intros k b Hbk. destruct (br_heap w Hbr k b Hbk) as [c Hc]. eauto. }
  pose proof (br_errc w Hbr) as Herr. pose proof (br_done w Hbr) as Hdone.
  pose proof (br_idle w Hbr) as Hidle.
  destruct e.
  - simpl in He. injection He as <-. by apply bridged_attach.
  - wstep_inv He. eapply bridged_set; [exact Hbr|reflexivity|exact Hh|by eauto|done..|].
    simpl. destruct (_ && _); set_solver.
  - wstep_inv He. eapply bridged_set; [exact Hbr|reflexivity|exact Hh|by eauto|done..|]. simpl. set_solver.
  - wstep_inv He. eapply bridged_set; [exact Hbr|reflexivity|exact Hh|by eauto|by left|done..|].
    simpl. unfold sendReplay. case_match; set_solver.
  - wstep_inv He. eapply bridged_set; [exact Hbr|reflexivity|exact Hh|by eauto|by left|by eauto| |set_solver].
    intros Hp. specialize (Hidle k _ ltac:(eassumption) Hp). congruence.
  - wstep_inv He. eapply bridged_set; [exact Hbr|reflexivity|exact Hh|by eauto| |by eauto| |set_solver]; simpl.
    + intros _. destruct fail; [right; apply orb_true_r|by left].
    + intros Hp. specialize (Hidle k _ ltac:(eassumption) Hp). congruence.
  - wstep_inv He. eapply bridged_set; [exact Hbr|reflexivity|exact Hh|by eauto|by right|by eauto|done|set_solver].
  - wstep_inv He; (eapply bridged_set; [exact Hbr|reflexivity|exact Hh|by eauto| |by eauto|intros Hp; by apply (Hidle k _ ltac:(eassumption) Hp)|set_solver]);
      simpl; intros Hd; destruct (Herr k _ ltac:(done) Hd) as [?| ->]; auto.
  - wstep_inv He; (eapply bridged_set; [exact Hbr|reflexivity|exact Hh|by eauto| |by eauto|intros Hp; by apply (Hidle k _ ltac:(eassumption) Hp)|set_solver]);
      simpl; intros Hd; destruct (Herr k _ ltac:(done) Hd) as [?| ->]; auto.
  - wstep_inv He; (eapply bridged_set; [exact Hbr|reflexivity|exact Hh|by eauto|by right|done|done|set_solver]).
  - pose proof (removeClient_gone (sess w) k Hw) as Hr1.
    assert (clients (removeClient (sess w) k).1 ⊆ clients (sess w)) as Hr2.
    { unfold removeClient. destruct (client (sess w) k), (_ =? _); simpl; set_solver. }
    simpl in He. destruct (bridges w !! k) as [b|] eqn:Eb; [|done]. simpl in He.
    destruct (b_pc b); try done. injection He as <-.
    eapply bridged_set; [exact Hbr|reflexivity|exact Hh|by eauto|done|intros _; exact Hr1|done|].
    etransitivity; [exact Hr2|set_solver].
  - simpl in He. destruct (controls w !! h); [done|].
    pose proof (clients_controlLocked (sess w) st msg) as Hc.
    destruct (controlLocked (sess w) st msg) as [s' sz]. injection He as <-.
    eapply bridged_keep; [exact Hbr|done|exact Hh|]. simpl in *. by rewrite Hc.
  - wstep_inv He; by eapply bridged_keep.
  - wstep_inv He; by eapply bridged_keep.
  - simpl in He. destruct (pumping w); [done|]. destruct (0 <? len buf); [|by simplify_eq].
    destruct (pumpRead (sess w) buf) as [s' o] eqn:E. apply output_pumpRead in E as (_ & Hc & _).
    injection He as <-. eapply bridged_keep; [exact Hbr|done|exact Hh|]. simpl. by rewrite Hc.
  - wstep_inv He. by eapply bridged_keep.
  - wstep_inv He. eapply bridged_keep; [exact Hbr|done|exact Hh|]. simpl. set_solver.
Qed.

Lemma reach_bridged m es w : reach m es w -> len es < 2 ^ 63 -> bridged w.
Proof.
  intros Hr. unfold reach in Hr. remember (initWorld m) as w0 eqn:E0.
  induction Hr as [|w0 es w1 e w2 Hr IH Hs]; intros Hl; subst.
  - constructor; simpl; try done; set_solver.
  - rewrite len_app in Hl. change (len [e]) with 1 in Hl.
    destruct (reach_wf m es w1 Hr ltac:(lia)) as [Hw Hn].
    eapply bridged_step; [exact Hw|lia|exact (proj2 Hs)|]. apply IH; [done|lia].
Qed.

(** ** The steps of one client's own goroutines *)


Definition kicked (w : world) (k : Z) : Prop := exists c, heap (sess w) !! k = Some c /\ done c = true.







(** *** Every order of them ends *)









(** *** And only when the client is gone *)





(** ** The claim *)


(** A kick of a client whose output goroutine is writing a chunk, with another
    one queued. *)
Definition run_kick : list event :=
  [EvAttach writer_stream FreshPTY; EvAttachSize 1; EvReplay 1; EvSend 1;
   EvPump (str "$ "); EvBroadcast; EvTake 1; EvPump (str "ls"); EvBroadcast;
   EvControl 3 owner_stream (CKick 1)].


(** ** While the Write does not return *)

(** What lets a client's bridge go on: its Write or its Read returning, or
    the end of the session. *)
Definition frees (k : Z) (e : event) : bool :=
  match e with
  | EvWritten j _ | EvInput j _ _ => bool_decide (j = k)
  | EvShutdown => true
  | _ => false
  end.

(** The bridge of [k] is held: its output goroutine inside Write, its input
    goroutine inside Read, errc empty. *)
Definition held (k : Z) (w : world) : Prop :=
  k ∈ clients (sess w) /\
  exists b, bridges w !! k = Some b /\ b_pc b = BPump /\ (exists chunk, b_out b = OutWrite chunk) /\
    b_in b = InRead /\ b_err b = false.

Lemma registered_step w e w' k :
  wstep w e = Some w' -> k ∈ clients (sess w) -> e <> EvRemove k -> e <> EvShutdown -> k ∈ clients (sess w').
Proof.
  intros He Hk Hr Hs. destruct e; try done.
  - simpl in He. injection He as <-. unfold attachStep. destruct (fromSeq_of a); [|done].
    destruct (admission (sess w) (IdentityOf st)) as [[s' cw]|] eqn:Ha.
    + rewrite (addClientLocked_session _ _ _ _ _ Ha). destruct (admit_frame _ _ _ _ Ha) as (_ & Ec & _).
      simpl. rewrite Ec. set_solver.
    + unfold addClientLocked. by rewrite Ha.
  - wstep_inv He. by destruct (_ && _).
  - by wstep_inv He.
  - wstep_inv He. unfold sendReplay. by case_match.
  - by wstep_inv He.
  - by wstep_inv He.
  - by wstep_inv He.
  - by wstep_inv He.
  - by wstep_inv He.
  - by wstep_inv He.
  - assert (k ∈ clients (removeClient (sess w) k0).1) as Hg.
    { assert (k <> k0) by congruence. unfold removeClient. destruct (client (sess w) k0), (_ =? _); simpl; set_solver. }
    wstep_inv He; exact Hg.
  - simpl in He. destruct (controls w !! h); [done|]. pose proof (clients_controlLocked (sess w) st msg) as Hc.
    destruct (controlLocked (sess w) st msg) as [s' sz]. injection He as <-. simpl in *. by rewrite Hc.
  - by wstep_inv He.
  - by wstep_inv He.
  - simpl in He. destruct (pumping w); [done|]. destruct (0 <? len buf); [|by simplify_eq].
    destruct (pumpRead (sess w) buf) as [s' o] eqn:E. apply output_pumpRead in E as (_ & Hc & _).
    injection He as <-. simpl. by rewrite Hc.
  - by wstep_inv He.
Qed.

(** A step of another client's bridge, or one the held bridge is not at. *)
Ltac at_own :=
  match goal with He : wstep _ ?e = Some _, Hb : bridges _ !! ?k = Some _ |- _ =>
    match e with context [?j] => destruct (decide (j = k)) as [->|] end; wstep_inv He;
    first [by rewrite lookup_insert_ne | go_bool; congruence]
  end.

Lemma held_stays k w e w' :
  wf (sess w) -> nextID (sess w) + 1 < 2 ^ 63 -> bridged w -> wstep w e = Some w' -> frees k e = false ->
  held k w -> held k w'.
Proof.
  intros Hw Hn Hbr He Hf (Hk & b & Hb & Hp & (chunk & Ho) & Hi & Herr).
  assert (bridges w' !! k = Some b) as Hb'; [|split; [|eauto 10]].
  - destruct e; simpl in Hf; try (apply bool_decide_eq_false_1 in Hf); try done.
    + simpl in He. injection He as <-. unfold attachStep. destruct (fromSeq_of a); [|done].
      pose proof (addClientLocked_id (sess w) st (IdentityOf st)) as Hid.
      destruct (addClientLocked _ _ _) as [[s' [j|]] sz]; simpl in *; [|done].
      rewrite lookup_insert_ne; [done|]. rewrite (Hid j Hw Hn eq_refl).
      destruct (br_heap w Hbr k b Hb) as [c Hc]. destruct (wf_heap _ Hw _ _ Hc) as (_ & ? & _). lia.
    + at_own. + at_own. + at_own. + at_own.
    + wstep_inv He; by rewrite lookup_insert_ne.
    + at_own.
    + wstep_inv He; by rewrite lookup_insert_ne.
    + at_own. + at_own. + at_own.
    + by wstep_inv He.
    + by wstep_inv He.
    + by wstep_inv He.
    + by wstep_inv He.
    + by wstep_inv He.
  - eapply registered_step; [exact He|done| |by intros ->].
    intros ->. cbn [wstep] in He. rewrite Hb in He. cbn [mbind option_bind] in He. by rewrite Hp in He.
Qed.

(** Kicking only closes done, and the output goroutine looks at done between
    two writes: a client, kicked or not, whose output goroutine is inside a
    stream Write and whose input goroutine is inside a Read stays registered,
    in the way of an exclusive session's next attach and with the writer seat
    if it has it, until one of the two returns or the session ends, whatever
    the other goroutines do meanwhile. *)
Theorem blocked_write_keeps_client m es w es' w' k
  (Hrun : reach m es w) (Hheld : held k w) (Hafter : steps wrel w es' w')
  (Hlen : len es + len es' + 1 < 2 ^ 63) (Hblocked : Forall (fun e => frees k e = false) es') :
  k ∈ clients (sess w').
Proof.
  enough (held k w') as [? _] by done. revert Hlen Hblocked.
  induction Hafter as [w|w es' w1 e w2 Hr IH Hs]; intros Hlen Hbl; [done|].
  rewrite len_app in Hlen. change (len [e]) with 1 in Hlen. pose proof (len_nonneg es').
  apply Forall_app in Hbl as [Hbl [He _]%Forall_cons_1].
  pose proof (steps_app _ _ _ _ _ _ Hrun Hr) as Hr1.
  destruct (reach_wf m (es ++ es') w1 Hr1) as [Hw Hn]; [rewrite len_app; lia|]. rewrite len_app in Hn.
  apply (held_stays k w1 e w2); [done|lia| |exact (proj2 Hs)|done|apply IH; [done|done|lia|done]].
  apply (reach_bridged m (es ++ es')); [done|]. rewrite len_app. lia.
Qed.

(** In an exclusive session: the only client is kicked while it is writing,
    and the owner's attach is refused. *)
Lemma blocked_write_keeps_client_witness :
  let w := runs ModeExclusive run_kick in
  let w' := runs ModeExclusive (run_kick ++ [EvAttach owner_stream FreshPTY]) in
  kicked w 1 /\ held 1 w /\ 1 ∈ clients (sess w') /\ bridges w' !! 2 = None.
Proof.
  intros w w'.
  assert (reach ModeExclusive run_kick w) as Hr
    by (apply runs_reach; [vm_compute; reflexivity|repeat constructor]).
  assert (held 1 w) as Hh.
  { split; [apply (bool_decide_eq_true_1 _); vm_compute; reflexivity|].
    eexists. split; [vm_compute; reflexivity|]. repeat split. eexists. reflexivity. }
  split; [eexists; split; vm_compute; reflexivity|]. split; [exact Hh|]. split; [|vm_compute; reflexivity].
  apply (blocked_write_keeps_client ModeExclusive run_kick w [EvAttach owner_stream FreshPTY] w' 1 Hr Hh).
  - apply steps_one. split; [exact I|vm_compute; reflexivity].
  - reflexivity.
  - repeat constructor.
Defined.
