(* ===== verification/VtermInput.v ===== *)
(** * vterm: what a client types reaches the child in order
      (src/vterm/vterm.go, bridgeClient's input goroutine)

    The input goroutine of a bridge reads the client's stream, checks the
    client's permission and writes the chunk to the PTY.  [accepted] replays a
    run and collects the chunks read while the client might write; the PTY log
    is compared with it.  The chunk a goroutine has read and not yet written
    is accounted for too. *)

From S2P Require Import Prelude Streambuf Varint Queries Identity Session Bridge VtermPolicy VtermIO VtermOutput VtermControl VtermEviction.

(** What client [k] has typed into the PTY, chunk by chunk. *)
Definition typed_by (k : Z) (log : list ptyCall) : list bytes :=
  omap (fun c => match c with WriteInput j p => if bool_decide (j = k) then Some p else None | _ => None end) log.

(** What its input goroutine has read and not written yet. *)
Definition holding (w : world) (k : Z) : list bytes :=
  match bridges w !! k with
  | Some b => match b_in b with InWrite buf _ => [buf] | _ => [] end
  | None => []
  end.

(** What its reads returned. *)
Definition reads (k : Z) (es : list event) : list bytes :=
  omap (fun e => match e with EvInput j buf _ => if bool_decide (j = k) then Some buf else None | _ => None end) es.

Definition may_write (w : world) (k : Z) : bool :=
  match heap (sess w) !! k with Some c => canWrite c | None => false end.

(** The chunk one event makes the goroutine keep. *)
Definition accepts_now (w : world) (e : event) (k : Z) : list bytes :=
  match e with
  | EvInput j buf _ => if bool_decide (j = k) && ((0 <? len buf) && may_write w k) then [buf] else []
  | _ => []
  end.

Fixpoint accepted (w : world) (es : list event) (k : Z) : list bytes :=
  match es with
  | [] => []
  | e :: es => accepts_now w e k ++ match wstep w e with Some w' => accepted w' es k | None => [] end
  end.

(** The client had its permission whenever its goroutine read. *)
Fixpoint writes_throughout (w : world) (es : list event) (k : Z) : bool :=
  match es with
  | [] => true
  | e :: es =>
      match e with EvInput j _ _ => negb (bool_decide (j = k)) || may_write w k | _ => true end &&
      match wstep w e with Some w' => writes_throughout w' es k | None => true end
  end.

(** ** Lemmas *)

Lemma typed_by_app k l1 l2 : typed_by k (l1 ++ l2) = typed_by k l1 ++ typed_by k l2.
Proof. apply omap_app. Qed.

Lemma steps_exec w es w' : steps wrel w es w' -> exec w es = Some w'.
Proof.
  induction 1 as [w|w es w1 e w2 _ IH [_ Hs]]; [done|]. revert w IH.
  induction es as [|x es IHes]; intros w Hx; cbn [app exec] in *; [injection Hx as ->; by rewrite Hs|].
  destruct (wstep w x) as [w'|]; [|done]. cbn [mbind option_bind] in *. by apply IHes.
Qed.

Lemma accepted_snoc w es w1 e k : exec w es = Some w1 -> accepted w (es ++ [e]) k = accepted w es k ++ accepts_now w1 e k.
Proof.
  revert w. induction es as [|x es IH]; intros w Hx; cbn [app exec accepted] in *.
  - injection Hx as ->. destruct (wstep w1 e); by rewrite ?app_nil_r.
  - destruct (wstep w x) as [w'|]; [|done]. by rewrite IH, app_assoc.
Qed.

Lemma accepted_sublist w es k : accepted w es k `sublist_of` reads k es.
Proof.
  revert w. induction es as [|e es IH]; intros w; [apply sublist_nil|].
  assert (accepts_now w e k `sublist_of` reads k [e]) as H1.
  { destruct e; try apply sublist_nil. cbn [accepts_now reads omap list_omap].
    case_bool_decide; cbn [andb]; [|done]. destruct ((0 <? len buf) && may_write w k); [done|apply sublist_nil_l]. }
  change (e :: es) with ([e] ++ es). unfold reads. rewrite omap_app. cbn [app accepted].
  apply sublist_app; [exact H1|]. destruct (wstep w e); [apply IH|apply sublist_nil_l].
Qed.

Lemma accepted_all w es w' k :
  exec w es = Some w' -> writes_throughout w es k = true -> accepted w es k = filter (fun p => p <> []) (reads k es).
Proof.
  revert w. induction es as [|e es IH]; intros w Hx Hw; [done|]. cbn [exec writes_throughout accepted] in *.
  apply andb_true_iff in Hw as [He Hw]. destruct (wstep w e) as [w1|]; [|done]. rewrite (IH w1 Hx Hw).
  change (e :: es) with ([e] ++ es). unfold reads. rewrite omap_app, list.filter_app. f_equal.
  destruct e; try done. cbn [accepts_now omap list_omap]. case_bool_decide as Hk; [|done].
  cbn [negb orb andb] in He |- *. rewrite He, andb_true_r. rewrite filter_cons, filter_nil.
  destruct buf; [by rewrite decide_False by (intros []; done)|]. rewrite decide_True by done. done.
Qed.

(** Before its pump, a bridge has no input goroutine. *)
Definition quiet (w : world) : Prop :=
  forall k b, bridges w !! k = Some b -> match b_pc b with BAdmitted _ _ | BReplay _ | BSend _ => b_in b = InStop | _ => True end.

Lemma quiet_step w e w' : quiet w -> wstep w e = Some w' -> quiet w'.
Proof.
  intros Hq He.
  assert (forall j b1, bridges w' = <[j := b1]> (bridges w) ->
    match b_pc b1 with BAdmitted _ _ | BReplay _ | BSend _ => b_in b1 = InStop | _ => True end -> quiet w') as Hset.
  { intros j b1 E Hb k b. rewrite E. intros [[<- <-]|[_ Hk]]%lookup_insert_Some; [done|by apply (Hq k)]. }
  assert (forall j b0 b1, bridges w !! j = Some b0 -> b_pc b1 = b_pc b0 -> (b_in b0 = InStop -> b_in b1 = InStop) ->
    bridges w' = <[j := b1]> (bridges w) -> quiet w') as Hsame.
  { intros j b0 b1 H0 Hpc Hin E. eapply Hset; [exact E|]. rewrite Hpc. specialize (Hq j b0 H0). destruct (b_pc b0); auto. }
  assert (bridges w' = bridges w -> quiet w') as Hkeep by (intros E k b; rewrite E; apply Hq).
  destruct e.
  - simpl in He. injection He as He. unfold attachStep in He. destruct (fromSeq_of a); [|by subst].
    destruct (addClientLocked _ _ _) as [[s' [j|]] sz]; [|by subst; apply Hkeep].
    subst. by eapply Hset; [reflexivity|].
  - wstep_inv He. by eapply Hset; [reflexivity|].
  - wstep_inv He. by eapply Hset; [reflexivity|].
  - wstep_inv He. by eapply Hset; [reflexivity|].
  - wstep_inv He. by eapply Hsame; [eassumption|..|reflexivity].
  - wstep_inv He. by eapply Hsame; [eassumption|..|reflexivity].
  - wstep_inv He. by eapply Hsame; [eassumption|..|reflexivity].
  - wstep_inv He; (eapply Hsame; [eassumption|..|reflexivity]); try done; simpl; congruence.
  - wstep_inv He; (eapply Hsame; [eassumption|..|reflexivity]); try done; simpl; congruence.
  - wstep_inv He. by eapply Hset; [reflexivity|].
  - simpl in He. destruct (bridges w !! k) as [b|]; [|done]. simpl in He. destruct (b_pc b); try done.
    destruct (removeClient (sess w) k) as [s' sz]. injection He as <-. by eapply Hset; [reflexivity|].
  - simpl in He. destruct (controls w !! h); [done|]. destruct (controlLocked (sess w) st msg) as [s' sz].
    injection He as <-. by apply Hkeep.
  - wstep_inv He; by apply Hkeep.
  - wstep_inv He; by apply Hkeep.
  - simpl in He. destruct (pumping w); [done|]. destruct (0 <? len buf); [|by simplify_eq].
    destruct (pumpRead (sess w) buf) as [s' o]. injection He as <-. by apply Hkeep.
  - wstep_inv He. by apply Hkeep.
  - wstep_inv He. by apply Hkeep.
Qed.

(** *** One step accounts for its chunk *)

Lemma typed_pumpRead s buf k : typed_by k (ptyf (pumpRead s buf).1) = typed_by k (ptyf s).
Proof.
  unfold pumpRead. destruct (process _ _) as [[d o] r].
  destruct (0 <? len r), (0 <? len o); simpl; rewrite ?typed_by_app; simpl; by rewrite ?app_nil_r.
Qed.

Lemma typed_applyPTYSize s c r k : typed_by k (ptyf (applyPTYSize s c r)) = typed_by k (ptyf s).
Proof. unfold applyPTYSize. simpl. rewrite typed_by_app. simpl. by rewrite app_nil_r. Qed.

Lemma ptyf_removeClient s k : ptyf (removeClient s k).1 = ptyf s.
Proof. unfold removeClient. destruct (client _ _); simpl; by case_match. Qed.

Lemma ptyf_sendReplay s k replay : ptyf (sendReplay s k replay) = ptyf s.
Proof. unfold sendReplay. by case_match. Qed.

(** What client [k] has typed and holds, in one list. *)
Definition taken (w : world) (k : Z) : list bytes := typed_by k (ptyf (sess w)) ++ holding w k.

Lemma taken_keep w w' k :
  typed_by k (ptyf (sess w')) = typed_by k (ptyf (sess w)) -> bridges w' = bridges w -> taken w' k = taken w k.
Proof. intros E1 E2. unfold taken, holding. by rewrite E1, E2. Qed.

(** A step that rewrites one bridge and holds what it held. *)
Lemma taken_set w w' k j b1 :
  typed_by k (ptyf (sess w')) = typed_by k (ptyf (sess w)) -> bridges w' = <[j := b1]> (bridges w) ->
  holding w j = match b_in b1 with InWrite buf _ => [buf] | _ => [] end -> taken w' k = taken w k.
Proof.
  intros E1 E2 Hb. unfold taken. rewrite E1. f_equal. unfold holding at 1. rewrite E2.
  destruct (decide (j = k)) as [->|Hne]; [by rewrite lookup_insert_eq, Hb|by rewrite lookup_insert_ne].
Qed.

Lemma holding_some w j b : bridges w !! j = Some b ->
  holding w j = match b_in b with InWrite buf _ => [buf] | _ => [] end.
Proof. intros H. unfold holding. by rewrite H. Qed.

Lemma taken_attach w st a k :
  wf (sess w) -> nextID (sess w) + 1 < 2 ^ 63 -> bridged w -> taken (attachStep w st a) k = taken w k.
Proof.
  intros Hw Hn Hbr. unfold attachStep. destruct (fromSeq_of a) as [fs|]; [|done].
  pose proof (addClientLocked_id (sess w) st (IdentityOf st)) as Hid.
  pose proof (ptyf_addClientLocked (sess w) st (IdentityOf st)) as Hp.
  destruct (addClientLocked (sess w) st (IdentityOf st)) as [[s' [j|]] sz]; cbn [fst snd] in *.
  - specialize (Hid j Hw Hn eq_refl). eapply taken_set; [simpl; by rewrite Hp|reflexivity|]. simpl.
    unfold holding. destruct (bridges w !! j) as [b|] eqn:Eb; [|done]. exfalso.
    destruct (br_heap w Hbr j b Eb) as [c Hc]. pose proof (wf_heap _ Hw j c Hc) as Hok. unfold client_ok in Hok. lia.
  - apply taken_keep; [simpl; by rewrite Hp|done].
Qed.

(** The bridge an event works on. *)
Ltac at_bridge He b Eb :=
  simpl in He; match type of He with context [bridges ?w !! ?j] => destruct (bridges w !! j) as [b|] eqn:Eb; [|done] end;
  simpl in He.

Lemma taken_step w e w' k :
  wf (sess w) -> nextID (sess w) + 1 < 2 ^ 63 -> bridged w -> quiet w -> wstep w e = Some w' ->
  taken w' k = taken w k ++ accepts_now w e k.
Proof.
  intros Hw Hn Hbr Hq He. destruct e as [st a|j|j|j|j|j fail|j|j buf err|j|j|j|h st msg|h|i|buf| |];
    cbn [accepts_now]; rewrite ?app_nil_r.
  - simpl in He. injection He as <-. by apply taken_attach.
  - at_bridge He b Eb. pose proof (Hq _ _ Eb) as Hs. destruct (b_pc b) as [fs [c r]|fs| | | |]; try done. injection He as <-.
    eapply taken_set; [simpl; destruct (_ && _); [apply typed_applyPTYSize|done]|reflexivity|].
    rewrite (holding_some _ _ _ Eb), Hs. done.
  - at_bridge He b Eb. pose proof (Hq _ _ Eb) as Hs. destruct (b_pc b) as [fs sz|fs| | | |]; try done. injection He as <-.
    eapply taken_set; [done|reflexivity|]. rewrite (holding_some _ _ _ Eb), Hs. done.
  - at_bridge He b Eb. pose proof (Hq _ _ Eb) as Hs. destruct (b_pc b) as [fs sz|fs| replay | | |]; try done. injection He as <-.
    eapply taken_set; [simpl; by rewrite ptyf_sendReplay|reflexivity|]. rewrite (holding_some _ _ _ Eb), Hs. done.
  - at_bridge He b Eb. destruct (heap _ !! j) as [c|]; [|done]. simpl in He. destruct (b_out b), (outCh c); try done.
    injection He as <-. eapply taken_set; [done|reflexivity|]. by rewrite (holding_some _ _ _ Eb).
  - at_bridge He b Eb. destruct (b_out b); try done. injection He as <-.
    eapply taken_set; [done|reflexivity|]. by rewrite (holding_some _ _ _ Eb).
  - at_bridge He b Eb. destruct (heap _ !! j); [|done]. simpl in He. destruct (_ && _); [|done]. injection He as <-.
    eapply taken_set; [done|reflexivity|]. by rewrite (holding_some _ _ _ Eb).
  - at_bridge He b Eb. destruct (heap (sess w) !! j) as [c|] eqn:Ec; [|done]. simpl in He.
    destruct (b_in b) eqn:Ei; try done. pose proof (holding_some _ _ _ Eb) as Hh. rewrite Ei in Hh.
    assert (may_write w j = canWrite c) as Hm by (unfold may_write; by rewrite Ec).
    destruct ((0 <? len buf) && canWrite c) eqn:Ea; injection He as <-.
    + case_bool_decide as Hj.
      * subst k. rewrite Hm, Ea. unfold taken. rewrite Hh, app_nil_r. cbn [andb]. f_equal.
        unfold holding. simpl. by rewrite lookup_insert_eq.
      * cbn [andb]. rewrite app_nil_r. unfold taken. simpl. f_equal. unfold holding. simpl. by rewrite lookup_insert_ne.
    + assert ((bool_decide (j = k) && ((0 <? len buf) && may_write w k)) = false) as ->.
      { case_bool_decide as Hj; [|done]. subst k. by rewrite Hm, Ea. }
      rewrite app_nil_r. eapply taken_set; [done|reflexivity|]. rewrite Hh. by destruct err.
  - at_bridge He b Eb. destruct (b_in b) as [|buf err|] eqn:Ei; try done. injection He as <-.
    pose proof (holding_some _ _ _ Eb) as Hh. rewrite Ei in Hh. unfold taken. simpl. rewrite typed_by_app. simpl.
    destruct (decide (j = k)) as [->|Hne].
    + rewrite bool_decide_eq_true_2 by done. rewrite Hh. unfold holding. simpl. rewrite lookup_insert_eq. simpl.
      destruct err; by rewrite app_nil_r.
    + rewrite bool_decide_eq_false_2, app_nil_r by done. f_equal. unfold holding. simpl. by rewrite lookup_insert_ne.
  - at_bridge He b Eb. destruct (b_pc b); try done. destruct (b_err b); [|done]. injection He as <-.
    eapply taken_set; [done|reflexivity|]. by rewrite (holding_some _ _ _ Eb).
  - cbn [wstep] in He. destruct (bridges w !! j) as [b|] eqn:Eb; [|done]. cbn [mbind option_bind] in He.
    destruct (b_pc b); try done. pose proof (ptyf_removeClient (sess w) j) as Hp.
    destruct (removeClient (sess w) j) as [s' sz]. injection He as <-.
    cbn [fst] in Hp. eapply taken_set; [cbn [sess]; by rewrite Hp|reflexivity|]. by rewrite (holding_some _ _ _ Eb).
  - simpl in He. destruct (controls w !! h); [done|]. pose proof (ptyf_controlLocked (sess w) st msg) as Hp.
    destruct (controlLocked (sess w) st msg) as [s' sz]. injection He as <-. apply taken_keep; [simpl in *; by rewrite Hp|done].
  - simpl in He. destruct (controls w !! h) as [[c r]|]; [|done]. injection He as <-.
    apply taken_keep; [apply typed_applyPTYSize|done].
  - simpl in He. destruct (asyncs w !! i) as [[c r]|]; [|done]. injection He as <-.
    apply taken_keep; [apply typed_applyPTYSize|done].
  - simpl in He. destruct (pumping w); [done|]. destruct (0 <? len buf); [|by simplify_eq].
    pose proof (typed_pumpRead (sess w) buf k) as Hp.
    destruct (pumpRead (sess w) buf) as [s' o]. injection He as <-. by apply taken_keep.
  - simpl in He. destruct (pumping w); [|done]. injection He as <-. by apply taken_keep.
  - simpl in He. injection He as <-. by apply taken_keep.
Qed.

Lemma taken_run m es w k : reach m es w -> len es < 2 ^ 63 -> quiet w /\ taken w k = accepted (initWorld m) es k.
Proof.
  intros Hr. unfold reach in Hr. remember (initWorld m) as w0 eqn:E0.
  induction Hr as [|w0 es w1 e w2 Hr IH Hs]; intros Hl; subst; [split; done|].
  rewrite len_app in Hl. change (len [e]) with 1 in Hl. destruct (IH eq_refl ltac:(lia)) as [Hq Ht].
  destruct (reach_wf m es w1 Hr ltac:(lia)) as [Hw Hn]. pose proof (reach_bridged m es w1 Hr ltac:(lia)) as Hb.
  destruct Hs as [_ Hs]. split; [by eapply quiet_step|].
  rewrite (taken_step w1 e w2 k Hw ltac:(lia) Hb Hq Hs), Ht.
  by rewrite (accepted_snoc (initWorld m) es w1 e k (steps_exec _ _ _ Hr)).
Qed.

(** ** The claim *)

(** A client's typing reaches the child whole and in order.  In every run
    of a session, the chunks of client k in the PTY log, followed by the chunk
    its input goroutine holds if it holds one, are exactly the non-empty
    chunks it read while the client had write permission, in the order it
    read them: a sublist of its reads, and all of its non-empty reads if it
    had the permission at each of them. *)
Theorem typed_input_in_order m es w k
  (Hrun : reach m es w) (Hlen : len es < 2 ^ 63) :
  typed_by k (ptyf (sess w)) ++ holding w k = accepted (initWorld m) es k /\
  accepted (initWorld m) es k `sublist_of` reads k es /\
  (writes_throughout (initWorld m) es k = true ->
   accepted (initWorld m) es k = filter (fun p => p <> []) (reads k es)).
Proof.
  destruct (taken_run m es w k Hrun Hlen) as [_ Ht]. split; [exact Ht|]. split; [apply accepted_sublist|].
  eapply accepted_all. by apply steps_exec.
Qed.

(** ** Witness *)

Lemma typed_input_in_order_witness :
  typed_by 1 (ptyf (sess (runs ModeMultiWrite run_type))) ++ holding (runs ModeMultiWrite run_type) 1 = [str "ls"] /\
  typed_by 2 (ptyf (sess (runs ModeMultiWrite run_type))) = [].
Proof.
  assert (reach ModeMultiWrite run_type (runs ModeMultiWrite run_type)) as Hr
    by (apply runs_reach; [vm_compute; reflexivity|repeat constructor]).
  destruct (typed_input_in_order ModeMultiWrite run_type _ 1 Hr ltac:(done)) as (H1 & _ & H2).
  split; [|vm_compute; reflexivity]. rewrite H1, (H2 ltac:(vm_compute; reflexivity)). vm_compute. reflexivity.
Defined.
