(* ===== verification/GoStrings.v ===== *)
(** * What the program uses of Go's package strings

    Strings are their bytes.  [Split] scans left to right for
    non-overlapping occurrences of a non-empty separator, as strings.Split
    (and SplitSeq) does; [TrimSpace] removes Unicode White_Space encoded in
    UTF-8.  The lemmas are the ones the parsers need: splitting undoes joining
    when no piece contains the separator, and joining always undoes
    splitting. *)

From S2P Require Import Prelude.

Definition HasPrefix (s p : bytes) : bool := bool_decide (take (length p) s = p).

Definition HasSuffix (s p : bytes) : bool :=
  (length p <=? length s)%nat && bool_decide (drop (length s - length p) s = p).

Definition TrimPrefix (s p : bytes) : bytes := if HasPrefix s p then drop (length p) s else s.

Fixpoint Join (l : list bytes) (sep : bytes) : bytes :=
  match l with
  | [] => []
  | [x] => x
  | x :: l => x ++ sep ++ Join l sep
  end.

(** [skip] bytes of a separator just found are still to be consumed. *)
Fixpoint split_go (sep s : bytes) (skip : nat) (cur : bytes) : list bytes :=
  match s with
  | [] => [cur]
  | b :: s' =>
      match skip with
      | S k => split_go sep s' k cur
      | O => if HasPrefix s sep then cur :: split_go sep s' (length sep - 1) []
             else split_go sep s' 0 (cur ++ [b])
      end
  end.

Definition Split (s sep : bytes) : list bytes := split_go sep s 0 [].

(** strings.Contains and strings.Index for a non-empty needle. *)
Fixpoint Index_go (s sub : bytes) (i : Z) : Z :=
  if HasPrefix s sub then i
  else match s with [] => -1 | _ :: s' => Index_go s' sub (i + 1) end.

Definition Index (s sub : bytes) : Z := Index_go s sub 0.
Definition Contains (s sub : bytes) : bool := 0 <=? Index s sub.

(** strings.Cut: around the first occurrence. *)
Definition Cut (s sep : bytes) : bytes * bytes * bool :=
  let i := Index s sep in
  if 0 <=? i then (slice_to s i, slice_from s (i + len sep), true) else (s, [], false).

(** The UTF-8 encodings of the runes unicode.IsSpace accepts. *)
Definition spaces : list bytes :=
  [[x09]; [x0a]; [x0b]; [x0c]; [x0d]; [x20]; [xc2; x85]; [xc2; xa0]; [xe1; x9a; x80];
   [xe2; x80; x80]; [xe2; x80; x81]; [xe2; x80; x82]; [xe2; x80; x83]; [xe2; x80; x84];
   [xe2; x80; x85]; [xe2; x80; x86]; [xe2; x80; x87]; [xe2; x80; x88]; [xe2; x80; x89];
   [xe2; x80; x8a]; [xe2; x80; xa8]; [xe2; x80; xa9]; [xe2; x80; xaf]; [xe2; x81; x9f];
   [xe3; x80; x80]].

Fixpoint trim_left (fuel : nat) (s : bytes) : bytes :=
  match fuel with
  | O => s
  | S fuel =>
      match List.find (fun sp => HasPrefix s sp) spaces with
      | Some sp => trim_left fuel (drop (length sp) s)
      | None => s
      end
  end.

Fixpoint trim_right (fuel : nat) (s : bytes) : bytes :=
  match fuel with
  | O => s
  | S fuel =>
      match List.find (fun sp => HasSuffix s sp) spaces with
      | Some sp => trim_right fuel (take (length s - length sp) s)
      | None => s
      end
  end.

(** Each round removes at least one byte, so the length bounds the rounds. *)
Definition TrimSpace (s : bytes) : bytes :=
  let s := trim_left (length s) s in trim_right (length s) s.

(** ** Lemmas *)

Lemma HasPrefix_app p s : HasPrefix (p ++ s) p = true.
Proof. unfold HasPrefix. rewrite take_app_length. by apply bool_decide_eq_true_2. Qed.

Lemma HasPrefix_split s p : HasPrefix s p = true -> s = p ++ drop (length p) s.
Proof.
  unfold HasPrefix. intros H%bool_decide_eq_true. rewrite <- H at 1. by rewrite take_drop.
Qed.

Lemma Join_cons x l sep : l <> [] -> Join (x :: l) sep = x ++ sep ++ Join l sep.
Proof. by destruct l. Qed.

Lemma split_go_nonempty sep s skip cur : split_go sep s skip cur <> [].
Proof.
  revert skip cur. induction s as [|b s IH]; intros skip cur; simpl; [done|].
  destruct skip; [|apply IH]. destruct (HasPrefix _ _); [done|apply IH].
Qed.

Lemma split_go_skip sep s k cur : split_go sep s k cur = split_go sep (drop k s) 0 cur.
Proof.
  revert k. induction s as [|b s IH]; intros [|k]; simpl; try done; apply IH.
Qed.

(** Joining undoes splitting, for any non-empty separator. *)
Lemma Join_Split s sep : sep <> [] -> Join (Split s sep) sep = s.
Proof.
  intros Hsep. unfold Split.
  assert (forall n s cur, (length s <= n)%nat -> Join (split_go sep s 0 cur) sep = cur ++ s) as H.
  { clear s. intros n. induction n as [|n IH]; intros s cur Hl.
    { destruct s; [|simpl in Hl; lia]. simpl. by rewrite app_nil_r. }
    destruct s as [|b s]; simpl; [by rewrite app_nil_r|]. simpl in Hl.
    destruct (HasPrefix (b :: s) sep) eqn:Hp.
    - rewrite Join_cons by apply split_go_nonempty.
      rewrite split_go_skip, IH by (rewrite length_drop; lia).
      apply HasPrefix_split in Hp. rewrite Hp. do 2 f_equal. simpl.
      destruct sep as [|x sep]; [done|]. simpl. by rewrite Nat.sub_0_r.
    - rewrite IH by lia. by rewrite <- app_assoc. }
  by apply (H (length s)).
Qed.

Lemma HasPrefix_single (b c : byte) s : HasPrefix (c :: s) [b] = bool_decide (c = b).
Proof.
  unfold HasPrefix. change (take (length [b]) (c :: s)) with [c].
  apply bool_decide_ext. split; [by intros [= ->]|by intros ->].
Qed.

Lemma split_go_piece b x s cur :
  b ∉ x -> split_go [b] (x ++ s) 0 cur = split_go [b] s 0 (cur ++ x).
Proof.
  revert cur. induction x as [|c x IH]; intros cur Hx; [by rewrite app_nil_r|].
  cbn [app split_go]. rewrite HasPrefix_single, bool_decide_eq_false_2 by set_solver.
  rewrite IH by set_solver. by rewrite <- app_assoc.
Qed.

(** Splitting undoes joining with a one-byte separator no piece contains. *)
Lemma Split_Join b l :
  l <> [] -> Forall (fun x => b ∉ x) l -> Split (Join l [b]) [b] = l.
Proof.
  intros Hne Hall. unfold Split. induction Hall as [|x l Hx Hall IH]; [done|].
  destruct l as [|y l].
  - simpl Join. rewrite <- (app_nil_r x) at 1. by rewrite split_go_piece.
  - rewrite Join_cons by done. rewrite split_go_piece by done. cbn [app split_go length].
    rewrite HasPrefix_single, bool_decide_eq_true_2 by done. simpl Nat.sub.
    by rewrite IH.
Qed.

(** Splitting at a separator byte splits the two sides separately. *)
Lemma split_go_app b a s cur :
  split_go [b] (a ++ b :: s) 0 cur = split_go [b] a 0 cur ++ split_go [b] s 0 [].
Proof.
  revert cur. induction a as [|c a IH]; intros cur; cbn [app split_go length].
  - by rewrite HasPrefix_single, bool_decide_eq_true_2.
  - rewrite !HasPrefix_single. case_bool_decide; simpl Nat.sub; by rewrite IH.
Qed.

Lemma Split_app b a s : Split (a ++ b :: s) [b] = Split a [b] ++ Split s [b].
Proof. apply split_go_app. Qed.

Lemma Split_piece b x : b ∉ x -> Split x [b] = [x].
Proof.
  intros Hx. unfold Split. rewrite <- (app_nil_r x) at 1. by rewrite split_go_piece.
Qed.

(** ** TrimSpace *)

Lemma spaces_nonempty sp : In sp spaces -> (0 < length sp)%nat.
Proof.
  intros H. assert (forallb (fun sp => (0 <? length sp)%nat) spaces = true) as Hall by done.
  rewrite forallb_forall in Hall. specialize (Hall _ H). by apply Nat.ltb_lt in Hall.
Qed.

Lemma trim_left_suffix f s : exists p, s = p ++ trim_left f s.
Proof.
  revert s. induction f as [|f IH]; intros s; cbn [trim_left]; [by exists []|].
  destruct (List.find (fun sp => HasPrefix s sp) spaces) as [sp|] eqn:E; [|by exists []].
  apply List.find_some in E as [_ Hp%HasPrefix_split].
  destruct (IH (drop (length sp) s)) as [p Hq]. exists (sp ++ p).
  by rewrite <- app_assoc, <- Hq.
Qed.

Lemma trim_right_length f s : (length (trim_right f s) <= length s)%nat.
Proof.
  revert s. induction f as [|f IH]; intros s; cbn [trim_right]; [done|].
  destruct (List.find (fun sp => HasSuffix s sp) spaces) as [sp|]; [|done].
  specialize (IH (take (length s - length sp) s)). rewrite length_take in IH. lia.
Qed.

(** A string TrimSpace leaves alone does not end in white space. *)
Lemma TrimSpace_fixed_suffix s sp :
  TrimSpace s = s -> In sp spaces -> HasSuffix s sp = true -> s = [].
Proof.
  unfold TrimSpace. intros Hfix Hin Hs.
  destruct (trim_left_suffix (length s) s) as [p Hp].
  pose proof (trim_right_length (length (trim_left (length s) s)) (trim_left (length s) s)) as Hl.
  rewrite Hfix in Hl. pose proof (f_equal length Hp) as Hpl. rewrite length_app in Hpl.
  assert (p = []) as ->.
  { destruct p; [done|]. simpl in Hpl. lia. }
  simpl in Hp. rewrite <- Hp in Hfix. destruct s as [|b s]; [done|]. exfalso.
  cbn [length trim_right] in Hfix.
  destruct (List.find (fun sp => HasSuffix (b :: s) sp) spaces) as [sp'|] eqn:E.
  - apply List.find_some in E as [Hin' _]. pose proof (spaces_nonempty _ Hin').
    pose proof (trim_right_length (length s) (take (length (b :: s) - length sp') (b :: s))) as Hx.
    cbn [length] in Hx. rewrite Hfix, length_take in Hx. simpl in Hx. lia.
  - eapply List.find_none in E; [|exact Hin]. congruence.
Qed.

(** Printable ASCII other than the space. *)
Definition graphic (c : byte) : bool := (33 <=? b2z c) && (b2z c <=? 126).

Lemma spaces_ends sp : In sp spaces ->
  exists a p, sp = p ++ [a] /\ graphic a = false /\ exists b q, sp = b :: q /\ graphic b = false.
Proof.
  intros H. assert (forallb (fun sp => match sp with b :: _ => negb (graphic b) | [] => false end &&
    match list.last sp with Some a => negb (graphic a) | None => false end) spaces = true) as Hall by done.
  rewrite forallb_forall in Hall. specialize (Hall _ H). clear H.
  destruct sp as [|b q]; [done|]. apply andb_true_iff in Hall as [Hb Hl].
  destruct (list.last (b :: q)) as [a|] eqn:E; [|done]. apply list.last_Some in E as [p Hp].
  exists a, p. go_bool. split_and!; [done|done|]. by exists b, q.
Qed.

(** TrimSpace leaves printable ASCII alone. *)
Lemma TrimSpace_graphic s : forallb graphic s = true -> TrimSpace s = s.
Proof.
  rewrite forallb_forall. intros Hg.
  assert (List.find (fun sp => HasPrefix s sp) spaces = None) as Hl.
  { destruct (List.find (fun sp => HasPrefix s sp) spaces) as [sp|] eqn:E; [|done]. apply List.find_some in E as [Hin Hp].
    apply spaces_ends in Hin as (_ & _ & _ & _ & b & q & -> & Hb). apply HasPrefix_split in Hp.
    assert (In b s) as Hi by (rewrite Hp; apply in_eq). rewrite (Hg b Hi) in Hb. discriminate. }
  assert (List.find (fun sp => HasSuffix s sp) spaces = None) as Hr.
  { destruct (List.find (fun sp => HasSuffix s sp) spaces) as [sp|] eqn:E; [|done]. apply List.find_some in E as [Hin Hp].
    apply spaces_ends in Hin as (a & p & -> & Ha & _). unfold HasSuffix in Hp. go_bool.
    assert (In a s) as Hi.
    { rewrite <- (take_drop (length s - length (p ++ [a])) s), H0.
      apply in_or_app. right. apply in_or_app. right. apply in_eq. }
    rewrite (Hg a Hi) in Ha. discriminate. }
  unfold TrimSpace. destruct (length s) as [|n]; cbn [trim_left]; [|rewrite Hl].
  all: destruct (length s); cbn [trim_right]; [done|by rewrite Hr].
Qed.
