(* ===== verification/WalletCaps.v ===== *)
(** * wallet capabilities (src/wallet/caps.go)

    The capability byte of grants and delegations, its canonical text and the
    two parsers: the strict one for signed text, the lenient one for what a
    person types. *)

From S2P Require Import Prelude GoStrings.

(** [Caps] is a uint8. *)
Abbreviation WCaps := Z (only parsing).

Definition CapWrite : WCaps := 1.
Definition CapResize : WCaps := 2.
Definition CapForge : WCaps := 4.
Definition AllCaps : WCaps := Z.lor CapWrite (Z.lor CapResize CapForge).

Definition Has (c x : WCaps) : bool := Z.land c x =? x.

(** c &^ o == 0 on bytes. *)
Definition Subset (c o : WCaps) : bool := Z.land c (Z.lxor o 255) =? 0.

Definition CapsString (c : WCaps) : bytes :=
  let parts := (if Has c CapWrite then [str "write"] else []) ++
               (if Has c CapResize then [str "resize"] else []) ++
               (if Has c CapForge then [str "forge"] else []) in
  if len parts =? 0 then str "view-only" else Join parts (str ", ").

Inductive CapsError := InvalidToken (tok s : bytes) | NonCanonical (s want : bytes).

(** One token of the switch both parsers share. *)
Definition cap_token (tok : bytes) : option WCaps :=
  if bool_decide (tok = str "write") then Some CapWrite
  else if bool_decide (tok = str "resize") then Some CapResize
  else if bool_decide (tok = str "forge") then Some CapForge
  else None.

Fixpoint parse_tokens (s : bytes) (toks : list bytes) (c : WCaps) : res CapsError WCaps :=
  match toks with
  | [] => Ok c
  | tok :: toks =>
      match cap_token tok with
      | Some x => parse_tokens s toks (Z.lor c x)
      | None => Err (InvalidToken tok s)
      end
  end.

Definition ParseCaps (s : bytes) : res CapsError WCaps :=
  if bool_decide (s = str "view-only") then Ok 0
  else
    c ← parse_tokens s (Split s (str ", ")) 0;
    if negb (bool_decide (CapsString c = s)) then Err (NonCanonical s (CapsString c)) else Ok c.

Fixpoint parse_lenient (s : bytes) (toks : list bytes) (c : WCaps) : res CapsError WCaps :=
  match toks with
  | [] => Ok c
  | tok :: toks =>
      let t := TrimSpace tok in
      if bool_decide (t = []) then parse_lenient s toks c
      else match cap_token t with
           | Some x => parse_lenient s toks (Z.lor c x)
           | None => Err (InvalidToken t s)
           end
  end.

Definition ParseCapsLenient (s : bytes) : res CapsError WCaps :=
  if bool_decide (TrimSpace s = []) || bool_decide (s = str "view-only") then Ok 0
  else parse_lenient s (Split s (str ",")) 0.

(** ** Lemmas *)

(** The three known bits. *)
Definition small_caps (c : WCaps) : Prop := 0 <= c < 8.

Lemma small_caps_cases c :
  small_caps c -> c = 0 \/ c = 1 \/ c = 2 \/ c = 3 \/ c = 4 \/ c = 5 \/ c = 6 \/ c = 7.
Proof. unfold small_caps. lia. Qed.

Lemma lor_small c x : small_caps c -> small_caps x -> small_caps (Z.lor c x).
Proof.
  intros Hc%small_caps_cases Hx%small_caps_cases. unfold small_caps.
  destruct Hc as [->|[->|[->|[->|[->|[->|[->| ->]]]]]]];
    destruct Hx as [->|[->|[->|[->|[->|[->|[->| ->]]]]]]]; vm_compute; split; congruence.
Qed.

Lemma cap_token_small tok x : cap_token tok = Some x -> small_caps x.
Proof. unfold cap_token. repeat case_bool_decide; intros; simplify_eq; done. Qed.

Lemma parse_tokens_small s toks c c' :
  small_caps c -> parse_tokens s toks c = Ok c' -> small_caps c'.
Proof.
  revert c. induction toks as [|t toks IH]; intros c Hc H; simpl in H; [by simplify_eq|].
  destruct (cap_token t) eqn:E; [|done]. eapply IH; [|done].
  apply lor_small; [done|by eapply cap_token_small].
Qed.

Lemma parse_lenient_small s toks c c' :
  small_caps c -> parse_lenient s toks c = Ok c' -> small_caps c'.
Proof.
  revert c. induction toks as [|t toks IH]; intros c Hc H; simpl in H; [by simplify_eq|].
  case_bool_decide; [by eapply IH|]. destruct (cap_token _) eqn:E; [|done]. eapply IH; [|done].
  apply lor_small; [done|by eapply cap_token_small].
Qed.

(** Rendering the three bits is injective and parses back, both ways. *)
Lemma ParseCaps_String c : small_caps c -> ParseCaps (CapsString c) = Ok c.
Proof.
  intros Hc%small_caps_cases.
  destruct Hc as [->|[->|[->|[->|[->|[->|[->| ->]]]]]]]; vm_compute; reflexivity.
Qed.

Lemma ParseCaps_sound s c : ParseCaps s = Ok c -> small_caps c /\ CapsString c = s.
Proof.
  unfold ParseCaps. case_bool_decide as Hv.
  { intros [= <-]. split; [done|]. subst. vm_compute. reflexivity. }
  intros (c' & Hp & Hc)%bind_ok. destruct (negb _) eqn:E in Hc; [done|].
  injection Hc as <-. go_bool. split; [|done].
  by eapply (parse_tokens_small _ _ 0); [|exact Hp].
Qed.

(** Subset is inclusion of bits, on bytes. *)
Lemma Subset_bits c o :
  0 <= c < 256 -> 0 <= o < 256 ->
  Subset c o = true <-> forall i, 0 <= i < 8 -> Z.testbit c i = true -> Z.testbit o i = true.
Proof.
  intros Hc Ho. unfold Subset. rewrite Z.eqb_eq. split.
  - intros H i Hi Hb. apply (f_equal (fun z => Z.testbit z i)) in H.
    rewrite Z.land_spec, Z.lxor_spec, Z.bits_0, Hb in H. simpl in H.
    change 255 with (Z.ones 8) in H. rewrite Z.ones_spec_low in H by lia.
    by destruct (Z.testbit o i).
  - intros H. apply Z.bits_inj_0. intros i. rewrite Z.land_spec, Z.lxor_spec.
    destruct (Z_lt_le_dec i 0); [by rewrite Z.testbit_neg_r|].
    destruct (Z_lt_le_dec i 8).
    + change 255 with (Z.ones 8). rewrite Z.ones_spec_low by lia.
      destruct (Z.testbit c i) eqn:E; [|done]. by rewrite H.
    + rewrite (Z.bits_above_log2 c); [done|lia|].
      destruct (Z.eq_dec c 0) as [->|]; [simpl; lia|].
      apply Z.log2_lt_pow2; [lia|]. apply Z.lt_le_trans with (2 ^ 8); [lia|].
      apply Z.pow_le_mono_r; lia.
Qed.

Lemma Subset_trans a b c :
  0 <= a < 256 -> 0 <= b < 256 -> 0 <= c < 256 ->
  Subset a b = true -> Subset b c = true -> Subset a c = true.
Proof. intros ? ? ? H1 H2. rewrite !Subset_bits in * by done. eauto. Qed.

Lemma Subset_refl a : 0 <= a < 256 -> Subset a a = true.
Proof. intros ?. rewrite Subset_bits by done. eauto. Qed.

(** Has tests a subset the other way round. *)
Lemma Has_forge_mono a b :
  0 <= a < 256 -> 0 <= b < 256 -> Subset a b = true -> Has a CapForge = true -> Has b CapForge = true.
Proof.
  intros Ha Hb Hs. rewrite Subset_bits in Hs by done. unfold Has, CapForge. rewrite !Z.eqb_eq.
  intros H. apply (f_equal (fun z => Z.testbit z 2)) in H. rewrite Z.land_spec in H.
  simpl (Z.testbit 4 2) in H. rewrite andb_true_r in H. specialize (Hs 2 ltac:(lia) H).
  apply Z.bits_inj'. intros i Hi. rewrite Z.land_spec.
  destruct (Z.eq_dec i 2) as [->|Hne]; [by rewrite Hs|].
  replace (Z.testbit 4 i) with false; [apply andb_false_r|].
  symmetry. change 4 with (2 ^ 2). by apply Z.pow2_bits_false.
Qed.

(** The canonical text of a delegation's capabilities is unambiguous: the
    strict parser accepts exactly the renderings of the eight capability sets
    and returns the set rendered. *)
Theorem caps_text_canonical (s : bytes) (c : WCaps) :
  ParseCaps s = Ok c <-> 0 <= c < 8 /\ CapsString c = s.
Proof.
  split; [apply ParseCaps_sound|]. intros [Hc <-]. by apply ParseCaps_String.
Qed.
