(* ===== verification/Base58.v ===== *)
(** * Base58 (src/wallet/base58.go)

    The Bitcoin / Solana text encoding of keys, nonces and signatures, over
    math/big's integers, whose SetBytes and Bytes are big-endian magnitudes.
    Both directions are shown to be changes of base that keep leading zeros,
    hence inverse to each other. *)

From S2P Require Import Prelude.

Definition base58Alphabet : bytes :=
  str "123456789ABCDEFGHJKLMNPQRSTUVWXYZabcdefghijkmnopqrstuvwxyz".

(** base58Alphabet[i] for an index the code keeps in range. *)
Definition alphabet_at (i : Z) : byte := nth (Z.to_nat i) base58Alphabet x00.

(** strings.IndexRune(base58Alphabet, r), -1 when absent.  A byte outside the
    alphabet starts a rune outside it, so scanning bytes is scanning runes. *)
Fixpoint alphabet_index_go (l : bytes) (b : byte) (i : Z) : Z :=
  match l with
  | [] => -1
  | c :: l => if bool_decide (c = b) then i else alphabet_index_go l b (i + 1)
  end.

Definition alphabet_index (b : byte) : Z := alphabet_index_go base58Alphabet b 0.

(** A big-endian digit list's value. *)
Definition value (B : Z) (l : list Z) : Z := fold_left (fun n d => n * B + d) l 0.

(** new(big.Int).SetBytes(b) *)
Definition SetBytes (b : bytes) : Z := value 256 (b2z <$> b).

(** The digits of n in base B, least significant first: the DivMod loop.
    Each round at least halves n, so log2 n + 1 rounds are enough. *)
Fixpoint digits_loop (fuel : nat) (B n : Z) : list Z :=
  match fuel with
  | O => []
  | S fuel => if 0 <? n then n mod B :: digits_loop fuel B (n / B) else []
  end.

Definition digits (B n : Z) : list Z := digits_loop (Z.to_nat (Z.log2 n + 1)) B n.

(** n.Bytes(): the minimal big-endian magnitude. *)
Definition BigBytes (n : Z) : bytes := z2b <$> reverse (digits 256 n).

Fixpoint leading_zeros (b : bytes) : nat :=
  match b with
  | c :: b => if bool_decide (c = x00) then S (leading_zeros b) else O
  | [] => O
  end.

Definition base58Encode (b : bytes) : bytes :=
  let out := (alphabet_at <$> digits 58 (SetBytes b)) ++ replicate (leading_zeros b) x31 in
  let out := reverse out in
  if len out =? 0 then str "1" else out.

Inductive Base58Error := InvalidChar (b : byte) | AddressLength (n : Z).

Fixpoint decode_loop (s : bytes) (n : Z) : res Base58Error Z :=
  match s with
  | [] => Ok n
  | r :: s =>
      let idx := alphabet_index r in
      if idx <? 0 then Err (InvalidChar r) else decode_loop s (n * 58 + idx)
  end.

Fixpoint leading_ones (s : bytes) : nat :=
  match s with
  | c :: s => if bool_decide (c = x31) then S (leading_ones s) else O
  | [] => O
  end.

Definition base58Decode (s : bytes) : res Base58Error bytes :=
  n ← decode_loop s 0;
  Ok (replicate (leading_ones s) x00 ++ BigBytes n).

Definition EncodeBase58 (b : bytes) : bytes := base58Encode b.
Definition DecodeBase58 (s : bytes) : res Base58Error bytes := base58Decode s.

Definition PublicKeySize : Z := 32.

Definition Address (pub : bytes) : bytes := base58Encode pub.

Definition ParseAddress (s : bytes) : res Base58Error bytes :=
  b ← base58Decode s;
  if negb (len b =? PublicKeySize) then Err (AddressLength (len b)) else Ok b.

(** ** Positional numerals *)

Section numerals.
Context (B : Z) (HB : 2 <= B).

Definition in_base (l : list Z) : Prop := Forall (fun d => 0 <= d < B) l.

Lemma value_go_app l k n :
  fold_left (fun n d => n * B + d) (l ++ k) n =
  fold_left (fun n d => n * B + d) k (fold_left (fun n d => n * B + d) l n).
Proof. apply fold_left_app. Qed.

Lemma value_snoc l d : value B (l ++ [d]) = value B l * B + d.
Proof. unfold value. by rewrite value_go_app. Qed.

Lemma value_zeros k l : value B (replicate k 0 ++ l) = value B l.
Proof. unfold value. induction k as [|k IH]; [done|]. simpl. exact IH. Qed.

Lemma value_nonneg l : in_base l -> 0 <= value B l.
Proof.
  induction l as [|d l IH] using rev_ind; intros Hl; [done|].
  apply Forall_app in Hl as [Hl Hd]. rewrite Forall_singleton in Hd.
  rewrite value_snoc. specialize (IH Hl). nia.
Qed.

Lemma digits_loop_enough f n : 0 <= n < 2 ^ Z.of_nat f -> value B (reverse (digits_loop f B n)) = n.
Proof.
  revert n. induction f as [|f IH]; intros n Hn.
  { simpl in *. change (value B (reverse [])) with 0. lia. }
  cbn [digits_loop]. destruct (0 <? n) eqn:E; go_bool.
  2: { change (value B (reverse [])) with 0. lia. }
  rewrite reverse_cons, value_snoc, IH.
  - pose proof (Z.div_mod n B ltac:(lia)). lia.
  - split; [apply Z.div_pos; lia|]. apply Z.div_lt_upper_bound; [lia|].
    rewrite Nat2Z.inj_succ, Z.pow_succ_r in Hn by lia. nia.
Qed.

Lemma log2_fuel n : 0 <= n -> n < 2 ^ Z.of_nat (Z.to_nat (Z.log2 n + 1)).
Proof.
  intros Hn. pose proof (Z.log2_nonneg n). rewrite Z2Nat.id by lia.
  destruct (Z.eq_dec n 0) as [->|]; [done|]. apply Z.log2_spec. lia.
Qed.

Lemma digits_value n : 0 <= n -> value B (reverse (digits B n)) = n.
Proof. intros Hn. apply digits_loop_enough. split; [done|by apply log2_fuel]. Qed.

(** The fuel does not matter once it is enough. *)
Lemma digits_loop_irrel f g n :
  0 <= n < 2 ^ Z.of_nat f -> n < 2 ^ Z.of_nat g -> digits_loop f B n = digits_loop g B n.
Proof.
  revert g n. induction f as [|f IH]; intros g n Hf Hg.
  { simpl in Hf. assert (n = 0) as -> by lia. by destruct g. }
  destruct g as [|g]; [simpl in Hg; assert (n = 0) as -> by lia; done|].
  cbn [digits_loop]. destruct (0 <? n) eqn:E; [|done]. f_equal. go_bool.
  rewrite Nat2Z.inj_succ, Z.pow_succ_r in Hf, Hg by lia.
  apply IH; [split; [apply Z.div_pos; lia|]|]; apply Z.div_lt_upper_bound; nia.
Qed.

Lemma digits_step n : 0 < n -> digits B n = n mod B :: digits B (n / B).
Proof.
  intros Hn. unfold digits. pose proof (log2_fuel n ltac:(lia)) as Hl.
  destruct (Z.to_nat (Z.log2 n + 1)) as [|f] eqn:E; [simpl in Hl; lia|].
  cbn [digits_loop]. assert ((0 <? n) = true) as -> by lia. f_equal.
  assert (0 <= n / B) by (apply Z.div_pos; lia).
  apply digits_loop_irrel; [|by apply log2_fuel]. split; [done|].
  rewrite Nat2Z.inj_succ, Z.pow_succ_r in Hl by lia. apply Z.div_lt_upper_bound; nia.
Qed.

(** The big-endian digits of a value are the digits without leading zeros. *)
Lemma digits_of_value l :
  in_base l -> (forall d k, l = d :: k -> d <> 0) -> reverse (digits B (value B l)) = l.
Proof.
  induction l as [|d l IH] using rev_ind; intros Hl Hz; [done|].
  apply Forall_app in Hl as [Hl Hd]. rewrite Forall_singleton in Hd.
  rewrite value_snoc. pose proof (value_nonneg l Hl) as Hv.
  assert (Hnz : 0 < value B l * B + d).
  { destruct l as [|x l]; [|].
    - specialize (Hz d [] eq_refl). change (value B []) with 0. lia.
    - assert (value B (x :: l) <> 0); [|nia]. intros E.
      assert (reverse (digits B (value B (x :: l))) = x :: l) as IH'.
      { apply IH; [done|]. intros y k [= -> ->]. by apply (Hz y (k ++ [d])). }
      rewrite E in IH'. discriminate. }
  rewrite digits_step by done. rewrite reverse_cons.
  replace ((value B l * B + d) mod B) with d
    by (rewrite Z.add_comm, Z_mod_plus_full; symmetry; apply Z.mod_small; lia).
  replace ((value B l * B + d) / B) with (value B l)
    by (rewrite Z.add_comm, Z_div_plus_full by lia; rewrite Z.div_small by lia; lia).
  f_equal. apply IH; [done|]. intros y k ->. by apply (Hz y (k ++ [d])).
Qed.

Lemma digits_loop_in_base f n : in_base (digits_loop f B n).
Proof.
  revert n. induction f as [|f IH]; intros n; [constructor|]. simpl.
  destruct (0 <? n); [|constructor]. constructor; [apply Z.mod_pos_bound; lia|apply IH].
Qed.

Lemma digits_in_base n : in_base (reverse (digits B n)).
Proof. apply Forall_reverse, digits_loop_in_base. Qed.

(** No leading zero: a value's most significant digit is not zero. *)
Lemma digits_lead n d k : 0 <= n -> reverse (digits B n) = d :: k -> d <> 0.
Proof.
  intros Hn E ->. pose proof (digits_in_base n) as Hin. rewrite E in Hin.
  apply Forall_cons_1 in Hin as [_ Hk]. pose proof (digits_value n Hn) as Hv. rewrite E in Hv.
  change (0 :: k) with (replicate 1 0 ++ k) in Hv. rewrite value_zeros in Hv.
  assert (forall m, length (digits B (value B k)) = m -> (m <= length k)%nat) as Hlen.
  { clear - Hk HB. induction k as [|x k IH] using rev_ind; intros m <-; [done|].
    apply Forall_app in Hk as [Hk Hx]. rewrite Forall_singleton in Hx.
    rewrite value_snoc, length_app. simpl. pose proof (value_nonneg k Hk).
    destruct (Z.eq_dec (value B k * B + x) 0) as [->|]; [simpl; lia|].
    rewrite digits_step by nia.
    replace ((value B k * B + x) / B) with (value B k)
      by (rewrite Z.add_comm, Z_div_plus_full by lia; rewrite Z.div_small by lia; lia).
    simpl. specialize (IH Hk _ eq_refl). lia. }
  specialize (Hlen _ eq_refl). rewrite Hv in Hlen.
  apply (f_equal length) in E. rewrite length_reverse in E. simpl in E. lia.
Qed.
End numerals.

(** ** The alphabet *)

Lemma alphabet_index_at i : 0 <= i < 58 -> alphabet_index (alphabet_at i) = i.
Proof.
  intros Hi.
  assert (forallb (fun n => alphabet_index (alphabet_at (Z.of_nat n)) =? Z.of_nat n) (List.seq 0 58)
          = true) as H by (vm_compute; reflexivity).
  rewrite forallb_forall in H. specialize (H (Z.to_nat i)).
  rewrite Z2Nat.id in H by lia. apply Z.eqb_eq, H, in_seq. lia.
Qed.

Lemma alphabet_index_go_spec l b i :
  0 <= i -> let j := alphabet_index_go l b i in
  j = -1 \/ (i <= j < i + len l /\ nth (Z.to_nat (j - i)) l x00 = b).
Proof.
  revert i. induction l as [|c l IH]; intros i Hi; simpl; [by left|].
  rewrite len_cons. case_bool_decide as E.
  - right. pose proof (len_nonneg l). split; [lia|]. by rewrite Z.sub_diag.
  - destruct (IH (i + 1) ltac:(lia)) as [->|[Hj Hn]]; [by left|right]. split; [lia|].
    replace (Z.to_nat (alphabet_index_go l b (i + 1) - i))
      with (S (Z.to_nat (alphabet_index_go l b (i + 1) - (i + 1)))) by lia. done.
Qed.

Lemma alphabet_at_index b : 0 <= alphabet_index b -> alphabet_index b < 58 /\ alphabet_at (alphabet_index b) = b.
Proof.
  intros Hb. pose proof (alphabet_index_go_spec base58Alphabet b 0 ltac:(lia)) as H.
  cbv zeta in H. fold (alphabet_index b) in H. destruct H as [H|[H1 H2]]; [lia|].
  change (len base58Alphabet) with 58 in H1. split; [lia|].
  unfold alphabet_at. by rewrite Z.sub_0_r in H2.
Qed.

Lemma alphabet_one b : b = x31 <-> alphabet_index b = 0.
Proof.
  split; [by intros ->|]. intros E. destruct (alphabet_at_index b) as [_ <-]; [lia|].
  by rewrite E.
Qed.

Lemma b2z_zero b : b = x00 <-> b2z b = 0.
Proof. split; [by intros ->|]. intros E. by apply b2z_inj. Qed.

(** ** Leading zeros and the change of base *)

Fixpoint lead0 (l : list Z) : nat :=
  match l with d :: l => if d =? 0 then S (lead0 l) else O | [] => O end.

Lemma lead0_split l : exists k, l = replicate (lead0 l) 0 ++ k /\ forall d j, k = d :: j -> d <> 0.
Proof.
  induction l as [|d l (k & IH & Hk)]; simpl; [by exists []|].
  destruct (d =? 0) eqn:E; go_bool.
  - exists k. subst d. simpl. by rewrite <- IH.
  - exists (d :: l). split; [done|]. by intros ? ? [= <- <-].
Qed.

Lemma lead0_app n k : (forall d j, k = d :: j -> d <> 0) -> lead0 (replicate n 0 ++ k) = n.
Proof.
  intros Hk. induction n as [|n IH]; simpl; [|by rewrite IH].
  destruct k as [|d k]; simpl; [done|]. specialize (Hk d k eq_refl).
  by assert ((d =? 0) = false) as -> by lia.
Qed.

(** Write the number [l] denotes in base [B] in base [C], keeping zeros. *)
Definition recode (B C : Z) (l : list Z) : list Z :=
  replicate (lead0 l) 0 ++ reverse (digits C (value B l)).

Lemma recode_inverse B C l :
  2 <= B -> 2 <= C -> in_base B l -> recode C B (recode B C l) = l.
Proof.
  intros HB HC Hl. pose proof (value_nonneg B HB l Hl) as Hv. unfold recode at 1.
  assert (lead0 (recode B C l) = lead0 l) as ->.
  { apply lead0_app. intros d j. by apply digits_lead. }
  assert (value C (recode B C l) = value B l) as ->.
  { unfold recode. by rewrite value_zeros, digits_value. }
  destruct (lead0_split l) as (k & E & Hk).
  assert (value B l = value B k) as -> by (rewrite E; apply value_zeros).
  rewrite digits_of_value; [done|done| |done].
  rewrite E in Hl. by apply Forall_app in Hl as [_ ?].
Qed.

Lemma recode_in_base B C l : 2 <= C -> in_base C (recode B C l).
Proof.
  intros HC. apply Forall_app. split; [|by apply digits_in_base].
  apply Forall_replicate. lia.
Qed.

Lemma recode_nil_iff B C l : 2 <= B -> 2 <= C -> in_base B l -> recode B C l = [] <-> l = [].
Proof.
  intros HB HC Hl. split; [|by intros ->].
  intros E. by rewrite <- (recode_inverse B C l), E by done.
Qed.

Lemma bytes_in_base b : in_base 256 (b2z <$> b).
Proof. apply Forall_fmap, Forall_true. intros x. apply b2z_range. Qed.

Lemma leading_zeros_lead0 b : leading_zeros b = lead0 (b2z <$> b).
Proof.
  induction b as [|c b IH]; [done|]. simpl. rewrite IH.
  case_bool_decide as E; [by rewrite (proj1 (b2z_zero c) E)|].
  assert ((b2z c =? 0) = false) as ->; [|done]. apply Z.eqb_neq. by rewrite <- b2z_zero.
Qed.

Lemma leading_ones_lead0 s : leading_ones s = lead0 (alphabet_index <$> s).
Proof.
  induction s as [|c s IH]; [done|]. simpl. rewrite IH.
  case_bool_decide as E; [by rewrite (proj1 (alphabet_one c) E)|].
  assert ((alphabet_index c =? 0) = false) as ->; [|done]. apply Z.eqb_neq. by rewrite <- alphabet_one.
Qed.

Lemma fmap_at_index s : Forall (fun d => 0 <= d) (alphabet_index <$> s) -> alphabet_at <$> (alphabet_index <$> s) = s.
Proof.
  induction s as [|c s IH]; [done|]. simpl. intros [Hc Hs]%Forall_cons_1.
  f_equal; [by apply alphabet_at_index|auto].
Qed.

Lemma fmap_index_at l : in_base 58 l -> alphabet_index <$> (alphabet_at <$> l) = l.
Proof.
  induction l as [|d l IH]; [done|]. simpl. intros [Hd Hl]%Forall_cons_1.
  f_equal; [by apply alphabet_index_at|auto].
Qed.

Lemma fmap_z2b_b2z (b : bytes) : z2b <$> (b2z <$> b) = b.
Proof. induction b as [|c b IH]; [done|]. rewrite !fmap_cons, z2b_b2z. by f_equal. Qed.

Lemma fmap_b2z_z2b l : in_base 256 l -> b2z <$> (z2b <$> l) = l.
Proof.
  induction l as [|d l IH]; [done|]. simpl. intros [Hd Hl]%Forall_cons_1.
  f_equal; [rewrite b2z_z2b; apply Z.mod_small; lia|auto].
Qed.

(** Encoding is the change of base from 256 to 58, in letters. *)
Lemma encode_recode b :
  b <> [] -> base58Encode b = alphabet_at <$> recode 256 58 (b2z <$> b).
Proof.
  intros Hb. unfold base58Encode, recode. rewrite reverse_app, reverse_replicate, <- fmap_reverse.
  rewrite fmap_app, fmap_replicate, <- leading_zeros_lead0.
  change (alphabet_at 0) with x31. unfold SetBytes.
  set (out := replicate _ _ ++ _). assert (out <> []) as Ho.
  { unfold out. intros [Hz Hd]%app_eq_nil. apply fmap_nil_inv in Hd.
    apply Hb. apply (fmap_nil_inv b2z). apply (recode_nil_iff 256 58); [lia|lia|apply bytes_in_base|].
    unfold recode. rewrite <- leading_zeros_lead0, Hd.
    destruct (leading_zeros b); [done|discriminate]. }
  destruct (len out =? 0) eqn:E; [|done]. go_bool. by apply len_0 in E.
Qed.

(** Decoding succeeds exactly on strings of alphabet letters. *)
Lemma decode_loop_ok s n :
  Forall (fun d => 0 <= d) (alphabet_index <$> s) ->
  decode_loop s n = Ok (fold_left (fun n d => n * 58 + d) (alphabet_index <$> s) n).
Proof.
  revert n. induction s as [|c s IH]; intros n; [done|]. simpl. intros [Hc Hs]%Forall_cons_1.
  assert ((alphabet_index c <? 0) = false) as -> by lia. by apply IH.
Qed.

Lemma decode_loop_letters s n m :
  decode_loop s n = Ok m -> Forall (fun d => 0 <= d) (alphabet_index <$> s).
Proof.
  revert n. induction s as [|c s IH]; intros n H; [constructor|]. simpl in *.
  destruct (alphabet_index c <? 0) eqn:E; [done|]. go_bool. constructor; [done|by eapply IH].
Qed.

Lemma decode_recode s :
  Forall (fun d => 0 <= d) (alphabet_index <$> s) ->
  base58Decode s = Ok (z2b <$> recode 58 256 (alphabet_index <$> s)).
Proof.
  intros Hs. unfold base58Decode. rewrite decode_loop_ok by done. simpl.
  unfold BigBytes, recode. rewrite fmap_app, fmap_replicate, <- leading_ones_lead0. done.
Qed.

Lemma letters_in_base s :
  Forall (fun d => 0 <= d) (alphabet_index <$> s) -> in_base 58 (alphabet_index <$> s).
Proof.
  unfold in_base. rewrite !Forall_fmap. apply Forall_impl. intros c Hc.
  simpl in *. split; [done|by apply alphabet_at_index].
Qed.

Lemma base58_decode_encode b : b <> [] -> base58Decode (base58Encode b) = Ok b.
Proof.
  intros Hb. rewrite encode_recode by done.
  pose proof (recode_in_base 256 58 (b2z <$> b) ltac:(lia)) as Hin.
  rewrite decode_recode; rewrite fmap_index_at by done.
  - rewrite recode_inverse by (lia || apply bytes_in_base). by rewrite fmap_z2b_b2z.
  - revert Hin. apply Forall_impl. simpl. lia.
Qed.

Lemma base58_encode_decode s b : s <> [] -> base58Decode s = Ok b -> base58Encode b = s.
Proof.
  intros Hs Hd. pose proof Hd as (n & Hn & _)%bind_ok. pose proof (decode_loop_letters _ _ _ Hn) as Hl.
  rewrite decode_recode in Hd by done. injection Hd as <-.
  pose proof (letters_in_base s Hl) as Hin.
  pose proof (recode_in_base 58 256 (alphabet_index <$> s) ltac:(lia)) as Hin'.
  rewrite encode_recode.
  - rewrite fmap_b2z_z2b by done. rewrite recode_inverse by (done || lia). by apply fmap_at_index.
  - intros E%fmap_nil_inv. apply recode_nil_iff in E; [|lia|lia|done].
    by apply fmap_nil_inv in E.
Qed.

(** Base58 text and bytes correspond one to one: decoding an encoding
    gives the bytes back, and any non-empty string that decodes is the
    encoding of what it decodes to; so an address or nonce has one spelling. *)
Theorem base58_bijective (b s : bytes) (Hb : b <> []) (Hs : s <> []) :
  DecodeBase58 s = Ok b <-> s = EncodeBase58 b.
Proof.
  split.
  - intros H. symmetry. by apply base58_encode_decode.
  - intros ->. by apply base58_decode_encode.
Qed.

Lemma base58_bijective_witness :
  [x00; x01; xff] <> [] /\ DecodeBase58 (EncodeBase58 [x00; x01; xff]) = Ok [x00; x01; xff].
Proof.
  split; [discriminate|].
  apply (base58_bijective [x00; x01; xff] (EncodeBase58 [x00; x01; xff])); [discriminate|vm_compute; discriminate|reflexivity].
Defined.
