(* ===== verification/GoTime.v ===== *)
(** * What the program uses of Go's package time

    A time.Time is its instant, in nanoseconds since the Unix epoch (the
    location only matters for printing, and every printed time is in UTC
    first).  [FormatRFC3339] is Time.Format(time.RFC3339) of a UTC time;
    [ParseRFC3339Z] is time.Parse on the UTC, whole-second form, the only form
    parseTime lets through, since it prints the result and compares. *)

From S2P Require Import Prelude.

Definition Second : Z := 10 ^ 9.

Definition Before (t u : Z) : bool := t <? u.
Definition After (t u : Z) : bool := u <? t.

(** t.Sub(u), a Duration: saturates at the ends of int64. *)
Definition Sub (t u : Z) : Z := Z.max (- 2 ^ 63) (Z.min (2 ^ 63 - 1) (t - u)).

(** t.Unix() *)
Definition Unix (t : Z) : Z := t / Second.

(** t.Truncate(time.Second): rounding down to a multiple of a second. *)
Definition TruncateSecond (t : Z) : Z := t / Second * Second.

(** ** The proleptic Gregorian calendar

    Years counted from March, in 400-year eras; days counted from
    0000-03-01, which is day -719468 of the Unix epoch. *)

Definition epoch_shift : Z := 719468.

Definition civil_from_days (z : Z) : Z * Z * Z :=
  let z := z + epoch_shift in
  let era := z / 146097 in
  let doe := z mod 146097 in
  let n100 := Z.min 3 (doe / 36524) in
  let r := doe - 36524 * n100 in
  let n4 := r / 1461 in
  let r := r - 1461 * n4 in
  let n1 := Z.min 3 (r / 365) in
  let doy := r - 365 * n1 in
  let mp := (5 * doy + 2) / 153 in
  let d := doy - (153 * mp + 2) / 5 + 1 in
  let m := if mp <? 10 then mp + 3 else mp - 9 in
  let y := 400 * era + 100 * n100 + 4 * n4 + n1 in
  (if m <=? 2 then y + 1 else y, m, d).

Definition days_from_civil (y m d : Z) : Z :=
  let y := if m <=? 2 then y - 1 else y in
  let era := y / 400 in
  let yoe := y mod 400 in
  let mp := if m <=? 2 then m + 9 else m - 3 in
  let doy := (153 * mp + 2) / 5 + d - 1 in
  146097 * era + 365 * yoe + yoe / 4 - yoe / 100 + doy - epoch_shift.

Definition isLeap (y : Z) : bool :=
  (y mod 4 =? 0) && (negb (y mod 100 =? 0) || (y mod 400 =? 0)).

Definition daysIn (m y : Z) : Z :=
  if m =? 2 then (if isLeap y then 29 else 28)
  else if (m =? 4) || (m =? 6) || (m =? 9) || (m =? 11) then 30 else 31.

(** ** Printing *)

Definition digit (d : Z) : byte := z2b (48 + d).

Fixpoint decimal (fuel : nat) (v : Z) : bytes :=
  match fuel with
  | O => []
  | S fuel => if v <? 10 then [digit v] else decimal fuel (v / 10) ++ [digit (v mod 10)]
  end.

(** strconv.Itoa and fmt's %d of a machine integer (at most twenty digits). *)
Definition Itoa (z : Z) : bytes := if z <? 0 then x2d :: decimal 20 (- z) else decimal 20 z.

(** time.appendInt(nil, x, width): a sign, zeros up to the width, digits. *)
Definition appendInt (x width : Z) : bytes :=
  let neg := x <? 0 in
  let ds := decimal 20 (Z.abs x) in
  (if neg then [x2d] else []) ++ replicate (Z.to_nat (width - len ds)) x30 ++ ds.

Definition FormatRFC3339 (t : Z) : bytes :=
  let s := t / Second in
  let '(y, m, d) := civil_from_days (s / 86400) in
  let sod := s mod 86400 in
  appendInt y 4 ++ [x2d] ++ appendInt m 2 ++ [x2d] ++ appendInt d 2 ++ [x54] ++
  appendInt (sod / 3600) 2 ++ [x3a] ++ appendInt (sod / 60 mod 60) 2 ++ [x3a] ++
  appendInt (sod mod 60) 2 ++ [x5a].

(** ** Parsing *)

(** parseUint of time.parseRFC3339: all digits, and within the bounds. *)
Fixpoint digits_value (s : bytes) (x : Z) : option Z :=
  match s with
  | [] => Some x
  | c :: s => let d := b2z c - 48 in
              if (0 <=? d) && (d <=? 9) then digits_value s (x * 10 + d) else None
  end.

Definition parseUint (s : bytes) (lo hi : Z) : option Z :=
  x ← digits_value s 0; if (x <? lo) || (hi <? x) then None else Some x.

Definition sub_bytes (s : bytes) (i j : nat) : bytes := take (j - i) (drop i s).

Definition ParseRFC3339Z (s : bytes) : option Z :=
  if negb (len s =? 20) then None
  else
    year ← parseUint (sub_bytes s 0 4) 0 9999;
    month ← parseUint (sub_bytes s 5 7) 1 12;
    day ← parseUint (sub_bytes s 8 10) 1 (daysIn month year);
    hour ← parseUint (sub_bytes s 11 13) 0 23;
    min ← parseUint (sub_bytes s 14 16) 0 59;
    sec ← parseUint (sub_bytes s 17 19) 0 59;
    if bool_decide (sub_bytes s 4 5 = [x2d]) && bool_decide (sub_bytes s 7 8 = [x2d]) &&
       bool_decide (sub_bytes s 10 11 = [x54]) && bool_decide (sub_bytes s 13 14 = [x3a]) &&
       bool_decide (sub_bytes s 16 17 = [x3a]) && bool_decide (sub_bytes s 19 20 = [x5a])
    then Some ((days_from_civil year month day * 86400 + hour * 3600 + min * 60 + sec) * Second)
    else None.

(** ** The calendar is consistent *)

Record civil_facts (z y m d : Z) : Prop := mk_civil {
  cv_month : 1 <= m <= 12;
  cv_day : 1 <= d <= daysIn m y;
  cv_back : days_from_civil y m d = z;
}.

Lemma days_of_parts era n100 n4 n1 :
  0 <= n100 <= 3 -> 0 <= n4 <= 24 -> 0 <= n1 <= 3 ->
  let y := 400 * era + 100 * n100 + 4 * n4 + n1 in
  146097 * (y / 400) + 365 * (y mod 400) + y mod 400 / 4 - y mod 400 / 100 =
  146097 * era + 36524 * n100 + 1461 * n4 + 365 * n1.
Proof. intros ? ? ? y. subst y. Z.div_mod_to_equations. lia. Qed.

(** The month and day of a day of the March year. *)
Lemma month_of_doy doy :
  0 <= doy <= 365 ->
  let mp := (5 * doy + 2) / 153 in
  let d := doy - (153 * mp + 2) / 5 + 1 in
  0 <= mp <= 11 /\ 1 <= d <= 31 /\ (mp = 11 -> d <= 29 /\ (d = 29 -> doy = 365)) /\
  (mp = 1 \/ mp = 3 \/ mp = 6 \/ mp = 8 -> d <= 30).
Proof. intros ? mp d. subst mp d. Z.div_mod_to_equations. lia. Qed.

Lemma leap_century era n100 n4 :
  0 <= n100 <= 3 -> 0 <= n4 <= 24 -> (n4 < 24 \/ n100 = 3) ->
  isLeap (400 * era + 100 * n100 + 4 * n4 + 3 + 1) = true.
Proof.
  intros ? ? H. unfold isLeap. apply andb_true_iff.
  split; [apply Z.eqb_eq; Z.div_mod_to_equations; lia|].
  apply orb_true_iff. destruct (Z.eq_dec n4 24) as [->|].
  - right. apply Z.eqb_eq. Z.div_mod_to_equations. lia.
  - left. apply negb_true_iff, Z.eqb_neq. intros E. Z.div_mod_to_equations.
    assert (n4 + 1 = 25 * (q - 4 * era - n100)) by lia. lia.
Qed.

Lemma daysIn_28 y m : 1 <= m <= 12 -> 28 <= daysIn m y.
Proof. intros. unfold daysIn. repeat case_match; lia. Qed.

Lemma civil_ok z y m d : civil_from_days z = (y, m, d) -> civil_facts z y m d.
Proof.
  unfold civil_from_days.
  set (z' := z + epoch_shift). set (era := z' / 146097). set (doe := z' mod 146097).
  set (n100 := Z.min 3 (doe / 36524)). set (r1 := doe - 36524 * n100).
  set (n4 := r1 / 1461). set (r2 := r1 - 1461 * n4). set (n1 := Z.min 3 (r2 / 365)).
  set (doy := r2 - 365 * n1).
  assert (z' = 146097 * era + doe /\ 0 <= doe < 146097) as [Hz Hdoe].
  { unfold era, doe. pose proof (Z.div_mod z' 146097 ltac:(lia)).
    pose proof (Z.mod_pos_bound z' 146097 ltac:(lia)). lia. }
  assert (0 <= n100 <= 3 /\ 0 <= r1 <= 36524 /\ (r1 = 36524 -> n100 = 3)) as (Hn100 & Hr1 & Hr1').
  { unfold r1, n100. clearbody doe. Z.div_mod_to_equations. lia. }
  assert (0 <= n4 <= 24 /\ 0 <= r2 <= 1460 /\ (r2 = 1460 -> n4 < 24 \/ n100 = 3)) as (Hn4 & Hr2 & Hr2').
  { unfold r2, n4. clearbody r1. Z.div_mod_to_equations. lia. }
  assert (0 <= n1 <= 3 /\ 0 <= doy <= 365 /\ (doy = 365 -> n1 = 3 /\ r2 = 1460)) as (Hn1 & Hdoy & Hdoy').
  { unfold doy, n1. clearbody r2. Z.div_mod_to_equations. lia. }
  pose proof (month_of_doy doy Hdoy) as Hm. cbv zeta in Hm.
  pose proof (days_of_parts era n100 n4 n1 Hn100 Hn4 Hn1) as Hy. cbv zeta in Hy.
  set (Y := 400 * era + 100 * n100 + 4 * n4 + n1) in *.
  set (mp := (5 * doy + 2) / 153) in *. set (dd := doy - (153 * mp + 2) / 5 + 1) in *.
  destruct Hm as (Hmp & Hdd & Hfeb & H30).
  assert (z = 146097 * era + 36524 * n100 + 1461 * n4 + 365 * n1 + doy - epoch_shift) as Ez
    by (unfold doy, r2, r1; lia).
  assert (Hfeb29 : mp = 11 -> dd = 29 -> isLeap (Y + 1) = true).
  { intros E1 E2. destruct (Hfeb E1) as [_ E3]. specialize (E3 E2).
    destruct (Hdoy' E3) as [E4 E5]. unfold Y. rewrite E4. apply leap_century; auto. }
  assert (Edoy : (153 * mp + 2) / 5 + dd - 1 = doy) by (unfold dd; lia).
  clearbody Y mp dd doy n1 n4 n100 era. clear Hz Hdoe.
  destruct (mp <? 10) eqn:E1; go_bool; intros [= <- <- <-]; constructor.
  - lia.
  - unfold daysIn. repeat case_match; go_bool; lia.
  - unfold days_from_civil. assert ((mp + 3 <=? 2) = false) as -> by lia.
    replace (mp + 3 - 3) with mp by lia. lia.
  - lia.
  - assert ((mp - 9 <=? 2) = true) as -> by lia. unfold daysIn. destruct (mp - 9 =? 2) eqn:E2; go_bool.
    + assert (mp = 11) as E3 by lia. specialize (Hfeb E3) as [Hle _].
      destruct (Z.eq_dec dd 29) as [E4|]; [rewrite (Hfeb29 E3 E4); lia|].
      destruct (isLeap _); lia.
    + repeat case_match; go_bool; lia.
  - unfold days_from_civil. assert ((mp - 9 <=? 2) = true) as -> by lia.
    replace (mp - 9 + 9) with mp by lia. replace (Y + 1 - 1) with Y by lia. lia.
Qed.

(** ** Digits *)

Lemma digits_value_app a b x :
  digits_value (a ++ b) x = y ← digits_value a x; digits_value b y.
Proof.
  revert x. induction a as [|c a IH]; intros x; [done|]. simpl.
  destruct (_ && _); [apply IH|done].
Qed.

Lemma digit_value d s x : 0 <= d <= 9 -> digits_value (digit d :: s) x = digits_value s (x * 10 + d).
Proof.
  intros Hd. simpl. unfold digit. rewrite b2z_z2b, Z.mod_small by lia.
  replace (48 + d - 48) with d by lia.
  assert ((0 <=? d) && (d <=? 9) = true) as -> by lia. done.
Qed.

Lemma appendInt_2 x : 0 <= x < 100 -> appendInt x 2 = [digit (x / 10); digit (x mod 10)].
Proof.
  intros Hx. unfold appendInt. rewrite Z.abs_eq by lia.
  assert ((x <? 0) = false) as -> by lia. cbn [decimal]. destruct (x <? 10) eqn:E; go_bool.
  - rewrite Z.div_small, Z.mod_small by lia. done.
  - assert ((x / 10 <? 10) = true) as -> by (apply Z.ltb_lt, Z.div_lt_upper_bound; lia). done.
Qed.

Lemma appendInt_4 x : 0 <= x < 10000 ->
  appendInt x 4 = [digit (x / 1000); digit (x / 100 mod 10); digit (x / 10 mod 10); digit (x mod 10)].
Proof.
  intros Hx. unfold appendInt. rewrite Z.abs_eq by lia.
  assert ((x <? 0) = false) as -> by lia. cbn [decimal].
  replace (x / 100) with (x / 10 / 10) by (rewrite Z.div_div; [done|lia|lia]).
  replace (x / 1000) with (x / 10 / 10 / 10) by (rewrite !Z.div_div; [done|lia|lia|lia|lia]).
  set (a := x / 10). set (b := a / 10). set (c := b / 10).
  assert (0 <= a < 1000 /\ 0 <= b < 100 /\ 0 <= c < 10 /\ x = 10 * a + x mod 10 /\
    a = 10 * b + a mod 10 /\ b = 10 * c + b mod 10 /\ 0 <= x mod 10 /\ 0 <= a mod 10 /\
    0 <= b mod 10) as (? & ? & ? & ? & ? & ? & ? & ? & ?).
  { unfold c, b, a. Z.div_mod_to_equations. lia. }
  clearbody c b a.
  destruct (x <? 10) eqn:E1; go_bool; [|destruct (a <? 10) eqn:E2; go_bool;
    [|destruct (b <? 10) eqn:E3; go_bool; [|assert ((c <? 10) = true) as -> by lia; done]]].
  - assert (a = 0 /\ b = 0 /\ c = 0 /\ x mod 10 = x) as (-> & -> & -> & ->) by lia. reflexivity.
  - assert (b = 0 /\ c = 0 /\ a mod 10 = a) as (-> & -> & ->) by lia. reflexivity.
  - assert (c = 0 /\ b mod 10 = b) as (-> & ->) by lia. reflexivity.
Qed.

Lemma parseUint_2 x lo hi : 0 <= x < 100 -> lo <= x <= hi -> parseUint (appendInt x 2) lo hi = Some x.
Proof.
  intros Hx Hr. rewrite appendInt_2 by done. unfold parseUint.
  rewrite !digit_value by (Z.div_mod_to_equations; lia). simpl.
  replace (0 * 10 + x / 10) with (x / 10) by lia.
  replace (x / 10 * 10 + x mod 10) with x by (Z.div_mod_to_equations; lia).
  assert ((x <? lo) || (hi <? x) = false) as -> by lia. done.
Qed.

Lemma parseUint_4 x : 0 <= x < 10000 -> parseUint (appendInt x 4) 0 9999 = Some x.
Proof.
  intros Hx. rewrite appendInt_4 by done. unfold parseUint.
  rewrite !digit_value by (Z.div_mod_to_equations; lia). simpl.
  replace ((((0 * 10 + x / 1000) * 10 + x / 100 mod 10) * 10 + x / 10 mod 10) * 10 + x mod 10)
    with x by (Z.div_mod_to_equations; lia).
  assert ((x <? 0) || (9999 <? x) = false) as -> by lia. done.
Qed.

(** A time whose year prints in four digits. *)
Definition four_digit_year (t : Z) : Prop :=
  let '(y, _, _) := civil_from_days (t / Second / 86400) in 0 <= y <= 9999.

Lemma daysIn_31 m y : daysIn m y <= 31.
Proof. unfold daysIn. repeat case_match; lia. Qed.

(** Parsing what was printed gives the instant back, to the second. *)
Lemma Parse_Format t :
  four_digit_year t -> ParseRFC3339Z (FormatRFC3339 t) = Some (TruncateSecond t).
Proof.
  unfold four_digit_year, FormatRFC3339, TruncateSecond. set (s := t / Second).
  destruct (civil_from_days (s / 86400)) as [[y m] d] eqn:Ec. intros Hy.
  apply civil_ok in Ec as [Hm Hd Hz]. pose proof (daysIn_31 m y).
  set (sod := s mod 86400). set (h := sod / 3600). set (mi := sod / 60 mod 60).
  set (se := sod mod 60).
  assert (0 <= h <= 23 /\ 0 <= mi <= 59 /\ 0 <= se <= 59 /\
    s = s / 86400 * 86400 + h * 3600 + mi * 60 + se) as (Hh & Hmi & Hse & Es).
  { unfold h, mi, se, sod. Z.div_mod_to_equations. lia. }
  clearbody h mi se. clear sod.
  assert (forall x, 0 <= x < 100 -> parseUint [digit (x / 10); digit (x mod 10)] 0 99 = Some x /\
    forall lo hi, lo <= x <= hi -> parseUint [digit (x / 10); digit (x mod 10)] lo hi = Some x) as H2.
  { intros x Hx. rewrite <- appendInt_2 by done. split; [apply parseUint_2; lia|].
    intros. by apply parseUint_2. }
  pose proof (parseUint_4 y ltac:(lia)) as H4.
  rewrite (appendInt_4 y), (appendInt_2 m), (appendInt_2 d), (appendInt_2 h), (appendInt_2 mi),
    (appendInt_2 se) in * by lia.
  unfold ParseRFC3339Z. cbn [app length].
  match goal with |- context [len ?l =? 20] => change (len l =? 20) with true end.
  cbn [negb sub_bytes take drop Nat.sub]. rewrite H4. cbn [mbind option_bind].
  rewrite (proj2 (H2 m ltac:(lia))) by lia. cbn [mbind option_bind].
  rewrite (proj2 (H2 d ltac:(lia))) by lia. cbn [mbind option_bind].
  rewrite (proj2 (H2 h ltac:(lia))) by lia. cbn [mbind option_bind].
  rewrite (proj2 (H2 mi ltac:(lia))) by lia. cbn [mbind option_bind].
  rewrite (proj2 (H2 se ltac:(lia))) by lia. cbn [mbind option_bind].
  rewrite !bool_decide_eq_true_2 by done. cbn [andb]. rewrite Hz. do 2 f_equal. lia.
Qed.
