(* ===== verification/Delegation.v ===== *)
(** * Delegation text and signatures (src/wallet/delegation.go, first part)

    The canonical text a wallet signs, its strict parser and the signed
    envelope.  The text is shown to be canonical in both directions: what
    parses is exactly what rendering produces, so a signature pins the fields
    it was made for and a field has one spelling.  crypto/ed25519 is an
    interface, [Ed25519]; what a caller may rely on is [Ed25519Laws]. *)

From S2P Require Import Prelude GoStrings WalletCaps Base58 GoTime.

(** ** crypto/ed25519 *)

Class Ed25519 := {
  ed_sign : bytes -> bytes -> bytes;            (* private key, message *)
  ed_verify : bytes -> bytes -> bytes -> bool;  (* public key, message, signature *)
  ed_public : bytes -> bytes;                   (* priv.Public() *)
}.

Definition SignatureSize : Z := 64.

(** Signatures have their fixed size and verify under the matching key. *)
Class Ed25519Laws (E : Ed25519) := {
  ed_sign_size priv m : len (ed_sign priv m) = SignatureSize;
  ed_public_size priv : len (ed_public priv) = PublicKeySize;
  ed_verify_sign priv m : ed_verify (ed_public priv) m (ed_sign priv m) = true;
}.

(** ** The fields and their text *)

Definition contentHeader : bytes := str "mosey session authorization v1".
Definition MaxChainDepth : Z := 8.
Definition nonceSize : Z := 16.
Definition LF : byte := x0a.

Record Fields := mkFields {
  SessionID : bytes;
  Delegator : bytes;
  Delegate : bytes;
  FCaps : WCaps;
  NotBefore : Z;
  NotAfter : Z;
  Nonce : bytes;
}.

Definition renderTime (t : Z) : bytes := FormatRFC3339 (TruncateSecond t).

Definition render_lines (f : Fields) : list bytes :=
  [contentHeader;
   [];
   str "session: " ++ base58Encode (SessionID f);
   str "delegator: " ++ base58Encode (Delegator f);
   str "delegate: " ++ base58Encode (Delegate f);
   str "caps: " ++ CapsString (FCaps f);
   str "not-before: " ++ renderTime (NotBefore f);
   str "not-after: " ++ renderTime (NotAfter f);
   str "nonce: " ++ base58Encode (Nonce f)].

Definition Render (f : Fields) : bytes := Join (render_lines f) [LF].

Inductive WalletError :=
| ErrEmptyChain | ErrChainTooLong | ErrBadKey | ErrBadSignature | ErrBrokenLink
| ErrLeafMismatch | ErrAttenuation | ErrNotYetValid | ErrExpired | ErrWrongSession
| ErrUnknownRoot | ErrForgeRequired
| BadTimestamp (s : bytes)
| LineCount (n : Z) | BadHeader (s : bytes) | NotBlank | WrongKey (i : nat) (key : bytes)
| KeySize (name : bytes) (n : Z) | NonceSize (n : Z)
| EBase58 (e : Base58Error) | ECaps (e : CapsError).

Definition parseTime (s : bytes) : res WalletError Z :=
  match ParseRFC3339Z s with
  | None => Err (BadTimestamp s)
  | Some t => if negb (bool_decide (renderTime t = s)) then Err (BadTimestamp s) else Ok t
  end.

(** The closure [field] of ParseContent. *)
Definition field (lines : list bytes) (i : nat) (key : bytes) : res WalletError bytes :=
  let prefix := key ++ str ": " in
  let line := nth i lines [] in
  if negb (HasPrefix line prefix) then Err (WrongKey (S i) key)
  else Ok (slice_from line (len prefix)).

Definition key32 (lines : list bytes) (i : nat) (name : bytes) : res WalletError bytes :=
  s ← field lines i name;
  b ← map_err EBase58 (base58Decode s);
  if negb (len b =? PublicKeySize) then Err (KeySize name (len b)) else Ok b.

(** ParseContent once the content is cut into lines. *)
Definition parse_lines (lines : list bytes) : res WalletError Fields :=
  _ ← guard_ok (len lines =? 9) (LineCount (len lines));
  _ ← guard_ok (bool_decide (nth 0 lines [] = contentHeader)) (BadHeader (nth 0 lines []));
  _ ← guard_ok (bool_decide (nth 1 lines [] = [])) NotBlank;
  sessionID ← key32 lines 2 (str "session");
  delegator ← key32 lines 3 (str "delegator");
  delegate ← key32 lines 4 (str "delegate");
  capsStr ← field lines 5 (str "caps");
  caps ← map_err ECaps (ParseCaps capsStr);
  nbStr ← field lines 6 (str "not-before");
  nb ← parseTime nbStr;
  naStr ← field lines 7 (str "not-after");
  na ← parseTime naStr;
  nonceStr ← field lines 8 (str "nonce");
  nonce ← map_err EBase58 (base58Decode nonceStr);
  _ ← guard_ok (len nonce =? nonceSize) (NonceSize (len nonce));
  Ok (mkFields sessionID delegator delegate caps nb na nonce).

Definition ParseContent (content : bytes) : res WalletError Fields :=
  parse_lines (Split content [LF]).

(** ** The signed envelope *)

Record Delegation := mkDelegation { Content : bytes; Signature : bytes }.

Section envelope.
Context {E : Ed25519}.

Definition Sign (priv : bytes) (f : Fields) : Delegation :=
  let content := Render f in mkDelegation content (ed_sign priv content).

(** Delegation.Fields *)
Definition DFields (d : Delegation) : res WalletError Fields := ParseContent (Content d).

Definition Verify (d : Delegation) : res WalletError Fields :=
  f ← DFields d;
  if negb (len (Delegator f) =? PublicKeySize) then Err ErrBadKey
  else if negb (len (Signature d) =? SignatureSize) then Err ErrBadSignature
  else if negb (ed_verify (Delegator f) (Content d) (Signature d)) then Err ErrBadSignature
  else Ok f.
End envelope.

(** ** Lemmas: one line *)

Lemma field_ok lines i key v :
  field lines i key = Ok v <-> nth i lines [] = key ++ str ": " ++ v.
Proof.
  unfold field. destruct (HasPrefix _ _) eqn:Hp; cbn [negb].
  - split.
    + intros [= <-]. apply HasPrefix_split in Hp. rewrite Hp at 1.
      rewrite <- app_assoc. do 3 f_equal. unfold slice_from, len. by rewrite Nat2Z.id.
    + intros ->. f_equal. rewrite app_assoc. unfold slice_from, len. rewrite Nat2Z.id.
      apply drop_app_length.
  - split; [done|]. intros E. rewrite E, app_assoc, HasPrefix_app in Hp. done.
Qed.

(** A base58 text that decodes to a non-empty value is its encoding. *)
Lemma decode_text s b : base58Decode s = Ok b -> 0 < len b -> base58Encode b = s.
Proof.
  intros Hd Hl. apply base58_encode_decode; [|done].
  intros ->. change (base58Decode []) with (@Ok Base58Error bytes []) in Hd.
  injection Hd as <-. len_nil. lia.
Qed.

Lemma key32_ok lines i name k :
  key32 lines i name = Ok k <-> nth i lines [] = name ++ str ": " ++ base58Encode k /\ len k = 32.
Proof.
  unfold key32. rewrite bind_ok. split.
  - intros (s & Hf & (b & Hd & Hl)%bind_ok). destruct (base58Decode s) as [b'|] eqn:Eb; [|done].
    injection Hd as ->. destruct (len b =? PublicKeySize) eqn:El; [|done]. simpl in Hl.
    injection Hl as <-. unfold PublicKeySize in El. go_bool. rewrite field_ok in Hf.
    by rewrite (decode_text s b Eb) by lia.
  - intros [Hn Hl]. exists (base58Encode k). split; [by apply field_ok|].
    rewrite base58_decode_encode by (intros ->; len_nil; lia). unfold map_err, mbind, res_bind.
    unfold PublicKeySize. by rewrite Hl.
Qed.

Lemma parseTime_ok s t : parseTime s = Ok t -> renderTime t = s.
Proof.
  unfold parseTime. destruct (ParseRFC3339Z s); [|done]. case_bool_decide; simpl; naive_solver.
Qed.

Lemma truncate_idem t : TruncateSecond (TruncateSecond t) = TruncateSecond t.
Proof. unfold TruncateSecond, Second. by rewrite Z.div_mul by lia. Qed.

Lemma truncate_second t : TruncateSecond t / Second = t / Second.
Proof. unfold TruncateSecond, Second. by rewrite Z.div_mul by lia. Qed.

Lemma parseTime_render t : four_digit_year t -> parseTime (renderTime t) = Ok (TruncateSecond t).
Proof.
  intros Hy. unfold parseTime, renderTime. rewrite Parse_Format, !truncate_idem.
  - by rewrite bool_decide_eq_true_2.
  - unfold four_digit_year in *. by rewrite truncate_second.
Qed.

(** ** Canonicity *)

Lemma ParseContent_lines content f :
  ParseContent content = Ok f -> Split content [LF] = render_lines f.
Proof.
  unfold ParseContent, parse_lines. set (lines := Split content [LF]).
  intros (? & H9%guard_ok_ok & (? & H0%guard_ok_ok & (? & H1%guard_ok_ok & H)%bind_ok)%bind_ok)%bind_ok.
  apply bind_ok in H as (k1 & Hk1 & (k2 & Hk2 & (k3 & Hk3 & H)%bind_ok)%bind_ok).
  apply bind_ok in H as (cs & Hcs & (c & Hc & H)%bind_ok).
  apply bind_ok in H as (s1 & Hs1 & (t1 & Ht1 & (s2 & Hs2 & (t2 & Ht2 & H)%bind_ok)%bind_ok)%bind_ok).
  apply bind_ok in H as (s3 & Hs3 & (n & Hn & (? & Hl%guard_ok_ok & H)%bind_ok)%bind_ok).
  injection H as <-. unfold nonceSize in Hl. go_bool.
  apply key32_ok in Hk1 as [Hk1 _], Hk2 as [Hk2 _], Hk3 as [Hk3 _].
  apply field_ok in Hcs, Hs1, Hs2, Hs3.
  assert (CapsString c = cs) as <-.
  { destruct (ParseCaps cs) eqn:Ep; [|done]. injection Hc as ->. by apply ParseCaps_sound in Ep as [_ ?]. }
  apply parseTime_ok in Ht1 as <-, Ht2 as <-.
  assert (base58Encode n = s3) as <-.
  { destruct (base58Decode s3) eqn:Ed; [|done]. injection Hn as ->. apply decode_text; [done|lia]. }
  unfold render_lines. simpl.
  clearbody lines. unfold len in H9.
  destruct lines as [|l0 [|l1 [|l2 [|l3 [|l4 [|l5 [|l6 [|l7 [|l8 [|]]]]]]]]]]; simpl in H9; try lia.
  simpl in *. by subst.
Qed.

Lemma ParseContent_render content f : ParseContent content = Ok f -> Render f = content.
Proof.
  intros H%ParseContent_lines. unfold Render. rewrite <- H. by apply Join_Split.
Qed.

(** ** The round trip *)

(** What Sign is given: full keys, the three capability bits, a 16-byte nonce,
    and times that print with a four-digit year. *)
Record fields_ok (f : Fields) : Prop := mk_fields_ok {
  fo_session : len (SessionID f) = 32;
  fo_delegator : len (Delegator f) = 32;
  fo_delegate : len (Delegate f) = 32;
  fo_caps : 0 <= FCaps f < 8;
  fo_nb : four_digit_year (NotBefore f);
  fo_na : four_digit_year (NotAfter f);
  fo_nonce : len (Nonce f) = 16;
}.

(** The fields with their times cut to the second, as they are printed. *)
Definition truncated (f : Fields) : Fields :=
  mkFields (SessionID f) (Delegator f) (Delegate f) (FCaps f)
    (TruncateSecond (NotBefore f)) (TruncateSecond (NotAfter f)) (Nonce f).

Lemma LF_base58 b : b <> [] -> LF ∉ base58Encode b.
Proof.
  intros Hb. rewrite encode_recode by done.
  intros (d & Hd & Hin)%list_elem_of_fmap.
  pose proof (recode_in_base 256 58 (b2z <$> b) ltac:(lia)) as Hr.
  unfold in_base in Hr. rewrite Forall_forall in Hr.
  specialize (Hr d ltac:(by apply list_elem_of_In)).
  pose proof (alphabet_index_at d Hr) as E. rewrite <- Hd in E.
  change (alphabet_index LF) with (-1) in E. lia.
Qed.

Lemma LF_caps c : 0 <= c < 8 -> LF ∉ CapsString c.
Proof.
  intros Hc%small_caps_cases.
  destruct Hc as [->|[->|[->|[->|[->|[->|[->| ->]]]]]]]; apply (bool_decide_eq_true_1 _);
    vm_compute; reflexivity.
Qed.

Lemma LF_digit d : 0 <= d <= 9 -> LF <> digit d.
Proof.
  intros Hd E. apply (f_equal b2z) in E. unfold digit in E.
  rewrite b2z_z2b, Z.mod_small in E by lia. change (b2z LF) with 10 in E. lia.
Qed.

Lemma LF_lit b : LF <> b -> LF ∉ [b].
Proof. set_solver. Qed.

Lemma LF_time t : four_digit_year t -> LF ∉ renderTime t.
Proof.
  unfold renderTime, FormatRFC3339, four_digit_year. rewrite truncate_second.
  set (s := t / Second). destruct (civil_from_days (s / 86400)) as [[y m] d] eqn:Ec. intros Hy.
  apply civil_ok in Ec as [Hm Hd _]. pose proof (daysIn_31 m y).
  set (sod := s mod 86400).
  assert (0 <= sod < 86400) by (apply Z.mod_pos_bound; lia). clearbody sod.
  assert (forall x, 0 <= x < 100 -> LF ∉ appendInt x 2) as H2.
  { intros x Hx. rewrite appendInt_2 by done. rewrite !not_elem_of_cons.
    split_and!; [| |apply not_elem_of_nil]; apply LF_digit; Z.div_mod_to_equations; lia. }
  assert (LF ∉ appendInt y 4) as H4.
  { rewrite appendInt_4 by lia. rewrite !not_elem_of_cons.
    split_and!; [| | | |apply not_elem_of_nil]; apply LF_digit; Z.div_mod_to_equations; lia. }
  pose proof (H2 m ltac:(lia)). pose proof (H2 d ltac:(lia)).
  pose proof (H2 (sod / 3600) ltac:(Z.div_mod_to_equations; lia)).
  pose proof (H2 (sod / 60 mod 60) ltac:(Z.div_mod_to_equations; lia)).
  pose proof (H2 (sod mod 60) ltac:(Z.div_mod_to_equations; lia)).
  rewrite !not_elem_of_app. split_and!; try assumption; by apply LF_lit.
Qed.

Lemma LF_line (p v : bytes) : bool_decide (LF ∉ p) = true -> LF ∉ v -> LF ∉ p ++ v.
Proof. intros Hp%bool_decide_eq_true Hv. apply not_elem_of_app. by split. Qed.

Lemma nonempty_len (b : bytes) n : len b = n -> 0 < n -> b <> [].
Proof. intros E ? ->. len_nil. lia. Qed.

Lemma Split_Render f : fields_ok f -> Split (Render f) [LF] = render_lines f.
Proof.
  intros []. apply Split_Join; [done|]. unfold render_lines.
  repeat apply Forall_cons_2; try apply Forall_nil_2;
    try (apply LF_line; [vm_compute; reflexivity|]);
    auto using LF_caps, LF_time; try (apply LF_base58; eapply nonempty_len; [done|lia]);
    apply (bool_decide_eq_true_1 _); vm_compute; reflexivity.
Qed.

Lemma parse_lines_ok lines f cs s1 s2 s3 nb na :
  len lines = 9 -> nth 0 lines [] = contentHeader -> nth 1 lines [] = [] ->
  key32 lines 2 (str "session") = Ok (SessionID f) ->
  key32 lines 3 (str "delegator") = Ok (Delegator f) ->
  key32 lines 4 (str "delegate") = Ok (Delegate f) ->
  field lines 5 (str "caps") = Ok cs -> ParseCaps cs = Ok (FCaps f) ->
  field lines 6 (str "not-before") = Ok s1 -> parseTime s1 = Ok nb ->
  field lines 7 (str "not-after") = Ok s2 -> parseTime s2 = Ok na ->
  field lines 8 (str "nonce") = Ok s3 -> base58Decode s3 = Ok (Nonce f) -> len (Nonce f) = 16 ->
  parse_lines lines =
    Ok (mkFields (SessionID f) (Delegator f) (Delegate f) (FCaps f) nb na (Nonce f)).
Proof.
  intros H9 H0 H1 Hs Hd Hg Hc Hc' Hn Hn' Ha Ha' Ho Ho' Hl.
  unfold parse_lines. rewrite H9, H0, H1, Hs, Hd, Hg, Hc. cbn [map_err mbind res_bind].
  rewrite Hc', Hn. cbn [map_err mbind res_bind]. rewrite Hn', Ha. cbn [mbind res_bind].
  rewrite Ha', Ho. cbn [mbind res_bind]. rewrite Ho'. cbn [map_err mbind res_bind].
  by rewrite Hl, !bool_decide_eq_true_2.
Qed.

Lemma ParseContent_Render f : fields_ok f -> ParseContent (Render f) = Ok (truncated f).
Proof.
  intros Hf. pose proof (Split_Render f Hf) as Hs. destruct Hf. unfold ParseContent. rewrite Hs.
  eapply parse_lines_ok.
  - done.
  - done.
  - done.
  - by apply key32_ok.
  - by apply key32_ok.
  - by apply key32_ok.
  - by apply field_ok.
  - by apply ParseCaps_String.
  - by apply field_ok.
  - by apply parseTime_render.
  - by apply field_ok.
  - by apply parseTime_render.
  - by apply field_ok.
  - apply base58_decode_encode. by eapply nonempty_len.
  - done.
Qed.

(** ** A concrete signature scheme for the witnesses

    The "signature" of a message is the public key, padded: enough to run the
    definitions, and it satisfies [Ed25519Laws]. *)

Definition toy_pub (priv : bytes) : bytes := take 32 (priv ++ replicate 32 x00).

#[global] Instance toy_ed25519 : Ed25519 := {|
  ed_sign priv m := toy_pub priv ++ replicate 32 x01;
  ed_verify pub m sig := bool_decide (sig = pub ++ replicate 32 x01);
  ed_public priv := toy_pub priv;
|}.

Lemma toy_pub_len priv : length (toy_pub priv) = 32%nat.
Proof. unfold toy_pub. rewrite length_take, length_app, length_replicate. lia. Qed.

#[global] Instance toy_laws : Ed25519Laws toy_ed25519.
Proof.
  constructor; intros; simpl.
  - unfold len. rewrite length_app, toy_pub_len. done.
  - unfold len. by rewrite toy_pub_len.
  - by apply bool_decide_eq_true_2.
Qed.

Definition key_of (b : byte) : bytes := replicate 32 b.

(** 2024-01-01T00:00:00Z and a day later. *)
Definition t0 : Z := 1704067200 * Second.
Definition t1 : Z := 1704153600 * Second.

Definition sample_fields : Fields :=
  mkFields (key_of x05) (key_of x06) (key_of x07) 3 t0 t1 (replicate 16 x09).

Lemma sample_ok : fields_ok sample_fields.
Proof. constructor; try reflexivity; vm_compute; split; congruence. Qed.

(** ** The claims *)

(** The text of a delegation is canonical: whatever bytes parse are
    exactly the rendering of the fields they parse to, so no second text, in
    other case, order, spacing, number or time format, carries the same
    signature content. *)
Theorem delegation_text_canonical content f
  (Hp : ParseContent content = Ok f) : Render f = content.
Proof. by apply ParseContent_render. Qed.

Lemma delegation_text_canonical_witness :
  ParseContent (Render sample_fields) = Ok sample_fields /\
  Render sample_fields = Render sample_fields.
Proof.
  assert (ParseContent (Render sample_fields) = Ok sample_fields) as H by (vm_compute; reflexivity).
  split; [exact H|]. exact (delegation_text_canonical _ _ H).
Defined.

Lemma Sign_verifies {E : Ed25519} {EL : Ed25519Laws E} priv f :
  fields_ok f -> Delegator f = ed_public priv -> Verify (Sign priv f) = Ok (truncated f).
Proof.
  intros Hf Hkey.
  unfold Verify, DFields, Sign. cbn [Content Signature]. rewrite ParseContent_Render by done.
  cbn [mbind res_bind truncated Delegator]. rewrite Hkey, ed_public_size, ed_sign_size, ed_verify_sign.
  done.
Qed.

(** A delegation that is signed verifies, and yields the fields signed,
    with the validity times cut to the second: for every scheme whose
    signatures verify under the matching public key. *)
Theorem signed_delegation_verifies {E : Ed25519} {EL : Ed25519Laws E} priv f
  (Hf : fields_ok f) (Hkey : Delegator f = ed_public priv) :
  Verify (Sign priv f) = Ok (truncated f).
Proof. by apply Sign_verifies. Qed.

Lemma signed_delegation_verifies_witness :
  fields_ok sample_fields /\
  Verify (Sign (key_of x06) sample_fields) = Ok (truncated sample_fields).
Proof.
  split; [apply sample_ok|].
  exact (signed_delegation_verifies (key_of x06) sample_fields sample_ok eq_refl).
Defined.
