(* ===== verification/Fold.v ===== *)
(** * Delegation chains (src/wallet/delegation.go Fold, src/wallet/mem.go,
    src/wallet/snapshot.go)

    [Fold] checks a chain against a snapshot of the on-chain state and returns
    the capabilities the connection key wields.  Its specification is the
    relation [delegated]: authority handed from holder to holder, never
    widened, and re-delegated only by holders of the forge capability.  [Fold]
    is shown to compute exactly that relation. *)

From S2P Require Import Prelude GoStrings WalletCaps Base58 GoTime Delegation.

(** ** wallet.Snapshot and its in-memory implementation *)

Record Snapshot := mkSnapshot {
  Owner : bytes;
  GrantCaps : bytes -> option WCaps;
}.

(** wallet.SnapshotSource: the cached view with its freshness (an error
    before any load), and the blocking lookup of one wallet. *)
Inductive SourceError := ErrNoSnapshot | ErrLookup.

Record SnapshotSource := mkSource {
  SnapshotNow : res SourceError (Snapshot * bool);
  VerifyNow : bytes -> res SourceError (option WCaps);
}.

Record MemSnapshot := mkMem { m_owner : bytes; m_grants : gmap bytes WCaps }.

Definition NewMemSnapshot (owner : bytes) : MemSnapshot := mkMem owner ∅.

Definition WithGrant (m : MemSnapshot) (wallet : bytes) (caps : WCaps) : MemSnapshot :=
  mkMem (m_owner m) (<[wallet := caps]> (m_grants m)).

Definition MemGrantCaps (m : MemSnapshot) (wallet : bytes) : option WCaps := m_grants m !! wallet.

Definition mem_snapshot (m : MemSnapshot) : Snapshot := mkSnapshot (m_owner m) (MemGrantCaps m).

Definition MemSource (m : MemSnapshot) : SnapshotSource :=
  mkSource (Ok (mem_snapshot m, true)) (fun w => Ok (MemGrantCaps m w)).

(** ** Fold *)

Section fold.
Context {E : Ed25519}.

(** The first loop: signatures, session and validity, in order. *)
Fixpoint verify_all (chain : list Delegation) (sessionID : bytes) (now : Z)
    : res WalletError (list Fields) :=
  match chain with
  | [] => Ok []
  | d :: chain =>
      f ← Verify d;
      if negb (bool_decide (sessionID = SessionID f)) then Err ErrWrongSession
      else if Before now (NotBefore f) then Err ErrNotYetValid
      else if After now (NotAfter f) then Err ErrExpired
      else fs ← verify_all chain sessionID now; Ok (f :: fs)
  end.

Fixpoint check_links (fields : list Fields) : res WalletError unit :=
  match fields with
  | f :: ((g :: _) as rest) =>
      if negb (bool_decide (Delegate f = Delegator g)) then Err ErrBrokenLink else check_links rest
  | _ => Ok tt
  end.

Fixpoint attenuate (fields : list Fields) (effective : WCaps) : res WalletError WCaps :=
  match fields with
  | [] => Ok effective
  | f :: fields =>
      if negb (Subset (FCaps f) effective) then Err ErrAttenuation else attenuate fields (FCaps f)
  end.

(** The forge loop; [held] is the capability of the current delegator. *)
Fixpoint check_forge (fields : list Fields) (held : WCaps) : res WalletError unit :=
  match fields with
  | f :: ((_ :: _) as rest) =>
      if negb (Has held CapForge) then Err ErrForgeRequired else check_forge rest (FCaps f)
  | _ => Ok tt
  end.

Definition root_caps (snap : Snapshot) (root : bytes) : res WalletError (WCaps * bool) :=
  if bool_decide (root = Owner snap) then Ok (AllCaps, true)
  else match GrantCaps snap root with
       | None => Err ErrUnknownRoot
       | Some gc => Ok (gc, false)
       end.

Definition no_fields : Fields := mkFields [] [] [] 0 0 0 [].

Definition Fold (chain : list Delegation) (leafPub sessionID : bytes) (snap : Snapshot) (now : Z)
    : res WalletError (WCaps * bool) :=
  _ ← guard_ok (negb (len chain =? 0)) ErrEmptyChain;
  _ ← guard_ok (negb (MaxChainDepth <? len chain)) ErrChainTooLong;
  fields ← verify_all chain sessionID now;
  _ ← check_links fields;
  _ ← guard_ok (bool_decide (Delegate (List.last fields no_fields) = leafPub)) ErrLeafMismatch;
  '(rootCaps, rootIsOwner) ← root_caps snap (Delegator (nth 0 fields no_fields));
  effective ← attenuate fields rootCaps;
  _ ← check_forge fields rootCaps;
  Ok (effective, rootIsOwner).

(** ** The specification *)

(** One hop: a valid, live delegation for this session by [from]. *)
Record hop (sessionID : bytes) (now : Z) (d : Delegation) (f : Fields) (from : bytes) : Prop := mk_hop {
  hop_sig : Verify d = Ok f;
  hop_session : SessionID f = sessionID;
  hop_live : NotBefore f <= now <= NotAfter f;
  hop_from : Delegator f = from;
}.

(** [delegated sid now from held chain leaf caps]: starting at [from], who
    holds [held], the chain hands [caps] to [leaf]. *)
Inductive delegated (sid : bytes) (now : Z) : bytes -> WCaps -> list Delegation -> bytes -> WCaps -> Prop :=
| delegated_leaf from held d f :
    hop sid now d f from -> Subset (FCaps f) held = true ->
    delegated sid now from held [d] (Delegate f) (FCaps f)
| delegated_more from held d f chain leaf caps :
    hop sid now d f from -> Subset (FCaps f) held = true -> Has held CapForge = true ->
    delegated sid now (Delegate f) (FCaps f) chain leaf caps ->
    delegated sid now from held (d :: chain) leaf caps.

(** What the chain state says of a root: the owner holds everything, anyone
    else what their live grant says. *)
Definition root_authority (snap : Snapshot) (root : bytes) (held : WCaps) (owner : bool) : Prop :=
  (root = Owner snap /\ held = AllCaps /\ owner = true) \/
  (root <> Owner snap /\ GrantCaps snap root = Some held /\ owner = false).

(** ** Lemmas *)

Lemma verify_all_cons d chain sid now fs :
  verify_all (d :: chain) sid now = Ok fs <->
  exists f fs', fs = f :: fs' /\ hop sid now d f (Delegator f) /\ verify_all chain sid now = Ok fs'.
Proof.
  cbn [verify_all]. rewrite bind_ok. unfold Before, After. split.
  - intros (f & Hv & H). case_bool_decide as Hs; [|done]. cbn [negb] in H.
    destruct (now <? NotBefore f) eqn:E1; [done|]. destruct (NotAfter f <? now) eqn:E2; [done|].
    go_bool. apply bind_ok in H as (fs' & Hfs & [= <-]). exists f, fs'. by split_and!; try constructor.
  - intros (f & fs' & -> & [Hv Hs Hl _] & Hfs). exists f. split; [done|].
    rewrite bool_decide_eq_true_2 by done. cbn [negb].
    assert ((now <? NotBefore f) = false) as -> by lia. assert ((NotAfter f <? now) = false) as -> by lia.
    rewrite Hfs. done.
Qed.

(** The checks after the first loop, on a non-empty list of fields whose root
    is [from]. *)
Definition checks (fields : list Fields) (from leaf : bytes) (held caps : WCaps) : Prop :=
  check_links fields = Ok tt /\ Delegate (List.last fields no_fields) = leaf /\
  Delegator (nth 0 fields no_fields) = from /\
  attenuate fields held = Ok caps /\ check_forge fields held = Ok tt.

Lemma checks_one f from leaf held caps :
  checks [f] from leaf held caps <->
  Delegate f = leaf /\ Delegator f = from /\ Subset (FCaps f) held = true /\ caps = FCaps f.
Proof.
  unfold checks. simpl. destruct (Subset (FCaps f) held); simpl; naive_solver.
Qed.

Lemma checks_more f g fields from leaf held caps :
  checks (f :: g :: fields) from leaf held caps <->
  Delegator f = from /\ Subset (FCaps f) held = true /\ Has held CapForge = true /\
  checks (g :: fields) (Delegate f) leaf (FCaps f) caps.
Proof.
  unfold checks. cbn [check_links attenuate check_forge nth List.last].
  destruct (Subset (FCaps f) held), (Has held CapForge); case_bool_decide; cbn [negb]; naive_solver.
Qed.

Lemma delegated_checks sid now from held chain leaf caps :
  delegated sid now from held chain leaf caps <->
  exists fields, chain <> [] /\ verify_all chain sid now = Ok fields /\ checks fields from leaf held caps.
Proof.
  split.
  - induction 1 as [from held d f Hh Hs|from held d f chain leaf caps Hh Hs Hf Hd (fs & Hne & Hv & Hc)].
    + exists [f]. split; [done|]. split.
      * apply verify_all_cons. exists f, []. split_and!; try done. destruct Hh. by constructor.
      * apply checks_one. destruct Hh. auto.
    + exists (f :: fs). split; [done|]. split.
      * apply verify_all_cons. exists f, fs. split_and!; try done. destruct Hh. by constructor.
      * destruct fs as [|g fs].
        { destruct chain; [done|]. by apply verify_all_cons in Hv as (? & ? & [=] & _). }
        apply checks_more. destruct Hh. auto.
  - intros (fields & Hne & Hv & Hc). revert from held fields Hne Hv Hc.
    induction chain as [|d chain IH]; intros from held fields Hne Hv Hc; [done|].
    apply verify_all_cons in Hv as (f & fs & -> & Hh & Hv). destruct chain as [|d' chain].
    + injection Hv as <-. apply checks_one in Hc as (<- & <- & Hs & ->). by constructor.
    + pose proof Hv as (g & fs' & -> & _)%verify_all_cons.
      apply checks_more in Hc as (<- & Hs & Hf & Hc).
      eapply delegated_more; eauto.
Qed.

Lemma root_caps_ok snap root held o : root_caps snap root = Ok (held, o) <-> root_authority snap root held o.
Proof.
  unfold root_caps, root_authority. case_bool_decide; [|destruct (GrantCaps snap root)]; naive_solver.
Qed.
Lemma Fold_iff chain leafPub sessionID snap now caps owner :
  Fold chain leafPub sessionID snap now = Ok (caps, owner) <->
  len chain <= MaxChainDepth /\
  exists root held, root_authority snap root held owner /\
    delegated sessionID now root held chain leafPub caps.
Proof.
  unfold Fold. split.
  - intros (? & Hn%guard_ok_ok & (? & Hm%guard_ok_ok & (fs & Hv & (u & Hl & H)%bind_ok)%bind_ok)%bind_ok)%bind_ok.
    apply bind_ok in H as (? & Hleaf%guard_ok_ok & ([held o] & Hr & H)%bind_ok).
    apply bind_ok in H as (eff & Ha & (u' & Hf & [= <- <-])%bind_ok).
    go_bool. split; [done|]. exists (Delegator (nth 0 fs no_fields)), held.
    split; [by apply root_caps_ok|]. apply delegated_checks. exists fs.
    split; [intros ->; by len_nil|]. split; [done|]. destruct u, u'. by split_and!.
  - intros (Hm & root & held & Hr & (fs & Hne & Hv & Hl & Hleaf & Hroot & Ha & Hf)%delegated_checks).
    assert ((len chain =? 0) = false) as ->.
    { apply Z.eqb_neq. by rewrite len_0. }
    assert ((MaxChainDepth <? len chain) = false) as -> by (apply Z.ltb_ge; lia).
    cbn [negb guard_ok mbind res_bind]. rewrite Hv. cbn [mbind res_bind]. rewrite Hl, Hleaf.
    rewrite bool_decide_eq_true_2 by done. cbn [guard_ok mbind res_bind].
    rewrite Hroot, (proj2 (root_caps_ok snap root held owner) Hr). cbn [mbind res_bind].
    rewrite Ha. cbn [mbind res_bind]. rewrite Hf. done.
Qed.
End fold.

(** ** The claims *)

(** C9: Fold computes the delegation relation.  It accepts a chain exactly
    when the chain is non-empty, at most eight hops long, and hands authority
    from a root the on-chain state recognises down to the connection key:
    every hop signed by its delegator, for this session, live now, joined to
    the next, not widening what its delegator holds, and re-delegated only
    with the forge capability; and then it returns exactly the last hop's
    capabilities and whether the root is the owner. *)
Theorem fold_computes_delegation {E : Ed25519} chain leafPub sessionID snap now caps owner :
  Fold chain leafPub sessionID snap now = Ok (caps, owner) <->
  len chain <= MaxChainDepth /\
  exists root held, root_authority snap root held owner /\
    delegated sessionID now root held chain leafPub caps.
Proof. apply Fold_iff. Qed.

Lemma Verify_caps {E : Ed25519} d f : Verify d = Ok f -> 0 <= FCaps f < 8.
Proof.
  unfold Verify, DFields, ParseContent. intros (f' & Hp & H)%bind_ok.
  assert (f' = f) as ->.
  { destruct (negb _) in H; [done|]. destruct (negb _) in H; [done|]. destruct (negb _) in H; [done|].
    by injection H. }
  clear H. unfold parse_lines in Hp.
  repeat (apply bind_ok in Hp as (? & ? & Hp)). injection Hp as <-. simpl.
  match goal with H : map_err ECaps (ParseCaps ?s) = Ok ?c |- _ =>
    destruct (ParseCaps s) as [c'|] eqn:Ep; [|done]; injection H as <- end.
  by apply ParseCaps_sound in Ep as [? _].
Qed.

Lemma delegated_attenuates {E : Ed25519} sid now root held chain leaf caps :
  0 <= held < 256 -> delegated sid now root held chain leaf caps ->
  Subset caps held = true /\ 0 <= caps < 8 /\
  (2 <= len chain -> Has held CapForge = true) /\
  forall d f, d ∈ chain -> Verify d = Ok f -> Subset caps (FCaps f) = true /\ SessionID f = sid /\
    NotBefore f <= now <= NotAfter f.
Proof.
  intros Hh Hd. induction Hd as [from held d f [Hv Hs Hl _] Hsub|from held d f chain leaf caps [Hv Hs Hl _] Hsub Hf Hd IH].
  - pose proof (Verify_caps _ _ Hv). split; [done|]. split; [done|].
    split; [change (len [d]) with 1; lia|].
    intros d' f' ->%list_elem_of_singleton Hv'. assert (f' = f) as -> by congruence.
    split; [apply Subset_refl; lia|done].
  - pose proof (Verify_caps _ _ Hv). destruct (IH ltac:(lia)) as (IH1 & IH2 & IH3 & IH4).
    split; [eapply Subset_trans; [..|exact IH1|exact Hsub]; lia|]. split; [done|]. split; [done|].
    intros d' f' [->|Hin]%elem_of_cons Hv'; [|by eauto].
    assert (f' = f) as -> by congruence. auto.
Qed.

(** A chain can only narrow.  Whatever chain Fold accepts, the
    capabilities returned are among those of every hop and among those the
    root holds on chain (everything for the owner), every hop is for this
    session and live, and a chain of two or more hops has a root with the
    forge capability. *)
Theorem fold_never_widens {E : Ed25519} chain leafPub sessionID snap now caps owner
  (Hbyte : forall w c, GrantCaps snap w = Some c -> 0 <= c < 256)
  (Hok : Fold chain leafPub sessionID snap now = Ok (caps, owner)) :
  exists root held, root_authority snap root held owner /\ Subset caps held = true /\
    (2 <= len chain -> Has held CapForge = true) /\
    forall d f, d ∈ chain -> Verify d = Ok f ->
      Subset caps (FCaps f) = true /\ SessionID f = sessionID /\ NotBefore f <= now <= NotAfter f.
Proof.
  apply Fold_iff in Hok as (_ & root & held & Hr & Hd). exists root, held. split; [done|].
  apply delegated_attenuates in Hd as (? & ? & ? & ?); [done|].
  destruct Hr as [(_ & -> & _)|(_ & Hg & _)]; [vm_compute; split; congruence|eauto].
Qed.

(** ** A two-hop chain *)

Definition hop1 : Delegation :=
  Sign (key_of x06) (mkFields (key_of x05) (key_of x06) (key_of x07) 5 t0 t1 (replicate 16 x01)).
Definition hop2 : Delegation :=
  Sign (key_of x07) (mkFields (key_of x05) (key_of x07) (key_of x08) 1 t0 t1 (replicate 16 x02)).
Definition snap1 : Snapshot := mem_snapshot (WithGrant (NewMemSnapshot (key_of x0b)) (key_of x06) 7).

Lemma snap1_bytes w c : GrantCaps snap1 w = Some c -> 0 <= c < 256.
Proof.
  simpl. unfold MemGrantCaps, WithGrant. simpl.
  intros [[_ <-]|[_ H]]%lookup_insert_Some; [lia|]. done.
Qed.

Lemma fold_never_widens_witness :
  Fold [hop1; hop2] (key_of x08) (key_of x05) snap1 (t0 + 1) = Ok (1, false) /\
  exists root held, root_authority snap1 root held false /\ Has held CapForge = true.
Proof.
  assert (Fold [hop1; hop2] (key_of x08) (key_of x05) snap1 (t0 + 1) = Ok (1, false)) as H
    by (vm_compute; reflexivity).
  split; [exact H|].
  destruct (fold_never_widens [hop1; hop2] (key_of x08) (key_of x05) snap1 (t0 + 1) 1 false
    snap1_bytes H) as (root & held & Hr & _ & Hf & _).
  exists root, held. split; [exact Hr|apply Hf; vm_compute; discriminate].
Defined.
