(* ===== verification/Cert.v ===== *)
(** * Workspace certificates (src/cert/cert.go, src/cert/master.go,
    src/cert/revocation.go)

    Claims signed by a workspace master key, their verification, and the
    revocation file.  Protocol-buffer serialisation is an interface
    ([ProtoCodec]); so are the BIP-39 and SHA-512 primitives of the master
    key's derivation ([Bip39]).  The file system appears as the content of the
    revocation file. *)

From S2P Require Import Prelude GoStrings Base58 GoTime Delegation.

(** ** Claims *)

Definition CapsBitOwner : Z := 1.
Definition CapsBitWrite : Z := 2.
Definition CapsBitResize : Z := 4.

Record Claim := mkClaim {
  AgentID : bytes;
  PeerPubKey : bytes;
  CLabel : bytes;
  CapsBits : Z;
  CNotBefore : Z;
  CNotAfter : Z;
  Serial : bytes;
  WorkspaceID : bytes;
}.

Definition HasOwner (c : Claim) : bool := negb (Z.land (CapsBits c) CapsBitOwner =? 0).
Definition HasWrite (c : Claim) : bool := negb (Z.land (CapsBits c) CapsBitWrite =? 0).
Definition HasResize (c : Claim) : bool := negb (Z.land (CapsBits c) CapsBitResize =? 0).

(** google.protobuf.Timestamp; an absent one reads as 0 seconds. *)
Record Timestamp := mkTimestamp { Seconds : Z; Nanos : Z }.

(** timestamppb.New and Timestamp.AsTime *)
Definition timestamp_new (t : Z) : Timestamp := mkTimestamp (t / Second) (t mod Second).
Definition AsTime (ts : option Timestamp) : Z :=
  match ts with Some ts => Seconds ts * Second + Nanos ts | None => 0 end.

(** api.SignedCertContent *)
Record SignedCertContent := mkContent {
  AgentId : bytes;
  PeerPubkey : bytes;
  SLabel : bytes;
  SCapsBits : Z;
  SNotBefore : option Timestamp;
  SNotAfter : option Timestamp;
  SSerial : bytes;
  WorkspaceId : bytes;
}.

Record ApiCert := mkCert { CContent : bytes; CSignature : bytes }.

(** proto.Marshal (deterministic) and proto.Unmarshal of SignedCertContent;
    marshalling fails on strings that are not valid UTF-8. *)
Class ProtoCodec := {
  marshalDeterministic : SignedCertContent -> option bytes;
  unmarshalContent : bytes -> option SignedCertContent;
}.

Class ProtoLaws (P : ProtoCodec) := {
  unmarshal_marshal c b : marshalDeterministic c = Some b -> unmarshalContent b = Some c;
}.

Inductive CertError :=
| MasterKeyLength (n : Z) | MarshalContent | NilCert | ErrInvalidSignature | UnmarshalContent
| CErrExpired | ErrWrongWorkspace | ErrRevoked | PeerKeyLength (n : Z).

Definition PrivateKeySize : Z := 64.

Record VerifyOptions := mkVerifyOptions {
  MasterPub : bytes;
  VWorkspaceID : bytes;
  Now : option Z;            (* None: the zero time, use the wall clock *)
  Revoked : gset bytes;
}.

Section cert.
Context {E : Ed25519} {P : ProtoCodec}.

Definition claim_content (c : Claim) : SignedCertContent :=
  mkContent (AgentID c) (PeerPubKey c) (CLabel c) (CapsBits c)
    (Some (timestamp_new (CNotBefore c))) (Some (timestamp_new (CNotAfter c)))
    (Serial c) (WorkspaceID c).

Definition CertSign (masterPriv : bytes) (c : Claim) : res CertError ApiCert :=
  _ ← guard_ok (len masterPriv =? PrivateKeySize) (MasterKeyLength (len masterPriv));
  match marshalDeterministic (claim_content c) with
  | None => Err MarshalContent
  | Some payload => Ok (mkCert payload (ed_sign masterPriv payload))
  end.

(** [wall] is what time.Now() returns. *)
Definition CertVerify (wall : Z) (c : option ApiCert) (opts : VerifyOptions) : res CertError Claim :=
  match c with
  | None => Err NilCert
  | Some c =>
      _ ← guard_ok (len (MasterPub opts) =? PublicKeySize) (MasterKeyLength (len (MasterPub opts)));
      _ ← guard_ok (ed_verify (MasterPub opts) (CContent c) (CSignature c)) ErrInvalidSignature;
      match unmarshalContent (CContent c) with
      | None => Err UnmarshalContent
      | Some content =>
          let now := default wall (Now opts) in
          let notBefore := AsTime (SNotBefore content) in
          let notAfter := AsTime (SNotAfter content) in
          if Before now notBefore || After now notAfter then Err CErrExpired
          else if negb (bool_decide (VWorkspaceID opts = [])) &&
                  negb (bool_decide (WorkspaceId content = VWorkspaceID opts))
          then Err ErrWrongWorkspace
          else if bool_decide (SSerial content ∈ Revoked opts) then Err ErrRevoked
          else if negb (len (PeerPubkey content) =? PublicKeySize)
          then Err (PeerKeyLength (len (PeerPubkey content)))
          else Ok (mkClaim (AgentId content) (PeerPubkey content) (SLabel content)
                     (SCapsBits content) notBefore notAfter (SSerial content) (WorkspaceId content))
      end
  end.
End cert.

(** ** The master key *)

Definition masterMnemonicEntropyBits : Z := 256.
Definition mnemonicSeedPassphrase : bytes := str "mosey-cert-v1".
Definition masterSeedInfo : bytes := str "mosey-cert-master".

Class Bip39 := {
  NewEntropy : Z -> option bytes;
  NewMnemonic : bytes -> option bytes;
  IsMnemonicValid : bytes -> bool;
  NewSeed : bytes -> bytes -> bytes;
  sha512 : bytes -> bytes;
  NewKeyFromSeed : bytes -> bytes;
}.

Inductive MasterError := EntropyFailed | MnemonicFailed | EmptyMnemonic | BadChecksum.

Section master.
Context {B : Bip39} {E : Ed25519}.

Definition masterKeyFromMnemonic (mnemonic : bytes) : bytes :=
  let seed := NewSeed mnemonic mnemonicSeedPassphrase in
  let sum := sha512 (seed ++ masterSeedInfo) in
  NewKeyFromSeed (slice_to sum 32).

Definition NewMasterMnemonic : res MasterError (bytes * bytes) :=
  match NewEntropy masterMnemonicEntropyBits with
  | None => Err EntropyFailed
  | Some entropy =>
      match NewMnemonic entropy with
      | None => Err MnemonicFailed
      | Some mnemonic => Ok (mnemonic, masterKeyFromMnemonic mnemonic)
      end
  end.

Definition MasterFromMnemonic (mnemonic : bytes) : res MasterError bytes :=
  _ ← guard_ok (negb (bool_decide (mnemonic = []))) EmptyMnemonic;
  _ ← guard_ok (IsMnemonicValid mnemonic) BadChecksum;
  Ok (masterKeyFromMnemonic mnemonic).

Definition MasterPublicKey (priv : bytes) : bytes := ed_public priv.
End master.

(** ** The revocation file *)

Inductive RevocationError :=
| ReadRevocation | OpenRevocation | EmptySerial | ForbiddenCharacter (serial : bytes).

(** bufio.MaxScanTokenSize: the scanner gives up on a line that does not fit
    its buffer. *)
Definition MaxScanTokenSize : Z := 64 * 1024.

(** bufio.ScanLines drops one trailing carriage return. *)
Definition drop_cr (l : bytes) : bytes :=
  if HasSuffix l [x0d] then take (length l - 1) l else l.

(** The lines a Scanner yields: the pieces between newlines, without an empty
    last piece. *)
Definition scan_lines (content : bytes) : list bytes :=
  let ls := Split content [LF] in
  drop_cr <$> (if bool_decide (List.last ls [] = []) then removelast ls else ls).

Definition line_fits (content : bytes) : bool :=
  forallb (fun l => len l <? MaxScanTokenSize) (Split content [LF]).

Definition revocation_entry (line : bytes) : option bytes :=
  let line := TrimSpace line in
  if bool_decide (line = []) || HasPrefix line [x23] then None else Some line.

Definition parseRevocationReader (content : bytes) : res RevocationError (gset bytes) :=
  if line_fits content then
    Ok (foldl (fun out line => match revocation_entry line with
                               | Some s => {[s]} ∪ out
                               | None => out
                               end) ∅ (scan_lines content))
  else Err ReadRevocation.

(** The file: absent, unreadable, or its content. *)
Inductive file := Missing | Unreadable | File (content : bytes).

Definition LoadRevocationFile (f : file) : res RevocationError (gset bytes) :=
  match f with
  | Missing => Ok ∅
  | Unreadable => Err OpenRevocation
  | File content => parseRevocationReader content
  end.

Definition AppendRevocation (f : file) (serial : bytes) : res RevocationError file :=
  if bool_decide (serial = []) then Err EmptySerial
  else if bool_decide (LF ∈ serial) || bool_decide (x23 ∈ serial) then Err (ForbiddenCharacter serial)
  else match f with
       | Unreadable => Err OpenRevocation
       | Missing => Ok (File (serial ++ [LF]))
       | File content => Ok (File (content ++ serial ++ [LF]))
       end.

(** ** Lemmas *)

Lemma as_time_new t : AsTime (Some (timestamp_new t)) = t.
Proof. simpl. pose proof (Z.div_mod t Second ltac:(done)). lia. Qed.

Definition claim_of (content : SignedCertContent) : Claim :=
  mkClaim (AgentId content) (PeerPubkey content) (SLabel content) (SCapsBits content)
    (AsTime (SNotBefore content)) (AsTime (SNotAfter content)) (SSerial content) (WorkspaceId content).

Lemma claim_of_content c : claim_of (claim_content c) = c.
Proof. destruct c. unfold claim_of, claim_content. f_equal; apply as_time_new. Qed.

(** What a verified claim satisfies. *)
Record claim_valid (wall : Z) (opts : VerifyOptions) (c : Claim) : Prop := mk_valid {
  cl_window : CNotBefore c <= default wall (Now opts) <= CNotAfter c;
  cl_workspace : VWorkspaceID opts = [] \/ WorkspaceID c = VWorkspaceID opts;
  cl_live : Serial c ∉ Revoked opts;
  cl_key : len (PeerPubKey c) = PublicKeySize;
}.

Lemma CertVerify_iff {E : Ed25519} {P : ProtoCodec} wall c opts claim :
  CertVerify wall (Some c) opts = Ok claim <->
  len (MasterPub opts) = PublicKeySize /\
  ed_verify (MasterPub opts) (CContent c) (CSignature c) = true /\
  exists content, unmarshalContent (CContent c) = Some content /\ claim = claim_of content /\
    claim_valid wall opts claim.
Proof.
  unfold CertVerify, Before, After. split.
  - intros (? & Hk%guard_ok_ok & (? & Hs%guard_ok_ok & H)%bind_ok)%bind_ok. go_bool.
    split; [done|]. split; [done|].
    destruct (unmarshalContent (CContent c)) as [content|]; [|done]. exists content. split; [done|].
    destruct (_ || _) eqn:Ew in H; [done|]. destruct (_ && _) eqn:Ews in H; [done|].
    case_bool_decide as Er; [done|]. destruct (len (PeerPubkey content) =? PublicKeySize) eqn:El; [|done].
    injection H as <-. go_bool. split; [done|]. constructor; simpl; try done.
    apply andb_false_iff in Ews as [Ews|Ews]; go_bool; auto.
  - intros (Hk & Hs & content & Hu & -> & [Hw Hws Hr Hl]). simpl in *.
    rewrite Hs, Hu. assert ((len (MasterPub opts) =? PublicKeySize) = true) as -> by lia. simpl.
    set (now := default wall (Now opts)) in *.
    assert ((now <? AsTime (SNotBefore content)) || (AsTime (SNotAfter content) <? now) = false) as -> by lia.
    assert (negb (bool_decide (VWorkspaceID opts = [])) &&
      negb (bool_decide (WorkspaceId content = VWorkspaceID opts)) = false) as ->.
    { destruct Hws as [E0|E0].
      - by rewrite (bool_decide_eq_true_2 _ E0).
      - rewrite (bool_decide_eq_true_2 _ E0). apply andb_false_r. }
    rewrite bool_decide_eq_false_2 by done.
    assert ((len (PeerPubkey content) =? PublicKeySize) = true) as -> by lia. done.
Qed.

(** ** The revocation file *)

Lemma foldl_entries (ls : list bytes) (out : gset bytes) :
  foldl (fun out line => match revocation_entry line with Some s => {[s]} ∪ out | None => out end)
    out ls = list_to_set (omap revocation_entry ls) ∪ out.
Proof.
  revert out. induction ls as [|l ls IH]; intros out; simpl; [set_solver|].
  rewrite IH. destruct (revocation_entry l); simpl; set_solver.
Qed.

(** A file that is empty or ends in a newline, as AppendRevocation leaves it. *)
Definition whole_lines (f : file) : Prop :=
  match f with
  | File content => content = [] \/ exists c, content = c ++ [LF]
  | _ => True
  end.

Lemma scan_lines_whole c : scan_lines (c ++ [LF]) = drop_cr <$> Split c [LF].
Proof.
  unfold scan_lines. rewrite Split_app. change (Split [] [LF]) with [@nil byte].
  rewrite last_last, bool_decide_eq_true_2 by done. by rewrite removelast_last.
Qed.

Lemma scan_lines_append c serial :
  c = [] \/ (exists c', c = c' ++ [LF]) -> LF ∉ serial ->
  scan_lines (c ++ serial ++ [LF]) = scan_lines c ++ [drop_cr serial].
Proof.
  intros [->|[c' ->]] Hs.
  - rewrite app_nil_l, scan_lines_whole, Split_piece by done. done.
  - rewrite scan_lines_whole, <- app_assoc. cbn [app].
    replace (c' ++ LF :: serial ++ [LF]) with ((c' ++ LF :: serial) ++ [LF])
      by (by rewrite <- app_assoc).
    rewrite scan_lines_whole, Split_app, (Split_piece LF serial) by done. by rewrite fmap_app.
Qed.

Lemma line_fits_append c serial :
  c = [] \/ (exists c', c = c' ++ [LF]) -> LF ∉ serial -> line_fits c = true ->
  len serial < MaxScanTokenSize -> line_fits (c ++ serial ++ [LF]) = true.
Proof.
  unfold line_fits. intros Hc Hs Hf Hl.
  assert (forallb (fun l => len l <? MaxScanTokenSize) [serial; []] = true) as Ht.
  { simpl. rewrite andb_true_r. lia. }
  destruct Hc as [->|[c' ->]].
  - rewrite app_nil_l, Split_app, (Split_piece LF serial) by done. exact Ht.
  - rewrite Split_app in Hf. rewrite forallb_app in Hf. apply andb_true_iff in Hf as [Hf _].
    rewrite <- app_assoc. cbn [app]. rewrite Split_app, Split_app, (Split_piece LF serial) by done.
    rewrite forallb_app, Hf. exact Ht.
Qed.

Lemma drop_cr_clean s : TrimSpace s = s -> drop_cr s = s.
Proof.
  intros Ht. unfold drop_cr. destruct (HasSuffix s [x0d]) eqn:E; [|done].
  apply (TrimSpace_fixed_suffix s [x0d]) in E as ->; [done|done|]. simpl. auto 10.
Qed.

(** C22: verification of a certificate is exact: it succeeds precisely when the
    master key's signature over the content is good, the content decodes, the
    time is within the validity window, the workspace is the expected one (if
    one is expected), the serial is not revoked and the peer key has the right
    length; and it returns the claim in the signed content, nothing else. *)
Theorem cert_verify_exact {E : Ed25519} {P : ProtoCodec} wall c opts claim :
  CertVerify wall (Some c) opts = Ok claim <->
  len (MasterPub opts) = PublicKeySize /\
  ed_verify (MasterPub opts) (CContent c) (CSignature c) = true /\
  exists content, unmarshalContent (CContent c) = Some content /\ claim = claim_of content /\
    CNotBefore claim <= default wall (Now opts) <= CNotAfter claim /\
    (VWorkspaceID opts = [] \/ WorkspaceID claim = VWorkspaceID opts) /\
    (Serial claim ∉ Revoked opts) /\ len (PeerPubKey claim) = PublicKeySize.
Proof.
  rewrite CertVerify_iff. split.
  - intros (H1 & H2 & content & H3 & H4 & [? ? ? ?]). do 2 (split; [done|]). by exists content.
  - intros (H1 & H2 & content & H3 & H4 & ? & ? & ? & ?). do 2 (split; [done|]). exists content.
    do 2 (split; [done|]). by constructor.
Qed.

(** A certificate the master signs verifies to the claim that was signed,
    within its window, in its workspace and while its serial is not revoked. *)
Lemma signed_cert_verifies {E : Ed25519} {EL : Ed25519Laws E} {P : ProtoCodec} {PL : ProtoLaws P}
  priv claim cert wall opts
  (Hsign : CertSign priv claim = Ok cert) (Hmaster : MasterPub opts = ed_public priv)
  (Hvalid : claim_valid wall opts claim) :
  CertVerify wall (Some cert) opts = Ok claim.
Proof.
  unfold CertSign in Hsign. apply bind_ok in Hsign as (? & _ & H).
  destruct (marshalDeterministic _) as [payload|] eqn:Em; [|done]. injection H as <-.
  apply CertVerify_iff. rewrite Hmaster. simpl. split; [apply ed_public_size|].
  split; [apply ed_verify_sign|]. exists (claim_content claim).
  split; [by apply unmarshal_marshal|]. by rewrite claim_of_content.
Qed.

(** Revoking is effective and only adds: appending a serial to a readable
    revocation file (empty, missing, or ending in a newline) and loading it
    yields the serials revoked before and the new one, for every serial that
    AppendRevocation accepts and that carries no surrounding white space. *)
Theorem revocation_append_load f serial f' old
  (Hload : LoadRevocationFile f = Ok old) (Hlines : whole_lines f)
  (Happend : AppendRevocation f serial = Ok f')
  (Hclean : TrimSpace serial = serial) (Hlen : len serial < MaxScanTokenSize) :
  LoadRevocationFile f' = Ok ({[serial]} ∪ old) /\ whole_lines f'.
Proof.
  unfold AppendRevocation in Happend. case_bool_decide as Hne; [done|].
  destruct (bool_decide (LF ∈ serial) || bool_decide (x23 ∈ serial)) eqn:Ec; [done|]. go_bool.
  assert (revocation_entry (drop_cr serial) = Some serial) as He.
  { rewrite drop_cr_clean by done. unfold revocation_entry. rewrite Hclean.
    rewrite bool_decide_eq_false_2 by done. simpl.
    destruct serial as [|b s]; [done|]. rewrite HasPrefix_single, bool_decide_eq_false_2; [done|].
    set_solver. }
  assert (exists c, (c = [] \/ exists c', c = c' ++ [LF]) /\ f' = File (c ++ serial ++ [LF]) /\
    parseRevocationReader c = Ok old) as (c & Hc & -> & Hp).
  { destruct f as [| |c]; simplify_eq/=.
    - exists []. split; [by left|]. done.
    - exists c. done. }
  split.
  - simpl. unfold parseRevocationReader in *. destruct (line_fits c) eqn:Ef; [|done].
    rewrite line_fits_append by done. rewrite foldl_entries in *. injection Hp as <-. f_equal.
    rewrite scan_lines_append, omap_app by done. simpl. rewrite He, list_to_set_app_L. set_solver.
  - right. exists (c ++ serial). by rewrite app_assoc.
Qed.

(** ** Witnesses *)

#[global] Instance Timestamp_eq_dec : EqDecision Timestamp.
Proof. solve_decision. Defined.

#[global] Instance SignedCertContent_eq_dec : EqDecision SignedCertContent.
Proof. solve_decision. Defined.

Definition sample_claim : Claim :=
  mkClaim (str "agent") (key_of x07) (str "laptop") 3 t0 t1 (str "s1") (str "ws").

(** A codec that knows one message. *)
#[global] Instance sample_codec : ProtoCodec := {|
  marshalDeterministic c :=
    if bool_decide (c = claim_content sample_claim) then Some (str "content") else None;
  unmarshalContent b := if bool_decide (b = str "content") then Some (claim_content sample_claim) else None;
|}.

#[global] Instance sample_codec_laws : ProtoLaws sample_codec.
Proof. constructor. intros c b. simpl. repeat case_bool_decide; naive_solver. Qed.

Definition sample_opts : VerifyOptions := mkVerifyOptions (key_of x06) (str "ws") (Some (t0 + 5)) ∅.

Lemma sample_valid : claim_valid 0 sample_opts sample_claim.
Proof.
  constructor; simpl; [vm_compute; split; congruence|by right|set_solver|reflexivity].
Qed.

Definition revoked_file : file := File (str "s0" ++ [LF]).

Lemma revocation_append_load_witness :
  AppendRevocation revoked_file (str "s1") = Ok (File (str "s0" ++ [LF] ++ str "s1" ++ [LF])) /\
  exists old, LoadRevocationFile revoked_file = Ok old /\
    LoadRevocationFile (File (str "s0" ++ [LF] ++ str "s1" ++ [LF])) = Ok ({[str "s1"]} ∪ old).
Proof.
  assert (AppendRevocation revoked_file (str "s1") =
    Ok (File (str "s0" ++ [LF] ++ str "s1" ++ [LF]))) as Ha by reflexivity.
  split; [exact Ha|]. eexists. split; [reflexivity|].
  apply (revocation_append_load revoked_file (str "s1") _ _ eq_refl).
  - right. exists (str "s0"). reflexivity.
  - exact Ha.
  - vm_compute. reflexivity.
  - vm_compute. reflexivity.
Defined.

(** Why whole lines are asked for: appended to a file whose last line is not
    ended, the new serial is glued to that line, and neither of the two is
    revoked. *)
Theorem revocation_glues_lines :
  AppendRevocation (File (str "s0")) (str "s1") = Ok (File (str "s0s1" ++ [LF])) /\
  match LoadRevocationFile (File (str "s0s1" ++ [LF])) with
  | Ok r => str "s0s1" ∈ r /\ (str "s0" ∉ r) /\ (str "s1" ∉ r)
  | Err _ => False
  end.
Proof.
  split; [reflexivity|]. split_and!; apply (bool_decide_eq_true_1 _); vm_compute; reflexivity.
Qed.

Lemma signed_cert_verifies_witness :
  exists cert, CertSign (key_of x06 ++ key_of x06) sample_claim = Ok cert /\
    CertVerify 0 (Some cert) sample_opts = Ok sample_claim.
Proof.
  destruct (CertSign (key_of x06 ++ key_of x06) sample_claim) as [cert|] eqn:E;
    [|not_err E].
  exists cert. split; [reflexivity|].
  exact (signed_cert_verifies (key_of x06 ++ key_of x06) sample_claim cert 0 sample_opts E
    eq_refl sample_valid).
Defined.
