(* ===== verification/Handshake.v ===== *)
(** * Handshakes as interactive programs

    An authenticator's two sides read and write length-delimited messages on
    one stream.  A side is a program that sends, receives and returns; [run]
    plays it against whatever a peer does, [duet] connects two of them over a
    reliable, ordered stream.  Sending reports whether the write succeeded,
    receiving yields a decoded message or the read / decode error. *)

From S2P Require Import Prelude.

Inductive prog (M A : Type) : Type :=
| Ret (a : A)
| Send (m : M) (k : bool -> prog M A)
| Recv (k : option M -> prog M A).
Arguments Ret {M A} a.
Arguments Send {M A} m k.
Arguments Recv {M A} k.

(** What a peer does, in the order the program asks: the outcome of a write,
    the outcome of a read.  A peer that has nothing left behaves as a closed
    stream. *)
Inductive peer_act (M : Type) := PWrite (ok : bool) | PRead (m : option M).
Arguments PWrite {M} ok.
Arguments PRead {M} m.

(** [run p acts] is the program's result and the messages it sent. *)
Fixpoint run {M A} (p : prog M A) (acts : list (peer_act M)) : A * list M :=
  match p with
  | Ret a => (a, [])
  | Send m k =>
      match acts with
      | PWrite ok :: acts => let '(a, out) := run (k ok) acts in (a, m :: out)
      | _ => let '(a, out) := run (k false) [] in (a, m :: out)
      end
  | Recv k =>
      match acts with
      | PRead x :: acts => run (k x) acts
      | _ => run (k None) []
      end
  end.

(** Post-process a program's result. *)
Fixpoint pmap {M A B} (f : A -> B) (p : prog M A) : prog M B :=
  match p with
  | Ret a => Ret (f a)
  | Send m k => Send m (fun ok => pmap f (k ok))
  | Recv k => Recv (fun x => pmap f (k x))
  end.

Lemma run_pmap {M A B} (f : A -> B) (p : prog M A) acts :
  fst (run (pmap f p) acts) = f (fst (run p acts)).
Proof.
  revert acts. induction p as [a|m k IH|k IH]; intros acts; cbn [pmap run]; [done| |].
  - destruct acts as [|[ok|x] acts]; [pose proof (IH false []) as E|pose proof (IH ok acts) as E|pose proof (IH false []) as E];
      repeat destruct (run _ _); done.
  - destruct acts as [|[ok|x] acts]; apply IH.
Qed.

(** Two programs, with the messages in flight towards each.  One step runs
    the left program if it can move, else the right one; [None] means both
    wait. *)
Record pair_state (M A B : Type) := mkPair {
  left : prog M A; right : prog M B; to_left : list M; to_right : list M
}.
Arguments mkPair {M A B} _ _ _ _.
Arguments left {M A B} _.
Arguments right {M A B} _.
Arguments to_left {M A B} _.
Arguments to_right {M A B} _.

Definition step_left {M A B} (s : pair_state M A B) : option (pair_state M A B) :=
  match left s, to_left s with
  | Send m k, _ => Some (mkPair (k true) (right s) (to_left s) (to_right s ++ [m]))
  | Recv k, m :: q => Some (mkPair (k (Some m)) (right s) q (to_right s))
  | _, _ => None
  end.

Definition step_right {M A B} (s : pair_state M A B) : option (pair_state M A B) :=
  match right s, to_right s with
  | Send m k, _ => Some (mkPair (left s) (k true) (to_left s ++ [m]) (to_right s))
  | Recv k, m :: q => Some (mkPair (left s) (k (Some m)) (to_left s) q)
  | _, _ => None
  end.

Fixpoint duet_loop {M A B} (fuel : nat) (s : pair_state M A B) : option (A * B) :=
  match left s, right s with
  | Ret a, Ret b => Some (a, b)
  | _, _ =>
      match fuel with
      | O => None
      | S fuel =>
          match step_left s with
          | Some s => duet_loop fuel s
          | None => match step_right s with Some s => duet_loop fuel s | None => None end
          end
      end
  end.

(** A handshake exchanges at most four messages, sixteen steps are enough. *)
Definition duet {M A B} (p : prog M A) (q : prog M B) : option (A * B) :=
  duet_loop 16 (mkPair p q [] []).

(** ** Stepping a duet *)

Lemma duet_left {M A B} f (s s' : pair_state M A B) r :
  step_left s = Some s' -> duet_loop f s' = r -> duet_loop (S f) s = r.
Proof.
  intros Hs <-. cbn [duet_loop]. rewrite Hs. unfold step_left in Hs. by destruct (left s).
Qed.

Lemma duet_right {M A B} f (s s' : pair_state M A B) r :
  step_left s = None -> step_right s = Some s' -> duet_loop f s' = r -> duet_loop (S f) s = r.
Proof.
  intros Hl Hs <-. cbn [duet_loop]. rewrite Hl, Hs. unfold step_right in Hs.
  destruct (left s), (right s); done.
Qed.

Lemma duet_done {M A B} f (a : A) (b : B) (q1 q2 : list M) :
  duet_loop f (mkPair (Ret a) (Ret b) q1 q2) = Some (a, b).
Proof. by destruct f. Qed.

(** Run the side that can move. *)
Ltac duet_go :=
  first [ eapply duet_left; [reflexivity|]
        | eapply duet_right; [reflexivity|reflexivity|] ];
  cbn [negb app left right to_left to_right].
