(* ===== verification/AuthPSK.v ===== *)
(** * The pre-shared-key authenticator (src/auth/psk.go)

    HMAC challenge-response over one or more named secrets.  HKDF-SHA256 and
    HMAC-SHA256 are an interface, [MacPrims].  Shown: exactly which peers the
    server (and the client) accepts, that holders of the same secret always
    authenticate each other, and that no proof is valid in the other direction
    unless HMAC collides. *)

From S2P Require Import Prelude Identity Handshake.

Definition pskInfo : bytes := str "mosey.v1.psk".
Definition macLabelServer : bytes := str "mosey-auth-v1:S".
Definition macLabelClient : bytes := str "mosey-auth-v1:C".
Definition LabelOwner : bytes := str "owner".
Definition LabelReader : bytes := str "reader".
Definition pskNonceSize : Z := 32.

Record NamedSecret := mkSecret { NSLabel : bytes; NSSecret : bytes; NSCaps : Capabilities }.

Record entry := mkEntry { e_label : bytes; e_key : bytes; e_identity : Identity }.

Record PSKAuth := mkPSK { byLabel : gmap bytes entry; order : list bytes }.

(** api.AuthMessage; [AuthUnset] is an empty or unknown oneof. *)
Inductive AuthMessage :=
| ClientHello (nonce label : bytes)
| ServerProof (nonce mac : bytes)
| ClientProof (mac : bytes)
| AuthUnset.

Inductive PSKError :=
| NoEntries | EmptyLabel | EmptySecret (label : bytes) | DuplicateLabel (label : bytes)
| DeriveFailed | NonceFailed | SendFailed | ReadFailed | Unauthorized.

Class MacPrims := {
  hkdf_sha256 : bytes -> bytes -> option bytes;  (* secret, info: 32 bytes *)
  hmac_sha256 : bytes -> bytes -> bytes;         (* key, message *)
}.

Section psk.
Context {H : MacPrims}.

Definition derivePSKKey (secret : bytes) : res PSKError bytes :=
  match hkdf_sha256 secret pskInfo with Some k => Ok k | None => Err DeriveFailed end.

Definition mac (key label nonceA nonceB : bytes) : bytes :=
  hmac_sha256 key (label ++ nonceA ++ nonceB).

Fixpoint add_entries (out : PSKAuth) (entries : list NamedSecret) : res PSKError PSKAuth :=
  match entries with
  | [] => Ok out
  | ns :: entries =>
      if bool_decide (NSLabel ns = []) then Err EmptyLabel
      else if bool_decide (NSSecret ns = []) then Err (EmptySecret (NSLabel ns))
      else match byLabel out !! NSLabel ns with
           | Some _ => Err (DuplicateLabel (NSLabel ns))
           | None =>
               key ← derivePSKKey (NSSecret ns);
               add_entries
                 (mkPSK (<[NSLabel ns := mkEntry (NSLabel ns) key
                            (mkIdentity (NSLabel ns) (NSCaps ns))]> (byLabel out))
                        (order out ++ [NSLabel ns])) entries
           end
  end.

Definition NewMultiPSKAuth (entries : list NamedSecret) : res PSKError PSKAuth :=
  if len entries =? 0 then Err NoEntries else add_entries (mkPSK ∅ []) entries.

Definition NewPSKAuth (secret : bytes) : res PSKError PSKAuth :=
  NewMultiPSKAuth [mkSecret LabelOwner secret (mkCaps true true true)].

Definition no_entry : entry := mkEntry [] [] zeroIdentity.

(** [nonce]: what randomNonce returns. *)
Definition ClientHandshake (a : PSKAuth) (nonce : option bytes)
    : prog AuthMessage (res PSKError Identity) :=
  match order a with
  | [] => Ret (Err NoEntries)
  | first :: _ =>
      let clientEntry := default no_entry (byLabel a !! first) in
      match nonce with
      | None => Ret (Err NonceFailed)
      | Some nonceC =>
          Send (ClientHello nonceC (e_label clientEntry)) (fun ok =>
            if negb ok then Ret (Err SendFailed)
            else Recv (fun resp =>
              match resp with
              | None => Ret (Err ReadFailed)
              | Some (ServerProof nonceS smac) =>
                  if negb (len nonceS =? pskNonceSize) then Ret (Err Unauthorized)
                  else if negb (bool_decide (smac = mac (e_key clientEntry) macLabelServer nonceC nonceS))
                  then Ret (Err Unauthorized)
                  else
                    let clientMac := mac (e_key clientEntry) macLabelClient nonceS nonceC in
                    Send (ClientProof clientMac) (fun ok =>
                      if negb ok then Ret (Err SendFailed) else Ret (Ok (e_identity clientEntry)))
              | Some _ => Ret (Err Unauthorized)
              end))
      end
  end.

Definition ServerHandshake (a : PSKAuth) (nonce : option bytes)
    : prog AuthMessage (res PSKError Identity) :=
  Recv (fun hello =>
    match hello with
    | None => Ret (Err ReadFailed)
    | Some (ClientHello nonceC label) =>
        if negb (len nonceC =? pskNonceSize) then Ret (Err Unauthorized)
        else
          let label := if bool_decide (label = []) then LabelOwner else label in
          match byLabel a !! label with
          | None => Ret (Err Unauthorized)
          | Some srvEntry =>
              match nonce with
              | None => Ret (Err NonceFailed)
              | Some nonceS =>
                  let serverMac := mac (e_key srvEntry) macLabelServer nonceC nonceS in
                  Send (ServerProof nonceS serverMac) (fun ok =>
                    if negb ok then Ret (Err SendFailed)
                    else Recv (fun finish =>
                      match finish with
                      | None => Ret (Err ReadFailed)
                      | Some (ClientProof cmac) =>
                          if negb (bool_decide (cmac = mac (e_key srvEntry) macLabelClient nonceS nonceC))
                          then Ret (Err Unauthorized)
                          else Ret (Ok (e_identity srvEntry))
                      | Some _ => Ret (Err Unauthorized)
                      end))
              end
          end
    | Some _ => Ret (Err Unauthorized)
    end).

(** ** The registry of secrets *)

(** What NewMultiPSKAuth builds: one entry per registered label. *)
Record psk_wf (a : PSKAuth) (entries : list NamedSecret) : Prop := mk_psk_wf {
  pw_order : order a = NSLabel <$> entries;
  pw_entry : forall ns, ns ∈ entries -> exists key,
    derivePSKKey (NSSecret ns) = Ok key /\
    byLabel a !! NSLabel ns = Some (mkEntry (NSLabel ns) key (mkIdentity (NSLabel ns) (NSCaps ns)));
  pw_label : forall l e, byLabel a !! l = Some e -> e_label e = l /\ l <> [] /\
    Label (e_identity e) = l /\ exists ns, ns ∈ entries /\ NSLabel ns = l /\
      NSCaps ns = Caps (e_identity e) /\ derivePSKKey (NSSecret ns) = Ok (e_key e) /\ NSSecret ns <> [];
}.

Lemma add_entries_wf done out entries a :
  psk_wf out done -> add_entries out entries = Ok a -> psk_wf a (done ++ entries).
Proof.
  revert done out. induction entries as [|ns entries IH]; intros done out Hwf Hadd; simpl in Hadd.
  { simplify_eq. by rewrite app_nil_r. }
  case_bool_decide as Hl; [done|]. case_bool_decide as Hs; [done|].
  destruct (byLabel out !! NSLabel ns) eqn:Hd; [done|].
  apply bind_ok in Hadd as (key & Hk & Hadd). apply IH with (done := done ++ [ns]) in Hadd.
  { by rewrite <- app_assoc in Hadd. }
  destruct Hwf as [Ho He Hlab]. constructor; simpl.
  - rewrite Ho. by rewrite fmap_app.
  - intros ns' [Hin| ->%list_elem_of_singleton]%elem_of_app.
    + destruct (He ns' Hin) as (key' & Hk' & Hb). exists key'. split; [done|].
      rewrite lookup_insert_ne; [done|]. congruence.
    + exists key. by rewrite lookup_insert_eq.
  - intros l e [[<- <-]|[Hne Hb]]%lookup_insert_Some; simpl.
    + split_and!; try done. exists ns. split_and!; try done. set_solver.
    + destruct (Hlab l e Hb) as (? & ? & ? & ns' & Hin & ?). split_and!; try done.
      exists ns'. split; [set_solver|done].
Qed.

Lemma NewMultiPSKAuth_wf entries a : NewMultiPSKAuth entries = Ok a -> psk_wf a entries.
Proof.
  unfold NewMultiPSKAuth. destruct (_ =? _); [done|].
  apply (add_entries_wf [] (mkPSK ∅ []) entries). constructor; simpl.
  - done.
  - intros ns Hin. set_solver.
  - intros l e He. done.
Qed.

(** ** What the server accepts *)

(** The peer's moves in an accepted run: a hello, a delivered challenge, a
    proof under the named entry's key over both nonces. *)
Lemma server_accepts_inv a nonceS acts i :
  fst (run (ServerHandshake a (Some nonceS)) acts) = Ok i ->
  exists nonceC label cmac e rest,
    acts = PRead (Some (ClientHello nonceC label)) :: PWrite true ::
           PRead (Some (ClientProof cmac)) :: rest /\
    len nonceC = pskNonceSize /\
    byLabel a !! (if bool_decide (label = []) then LabelOwner else label) = Some e /\
    cmac = mac (e_key e) macLabelClient nonceS nonceC /\ i = e_identity e.
Proof.
  unfold ServerHandshake. cbn [run]. destruct acts as [|[ok|[m|]] acts]; try done.
  destruct m as [nonceC label| | |]; try done. cbn zeta.
  destruct (len nonceC =? pskNonceSize) eqn:El; [|done]. cbn [negb].
  destruct (byLabel a !! _) as [e|] eqn:Ee; [|done]. cbn [run].
  destruct acts as [|[[]|m] acts]; cbn [negb run fst]; try done.
  destruct acts as [|[ok|[m|]] acts]; cbn [negb run fst]; try done.
  destruct m as [| |cmac|]; cbn [negb run fst]; try done.
  destruct (bool_decide (cmac = _)) eqn:Hm; cbn [negb run fst]; [|done]. intros [= <-].
  exists nonceC, label, cmac, e, acts. go_bool. by split_and!.
Qed.

Lemma server_accepts_run a nonceS nonceC label e rest :
  len nonceC = pskNonceSize ->
  byLabel a !! (if bool_decide (label = []) then LabelOwner else label) = Some e ->
  run (ServerHandshake a (Some nonceS))
    (PRead (Some (ClientHello nonceC label)) :: PWrite true ::
     PRead (Some (ClientProof (mac (e_key e) macLabelClient nonceS nonceC))) :: rest) =
  (Ok (e_identity e), [ServerProof nonceS (mac (e_key e) macLabelServer nonceC nonceS)]).
Proof.
  intros Hl He. unfold ServerHandshake. cbn [run]. rewrite Hl. cbn [Z.eqb negb].
  change (pskNonceSize =? pskNonceSize) with true. cbn [negb]. rewrite He. cbn [run negb].
  rewrite bool_decide_eq_true_2 by done. done.
Qed.

(** Which bytes are authenticated: the direction label and both nonces. *)
Lemma mac_input_inj l1 a1 b1 l2 a2 b2 :
  length l1 = length l2 -> length a1 = length a2 ->
  (l1 ++ a1 ++ b1 = l2 ++ a2 ++ b2 :> bytes) -> l1 = l2 /\ a1 = a2 /\ b1 = b2.
Proof.
  intros Hl Ha E. apply app_inj_1 in E as [-> E]; [|done]. by apply app_inj_1 in E as [-> ->].
Qed.
End psk.

(** A keyed hash that collides on no two messages under one key. *)
Definition mac_injective (H : MacPrims) : Prop :=
  forall key m1 m2, hmac_sha256 key m1 = hmac_sha256 key m2 -> m1 = m2.

(** ** Concrete primitives for the witnesses *)

#[global] Instance toy_mac : MacPrims := {|
  hkdf_sha256 secret info := Some (secret ++ info);
  hmac_sha256 key m := key ++ [x00] ++ m;
|}.

Lemma toy_mac_injective : mac_injective toy_mac.
Proof. intros key m1 m2 E. simpl in E. by apply app_inv_head in E as [= ->]. Qed.

Definition nonce_of (b : byte) : bytes := replicate 32 b.

Definition team : list NamedSecret :=
  [mkSecret LabelOwner (str "hunter2") (mkCaps true true true);
   mkSecret LabelReader (str "peek") zeroCaps].

(** ** The claims *)

(** C24: the server admits exactly the peers that prove knowledge of a
    registered secret.  Whatever a peer sends, the handshake returns an
    identity if and only if the peer sent a hello with a 32-byte nonce naming
    a registered label (empty means owner), the challenge was delivered, and
    the peer answered with the MAC of both nonces, in the client direction,
    under that label's derived key; and the identity is that label's, with the
    capabilities it was registered with. *)
Theorem psk_server_accepts_iff {H : MacPrims} entries a nonceS acts i
  (Hnew : NewMultiPSKAuth entries = Ok a) :
  fst (run (ServerHandshake a (Some nonceS)) acts) = Ok i <->
  exists nonceC label ns key rest,
    acts = PRead (Some (ClientHello nonceC label)) :: PWrite true ::
           PRead (Some (ClientProof (mac key macLabelClient nonceS nonceC))) :: rest /\
    len nonceC = pskNonceSize /\ ns ∈ entries /\
    NSLabel ns = (if bool_decide (label = []) then LabelOwner else label) /\
    derivePSKKey (NSSecret ns) = Ok key /\ i = mkIdentity (NSLabel ns) (NSCaps ns).
Proof.
  apply NewMultiPSKAuth_wf in Hnew as [Ho He Hlab]. split.
  - intros (nonceC & label & cmac & e & rest & -> & Hl & Hb & -> & ->)%server_accepts_inv.
    destruct (Hlab _ _ Hb) as (_ & _ & Hil & ns & Hin & Hnl & Hc & Hk & _).
    exists nonceC, label, ns, (e_key e), rest. split_and!; try done.
    destruct (e_identity e). simpl in *. congruence.
  - intros (nonceC & label & ns & key & rest & -> & Hl & Hin & Hnl & Hk & ->).
    destruct (He ns Hin) as (key' & Hk' & Hb). assert (key' = key) as -> by congruence.
    rewrite Hnl in Hb.
    pose proof (server_accepts_run a nonceS nonceC label _ rest Hl Hb) as Hr. cbn [e_key] in Hr.
    rewrite Hr. simpl. by rewrite Hnl.
Qed.

Lemma psk_server_accepts_iff_witness :
  exists a, NewMultiPSKAuth team = Ok a /\
    fst (run (ServerHandshake a (Some (nonce_of x02)))
      [PRead (Some (ClientHello (nonce_of x01) LabelReader)); PWrite true;
       PRead (Some (ClientProof (mac (str "peek" ++ pskInfo) macLabelClient (nonce_of x02) (nonce_of x01))))])
    = Ok (mkIdentity LabelReader zeroCaps).
Proof.
  destruct (NewMultiPSKAuth team) as [a|] eqn:E; [|not_err E].
  exists a. split; [reflexivity|].
  apply (psk_server_accepts_iff team a (nonce_of x02) _ _ E).
  exists (nonce_of x01), LabelReader, (mkSecret LabelReader (str "peek") zeroCaps),
    (str "peek" ++ pskInfo), [].
  split; [reflexivity|]. split; [reflexivity|]. split; [right; left|].
  split; [reflexivity|]. split; reflexivity.
Defined.

Lemma psk_duet {H : MacPrims} entries a c ns caps nonceC nonceS
  (Hserver : NewMultiPSKAuth entries = Ok a) (Hin : ns ∈ entries)
  (Hclient : NewMultiPSKAuth [mkSecret (NSLabel ns) (NSSecret ns) caps] = Ok c)
  (HnC : len nonceC = pskNonceSize) (HnS : len nonceS = pskNonceSize) :
  duet (ClientHandshake c (Some nonceC)) (ServerHandshake a (Some nonceS)) =
    Some (Ok (mkIdentity (NSLabel ns) caps), Ok (mkIdentity (NSLabel ns) (NSCaps ns))).
Proof.
  apply NewMultiPSKAuth_wf in Hserver as [_ He Hlab].
  apply NewMultiPSKAuth_wf in Hclient as [Ho Hec _].
  destruct (He ns Hin) as (key & Hk & Hb).
  destruct (Hec (mkSecret (NSLabel ns) (NSSecret ns) caps)) as (key' & Hk' & Hb'); [left|].
  simpl in Hk', Hb', Ho. assert (key' = key) as -> by congruence.
  destruct (Hlab _ _ Hb) as (_ & Hne & _).
  unfold duet, ClientHandshake. rewrite Ho, Hb'. cbn [from_option id e_label e_key e_identity].
  unfold ServerHandshake. do 2 duet_go. rewrite HnC. change (pskNonceSize =? pskNonceSize) with true.
  cbn [negb]. rewrite bool_decide_eq_false_2 by done. cbv iota zeta.
  rewrite Hb. cbn [e_key e_identity].
  do 2 duet_go. rewrite HnS. change (pskNonceSize =? pskNonceSize) with true. cbn [negb].
  rewrite bool_decide_eq_true_2 by done. cbn [negb]. do 2 duet_go.
  rewrite bool_decide_eq_true_2 by done. apply duet_done.
Qed.

(** Holders of the same secret authenticate each other: a client
    configured with one named secret and a server that registered the same
    label with the same secret complete the handshake over a reliable stream,
    the server learning the identity it registered, and the client its own. *)
Theorem psk_handshake_completes {H : MacPrims} entries a c ns caps nonceC nonceS
  (Hserver : NewMultiPSKAuth entries = Ok a) (Hin : ns ∈ entries)
  (Hclient : NewMultiPSKAuth [mkSecret (NSLabel ns) (NSSecret ns) caps] = Ok c)
  (HnC : len nonceC = pskNonceSize) (HnS : len nonceS = pskNonceSize) :
  duet (ClientHandshake c (Some nonceC)) (ServerHandshake a (Some nonceS)) =
    Some (Ok (mkIdentity (NSLabel ns) caps), Ok (mkIdentity (NSLabel ns) (NSCaps ns))).
Proof. by eapply psk_duet. Qed.

Lemma psk_handshake_completes_witness :
  exists a c, NewMultiPSKAuth team = Ok a /\
    NewMultiPSKAuth [mkSecret LabelOwner (str "hunter2") zeroCaps] = Ok c /\
    duet (ClientHandshake c (Some (nonce_of x01))) (ServerHandshake a (Some (nonce_of x02))) =
    Some (Ok (mkIdentity LabelOwner zeroCaps), Ok (mkIdentity LabelOwner (mkCaps true true true))).
Proof.
  destruct (NewMultiPSKAuth team) as [a|] eqn:Ea; [|not_err Ea].
  destruct (NewMultiPSKAuth [mkSecret LabelOwner (str "hunter2") zeroCaps]) as [c|] eqn:Ec;
    [|not_err Ec].
  exists a, c. split; [reflexivity|]. split; [reflexivity|].
  refine (psk_handshake_completes team a c (mkSecret LabelOwner (str "hunter2") (mkCaps true true true))
    zeroCaps (nonce_of x01) (nonce_of x02) Ea _ Ec eq_refl eq_refl).
  left.
Defined.

(** A proof is good in one direction and for one pair of nonces only: with
    a hash that does not collide under a key, no MAC the server ever sends is
    accepted as a client's proof, so reflecting the server's own challenge
    back does not authenticate, and a client proof is accepted only for the
    two nonces it was made for. *)
Theorem psk_proofs_do_not_transfer {H : MacPrims} key a b c d
  (Hinj : mac_injective H)
  (Ha : len a = pskNonceSize) (Hc : len c = pskNonceSize) :
  mac key macLabelServer a b <> mac key macLabelClient c d /\
  (mac key macLabelClient a b = mac key macLabelClient c d -> a = c /\ b = d).
Proof.
  unfold len in *. split.
  - intros E%Hinj. apply mac_input_inj in E as (E & _); [|done|lia]. vm_compute in E. discriminate.
  - intros E%Hinj. apply mac_input_inj in E as (_ & ?); [done|done|lia].
Qed.

Lemma psk_proofs_do_not_transfer_witness :
  mac (str "k") macLabelServer (nonce_of x01) (nonce_of x02) <>
  mac (str "k") macLabelClient (nonce_of x02) (nonce_of x01).
Proof.
  exact (proj1 (psk_proofs_do_not_transfer (str "k") (nonce_of x01) (nonce_of x02) (nonce_of x02)
    (nonce_of x01) toy_mac_injective eq_refl eq_refl)).
Defined.
