(* ===== verification/AuthCert.v ===== *)
(** * The certificate authenticator (src/auth/cert.go)

    Both sides present a certificate and sign the other's nonce.  Shown: which
    peers a side accepts, and that two holders of certificates from the same
    master authenticate each other. *)

From S2P Require Import Prelude Identity GoStrings Base58 GoTime Delegation Cert Handshake.

Definition certNonceSize : Z := 32.
Definition certProofLabel : bytes := str "mosey-cert-v1".

Record CertAuth := mkCertAuth {
  localCert : ApiCert;
  localPriv : bytes;
  masterPub : bytes;
  workspaceID : bytes;
  revoked : gset bytes;
}.

Record CertAuthOptions := mkCertAuthOptions {
  LocalCert : option ApiCert;
  LocalPriv : bytes;
  OMasterPub : bytes;
  OWorkspaceID : bytes;
  ORevoked : gset bytes;
}.

(** api.CertHandshakeMessage: a hello (certificate, possibly absent, and
    nonce), a signed nonce, or nothing known. *)
Inductive CertMessage :=
| CertHello (c : option ApiCert) (nonce : bytes)
| SignedNonce (sig : bytes)
| CertUnset.

Inductive CertAuthError :=
| LocalCertRequired | LocalPrivLength (n : Z) | MasterPubLength (n : Z) | WorkspaceIDRequired
| LocalCertInvalid (e : CertError) | PrivMismatch
| CNonceFailed | CSendFailed | CReadFailed | CUnauthorized.

Section certauth.
Context {E : Ed25519} {P : ProtoCodec}.

Definition pubKeyMatches (pub priv : bytes) : bool :=
  (len priv =? PrivateKeySize) && bool_decide (pub = ed_public priv).

(** [wall]: the clock at construction. *)
Definition NewCertAuth (wall : Z) (opts : CertAuthOptions) : res CertAuthError CertAuth :=
  match LocalCert opts with
  | None => Err LocalCertRequired
  | Some lc =>
      _ ← guard_ok (len (LocalPriv opts) =? PrivateKeySize) (LocalPrivLength (len (LocalPriv opts)));
      _ ← guard_ok (len (OMasterPub opts) =? PublicKeySize) (MasterPubLength (len (OMasterPub opts)));
      _ ← guard_ok (negb (bool_decide (OWorkspaceID opts = []))) WorkspaceIDRequired;
      claim ← map_err LocalCertInvalid (CertVerify wall (Some lc)
                (mkVerifyOptions (OMasterPub opts) (OWorkspaceID opts) None (ORevoked opts)));
      _ ← guard_ok (pubKeyMatches (PeerPubKey claim) (LocalPriv opts)) PrivMismatch;
      Ok (mkCertAuth lc (LocalPriv opts) (OMasterPub opts) (OWorkspaceID opts) (ORevoked opts))
  end.

Definition UpdateRevoked (c : CertAuth) (r : gset bytes) : CertAuth :=
  mkCertAuth (localCert c) (localPriv c) (masterPub c) (workspaceID c) r.

(** launch's watchRevocationFile: one SIGHUP re-reads the file, and a file
    that does not load leaves the list as it was; [files] is the file as each
    SIGHUP so far found it. *)
Definition reload_revocations (ca : CertAuth) (f : file) : CertAuth :=
  match LoadRevocationFile f with
  | Err _ => ca
  | Ok revoked => UpdateRevoked ca revoked
  end.

Definition watchRevocationFile (ca : CertAuth) (files : list file) : CertAuth :=
  fold_left reload_revocations files ca.

Definition revokedSnapshot (c : CertAuth) : gset bytes := revoked c.

Definition claimToIdentity (c : Claim) : Identity :=
  mkIdentity (CLabel c)
    (mkCaps (HasOwner c) (HasWrite c || HasOwner c) (HasResize c || HasOwner c)).

Definition result := res CertAuthError Identity.

Definition readCertHello (k : option ApiCert -> bytes -> prog CertMessage result)
    : prog CertMessage result :=
  Recv (fun m => match m with
                 | None => Ret (Err CReadFailed)
                 | Some (CertHello c n) => k c n
                 | Some _ => Ret (Err CUnauthorized)
                 end).

Definition readCertProof (k : bytes -> prog CertMessage result) : prog CertMessage result :=
  Recv (fun m => match m with
                 | None => Ret (Err CReadFailed)
                 | Some (SignedNonce sig) => k sig
                 | Some _ => Ret (Err CUnauthorized)
                 end).

Definition writeCertMsg (m : CertMessage) (k : prog CertMessage result) : prog CertMessage result :=
  Send m (fun ok => if negb ok then Ret (Err CSendFailed) else k).

(** The body after the peer's hello: verify it, exchange proofs, check the
    peer's. *)
Definition after_hello (c : CertAuth) (wall : Z) (myNonce : bytes) (clientFirst : bool)
    (peerCert : option ApiCert) (peerNonce : bytes) : prog CertMessage result :=
  match CertVerify wall peerCert (mkVerifyOptions (masterPub c) (workspaceID c) None (revokedSnapshot c)) with
  | Err _ => Ret (Err CUnauthorized)
  | Ok peerClaim =>
      if negb (len peerNonce =? certNonceSize) then Ret (Err CUnauthorized)
      else
        let proofOut := SignedNonce (ed_sign (localPriv c) (certProofLabel ++ peerNonce)) in
        let finish sig :=
          if negb (ed_verify (PeerPubKey peerClaim) (certProofLabel ++ myNonce) sig)
          then Ret (Err CUnauthorized)
          else Ret (Ok (claimToIdentity peerClaim)) in
        if clientFirst then writeCertMsg proofOut (readCertProof finish)
        else readCertProof (fun sig => writeCertMsg proofOut (finish sig))
  end.

(** [nonce]: what rand.Read filled in; [wall]: the clock when it verifies. *)
Definition runHandshake (c : CertAuth) (wall : Z) (nonce : option bytes) (clientFirst : bool)
    : prog CertMessage result :=
  match nonce with
  | None => Ret (Err CNonceFailed)
  | Some myNonce =>
      let helloOut := CertHello (Some (localCert c)) myNonce in
      if clientFirst then
        writeCertMsg helloOut (readCertHello (after_hello c wall myNonce clientFirst))
      else
        readCertHello (fun pc pn => writeCertMsg helloOut (after_hello c wall myNonce clientFirst pc pn))
  end.

Definition CertClientHandshake (c : CertAuth) (wall : Z) (nonce : option bytes) :=
  runHandshake c wall nonce true.
Definition CertServerHandshake (c : CertAuth) (wall : Z) (nonce : option bytes) :=
  runHandshake c wall nonce false.

(** ** Lemmas *)

(** A certificate side that the other side, trusting the same master, will
    accept. *)
Record presents (c : CertAuth) (v : CertAuth) (wall : Z) (claim : Claim) : Prop := mk_presents {
  pr_verify : CertVerify wall (Some (localCert c))
    (mkVerifyOptions (masterPub v) (workspaceID v) None (revoked v)) = Ok claim;
  pr_key : PeerPubKey claim = ed_public (localPriv c);
}.

Lemma server_run_ok c wall myNonce acts i :
  fst (run (CertServerHandshake c wall (Some myNonce)) acts) = Ok i ->
  exists cert peerNonce claim sig,
    (exists rest, acts = PRead (Some (CertHello cert peerNonce)) :: PWrite true ::
      PRead (Some (SignedNonce sig)) :: PWrite true :: rest) /\
    CertVerify wall cert (mkVerifyOptions (masterPub c) (workspaceID c) None (revoked c)) = Ok claim /\
    len peerNonce = certNonceSize /\
    ed_verify (PeerPubKey claim) (certProofLabel ++ myNonce) sig = true /\
    i = claimToIdentity claim.
Proof.
  unfold CertServerHandshake, runHandshake, readCertHello. cbn [run].
  destruct acts as [|[ok|[m|]] acts]; cbn [run fst]; try done.
  destruct m as [cert pn| |]; cbn [run fst]; try done. unfold writeCertMsg at 1. cbn [run].
  destruct acts as [|[[]|m] acts]; cbn [negb run fst]; try done.
  unfold after_hello. destruct (CertVerify _ _ _) as [claim|] eqn:Ev; cbn [run fst]; [|done].
  destruct (len pn =? certNonceSize) eqn:El; cbn [negb run fst]; [|done].
  unfold readCertProof. cbn [run].
  destruct acts as [|[ok|[m|]] acts]; cbn [negb run fst]; try done.
  destruct m as [| sig|]; cbn [negb run fst]; try done. unfold writeCertMsg. cbn [run].
  destruct acts as [|[[]|m] acts]; cbn [negb run fst]; try done.
  destruct (ed_verify _ _ sig) eqn:Es; cbn [negb run fst]; [|done].
  intros [= <-]. exists cert, pn, claim, sig. go_bool. split_and!; try done. by eexists.
Qed.
End certauth.

(** ** The claims *)

(** A server accepts a certificate peer only on proof of possession.
    Whatever the peer sends, an identity is returned only if the peer
    presented a certificate that verifies against the master key for this
    workspace, now, and not revoked, and signed this side's fresh nonce with
    the key the certificate names; the identity is the one in that
    certificate, with the owner bit implying write and resize. *)
Theorem cert_server_accepts_only_proven {E : Ed25519} {P : ProtoCodec} c wall myNonce acts i
  (Hok : fst (run (CertServerHandshake c wall (Some myNonce)) acts) = Ok i) :
  exists cert peerNonce sig claim,
    PRead (Some (CertHello (Some cert) peerNonce)) ∈ acts /\
    PRead (Some (SignedNonce sig)) ∈ acts /\
    ed_verify (masterPub c) (CContent cert) (CSignature cert) = true /\
    claim_valid wall (mkVerifyOptions (masterPub c) (workspaceID c) None (revoked c)) claim /\
    ed_verify (PeerPubKey claim) (certProofLabel ++ myNonce) sig = true /\
    Label i = CLabel claim /\ Owner (Caps i) = HasOwner claim /\
    CanWrite i = HasWrite claim || HasOwner claim /\ CanResize i = HasResize claim || HasOwner claim.
Proof.
  apply server_run_ok in Hok as (cert & pn & claim & sig & (rest & ->) & Hv & Hl & Hs & ->).
  destruct cert as [cert|]; [|done].
  apply CertVerify_iff in Hv as (_ & Hsig & content & _ & _ & Hvalid).
  exists cert, pn, sig, claim. split; [left|]. split; [do 2 right; left|]. split_and!; try done.
  - unfold CanWrite. simpl. destruct (HasOwner claim), (HasWrite claim); done.
  - unfold CanResize. simpl. destruct (HasOwner claim), (HasResize claim); done.
Qed.

Lemma cert_duet {E : Ed25519} {EL : Ed25519Laws E} {P : ProtoCodec}
  c s wallC wallS claimC claimS nonceC nonceS
  (Hc : presents c s wallS claimC) (Hs : presents s c wallC claimS)
  (HnC : len nonceC = certNonceSize) (HnS : len nonceS = certNonceSize) :
  duet (CertClientHandshake c wallC (Some nonceC)) (CertServerHandshake s wallS (Some nonceS)) =
    Some (Ok (claimToIdentity claimS), Ok (claimToIdentity claimC)).
Proof.
  destruct Hc as [Hvc Hkc], Hs as [Hvs Hks].
  unfold duet, CertClientHandshake, CertServerHandshake, runHandshake, writeCertMsg, readCertHello.
  do 3 duet_go.
  duet_go. unfold after_hello at 1. unfold revokedSnapshot. rewrite Hvs, HnS.
  change (certNonceSize =? certNonceSize) with true. cbn [negb]. unfold writeCertMsg at 1.
  unfold after_hello. unfold revokedSnapshot. rewrite Hvc, HnC.
  change (certNonceSize =? certNonceSize) with true. cbn [negb]. unfold readCertProof, writeCertMsg.
  do 3 duet_go. rewrite Hkc, ed_verify_sign. cbn [negb].
  duet_go. rewrite Hks, ed_verify_sign. apply duet_done.
Qed.

(** Two sides whose certificates the other accepts, each holding the key
    its certificate names, complete the handshake over a reliable stream and
    each learns the identity in the other's certificate. *)
Theorem cert_handshake_completes {E : Ed25519} {EL : Ed25519Laws E} {P : ProtoCodec}
  c s wallC wallS claimC claimS nonceC nonceS
  (Hc : presents c s wallS claimC) (Hs : presents s c wallC claimS)
  (HnC : len nonceC = certNonceSize) (HnS : len nonceS = certNonceSize) :
  duet (CertClientHandshake c wallC (Some nonceC)) (CertServerHandshake s wallS (Some nonceS)) =
    Some (Ok (claimToIdentity claimS), Ok (claimToIdentity claimC)).
Proof. by eapply cert_duet. Qed.

(** ** Witnesses *)

Definition sample_cert : ApiCert := mkCert (str "content") (ed_sign (key_of x06 ++ key_of x06) (str "content")).
Definition sample_auth : CertAuth :=
  mkCertAuth sample_cert (key_of x07 ++ key_of x07) (key_of x06) (str "ws") ∅.

Lemma sample_presents : presents sample_auth sample_auth (t0 + 5) sample_claim.
Proof. constructor; vm_compute; reflexivity. Qed.

Lemma cert_handshake_completes_witness :
  presents sample_auth sample_auth (t0 + 5) sample_claim /\
  duet (CertClientHandshake sample_auth (t0 + 5) (Some (replicate 32 x01)))
       (CertServerHandshake sample_auth (t0 + 5) (Some (replicate 32 x02))) =
  Some (Ok (claimToIdentity sample_claim), Ok (claimToIdentity sample_claim)).
Proof.
  split; [exact sample_presents|].
  exact (cert_handshake_completes sample_auth sample_auth (t0 + 5) (t0 + 5) sample_claim sample_claim
    (replicate 32 x01) (replicate 32 x02) sample_presents sample_presents eq_refl eq_refl).
Defined.

Definition sample_acts : list (peer_act CertMessage) :=
  [PRead (Some (CertHello (Some sample_cert) (replicate 32 x01))); PWrite true;
   PRead (Some (SignedNonce (ed_sign (key_of x07) (certProofLabel ++ replicate 32 x02)))); PWrite true].

Lemma cert_server_accepts_only_proven_witness :
  fst (run (CertServerHandshake sample_auth (t0 + 5) (Some (replicate 32 x02))) sample_acts)
    = Ok (claimToIdentity sample_claim) /\
  exists claim, Label (claimToIdentity sample_claim) = CLabel claim.
Proof.
  assert (fst (run (CertServerHandshake sample_auth (t0 + 5) (Some (replicate 32 x02))) sample_acts)
    = Ok (claimToIdentity sample_claim)) as H by (vm_compute; reflexivity).
  split; [exact H|].
  destruct (cert_server_accepts_only_proven sample_auth (t0 + 5) (replicate 32 x02) sample_acts _ H)
    as (_ & _ & _ & claim & _ & _ & _ & _ & _ & Hl & _).
  exists claim. exact Hl.
Defined.
