(* ===== verification/AuthWallet.v ===== *)
(** * The wallet authenticator (src/auth/wallet.go)

    The server proves the session key, the client proves its connection key,
    and the client's capabilities come from the delegation chain it presents,
    folded against the on-chain snapshot (Fold.v).  Nonces, the clock and the
    snapshot source are inputs.  The on-demand lookup is bounded by a token
    bucket over float64, modelled with the IEEE-754 operations of the Standard
    Library's SpecFloat at binary64. *)

From Stdlib Require Import Floats.SpecFloat.
From S2P Require Import Prelude Identity GoStrings WalletCaps Base58 GoTime Delegation Fold Cert Handshake.

Definition walletNonceSize : Z := 32.
Definition walletServerLabel : bytes := str "mosey-wallet-v1:server".
Definition walletClientLabel : bytes := str "mosey-wallet-v1:client".

(** ** The rate limiter *)

Abbreviation float64 := spec_float (only parsing).

Definition fadd (x y : float64) : float64 := SFadd 53 1024 x y.
Definition fsub (x y : float64) : float64 := SFsub 53 1024 x y.
Definition fmul (x y : float64) : float64 := SFmul 53 1024 x y.
Definition fdiv (x y : float64) : float64 := SFdiv 53 1024 x y.

(** float64(n) *)
Definition float_of_Z (n : Z) : float64 := binary_normalize 53 1024 n 0 false.

Definition fone : float64 := float_of_Z 1.
Definition fzero : float64 := float_of_Z 0.

(** x > y, x >= y; false on NaN. *)
Definition fgt (x y : float64) : bool := SFltb y x.
Definition fge (x y : float64) : bool := SFleb y x.

(** math.Min: NaN and infinities first, then signed zeros. *)
Definition fmin (x y : float64) : float64 :=
  match x, y with
  | S754_infinity true, _ | _, S754_infinity true => S754_infinity true
  | S754_nan, _ | _, S754_nan => S754_nan
  | S754_zero sx, S754_zero sy => if sx then x else y
  | _, _ => if SFltb x y then x else y
  end.

(** Duration.Seconds: whole seconds plus the rest over 1e9. *)
Definition duration_seconds (d : Z) : float64 :=
  fadd (float_of_Z (Z.quot d Second)) (fdiv (float_of_Z (Z.rem d Second)) (float_of_Z Second)).

Record rateLimiter := mkLimiter {
  tokens : float64; lmax : float64; perSec : float64; last : Z
}.

Definition newRateLimiter (rate : float64) (burst : Z) (now : Z) : rateLimiter :=
  mkLimiter (float_of_Z burst) (float_of_Z burst) rate now.

Definition allow (l : rateLimiter) (now : Z) : rateLimiter * bool :=
  let elapsed := duration_seconds (Sub now (last l)) in
  let l := if fgt elapsed fzero
           then mkLimiter (fmin (lmax l) (fadd (tokens l) (fmul elapsed (perSec l)))) (lmax l) (perSec l) now
           else l in
  if fge (tokens l) fone
  then (mkLimiter (fsub (tokens l) fone) (lmax l) (perSec l) (last l), true)
  else (l, false).

(** ** The authenticator *)

(** The roles' fields; nil keys and sources are [None]. *)
Record WalletAuth := mkWallet {
  sessionPriv : option bytes;
  wsessionID : bytes;
  source : option SnapshotSource;
  verifyLimiter : option rateLimiter;
  connPriv : option bytes;
  wconnPub : bytes;
  wchain : list Delegation;
  expectSession : option bytes;
}.

(** api.WalletHandshakeMessage *)
Inductive WalletMessage :=
| WalletHello (client_pubkey nonce_c : bytes) (chain : list Delegation)
| WalletChallenge (session_key nonce_s server_sig : bytes)
| WalletProof (client_sig : bytes)
| WalletUnset.

Inductive WAuthError :=
| SessionKeyLength (n : Z) | SourceRequired | ConnKeyLength (n : Z) | ChainRequired
| NotServer | NotClient | WNonceFailed | WSendFailed | WReadFailed
| WUnauthorized (e : option WalletError) | NoSnapshot | SnapshotStale.

Section walletauth.
Context {E : Ed25519}.

Record ServerOptions := mkServerOptions {
  SessionKey : bytes;
  OSource : option SnapshotSource;
  VerifyRatePerSec : float64;
  VerifyBurst : Z;
}.

Definition NewWalletServerAuth (now : Z) (opts : ServerOptions) : res WAuthError WalletAuth :=
  _ ← guard_ok (len (SessionKey opts) =? PrivateKeySize) (SessionKeyLength (len (SessionKey opts)));
  _ ← guard_ok (bool_decide (is_Some (match OSource opts with Some _ => Some tt | None => None end)))
        SourceRequired;
  let limiter :=
    if fge (VerifyRatePerSec opts) fzero then
      let perSec := if SFeqb (VerifyRatePerSec opts) fzero then float_of_Z 5 else VerifyRatePerSec opts in
      let burst := if VerifyBurst opts =? 0 then 10 else VerifyBurst opts in
      Some (newRateLimiter perSec burst now)
    else None in
  Ok (mkWallet (Some (SessionKey opts)) (ed_public (SessionKey opts)) (OSource opts) limiter
        None [] [] None).

Definition NewWalletClientAuth (connKey : bytes) (chain : list Delegation) (expect : option bytes)
    : res WAuthError WalletAuth :=
  _ ← guard_ok (len connKey =? PrivateKeySize) (ConnKeyLength (len connKey));
  _ ← guard_ok (negb (len chain =? 0)) ChainRequired;
  Ok (mkWallet None [] None None (Some connKey) (ed_public connKey) chain expect).

Definition walletTranscript (label a b sessionID : bytes) : bytes := label ++ a ++ b ++ sessionID.

Definition chainRoot (chain : list Delegation) : res WalletError bytes :=
  match chain with
  | [] => Err ErrEmptyChain
  | d :: _ => f ← DFields d; Ok (Delegator f)
  end.

Definition leafCaps (chain : list Delegation) : WCaps * bool :=
  match chain with
  | [] => (0, false)
  | _ => match DFields (List.last chain (mkDelegation [] [])) with
         | Ok f => (FCaps f, true)
         | Err _ => (0, false)
         end
  end.

Definition overlaySnapshot (snap : Snapshot) (root : bytes) (caps : WCaps) : Snapshot :=
  mkSnapshot (Owner snap)
    (fun w => if bool_decide (root = w) then Some caps else GrantCaps snap w).

(** w.verifyLimiter == nil || w.verifyLimiter.allow(now) *)
Definition limiter_allows (l : option rateLimiter) (now : Z) : option rateLimiter * bool :=
  match l with
  | None => (None, true)
  | Some l => let '(l, ok) := allow l now in (Some l, ok)
  end.

(** The clock is read before each use; [now i] is its i-th reading. *)
Definition resolveCaps (w : WalletAuth) (src : SnapshotSource) (now : nat -> Z)
    (chain : list Delegation) (connPub : bytes)
    : option rateLimiter * res WAuthError (WCaps * bool * bytes) :=
  match chainRoot chain with
  | Err e => (verifyLimiter w, Err (WUnauthorized (Some e)))
  | Ok root =>
      match SnapshotNow src with
      | Err _ => (verifyLimiter w, Err NoSnapshot)
      | Ok (snap, fresh) =>
          if negb fresh then (verifyLimiter w, Err SnapshotStale)
          else match Fold chain connPub (wsessionID w) snap (now 0%nat) with
               | Ok (caps, isOwner) => (verifyLimiter w, Ok (caps, isOwner, root))
               | Err ferr =>
                   match ferr with
                   | ErrUnknownRoot =>
                       let '(l, ok) := limiter_allows (verifyLimiter w) (now 1%nat) in
                       if ok then
                         match VerifyNow src root with
                         | Ok (Some gc) =>
                             match Fold chain connPub (wsessionID w) (overlaySnapshot snap root gc) (now 2%nat) with
                             | Ok (caps, isOwner) => (l, Ok (caps, isOwner, root))
                             | Err ferr => (l, Err (WUnauthorized (Some ferr)))
                             end
                         | _ => (l, Err (WUnauthorized (Some ferr)))
                         end
                       else (l, Err (WUnauthorized (Some ferr)))
                   | _ => (verifyLimiter w, Err (WUnauthorized (Some ferr)))
                   end
               end
      end
  end.

Definition wresult := res WAuthError Identity.

(** The identity the server derives from the resolved capabilities. *)
Definition wallet_identity (caps : WCaps) (rootIsOwner : bool) (root : bytes) : Identity :=
  mkIdentity (Address root)
    (mkCaps (rootIsOwner && (caps =? AllCaps)) (Has caps CapWrite) (Has caps CapResize)).

(** Reading one message of the kind expected; [fail] wraps the error, [k] goes
    on with the fields. *)
Definition readWalletHello {X} (fail : WAuthError -> prog WalletMessage X)
    (k : bytes -> bytes -> list Delegation -> prog WalletMessage X) : prog WalletMessage X :=
  Recv (fun m => match m with
                 | None => fail WReadFailed
                 | Some (WalletHello connPub nonceC chain) => k connPub nonceC chain
                 | Some _ => fail (WUnauthorized None)
                 end).

Definition readWalletChallenge {X} (fail : WAuthError -> prog WalletMessage X)
    (k : bytes -> bytes -> bytes -> prog WalletMessage X) : prog WalletMessage X :=
  Recv (fun m => match m with
                 | None => fail WReadFailed
                 | Some (WalletChallenge sessionKey nonceS serverSig) => k sessionKey nonceS serverSig
                 | Some _ => fail (WUnauthorized None)
                 end).

Definition readWalletProof {X} (fail : WAuthError -> prog WalletMessage X)
    (k : bytes -> prog WalletMessage X) : prog WalletMessage X :=
  Recv (fun m => match m with
                 | None => fail WReadFailed
                 | Some (WalletProof clientSig) => k clientSig
                 | Some _ => fail (WUnauthorized None)
                 end).

(** The result carries the limiter as the handshake leaves it: only
    [resolveCaps] touches it. *)
Definition WalletServerHandshake (w : WalletAuth) (now : nat -> Z) (nonce : option bytes)
    : prog WalletMessage (option rateLimiter * wresult) :=
  let fail e := Ret (verifyLimiter w, Err e) in
  match sessionPriv w, source w with
  | Some spriv, Some src =>
      readWalletHello fail (fun connPub nonceC chain =>
        if negb (len connPub =? PublicKeySize) then fail (WUnauthorized None)
        else if negb (len nonceC =? walletNonceSize) then fail (WUnauthorized None)
        else match nonce with
             | None => fail WNonceFailed
             | Some nonceS =>
                 let serverSig := ed_sign spriv (walletTranscript walletServerLabel nonceC nonceS (wsessionID w)) in
                 Send (WalletChallenge (wsessionID w) nonceS serverSig) (fun ok =>
                   if negb ok then fail WSendFailed
                   else readWalletProof fail (fun clientSig =>
                     if negb (ed_verify connPub (walletTranscript walletClientLabel nonceS nonceC (wsessionID w)) clientSig)
                     then fail (WUnauthorized None)
                     else match resolveCaps w src now chain connPub with
                          | (l, Err e) => Ret (l, Err e)
                          | (l, Ok (caps, rootIsOwner, root)) => Ret (l, Ok (wallet_identity caps rootIsOwner root))
                          end))
             end)
  | _, _ => fail NotServer
  end.

Definition WalletClientHandshake (w : WalletAuth) (nonce : option bytes) : prog WalletMessage wresult :=
  let fail e := Ret (Err e) in
  match connPriv w with
  | None => fail NotClient
  | Some cpriv =>
      match nonce with
      | None => fail WNonceFailed
      | Some nonceC =>
          Send (WalletHello (wconnPub w) nonceC (wchain w)) (fun ok =>
            if negb ok then fail WSendFailed
            else readWalletChallenge fail (fun sessionKey nonceS serverSig =>
              if negb (len sessionKey =? PublicKeySize) then fail (WUnauthorized None)
              else if negb (len nonceS =? walletNonceSize) then fail (WUnauthorized None)
              else if negb (ed_verify sessionKey
                              (walletTranscript walletServerLabel nonceC nonceS sessionKey) serverSig)
              then fail (WUnauthorized None)
              else if match expectSession w with
                      | Some e => negb (bool_decide (e = sessionKey))
                      | None => false
                      end
              then fail (WUnauthorized None)
              else
                let clientSig := ed_sign cpriv (walletTranscript walletClientLabel nonceS nonceC sessionKey) in
                Send (WalletProof clientSig) (fun ok =>
                  if negb ok then fail WSendFailed
                  else let lc := fst (leafCaps (wchain w)) in
                       Ret (Ok (mkIdentity (str "wallet:" ++ Address sessionKey)
                                  (mkCaps false (Has lc CapWrite) (Has lc CapResize)))))))
      end
  end.

(** ** Lemmas *)

(** What entitles a chain's root: the snapshot, or, for a wallet the snapshot
    does not know, the source's authoritative answer. *)
Definition entitled (src : SnapshotSource) (snap : Snapshot) (root : bytes) (held : WCaps) (owner : bool) : Prop :=
  root_authority snap root held owner \/
  (root <> Owner snap /\ VerifyNow src root = Ok (Some held) /\ owner = false).

Lemma delegated_chainRoot sid now root held chain leaf caps :
  delegated sid now root held chain leaf caps -> chainRoot chain = Ok root.
Proof.
  assert (forall d f, Verify d = Ok f -> DFields d = Ok f) as HV.
  { intros d f (f' & Hf & H)%bind_ok. rewrite Hf. repeat (destruct (negb _) in H; [done|]). done. }
  destruct 1 as [from held d f [Hv _ _ <-] _|from held d f chain leaf caps [Hv _ _ <-] _ _ _];
    unfold chainRoot; by rewrite (HV _ _ Hv).
Qed.

Lemma overlay_entitled src snap root held gc owner :
  VerifyNow src root = Ok (Some gc) ->
  root_authority (overlaySnapshot snap root gc) root held owner -> entitled src snap root held owner.
Proof.
  intros Hv [H|(Hne & Hg & ->)]; [by left; left|].
  simpl in Hne, Hg. rewrite bool_decide_eq_true_2 in Hg by done. injection Hg as ->. by right.
Qed.

Lemma resolveCaps_ok w src now chain connPub l caps o root :
  resolveCaps w src now chain connPub = (l, Ok (caps, o, root)) ->
  exists snap held k, SnapshotNow src = Ok (snap, true) /\ entitled src snap root held o /\
    delegated (wsessionID w) (now k) root held chain connPub caps.
Proof.
  unfold resolveCaps. destruct (chainRoot chain) as [r|] eqn:Er; [|done].
  destruct (SnapshotNow src) as [[snap []]|]; [cbn [negb]|done|done].
  assert (forall snap k c ow, Fold chain connPub (wsessionID w) snap (now k) = Ok (c, ow) ->
    exists held, root_authority snap r held ow /\ delegated (wsessionID w) (now k) r held chain connPub c) as HF.
  { intros sn k c ow (_ & r' & held & Ha & Hd)%Fold_iff.
    pose proof (delegated_chainRoot _ _ _ _ _ _ _ Hd). assert (r' = r) as -> by congruence. eauto. }
  destruct (Fold chain connPub _ snap _) as [[c ow]|ferr] eqn:Ef.
  - intros [= <- <- <- <-]. apply HF in Ef as (held & Ha & Hd). exists snap, held, 0%nat. by split_and!; [|left|].
  - destruct ferr; try done. destruct (limiter_allows _ _) as [l' []]; [|done].
    destruct (VerifyNow src r) as [[gc|]|] eqn:Ev; [|done|done].
    destruct (Fold chain connPub _ (overlaySnapshot snap r gc) _) as [[c ow]|] eqn:Eg; [|done].
    intros [= <- <- <- <-]. apply HF in Eg as (held & Ha & Hd). exists snap, held, 2%nat.
    split_and!; [done|by eapply overlay_entitled|done].
Qed.

Lemma wallet_server_run_ok w now nonceS acts l i :
  fst (run (WalletServerHandshake w now (Some nonceS)) acts) = (l, Ok i) ->
  exists src connPub nonceC chain sig caps o root,
    source w = Some src /\
    (exists rest, acts = PRead (Some (WalletHello connPub nonceC chain)) :: PWrite true ::
      PRead (Some (WalletProof sig)) :: rest) /\
    len connPub = PublicKeySize /\ len nonceC = walletNonceSize /\
    ed_verify connPub (walletTranscript walletClientLabel nonceS nonceC (wsessionID w)) sig = true /\
    resolveCaps w src now chain connPub = (l, Ok (caps, o, root)) /\ i = wallet_identity caps o root.
Proof.
  unfold WalletServerHandshake, readWalletHello, readWalletProof. destruct (sessionPriv w), (source w) as [src|]; try done. cbn [run].
  destruct acts as [|[ok|[m|]] acts]; cbn [run fst]; try done.
  destruct m as [cp nc chain| | |]; cbn [run fst]; try done.
  destruct (len cp =? PublicKeySize) eqn:Ec; cbn [negb run fst]; [|done].
  destruct (len nc =? walletNonceSize) eqn:En; cbn [negb run fst]; [|done].
  destruct acts as [|[[]|m] acts]; cbn [negb run fst]; try done.
  destruct acts as [|[ok|[m|]] acts]; cbn [negb run fst]; try done.
  destruct m as [| | sig|]; cbn [negb run fst]; try done.
  destruct (ed_verify _ _ sig) eqn:Es; cbn [negb run fst]; [|done].
  destruct (resolveCaps _ _ _ _ _) as [l' [[[caps o] root]|]] eqn:Er; cbn [run fst]; [|done].
  intros [= <- <-]. exists src, cp, nc, chain, sig, caps, o, root. go_bool. split_and!; try done. by eexists.
Qed.
End walletauth.

(** [burst l now n]: n requests at one clock reading, and how many pass. *)
Fixpoint burst (l : rateLimiter) (now : Z) (n : nat) : rateLimiter * nat :=
  match n with
  | O => (l, O)
  | S n => let '(l, ok) := allow l now in
           let '(l, k) := burst l now n in (l, if ok then S k else k)
  end.

(** A frozen clock refills nothing, so the token count alone evolves. *)
Definition frozen (tokens : float64) (now : Z) : rateLimiter :=
  mkLimiter tokens (float_of_Z 10) (float_of_Z 5) now.

Lemma allow_frozen tokens now :
  allow (frozen tokens now) now =
    if fge tokens fone then (frozen (fsub tokens fone) now, true) else (frozen tokens now, false).
Proof.
  unfold allow, frozen, Sub. cbn [last].
  assert (Z.max (- 2 ^ 63) (Z.min (2 ^ 63 - 1) (now - now)) = 0) as -> by lia.
  assert (fgt (duration_seconds 0) fzero = false) as -> by (vm_compute; reflexivity). reflexivity.
Qed.

Lemma burst_frozen now n k :
  (k <= 10)%nat ->
  exists l', burst (frozen (float_of_Z (Z.of_nat k)) now) now n = (l', Nat.min n k).
Proof.
  revert k. induction n as [|n IH]; intros k Hk; [by eexists|].
  cbn [burst]. rewrite allow_frozen. destruct k as [|k].
  - assert (fge (float_of_Z (Z.of_nat 0)) fone = false) as -> by (vm_compute; reflexivity).
    destruct (IH 0%nat ltac:(lia)) as (l' & ->). exists l'. by rewrite Nat.min_0_r.
  - assert (fge (float_of_Z (Z.of_nat (S k))) fone = true /\
      fsub (float_of_Z (Z.of_nat (S k))) fone = float_of_Z (Z.of_nat k)) as [-> ->].
    { do 10 (destruct k as [|k]; [vm_compute; done|]). lia. }
    destruct (IH k ltac:(lia)) as (l' & ->). by exists l'.
Qed.

Lemma burst_default now n : exists l', burst (newRateLimiter (float_of_Z 5) 10 now) now n = (l', Nat.min n 10).
Proof. exact (burst_frozen now n 10 ltac:(lia)). Qed.

(** ** The claims *)

(** C8: a wallet server admits only delegated authority.  Whatever a peer
    sends, an identity is returned only if the on-chain snapshot is present
    and fresh, the peer signed this server's nonce with its connection key,
    and it presented a chain that hands its capabilities to that key from a
    root the snapshot (or, for an unknown root, an authoritative lookup)
    entitles.  The identity is labelled with that root, its write and resize
    bits are those of the chain, and it is an owner exactly if the session's
    owner handed on the full set. *)
Theorem wallet_server_admits_only_delegated {E : Ed25519} w now nonceS acts l i
  (Hok : fst (run (WalletServerHandshake w now (Some nonceS)) acts) = (l, Ok i)) :
  exists src snap connPub nonceC chain sig root held owner caps k,
    source w = Some src /\ SnapshotNow src = Ok (snap, true) /\
    PRead (Some (WalletHello connPub nonceC chain)) ∈ acts /\ PRead (Some (WalletProof sig)) ∈ acts /\
    ed_verify connPub (walletTranscript walletClientLabel nonceS nonceC (wsessionID w)) sig = true /\
    entitled src snap root held owner /\
    delegated (wsessionID w) (now k) root held chain connPub caps /\
    Label i = Address root /\ Write (Caps i) = Has caps CapWrite /\ Resize (Caps i) = Has caps CapResize /\
    (IsOwner i = true <-> owner = true /\ caps = AllCaps).
Proof.
  apply wallet_server_run_ok in Hok
    as (src & cp & nc & chain & sig & caps & o & root & Hs & (rest & ->) & _ & _ & Hsig & Hr & ->).
  apply resolveCaps_ok in Hr as (snap & held & k & Hsn & He & Hd).
  exists src, snap, cp, nc, chain, sig, root, held, o, caps, k.
  split_and!; try done; [left|do 2 right; left|].
  unfold IsOwner. simpl. rewrite andb_true_iff, Z.eqb_eq. done.
Qed.

(** A wallet client reaches only the session it meant.  Whatever a server
    sends, the client's handshake succeeds only if the server signed the
    client's nonce with the session key it names, and that key is the
    expected one when the client has an expectation; the client never claims
    owner rights, and hands its own proof only to that session. *)
Theorem wallet_client_reaches_expected {E : Ed25519} w nonceC acts i
  (Hok : fst (run (WalletClientHandshake w (Some nonceC)) acts) = Ok i) :
  exists cpriv key nonceS sig,
    connPriv w = Some cpriv /\
    PRead (Some (WalletChallenge key nonceS sig)) ∈ acts /\ len nonceS = walletNonceSize /\
    ed_verify key (walletTranscript walletServerLabel nonceC nonceS key) sig = true /\
    (forall e, expectSession w = Some e -> key = e) /\
    snd (run (WalletClientHandshake w (Some nonceC)) acts) =
      [WalletHello (wconnPub w) nonceC (wchain w);
       WalletProof (ed_sign cpriv (walletTranscript walletClientLabel nonceS nonceC key))] /\
    Label i = str "wallet:" ++ Address key /\ IsOwner i = false.
Proof.
  revert Hok. unfold WalletClientHandshake, readWalletChallenge. destruct (connPriv w) as [cpriv|]; [|done]. cbn [run].
  destruct acts as [|[[]|m] acts]; cbn [negb run fst]; try done.
  destruct acts as [|[ok|[m|]] acts]; cbn [negb run fst]; try done.
  destruct m as [|key ns sig| |]; cbn [negb run fst]; try done.
  destruct (len key =? PublicKeySize) eqn:Ek; cbn [negb run fst]; [|done].
  destruct (len ns =? walletNonceSize) eqn:En; cbn [negb run fst]; [|done].
  destruct (ed_verify key _ sig) eqn:Es; cbn [negb run fst]; [|done].
  destruct (match expectSession w with Some _ => _ | None => _ end) eqn:Ee; cbn [negb run fst]; [done|].
  destruct acts as [|[[]|m] acts]; cbn [negb run fst]; try done.
  intros [= <-]. exists cpriv, key, ns, sig. go_bool. split_and!; try done.
  - right. left.
  - intros e He. rewrite He in Ee. apply negb_false_iff, bool_decide_eq_true in Ee. done.
Qed.

Lemma wallet_duet {E : Ed25519} {EL : Ed25519Laws E}
  connKey chain expect sessionKey src snap limiter now nonceC nonceS caps o root
  (Hexp : expect = None \/ expect = Some (ed_public sessionKey))
  (HnC : len nonceC = walletNonceSize) (HnS : len nonceS = walletNonceSize)
  (Hsnap : SnapshotNow src = Ok (snap, true)) (Hroot : chainRoot chain = Ok root)
  (Hfold : Fold chain (ed_public connKey) (ed_public sessionKey) snap (now 0%nat) = Ok (caps, o)) :
  exists i,
  duet (WalletClientHandshake
          (mkWallet None [] None None (Some connKey) (ed_public connKey) chain expect) (Some nonceC))
       (WalletServerHandshake
          (mkWallet (Some sessionKey) (ed_public sessionKey) (Some src) limiter None [] [] None)
          now (Some nonceS)) =
    Some (Ok i, (limiter, Ok (wallet_identity caps o root))) /\
  Label i = str "wallet:" ++ Address (ed_public sessionKey).
Proof.
  eexists. split; [|shelve]. unfold duet, WalletClientHandshake, WalletServerHandshake, readWalletHello, readWalletChallenge, readWalletProof.
  cbn [connPriv sessionPriv source wconnPub wchain wsessionID expectSession verifyLimiter].
  do 2 duet_go. rewrite ed_public_size, HnC. cbn [Z.eqb Pos.eqb negb PublicKeySize walletNonceSize].
  do 2 duet_go. rewrite ed_public_size, HnS. cbn [Z.eqb Pos.eqb negb PublicKeySize walletNonceSize].
  rewrite ed_verify_sign. cbn [negb].
  assert (match expect with Some e => negb (bool_decide (e = ed_public sessionKey)) | None => false end = false)
    as ->.
  { destruct Hexp as [->| ->]; [done|]. by rewrite bool_decide_eq_true_2. }
  do 2 duet_go. rewrite ed_verify_sign. cbn [negb].
  assert (forall w, verifyLimiter w = limiter -> wsessionID w = ed_public sessionKey ->
    resolveCaps w src now chain (ed_public connKey) = (limiter, Ok (caps, o, root))) as ->.
  { intros w <- Hw. unfold resolveCaps. by rewrite Hroot, Hsnap, Hw, Hfold. }
  2,3: done. apply duet_done.
  Unshelve. reflexivity.
Qed.

(** An entitled client gets in.  When the client's chain folds against
    the server's fresh snapshot, the client holds its connection key and
    expects this session (or none), the handshake over a reliable stream
    completes on both sides, the server returning the chain's capabilities
    under the chain root's address and leaving its lookup budget untouched. *)
Theorem wallet_handshake_completes {E : Ed25519} {EL : Ed25519Laws E}
  connKey chain expect sessionKey src snap limiter now nonceC nonceS caps o root
  (Hexp : expect = None \/ expect = Some (ed_public sessionKey))
  (HnC : len nonceC = walletNonceSize) (HnS : len nonceS = walletNonceSize)
  (Hsnap : SnapshotNow src = Ok (snap, true)) (Hroot : chainRoot chain = Ok root)
  (Hfold : Fold chain (ed_public connKey) (ed_public sessionKey) snap (now 0%nat) = Ok (caps, o)) :
  exists i,
  duet (WalletClientHandshake
          (mkWallet None [] None None (Some connKey) (ed_public connKey) chain expect) (Some nonceC))
       (WalletServerHandshake
          (mkWallet (Some sessionKey) (ed_public sessionKey) (Some src) limiter None [] [] None)
          now (Some nonceS)) =
    Some (Ok i, (limiter, Ok (wallet_identity caps o root))) /\
  Label i = str "wallet:" ++ Address (ed_public sessionKey).
Proof. by eapply wallet_duet. Qed.

(** The on-demand lookups a cache miss may trigger are bounded.  With the
    default settings a server's token bucket grants exactly the first ten of
    any number of requests made before its clock advances. *)
Theorem verify_burst_bounded {E : Ed25519} sessionKey src now n
  (Hkey : len sessionKey = PrivateKeySize) :
  exists w l, NewWalletServerAuth now (mkServerOptions sessionKey (Some src) fzero 0) = Ok w /\
    verifyLimiter w = Some l /\
    exists l', burst l now n = (l', Nat.min n 10).
Proof.
  unfold NewWalletServerAuth. cbn [SessionKey OSource VerifyRatePerSec VerifyBurst].
  rewrite Hkey. eexists _, _. split; [reflexivity|]. split; [reflexivity|].
  apply burst_default.
Qed.

(** ** Witnesses *)

Definition wallet_server : WalletAuth :=
  mkWallet (Some (key_of x05)) (ed_public (key_of x05)) (Some (mkSource (Ok (snap1, true)) (fun _ => Ok None)))
    None None [] [] None.

Definition wallet_acts : list (peer_act WalletMessage) :=
  [PRead (Some (WalletHello (key_of x08) (replicate 32 x01) [hop1; hop2])); PWrite true;
   PRead (Some (WalletProof (ed_sign (key_of x08) (str "any"))))].

Lemma wallet_server_admits_only_delegated_witness :
  fst (run (WalletServerHandshake wallet_server (fun _ => t0 + 1) (Some (replicate 32 x02))) wallet_acts) =
    (None, Ok (wallet_identity 1 false (key_of x06))) /\
  exists root, Label (wallet_identity 1 false (key_of x06)) = Address root.
Proof.
  assert (fst (run (WalletServerHandshake wallet_server (fun _ => t0 + 1) (Some (replicate 32 x02))) wallet_acts) =
    (None, Ok (wallet_identity 1 false (key_of x06)))) as H by (vm_compute; reflexivity).
  split; [exact H|].
  destruct (wallet_server_admits_only_delegated wallet_server (fun _ => t0 + 1) (replicate 32 x02) wallet_acts
    None (wallet_identity 1 false (key_of x06)) H)
    as (_ & _ & _ & _ & _ & _ & root & _ & _ & _ & _ & _ & _ & _ & _ & _ & _ & _ & Hl & _).
  exists root. exact Hl.
Defined.

Definition wallet_client : WalletAuth :=
  mkWallet None [] None None (Some (key_of x08)) (key_of x08) [hop1; hop2] (Some (key_of x05)).

Definition server_acts : list (peer_act WalletMessage) :=
  [PWrite true; PRead (Some (WalletChallenge (key_of x05) (replicate 32 x02) (ed_sign (key_of x05) (str "any"))));
   PWrite true].

Lemma wallet_client_reaches_expected_witness :
  exists i, fst (run (WalletClientHandshake wallet_client (Some (replicate 32 x01))) server_acts) = Ok i /\
    IsOwner i = false.
Proof.
  eexists. split; [vm_compute; reflexivity|].
  edestruct (wallet_client_reaches_expected wallet_client (replicate 32 x01) server_acts)
    as (_ & _ & _ & _ & _ & _ & _ & _ & _ & _ & _ & Ho); [vm_compute; reflexivity|exact Ho].
Defined.

Lemma wallet_handshake_completes_witness :
  Fold [hop1; hop2] (ed_public (key_of x08)) (ed_public (key_of x05)) snap1 (t0 + 1) = Ok (1, false) /\
  exists r, duet (WalletClientHandshake
          (mkWallet None [] None None (Some (key_of x08)) (ed_public (key_of x08)) [hop1; hop2] None)
          (Some (replicate 32 x01)))
       (WalletServerHandshake wallet_server (fun _ => t0 + 1) (Some (replicate 32 x02))) = Some r /\
    snd (snd r) = Ok (wallet_identity 1 false (key_of x06)).
Proof.
  split; [vm_compute; reflexivity|].
  destruct (wallet_handshake_completes (key_of x08) [hop1; hop2] None (key_of x05)
    (mkSource (Ok (snap1, true)) (fun _ => Ok None)) snap1 None (fun _ => t0 + 1)
    (replicate 32 x01) (replicate 32 x02) 1 false (key_of x06)
    (or_introl eq_refl) eq_refl eq_refl eq_refl ltac:(vm_compute; reflexivity) ltac:(vm_compute; reflexivity))
    as (i & Hd & _).
  eexists. split; [exact Hd|reflexivity].
Defined.

Lemma verify_burst_bounded_witness :
  len (replicate 64 x05) = PrivateKeySize /\
  exists w l l', NewWalletServerAuth t0 (mkServerOptions (replicate 64 x05)
      (Some (mkSource (Err ErrNoSnapshot) (fun _ => Ok None))) fzero 0) = Ok w /\
    verifyLimiter w = Some l /\ burst l t0 25 = (l', 10%nat).
Proof.
  split; [reflexivity|].
  destruct (verify_burst_bounded (replicate 64 x05) (mkSource (Err ErrNoSnapshot) (fun _ => Ok None)) t0 25 eq_refl)
    as (w & l & Hw & Hl & l' & Hb).
  exists w, l, l'. split; [exact Hw|]. split; [exact Hl|exact Hb].
Defined.
