(* ===== verification/AuthWrap.v ===== *)
(** * The authenticating transport (src/auth/auth.go, src/auth/wrap.go)

    [Authenticator] is the interface of auth.go; the three authenticators
    discharge it.  [Wrapped] runs one on every connection: the server side
    records the identity of each remote whose handshake succeeded and admits
    application streams of recorded remotes only, the client side runs the
    handshake, waits for the acknowledgement byte and only then opens the
    application stream.  The theorems are about any authenticator. *)

From S2P Require Import Prelude Identity Delegation Fold Cert Handshake AuthPSK AuthCert AuthWallet.

(** ** auth.Authenticator *)

(** [aenv]: the nonce and clock readings one handshake draws.  The server
    side may change the authenticator (the wallet's lookup budget). *)
Class Authenticator (A : Type) := {
  amsg : Type; aenv : Type; aerr : Type;
  Name : A -> bytes;
  client_handshake : A -> aenv -> prog amsg (res aerr Identity);
  server_handshake : A -> aenv -> prog amsg (A * res aerr Identity);
}.

#[global] Instance psk_authenticator `{MacPrims} : Authenticator PSKAuth := {|
  Name _ := str "psk";
  client_handshake a nonce := ClientHandshake a nonce;
  server_handshake a nonce := pmap (pair a) (ServerHandshake a nonce);
|}.

(** SIGHUPs swap the revocation list while the server runs, so what they have
    read is part of the environment of the handshake. *)
#[global] Instance cert_authenticator `{Ed25519, ProtoCodec} : Authenticator CertAuth := {|
  Name _ := str "cert";
  client_handshake c '(files, wall, nonce) := CertClientHandshake (watchRevocationFile c files) wall nonce;
  server_handshake c '(files, wall, nonce) :=
    pmap (pair c) (CertServerHandshake (watchRevocationFile c files) wall nonce);
|}.

Definition with_limiter (w : WalletAuth) (l : option rateLimiter) : WalletAuth :=
  mkWallet (sessionPriv w) (wsessionID w) (source w) l (connPriv w) (wconnPub w) (wchain w) (expectSession w).

(** A handshake polls the server's source, so what the source answers is part
    of the environment of the handshake. *)
Definition with_source (w : WalletAuth) (src : SnapshotSource) : WalletAuth :=
  mkWallet (sessionPriv w) (wsessionID w) (const src <$> source w) (verifyLimiter w) (connPriv w) (wconnPub w)
    (wchain w) (expectSession w).

#[global] Instance wallet_authenticator `{Ed25519} : Authenticator WalletAuth := {|
  Name _ := str "wallet";
  client_handshake w '(src, now, nonce) := WalletClientHandshake w nonce;
  server_handshake w '(src, now, nonce) :=
    pmap (fun '(l, r) => (with_limiter w l, r)) (WalletServerHandshake (with_source w src) now nonce);
|}.

(** ** auth.Wrapped *)

Definition ProtoAuth : bytes := str "/mosey/auth/1.0.0".
Definition ackOK : byte := x01.

(** What the inner transport has registered for a protocol: the handler
    [Serve] installs, or the gate around application handler [h]. *)
Inductive hkind := HServe | HGated (h : nat).

Section wrapped.
Context {A : Type} {AU : Authenticator A}.

Record Wrapped := mkWrapped {
  auth : A;
  handlers : gmap bytes hkind;       (* the inner transport's table *)
  identities : gmap bytes Identity;  (* keyed by remote id *)
  localIdentity : Identity;
}.

Definition Wrap (a : A) : Wrapped := mkWrapped a ∅ ∅ zeroIdentity.

Definition Handle (w : Wrapped) (proto : bytes) (h : nat) : Wrapped :=
  if bool_decide (proto = ProtoAuth) then w
  else mkWrapped (auth w) (<[proto := HGated h]> (handlers w)) (identities w) (localIdentity w).

Definition Unhandle (w : Wrapped) (proto : bytes) : Wrapped :=
  if bool_decide (proto = ProtoAuth) then w
  else mkWrapped (auth w) (delete proto (handlers w)) (identities w) (localIdentity w).

Definition Serve (w : Wrapped) : Wrapped :=
  mkWrapped (auth w) (<[ProtoAuth := HServe]> (handlers w)) (identities w) (localIdentity w).

(** What a handler does with stream [s], in order. *)
Inductive weffect :=
| CloseStream (s : nat)
| WriteAck (s : nat) (b : byte)
| Invoke (h s : nat) (id : Identity)   (* h(&identityStream{s, id}) *)
| NoHandler (s : nat).

(** The handler of [Serve]: the identity is stored before the
    acknowledgement is written. *)
Definition serve_auth (w : Wrapped) (s : nat) (remote : bytes) (env : aenv) (acts : list (peer_act amsg))
    : Wrapped * list weffect :=
  match fst (run (server_handshake (auth w) env) acts) with
  | (a, Err _) => (mkWrapped a (handlers w) (identities w) (localIdentity w), [CloseStream s])
  | (a, Ok identity) =>
      (mkWrapped a (handlers w) (<[remote := identity]> (identities w)) (localIdentity w),
       [WriteAck s ackOK; CloseStream s])
  end.

(** The closure [Handle] registers. *)
Definition gate (w : Wrapped) (h s : nat) (remote : bytes) : list weffect :=
  match identities w !! remote with
  | None => [CloseStream s]
  | Some id => [Invoke h s id]
  end.

(** An inbound stream, dispatched by the inner transport.  [env] and [acts]
    are drawn on by the handshake only. *)
Inductive wevent :=
| EHandle (proto : bytes) (h : nat)
| EUnhandle (proto : bytes)
| EServe
| EStream (s : nat) (remote proto : bytes) (env : aenv) (acts : list (peer_act amsg)).

Definition wstep (w : Wrapped) (e : wevent) : Wrapped * list weffect :=
  match e with
  | EHandle proto h => (Handle w proto h, [])
  | EUnhandle proto => (Unhandle w proto, [])
  | EServe => (Serve w, [])
  | EStream s remote proto env acts =>
      match handlers w !! proto with
      | None => (w, [NoHandler s])
      | Some HServe => serve_auth w s remote env acts
      | Some (HGated h) => (w, gate w h s remote)
      end
  end.

Definition after (a : A) (evs : list wevent) : Wrapped :=
  fold_left (fun w e => fst (wstep w e)) evs (Wrap a).

(** ** Dial *)

Inductive WDialError := OpenAuth | HandshakeErr (e : aerr) | NoAck | BadAck (b : byte) | OpenApp.

(** What the inner transport does for one Dial: whether each stream opens,
    the peer's side of the handshake, and the byte read after it. *)
Record dial_env := mkDialEnv {
  open_auth : bool;
  denv : aenv;
  dacts : list (peer_act amsg);
  ack : option byte;
  open_app : bool;
}.

(** Returns the identity attached to the application stream. *)
Definition Dial (w : Wrapped) (d : dial_env) : Wrapped * res WDialError Identity :=
  if negb (open_auth d) then (w, Err OpenAuth)
  else match fst (run (client_handshake (auth w) (denv d)) (dacts d)) with
       | Err e => (w, Err (HandshakeErr e))
       | Ok localID =>
           match ack d with
           | None => (w, Err NoAck)
           | Some b =>
               if negb (bool_decide (b = ackOK)) then (w, Err (BadAck b))
               else
                 let w := mkWrapped (auth w) (handlers w) (identities w) localID in
                 if negb (open_app d) then (w, Err OpenApp) else (w, Ok localID)
           end
       end.

Definition LocalIdentity (w : Wrapped) : Identity := localIdentity w.

(** ** The specification: the latest successful handshake of a remote *)

(** In [evs], [remote] completed a handshake as [id], and [later] is what
    came after. *)
Definition authenticated (a : A) (evs : list wevent) (remote : bytes) (id : Identity) (later : list wevent) : Prop :=
  exists before s env acts,
    evs = before ++ EStream s remote ProtoAuth env acts :: later /\
    handlers (after a before) !! ProtoAuth = Some HServe /\
    snd (fst (run (server_handshake (auth (after a before)) env) acts)) = Ok id.

Definition latest (a : A) (evs : list wevent) (remote : bytes) (id : Identity) : Prop :=
  exists later, authenticated a evs remote id later /\
    forall id' later', authenticated a evs remote id' later' -> (length later <= length later')%nat.

(** ** Lemmas *)

Lemma after_snoc a evs e : after a (evs ++ [e]) = fst (wstep (after a evs) e).
Proof. unfold after. by rewrite fold_left_app. Qed.

(** Only [Serve] registers on the auth protocol, only [Handle] on others. *)
Lemma handlers_auth a evs h : handlers (after a evs) !! ProtoAuth <> Some (HGated h).
Proof.
  induction evs as [|e evs IH] using rev_ind; [done|]. rewrite after_snoc. revert IH.
  generalize (after a evs) as w. intros w IH. destruct e as [proto h'|proto| |s r proto env acts]; simpl.
  - unfold Handle. case_bool_decide; [done|]. simpl. by rewrite lookup_insert_ne.
  - unfold Unhandle. case_bool_decide; [done|]. simpl. by rewrite lookup_delete_ne.
  - by rewrite lookup_insert_eq.
  - destruct (handlers w !! proto) as [[|h']|]; [|done|done]. unfold serve_auth.
    by destruct (fst (run _ _)) as [? []].
Qed.

Lemma handlers_serve a evs proto : handlers (after a evs) !! proto = Some HServe -> proto = ProtoAuth.
Proof.
  induction evs as [|e evs IH] using rev_ind; [done|]. rewrite after_snoc. revert IH.
  generalize (after a evs) as w. intros w IH. destruct e as [p h'|p| |s r p env acts]; simpl.
  - unfold Handle. case_bool_decide; [done|]. simpl. intros [[_ ?]|[_ ?]]%lookup_insert_Some; [done|auto].
  - unfold Unhandle. case_bool_decide; [done|]. simpl. intros [_ ?]%lookup_delete_Some. auto.
  - intros [[<- _]|[_ ?]]%lookup_insert_Some; auto.
  - destruct (handlers w !! p) as [[|h']|]; [|done|done]. unfold serve_auth.
    by destruct (fst (run _ _)) as [? []].
Qed.

Lemma authenticated_snoc a evs e remote id later :
  authenticated a (evs ++ [e]) remote id later <->
  (later = [] /\ exists s env acts, e = EStream s remote ProtoAuth env acts /\
    handlers (after a evs) !! ProtoAuth = Some HServe /\
    snd (fst (run (server_handshake (auth (after a evs)) env) acts)) = Ok id) \/
  exists later', later = later' ++ [e] /\ authenticated a evs remote id later'.
Proof.
  split.
  - intros (before & s & env & acts & Heq & Hh & Hr).
    destruct later as [|x later'] using rev_ind.
    + left. apply app_inj_tail in Heq as [-> ->]. split; [done|]. by exists s, env, acts.
    + right. rewrite app_comm_cons, app_assoc in Heq. apply app_inj_tail in Heq as [-> ->].
      exists later'. split; [done|]. by exists before, s, env, acts.
  - intros [(-> & s & env & acts & -> & Hh & Hr)|(later' & -> & before & s & env & acts & -> & Hh & Hr)].
    + by exists evs, s, env, acts.
    + exists before, s, env, acts. by rewrite <- app_assoc.
Qed.

(** An event that is not a successful handshake of [remote] changes neither
    what is recorded for it nor what it authenticated as. *)
Lemma latest_skip a evs e remote id :
  (forall id', ~ authenticated a (evs ++ [e]) remote id' []) ->
  latest a (evs ++ [e]) remote id <-> latest a evs remote id.
Proof.
  intros Hno. split.
  - intros (later & Ha & Hmin). apply authenticated_snoc in Ha as Ha'.
    destruct Ha' as [[-> _]|(later' & -> & Ha')]; [by destruct (Hno id)|].
    exists later'. split; [done|]. intros id' l' H'.
    specialize (Hmin id' (l' ++ [e])). rewrite !length_app in Hmin. simpl in Hmin.
    cut (length later' + 1 <= length l' + 1)%nat; [lia|]. apply Hmin, authenticated_snoc. right. by exists l'.
  - intros (later & Ha & Hmin). exists (later ++ [e]). split.
    + apply authenticated_snoc. right. by exists later.
    + intros id' l' H'. apply authenticated_snoc in H' as H''.
      destruct H'' as [[-> _]|(l'' & -> & H'')]; [by destruct (Hno id')|].
      rewrite !length_app. specialize (Hmin _ _ H''). lia.
Qed.

Lemma latest_now a evs remote id :
  authenticated a evs remote id [] ->
  latest a evs remote id.
Proof. intros H. exists []. split; [done|]. simpl. lia. Qed.

Lemma authenticated_now_fun a evs remote id id' :
  authenticated a evs remote id [] -> latest a evs remote id' -> id' = id.
Proof.
  intros (b & s & env & acts & -> & Hh & Hr) (later & Ha & Hmin).
  assert (later = []) as ->.
  { apply nil_length_inv. specialize (Hmin id []). simpl in Hmin.
    enough (length later <= 0)%nat by lia. apply Hmin. by exists b, s, env, acts. }
  destruct Ha as (b' & s' & env' & acts' & Heq & _ & Hr').
  apply app_inj_tail in Heq as [-> [= -> -> ->]]. congruence.
Qed.

(** One event either is a successful handshake of [remote], and is recorded,
    or leaves its entry alone. *)
Lemma step_records a evs e remote :
  (exists id, authenticated a (evs ++ [e]) remote id [] /\
     identities (after a (evs ++ [e])) !! remote = Some id) \/
  ((forall id, ~ authenticated a (evs ++ [e]) remote id []) /\
     identities (after a (evs ++ [e])) !! remote = identities (after a evs) !! remote).
Proof.
  assert (Hskip : (forall s env acts id, e = EStream s remote ProtoAuth env acts ->
      handlers (after a evs) !! ProtoAuth = Some HServe ->
      snd (fst (run (server_handshake (auth (after a evs)) env) acts)) = Ok id -> False) ->
    forall id, ~ authenticated a (evs ++ [e]) remote id []).
  { intros Hs id [(_ & s & env & acts & -> & Hh & Hr)|(l & Hl & _)]%authenticated_snoc; [eauto|by destruct l]. }
  destruct e as [p h|p| |s r p env acts];
    [right; split; [apply Hskip; congruence|]; rewrite after_snoc; simpl;
     unfold Handle, Unhandle; try case_bool_decide; reflexivity..|].
  rewrite after_snoc. cbn [wstep]. destruct (handlers (after a evs) !! p) as [[|h]|] eqn:Ep.
  - apply handlers_serve in Ep as Hp. subst p. unfold serve_auth.
    destruct (fst (run _ acts)) as [a' [id|err]] eqn:Er.
    + destruct (decide (r = remote)) as [->|Hne].
      * left. exists id. split; [|cbn [fst identities]; by rewrite lookup_insert_eq].
        apply authenticated_snoc. left. split; [done|]. exists s, env, acts. by rewrite Er.
      * right. split; [apply Hskip; congruence|]. cbn [fst identities]. by rewrite lookup_insert_ne.
    + right. split; [|done]. apply Hskip. intros ???? [= <- <- <- <-] _. by rewrite Er.
  - right. split; [|done]. apply Hskip. intros ???? [= _ _ -> _ _] _. exfalso. by eapply handlers_auth.
  - right. split; [|done]. apply Hskip. intros ???? [= _ _ -> _ _]. congruence.
Qed.

(** The identity map is exactly the latest successful handshakes. *)
Lemma identities_latest a evs remote id :
  identities (after a evs) !! remote = Some id <-> latest a evs remote id.
Proof.
  revert id. induction evs as [|e evs IH] using rev_ind; intros id.
  { split; [done|]. intros (? & (b & ? & ? & ? & Heq & _) & _). by destruct b. }
  destruct (step_records a evs e remote) as [(id0 & Ha & ->)|[Hno ->]].
  - split; [intros [= ->]; by apply latest_now|]. intros Hl. by rewrite (authenticated_now_fun _ _ _ _ _ Ha Hl).
  - by rewrite IH, latest_skip.
Qed.

Lemma latest_exists a evs remote id later :
  authenticated a evs remote id later -> is_Some (identities (after a evs) !! remote).
Proof.
  revert later id. induction evs as [|e evs IH] using rev_ind; intros later id Ha.
  { destruct Ha as (b & ? & ? & ? & Heq & _). by destruct b. }
  destruct (step_records a evs e remote) as [(id0 & _ & ->)|[Hno ->]]; [done|].
  apply authenticated_snoc in Ha as Ha'. destruct Ha' as [[-> _]|(l' & -> & Ha')]; [by destruct (Hno id)|eauto].
Qed.
End wrapped.

(** ** The claims *)

(** C4: an application handler only ever sees an authenticated peer.  After
    any sequence of registrations and inbound streams, a stream on a gated
    protocol either is handed to the registered handler with exactly the
    identity of the latest successful handshake of its remote, or, when that
    remote never completed one, is closed and nothing else; and no
    application can register on the auth protocol itself. *)
Theorem gate_admits_only_authenticated {A} {AU : Authenticator A} a evs s remote proto env acts h w' out
  (Hgated : handlers (after a evs) !! proto = Some (HGated h))
  (Hstep : wstep (after a evs) (EStream s remote proto env acts) = (w', out)) :
  proto <> ProtoAuth /\ w' = after a evs /\
  ((exists id, out = [Invoke h s id] /\ latest a evs remote id) \/
   (out = [CloseStream s] /\ forall id later, ~ authenticated a evs remote id later)).
Proof.
  split; [intros ->; by eapply handlers_auth|]. cbn [wstep] in Hstep. rewrite Hgated in Hstep.
  injection Hstep as <- <-. split; [done|]. unfold gate.
  destruct (identities (after a evs) !! remote) as [id|] eqn:Ei.
  - left. exists id. split; [done|]. by apply identities_latest.
  - right. split; [done|]. intros id later [? Hs]%latest_exists. congruence.
Qed.

(** A dial that returns was admitted first.  Let a client's auth stream
    be served by any handshake, the acknowledgement byte reaching the client
    only if the server wrote it.  If Dial then returns a stream, the server's
    handshake succeeded and the client's next application stream is handed to
    the handler with the identity the server derived, whatever that stream
    does; if Dial fails before the acknowledgement, the client's wrapper is
    unchanged. *)
Theorem dial_waits_for_admission {A} {AU : Authenticator A} (c s : Wrapped) d env acts s1 s2 remote proto h
  (Hserve : handlers s !! ProtoAuth = Some HServe) (Hgated : handlers s !! proto = Some (HGated h))
  (Hlink : forall b, ack d = Some b -> WriteAck s1 b ∈ snd (wstep s (EStream s1 remote ProtoAuth env acts))) :
  (forall id, snd (Dial c d) = Ok id -> LocalIdentity (fst (Dial c d)) = id /\
     exists sid, snd (fst (run (server_handshake (auth s) env) acts)) = Ok sid /\
       forall env' acts',
         snd (wstep (fst (wstep s (EStream s1 remote ProtoAuth env acts))) (EStream s2 remote proto env' acts'))
         = [Invoke h s2 sid]) /\
  (ack d = None -> fst (Dial c d) = c /\ is_ok (snd (Dial c d)) = false).
Proof.
  assert (Hack : ack d = None \/ exists a' sid, fst (run (server_handshake (auth s) env) acts) = (a', Ok sid)).
  { destruct (ack d) as [b|]; [right|by left]. specialize (Hlink b eq_refl). cbn [wstep] in Hlink.
    rewrite Hserve in Hlink. unfold serve_auth in Hlink.
    destruct (fst (run _ acts)) as [a' [sid|]]; [by exists a', sid|].
    by apply list_elem_of_singleton in Hlink. }
  unfold Dial. destruct (open_auth d); cbn [negb]; [|done].
  destruct (fst (run _ (dacts d))) as [lid|]; [|done].
  destruct Hack as [->|(a' & sid & Hs)]; [done|].
  destruct (ack d) as [b|]; [|done]. case_bool_decide; cbn [negb]; [|done].
  destruct (open_app d); cbn [negb fst snd]; [|done]. split; [|done].
  intros id [= ->]. split; [done|]. exists sid. rewrite Hs. split; [done|]. intros env' acts'.
  cbn [wstep]. rewrite Hserve. unfold serve_auth. rewrite Hs. cbn [fst wstep handlers]. rewrite Hgated.
  unfold gate. cbn [snd identities]. by rewrite lookup_insert_eq.
Qed.

(** ** Witnesses *)

(** The team's server of AuthPSK.v behind the gate: peer A proves the
    reader's secret, then opens a terminal. *)
Definition pty_proto : bytes := str "/mosey/pty/1.0.0".

Definition reader_acts : list (peer_act AuthMessage) :=
  [PRead (Some (ClientHello (nonce_of x01) LabelReader)); PWrite true;
   PRead (Some (ClientProof (mac (str "peek" ++ pskInfo) macLabelClient (nonce_of x02) (nonce_of x01))))].

Definition psk_stream (s : nat) (remote proto : bytes) (nonce : option bytes)
    (acts : list (peer_act AuthMessage)) : @wevent PSKAuth psk_authenticator :=
  @EStream PSKAuth psk_authenticator s remote proto nonce acts.

Definition wrap_events : list (@wevent PSKAuth psk_authenticator) :=
  [EServe; EHandle pty_proto 7; psk_stream 1 (str "A") ProtoAuth (Some (nonce_of x02)) reader_acts].

Definition team_auth : PSKAuth := match NewMultiPSKAuth team with Ok a => a | Err _ => mkPSK ∅ [] end.

Definition empty_acts : list (peer_act AuthMessage) := [].

Lemma gate_admits_only_authenticated_witness :
  snd (wstep (after team_auth wrap_events) (psk_stream 2 (str "A") pty_proto None empty_acts)) =
    [Invoke 7 2 (mkIdentity LabelReader zeroCaps)] /\
  latest team_auth wrap_events (str "A") (mkIdentity LabelReader zeroCaps).
Proof.
  assert (snd (wstep (after team_auth wrap_events) (psk_stream 2 (str "A") pty_proto None empty_acts)) =
    [Invoke 7 2 (mkIdentity LabelReader zeroCaps)]) as H by (vm_compute; reflexivity).
  split; [exact H|].
  destruct (gate_admits_only_authenticated team_auth wrap_events 2 (str "A") pty_proto None empty_acts 7 _ _
    ltac:(vm_compute; reflexivity) (surjective_pairing _)) as (_ & _ & [(id & Ho & Hl)|[Ho _]]).
  - assert ([Invoke 7 2 (mkIdentity LabelReader zeroCaps)] = [Invoke 7 2 id]) as [= <-]
      by exact (eq_trans (eq_sym H) Ho). exact Hl.
  - discriminate (eq_trans (eq_sym H) Ho).
Defined.

Definition reader_auth : PSKAuth :=
  match NewMultiPSKAuth [mkSecret LabelReader (str "peek") zeroCaps] with Ok a => a | Err _ => mkPSK ∅ [] end.

Definition reader_dial : @dial_env PSKAuth psk_authenticator :=
  @mkDialEnv PSKAuth psk_authenticator true (Some (nonce_of x01))
    ([PWrite true; PRead (Some (ServerProof (nonce_of x02)
        (mac (str "peek" ++ pskInfo) macLabelServer (nonce_of x01) (nonce_of x02)))); PWrite true])
    (Some ackOK) true.

Definition team_server : @Wrapped PSKAuth := Handle (Serve (Wrap team_auth)) pty_proto 7.

Lemma dial_waits_for_admission_witness :
  snd (Dial (Wrap reader_auth) reader_dial) = Ok (mkIdentity LabelReader zeroCaps) /\
  exists sid,
    snd (wstep (fst (wstep team_server (psk_stream 1 (str "A") ProtoAuth (Some (nonce_of x02)) reader_acts)))
           (psk_stream 2 (str "A") pty_proto None empty_acts)) = [Invoke 7 2 sid].
Proof.
  assert (snd (Dial (Wrap reader_auth) reader_dial) = Ok (mkIdentity LabelReader zeroCaps)) as H.
  { assert (match snd (Dial (Wrap reader_auth) reader_dial) with
            | Ok i => bool_decide (i = mkIdentity LabelReader zeroCaps) | Err _ => false end = true) as X
      by (vm_compute; reflexivity).
    destruct (snd (Dial (Wrap reader_auth) reader_dial)) as [i|]; [|discriminate].
    apply bool_decide_eq_true in X as ->. reflexivity. }
  split; [exact H|].
  destruct (dial_waits_for_admission (Wrap reader_auth) team_server reader_dial (Some (nonce_of x02)) reader_acts
    1 2 (str "A") pty_proto 7 ltac:(vm_compute; reflexivity) ltac:(vm_compute; reflexivity)) as [Hd _].
  - intros b [= <-].
    change (WriteAck 1 ackOK ∈ snd (wstep team_server
      (psk_stream 1 (str "A") ProtoAuth (Some (nonce_of x02)) reader_acts))).
    assert (snd (wstep team_server (psk_stream 1 (str "A") ProtoAuth (Some (nonce_of x02)) reader_acts)) =
      [WriteAck 1 ackOK; CloseStream 1]) as -> by (vm_compute; reflexivity).
    left.
  - destruct (Hd _ H) as (_ & sid & _ & Hs). exists sid. apply Hs.
Defined.
