(* ===== verification/Sha256.v ===== *)
(** * SHA-256 (Go's crypto/sha256)

    The hash behind Solana's discriminators and program-derived addresses,
    written out (FIPS 180-4) so that those values are concrete; checked on the
    standard's test vectors. *)

From S2P Require Import Prelude.

Definition rotr (x n : Z) : Z := Z.lor (Z.shiftr x n) (u32 (Z.shiftl x (32 - n))).
Definition not32 (x : Z) : Z := 2 ^ 32 - 1 - x.

(** The round constants are the first 32 bits of the fractional parts of the
    cube roots of the first 64 primes, the initial state those of the square
    roots of the first eight. *)
Definition prime (n : nat) : bool := forallb (fun d => negb (n mod d =? 0)%nat) (seq 2 (n - 2)).

Definition primes : list Z := Eval vm_compute in Z.of_nat <$> filter (fun n => prime n = true) (seq 2 310).

(** The integer cube root below 2^bits, one bit at a time. *)
Fixpoint cube_root (bits : nat) (root n : Z) : Z :=
  match bits with
  | O => root
  | S bits => let r := root + 2 ^ Z.of_nat bits in
              cube_root bits (if r * r * r <=? n then r else root) n
  end.

Definition sha_k : list Z := Eval vm_compute in (fun p => u32 (cube_root 40 0 (p * 2 ^ 96))) <$> primes.

Definition sqrt_frac (i : nat) : Z := u32 (Z.sqrt (nth i primes 0 * 2 ^ 64)).

Record sha_state := mkSha { sa : Z; sb : Z; sc : Z; sd : Z; se : Z; sf : Z; sg : Z; sh : Z }.

Definition sha_init : sha_state :=
  Eval vm_compute in mkSha (sqrt_frac 0) (sqrt_frac 1) (sqrt_frac 2) (sqrt_frac 3)
    (sqrt_frac 4) (sqrt_frac 5) (sqrt_frac 6) (sqrt_frac 7).

(** The four bytes of a word, most significant first, and back. *)
Definition be32 (w : Z) : bytes :=
  [z2b (Z.shiftr w 24); z2b (Z.shiftr w 16); z2b (Z.shiftr w 8); z2b w].

Fixpoint words (bs : bytes) : list Z :=
  match bs with
  | a :: b :: c :: d :: rest => (b2z a * 2 ^ 24 + b2z b * 2 ^ 16 + b2z c * 2 ^ 8 + b2z d) :: words rest
  | _ => []
  end.

(** The message schedule, newest word first. *)
Fixpoint schedule (n : nat) (w : list Z) : list Z :=
  match n with
  | O => w
  | S n =>
      let w2 := nth 1 w 0 in let w7 := nth 6 w 0 in let w15 := nth 14 w 0 in let w16 := nth 15 w 0 in
      let s0 := Z.lxor (Z.lxor (rotr w15 7) (rotr w15 18)) (Z.shiftr w15 3) in
      let s1 := Z.lxor (Z.lxor (rotr w2 17) (rotr w2 19)) (Z.shiftr w2 10) in
      schedule n (u32 (w16 + s0 + w7 + s1) :: w)
  end.

Definition sha_round (s : sha_state) (kw : Z * Z) : sha_state :=
  let S1 := Z.lxor (Z.lxor (rotr (se s) 6) (rotr (se s) 11)) (rotr (se s) 25) in
  let ch := Z.lxor (Z.land (se s) (sf s)) (Z.land (not32 (se s)) (sg s)) in
  let t1 := u32 (sh s + S1 + ch + fst kw + snd kw) in
  let S0 := Z.lxor (Z.lxor (rotr (sa s) 2) (rotr (sa s) 13)) (rotr (sa s) 22) in
  let maj := Z.lxor (Z.lxor (Z.land (sa s) (sb s)) (Z.land (sa s) (sc s))) (Z.land (sb s) (sc s)) in
  let t2 := u32 (S0 + maj) in
  mkSha (u32 (t1 + t2)) (sa s) (sb s) (sc s) (u32 (sd s + t1)) (se s) (sf s) (sg s).

Definition sha_block (s : sha_state) (block : bytes) : sha_state :=
  let w := rev (schedule 48 (rev (words block))) in
  let t := fold_left sha_round (combine sha_k w) s in
  mkSha (u32 (sa s + sa t)) (u32 (sb s + sb t)) (u32 (sc s + sc t)) (u32 (sd s + sd t))
        (u32 (se s + se t)) (u32 (sf s + sf t)) (u32 (sg s + sg t)) (u32 (sh s + sh t)).

(** One bit 1, zeros, and the length in bits, to a multiple of 64 bytes. *)
Definition sha_pad (m : bytes) : bytes :=
  m ++ [x80] ++ replicate (Z.to_nat ((55 - len m) mod 64)) x00 ++
  be32 (Z.shiftr (8 * len m) 32) ++ be32 (8 * len m).

(** [n] blocks, from the front. *)
Fixpoint sha_blocks (n : nat) (s : sha_state) (m : bytes) : sha_state :=
  match n with
  | O => s
  | S n => sha_blocks n (sha_block s (take 64 m)) (drop 64 m)
  end.

Definition sha256 (m : bytes) : bytes :=
  let p := sha_pad m in
  let s := sha_blocks (length p / 64) sha_init p in
  be32 (sa s) ++ be32 (sb s) ++ be32 (sc s) ++ be32 (sd s) ++
  be32 (se s) ++ be32 (sf s) ++ be32 (sg s) ++ be32 (sh s).

Lemma sha_k_len : length sha_k = 64%nat.
Proof. reflexivity. Qed.

Lemma sha256_len m : length (sha256 m) = 32%nat.
Proof. reflexivity. Qed.

Lemma sha_pad_len m : (64 | len (sha_pad m)).
Proof.
  unfold sha_pad, len. rewrite !length_app, length_replicate. simpl.
  set (n := Z.of_nat (length m)).
  pose proof (Z.mod_pos_bound (55 - n) 64 ltac:(lia)). exists ((n + 9 + (55 - n) mod 64) / 64).
  pose proof (Z.div_mod (55 - n) 64 ltac:(lia)).
  assert (n + 9 + (55 - n) mod 64 = (1 - (55 - n) / 64) * 64) as E by lia.
  rewrite E, Z.div_mul by lia. lia.
Qed.

(** The standard's test vectors. *)
Example sha256_empty : sha256 [] = [xe3; xb0; xc4; x42; x98; xfc; x1c; x14; x9a; xfb; xf4; xc8; x99; x6f; xb9; x24; x27; xae; x41; xe4; x64; x9b; x93; x4c; xa4; x95; x99; x1b; x78; x52; xb8; x55].
Proof. vm_compute. reflexivity. Qed.

Example sha256_abc : sha256 (str "abc") = [xba; x78; x16; xbf; x8f; x01; xcf; xea; x41; x41; x40; xde; x5d; xae; x22; x23; xb0; x03; x61; xa3; x96; x17; x7a; x9c; xb4; x10; xff; x61; xf2; x00; x15; xad].
Proof. vm_compute. reflexivity. Qed.

Example sha256_two_blocks :
  sha256 (str "abcdbcdecdefdefgefghfghighijhijkijkljklmklmnlmnomnopnopq") = [x24; x8d; x6a; x61; xd2; x06; x38; xb8; xe5; xc0; x26; x93; x0c; x3e; x60; x39; xa3; x3c; xe4; x59; x64; xff; x21; x67; xf6; xec; xed; xd4; x19; xdb; x06; xc1].
Proof. vm_compute. reflexivity. Qed.
