(* ===== verification/Base64.v ===== *)
(** * Standard base64 (Go's encoding/base64, StdEncoding)

    Account data travels in JSON-RPC answers as padded base64.  Shown here:
    decoding inverts encoding. *)

From S2P Require Import Prelude.

Definition b64_alphabet : bytes := str "ABCDEFGHIJKLMNOPQRSTUVWXYZabcdefghijklmnopqrstuvwxyz0123456789+/".

Definition b64_char (i : Z) : byte := nth (Z.to_nat i) b64_alphabet x00.

Fixpoint index_of (c : byte) (l : bytes) (i : Z) : option Z :=
  match l with
  | [] => None
  | d :: l => if bool_decide (c = d) then Some i else index_of c l (i + 1)
  end.

Definition b64_val (c : byte) : option Z := index_of c b64_alphabet 0.

Definition PAD : byte := "="%byte.

Fixpoint EncodeToString (bs : bytes) : bytes :=
  match bs with
  | [] => []
  | [a] => let n := b2z a * 65536 in
           [b64_char (n / 262144); b64_char (n / 4096 mod 64); PAD; PAD]
  | [a; b] => let n := b2z a * 65536 + b2z b * 256 in
              [b64_char (n / 262144); b64_char (n / 4096 mod 64); b64_char (n / 64 mod 64); PAD]
  | a :: b :: c :: rest =>
      let n := b2z a * 65536 + b2z b * 256 + b2z c in
      b64_char (n / 262144) :: b64_char (n / 4096 mod 64) :: b64_char (n / 64 mod 64) :: b64_char (n mod 64)
        :: EncodeToString rest
  end.

(** A quantum of four characters; [None] is CorruptInputError. *)
Fixpoint decode_quanta (s : bytes) : option bytes :=
  match s with
  | [] => Some []
  | a :: b :: c :: d :: rest =>
      match b64_val a, b64_val b with
      | Some va, Some vb =>
          if bool_decide (c = PAD) then
            if bool_decide (d = PAD /\ rest = []) then Some [z2b ((va * 64 + vb) / 16)] else None
          else match b64_val c with
               | None => None
               | Some vc =>
                   if bool_decide (d = PAD) then
                     if bool_decide (rest = []) then
                       let n := (va * 64 + vb) * 64 + vc in Some [z2b (n / 1024); z2b (n / 4)]
                     else None
                   else match b64_val d with
                        | None => None
                        | Some vd =>
                            let n := ((va * 64 + vb) * 64 + vc) * 64 + vd in
                            out ← decode_quanta rest;
                            Some (z2b (n / 65536) :: z2b (n / 256) :: z2b n :: out)
                        end
               end
      | _, _ => None
      end
  | _ => None
  end.

(** Line ends are skipped wherever they stand. *)
Definition DecodeString (s : bytes) : option bytes :=
  decode_quanta (filter (fun c => c <> x0a /\ c <> x0d) s).

(** ** Decoding inverts encoding *)

Lemma b64_char_spec i : 0 <= i < 64 ->
  b64_val (b64_char i) = Some i /\ b64_char i <> PAD /\ b64_char i <> x0a /\ b64_char i <> x0d.
Proof.
  intros Hi. assert (Forall (fun n => b64_val (b64_char (Z.of_nat n)) = Some (Z.of_nat n) /\
    b64_char (Z.of_nat n) <> PAD /\ b64_char (Z.of_nat n) <> x0a /\ b64_char (Z.of_nat n) <> x0d)
    (seq 0 64)) as HF.
  { apply (bool_decide_unpack _). vm_compute. done. }
  rewrite <- (Z2Nat.id i) by lia.
  refine (proj1 (List.Forall_forall _ _) HF (Z.to_nat i) _). apply in_seq. lia.
Qed.

Definition plain (c : byte) : Prop := c <> x0a /\ c <> x0d.

Lemma EncodeToString_plain bs : Forall plain (EncodeToString bs).
Proof.
  assert (forall i, 0 <= i < 64 -> plain (b64_char i)) as HP.
  { intros i Hi. destruct (b64_char_spec i Hi) as (_ & _ & ?). done. }
  induction bs as [bs IH] using (induction_ltof1 _ (@length byte)); unfold ltof in IH.
  destruct bs as [|a [|b [|c rest]]]; cbn [EncodeToString].
  - constructor.
  - pose proof (b2z_range a). repeat constructor; try (by apply HP; lia); try done.
    all: apply HP; Z.to_euclidean_division_equations; lia.
  - pose proof (b2z_range a). pose proof (b2z_range b).
    repeat constructor; try done; apply HP; Z.to_euclidean_division_equations; lia.
  - pose proof (b2z_range a). pose proof (b2z_range b). pose proof (b2z_range c).
    do 4 (constructor; [apply HP; Z.to_euclidean_division_equations; lia|]).
    apply IH. simpl. lia.
Qed.

Lemma z2b_eq z b : z mod 256 = b2z b -> z2b z = b.
Proof. intros E. apply b2z_inj. by rewrite b2z_z2b. Qed.

Lemma decode_quanta_encode bs : decode_quanta (EncodeToString bs) = Some bs.
Proof.
  induction bs as [bs IH] using (induction_ltof1 _ (@length byte)); unfold ltof in IH.
  assert (forall i, 0 <= i < 64 -> b64_val (b64_char i) = Some i) as HV by (intros; by apply b64_char_spec).
  assert (forall i, 0 <= i < 64 -> bool_decide (b64_char i = PAD) = false) as HN.
  { intros. apply bool_decide_eq_false_2. by apply b64_char_spec. }
  destruct bs as [|a [|b [|c rest]]]; cbn [EncodeToString decode_quanta]; [done| | |].
  - pose proof (b2z_range a).
    rewrite !HV by (Z.to_euclidean_division_equations; lia).
    cbn. do 2 f_equal. apply z2b_eq. Z.to_euclidean_division_equations; lia.
  - pose proof (b2z_range a). pose proof (b2z_range b).
    rewrite !HV, !HN by (Z.to_euclidean_division_equations; lia).
    rewrite bool_decide_eq_true_2 by done. rewrite bool_decide_eq_true_2 by done.
    do 2 f_equal; [|f_equal]; apply z2b_eq; Z.to_euclidean_division_equations; lia.
  - pose proof (b2z_range a). pose proof (b2z_range b). pose proof (b2z_range c).
    rewrite !HV, !HN by (Z.to_euclidean_division_equations; lia).
    rewrite IH by (simpl; lia). cbn [mbind option_bind].
    do 2 f_equal; [|f_equal; [|f_equal]]; apply z2b_eq; Z.to_euclidean_division_equations; lia.
Qed.

Lemma filter_plain s : Forall plain s -> filter (fun c => c <> x0a /\ c <> x0d) s = s.
Proof. induction 1 as [|c s Hc _ IH]; [done|]. by rewrite filter_cons_True, IH. Qed.

Lemma Decode_Encode bs : DecodeString (EncodeToString bs) = Some bs.
Proof.
  unfold DecodeString. rewrite filter_plain; [apply decode_quanta_encode|apply EncodeToString_plain].
Qed.

Example b64_vector : EncodeToString (str "light work.") = str "bGlnaHQgd29yay4=".
Proof. reflexivity. Qed.
