(* ===== verification/Solana.v ===== *)
(** * The Solana snapshot source (src/walletsolana/decode.go, snapshot.go,
      source.go, subscribe.go, dashboard.go)

    [Source] reads the mosey-session program's accounts over JSON-RPC and
    keeps the snapshot that the wallet authenticator folds chains against.
    The RPC call (transport and JSON) is an input: what one
    getProgramAccounts returned.  Go's iteration order over a map is an input
    too, any permutation of the entries.  SHA-256 is Sha256.v's. *)

From S2P Require Import Prelude GoStrings WalletCaps Base58 GoTime Delegation Fold Sha256 Base64.

(** ** Little-endian integers (encoding/binary) *)

Fixpoint le_bytes (n : nat) (z : Z) : bytes :=
  match n with
  | O => []
  | S n => z2b z :: le_bytes n (Z.shiftr z 8)
  end.

Fixpoint le_value (bs : bytes) : Z :=
  match bs with
  | [] => 0
  | b :: bs => b2z b + Z.shiftl (le_value bs) 8
  end.

(** data[off:off+n] for offsets in range. *)
Definition sub_slice (data : bytes) (off n : nat) : bytes := take n (drop off data).

(** ** decode.go *)

Definition discriminator (name : bytes) : bytes := take 8 (sha256 (str "account:" ++ name)).

Definition sessionDisc : bytes := Eval vm_compute in discriminator (str "Session").
Definition grantDisc : bytes := Eval vm_compute in discriminator (str "Grant").

Definition sessionLen : Z := 8 + 32 + 32 + 2 + 1.
Definition grantLen : Z := 8 + 32 + 32 + 1 + 8 + 2 + 1.

Record SolSession := mkSolSession { SSessionKey : bytes; SOwner : bytes; SEpoch : Z }.

Record SolGrant := mkSolGrant {
  GSession : bytes; GGrantee : bytes; GCaps : WCaps; GExpiry : Z; GEpoch : Z
}.

Inductive SolError :=
| ShortAccount (n : Z) | WrongDiscriminator
| ProgramIDRequired | SessionKeyLen | RPCEndpointRequired
| CallFailed | DecodeFailed | NotRegistered | OwnerLength (n : Z)
| BadBlockhash | BadProgramID | NoBump | NoProgramIndex | MissingSigner (key : bytes)
| TxFailed | NotConfirmed.

Definition decodeSession (data : bytes) : res SolError SolSession :=
  if len data <? sessionLen then Err (ShortAccount (len data))
  else if negb (bool_decide (take 8 data = sessionDisc)) then Err WrongDiscriminator
  else
    let off := 8%nat in
    Ok (mkSolSession (sub_slice data off 32) (sub_slice data (off + 32) 32)
          (le_value (sub_slice data (off + 64) 2))).

Definition decodeGrant (data : bytes) : res SolError SolGrant :=
  if len data <? grantLen then Err (ShortAccount (len data))
  else if negb (bool_decide (take 8 data = grantDisc)) then Err WrongDiscriminator
  else
    let off := 8%nat in
    Ok (mkSolGrant (sub_slice data off 32) (sub_slice data (off + 32) 32)
          (b2z (nth (off + 64) data x00))
          (i64 (le_value (sub_slice data (off + 65) 8)))
          (le_value (sub_slice data (off + 73) 2))).

(** ** snapshot.go *)

Record snapshot := mkSnap { owner : bytes; grants : gmap bytes WCaps }.

Definition live_grant (s : SolSession) (g : SolGrant) (now : Z) : bool :=
  (GEpoch g =? SEpoch s) && negb (negb (GExpiry g =? 0) && (GExpiry g <=? Unix now)).

Definition buildSnapshot (s : SolSession) (gs : list SolGrant) (now : Z) : snapshot :=
  mkSnap (SOwner s)
    (fold_left (fun m g =>
       if negb (GEpoch g =? SEpoch s) then m
       else if negb (GExpiry g =? 0) && (GExpiry g <=? Unix now) then m
       else <[GGrantee g := GCaps g]> m) gs ∅).

Definition snapshot_view (s : snapshot) : Snapshot :=
  mkSnapshot (owner s) (fun w => grants s !! w).

(** ** source.go *)

Record Options := mkOptions {
  RPCEndpoint : bytes; WSEndpoint : bytes; OProgramID : bytes; OSessionKey : bytes;
  MaxStaleness : Z; PollInterval : Z; OCommitment : bytes;
  o_call : bool;    (* a caller was injected *)
  o_dialWS : bool;  (* a dialer was injected *)
}.

Record Source := mkSource {
  programID : bytes; sessionKey : bytes; maxStaleness : Z; pollInterval : Z;
  reconcileInterval : Z; commitment : bytes; wsEndpoint : bytes; has_dialWS : bool;
  snap : option snapshot; lastOK : Z; subAddrs : list bytes;
}.

Definition orDur (v def : Z) : Z := if v =? 0 then def else v.
Definition orStr (v def : bytes) : bytes := if bool_decide (v = []) then def else v.

Definition deriveWSEndpoint (rpc : bytes) : bytes :=
  if HasPrefix rpc (str "https://") then str "wss://" ++ TrimPrefix rpc (str "https://")
  else if HasPrefix rpc (str "http://") then str "ws://" ++ TrimPrefix rpc (str "http://")
  else [].

Definition New (opts : Options) : res SolError Source :=
  _ ← guard_ok (negb (bool_decide (OProgramID opts = []))) ProgramIDRequired;
  _ ← guard_ok (len (OSessionKey opts) =? PublicKeySize) SessionKeyLen;
  _ ← guard_ok (o_call opts || negb (bool_decide (RPCEndpoint opts = []))) RPCEndpointRequired;
  let ws := if bool_decide (WSEndpoint opts = []) && negb (bool_decide (RPCEndpoint opts = []))
            then deriveWSEndpoint (RPCEndpoint opts) else WSEndpoint opts in
  Ok (mkSource (OProgramID opts) (OSessionKey opts)
        (orDur (MaxStaleness opts) (30 * Second))
        (orDur (PollInterval opts) (10 * Second))
        (orDur (PollInterval opts) (10 * Second))
        (orStr (OCommitment opts) (str "confirmed")) ws
        (o_dialWS opts || negb (bool_decide (ws = []))) None 0 []).

(** Source.Snapshot; [now]: the clock reading. *)
Definition SourceSnapshot (s : Source) (now : Z) : res SourceError (snapshot * bool) :=
  match snap s with
  | None => Err ErrNoSnapshot
  | Some sn => Ok (sn, Sub now (lastOK s) <=? maxStaleness s)
  end.

(** One account of a getProgramAccounts answer: its address and its data
    array, the base64 text first. *)
Record rpcAccount := mkRpcAccount { Pubkey : bytes; Data : list bytes }.

Definition add_account (decoded : gmap bytes bytes) (a : rpcAccount) : gmap bytes bytes :=
  match Data a with
  | [] => decoded
  | text :: _ => match DecodeString text with
                 | None => decoded
                 | Some data => <[Pubkey a := data]> decoded
                 end
  end.

Definition decode_accounts (accounts : list rpcAccount) : gmap bytes bytes :=
  fold_left add_account accounts ∅.

(** The first loop: our session account, with its address. *)
Fixpoint find_session (key : bytes) (entries : list (bytes * bytes)) : option (SolSession * bytes * bytes) :=
  match entries with
  | [] => None
  | (pubkey, data) :: rest =>
      if (len data <? 8) || negb (bool_decide (take 8 data = sessionDisc)) then find_session key rest
      else match decodeSession data with
           | Err _ => find_session key rest
           | Ok dec =>
               if negb (bool_decide (SSessionKey dec = key)) then find_session key rest
               else match ParseAddress pubkey with
                    | Err _ => find_session key rest
                    | Ok addr => Some (dec, addr, pubkey)
                    end
           end
  end.

(** The second loop: the grants that name the session's account. *)
Fixpoint collect_grants (addr : bytes) (entries : list (bytes * bytes)) : list SolGrant * list bytes :=
  match entries with
  | [] => ([], [])
  | (pubkey, data) :: rest =>
      let '(gs, targets) := collect_grants addr rest in
      if (len data <? 8) || negb (bool_decide (take 8 data = grantDisc)) then (gs, targets)
      else match decodeGrant data with
           | Err _ => (gs, targets)
           | Ok g => if negb (bool_decide (GSession g = addr)) then (gs, targets)
                     else (g :: gs, pubkey :: targets)
           end
  end.

(** What one call to the node gives, after the JSON is decoded. *)
Definition rpc_answer := res SolError (list rpcAccount).

(** Refresh up to s.mu.Lock: the snapshot and the subscription targets made of
    the node's answer.  [order1], [order2]: the orders in which the two loops
    visit the map; [now]: the clock when the snapshot is built. *)
Definition fetch (sessionKey : bytes) (rpc : rpc_answer) (order1 order2 : gmap bytes bytes -> list (bytes * bytes))
    (now : Z) : res SolError (snapshot * list bytes) :=
  match rpc with
  | Err e => Err e
  | Ok accounts =>
      let decoded := decode_accounts accounts in
      match find_session sessionKey (order1 decoded) with
      | None => Err NotRegistered
      | Some (sess, sessAddr, sessAddrStr) =>
          let '(gs, targets) := collect_grants sessAddr (order2 decoded) in
          Ok (buildSnapshot sess gs now, sessAddrStr :: targets)
      end
  end.

(** What Refresh does under s.mu. *)
Definition store (s : Source) (sn : snapshot) (targets : list bytes) (now : Z) : Source :=
  mkSource (programID s) (sessionKey s) (maxStaleness s) (pollInterval s) (reconcileInterval s)
    (commitment s) (wsEndpoint s) (has_dialWS s) (Some sn) now targets.

(** Refresh with nobody else storing meanwhile; Refreshers.v has several of
    them at once.  [now1], [now2]: the clock when the snapshot is built and
    when it is stored. *)
Definition Refresh (s : Source) (rpc : rpc_answer) (order1 order2 : gmap bytes bytes -> list (bytes * bytes))
    (now1 now2 : Z) : Source * option SolError :=
  match fetch (sessionKey s) rpc order1 order2 now1 with
  | Err e => (s, Some e)
  | Ok (sn, targets) => (store s sn targets now2, None)
  end.

(** One refresh, with everything it draws from outside. *)
Record attempt := mkAttempt {
  a_rpc : rpc_answer;
  a_order1 : gmap bytes bytes -> list (bytes * bytes);
  a_order2 : gmap bytes bytes -> list (bytes * bytes);
  a_built : Z; a_stored : Z;
}.

Definition refresh (s : Source) (a : attempt) : Source * option SolError :=
  Refresh s (a_rpc a) (a_order1 a) (a_order2 a) (a_built a) (a_stored a).

(** VerifyNow: refresh, then look the wallet up.  The snapshot exists once a
    refresh succeeded. *)
Definition SourceVerifyNow (s : Source) (a : attempt) (w : bytes) : Source * res SolError (option WCaps) :=
  match refresh s a with
  | (s, Some e) => (s, Err e)
  | (s, None) => (s, Ok (match snap s with Some sn => grants sn !! w | None => None end))
  end.

(** Run's loop: refresh, wait, repeat; the errors go to onError. *)
Fixpoint run_loop (s : Source) (attempts : list attempt) : Source * list SolError :=
  match attempts with
  | [] => (s, [])
  | a :: rest =>
      let '(s, err) := refresh s a in
      let '(s, errs) := run_loop s rest in
      (s, match err with Some e => e :: errs | None => errs end)
  end.

Definition subscribeTargets (s : Source) : list bytes := subAddrs s.

(** The source as the authenticator uses it: the snapshot now, and the lookup
    a refresh [a] would give; [a] is VerifyNow's own refresh, or the one that
    was stored between it and the read that follows it (Refreshers.v). *)
Definition solana_source (s : Source) (now : Z) (a : attempt) : SnapshotSource :=
  Fold.mkSource
    (match SourceSnapshot s now with Ok (sn, fresh) => Ok (snapshot_view sn, fresh) | Err e => Err e end)
    (fun w => match snd (SourceVerifyNow s a w) with Ok r => Ok r | Err _ => Err ErrLookup end).

(** ** subscribe.go *)

(** reconcile: subscribe to every target not yet subscribed.  [sent] are the
    requests written, oldest first; [ok i] says whether the i-th write
    succeeds. *)
Fixpoint reconcile (targets : list bytes) (subscribed : gset bytes) (id : Z) (ok : Z -> bool)
    : gset bytes * Z * list (Z * bytes) * bool :=
  match targets with
  | [] => (subscribed, id, [], true)
  | addr :: rest =>
      if bool_decide (addr ∈ subscribed) then reconcile rest subscribed id ok
      else
        let id := id + 1 in
        if ok id then
          let '(sub, id', sent, r) := reconcile rest ({[addr]} ∪ subscribed) id ok in
          (sub, id', (id, addr) :: sent, r)
        else (subscribed, id, [(id, addr)], false)
  end.

(** The reader goroutine's signal on refreshNow, a channel of capacity one:
    a pending refresh absorbs further notifications. *)
Definition notify (pending : bool) (method : bytes) : bool :=
  if bool_decide (method = str "accountNotification") then true else pending.

Definition maxBackoff : Z := 30 * Second.

(** One turn of watch's loop, as far as the backoff is concerned: the dial
    failed, or the connection lasted [d]. *)
Inductive watch_turn := WDialFailed | WConn (d : Z).

(** The delay waited after this turn, and the backoff of the next one. *)
Definition watch_backoff (backoff : Z) (t : watch_turn) : Z * Z :=
  let backoff := match t with
                 | WConn d => if maxBackoff <? d then Second else backoff
                 | WDialFailed => backoff
                 end in
  (backoff, let b := backoff * 2 in if maxBackoff <? b then maxBackoff else b).

Fixpoint watch_delays (backoff : Z) (turns : list watch_turn) : list Z :=
  match turns with
  | [] => []
  | t :: rest => let '(d, backoff) := watch_backoff backoff t in d :: watch_delays backoff rest
  end.

(** ** dashboard.go *)

Record OwnedSession := mkOwned { OKey : bytes; OAddress : bytes; OEpoch : Z }.

Definition ownerOffset : Z := 8 + 32.

Fixpoint owned_sessions (accounts : list rpcAccount) : list OwnedSession :=
  match accounts with
  | [] => []
  | a :: rest =>
      match Data a with
      | [] => owned_sessions rest
      | text :: _ =>
          match DecodeString text with
          | None => owned_sessions rest
          | Some data =>
              if (len data <? 8) || negb (bool_decide (take 8 data = sessionDisc)) then owned_sessions rest
              else match decodeSession data with
                   | Err _ => owned_sessions rest
                   | Ok dec => mkOwned (SSessionKey dec) (Pubkey a) (SEpoch dec) :: owned_sessions rest
                   end
          end
      end
  end.

(** [rpc filter]: the node's answer to a getProgramAccounts with a memcmp
    filter (offset, base58 text). *)
Definition SessionsByOwner (rpc : Z * bytes -> rpc_answer) (ownerKey : bytes) : res SolError (list OwnedSession) :=
  if negb (len ownerKey =? PublicKeySize) then Err (OwnerLength (len ownerKey))
  else accounts ← rpc (ownerOffset, EncodeBase58 ownerKey); Ok (owned_sessions accounts).

(** ** Freshness *)

Definition refresh_failed (s : Source) (a : attempt) : Prop := exists e, snd (refresh s a) = Some e.

(** The snapshot a successful attempt stores. *)
Definition stores (s : Source) (a : attempt) (sn : snapshot) : Prop :=
  snd (refresh s a) = None /\ snap (fst (refresh s a)) = Some sn.

(** Only the session key matters to a refresh, and a refresh keeps the
    configuration. *)
Lemma refresh_conf s0 s a :
  sessionKey s = sessionKey s0 ->
  snd (refresh s a) = snd (refresh s0 a) /\
  sessionKey (fst (refresh s a)) = sessionKey s0 /\ maxStaleness (fst (refresh s a)) = maxStaleness s /\
  match snd (refresh s0 a) with
  | None => exists sn, stores s0 a sn /\ snap (fst (refresh s a)) = Some sn /\ lastOK (fst (refresh s a)) = a_stored a
  | Some _ => fst (refresh s a) = s
  end.
Proof.
  intros Hk. unfold stores, refresh, Refresh, fetch. destruct (a_rpc a) as [accounts|e]; [|done]. rewrite Hk.
  destruct (find_session _ _) as [[[sess addr] str]|]; [|done].
  destruct (collect_grants _ _) as [gs ts]. cbn. split_and!; try done. eexists. by split_and!.
Qed.

Lemma run_loop_app s l1 l2 : fst (run_loop s (l1 ++ l2)) = fst (run_loop (fst (run_loop s l1)) l2).
Proof.
  revert s. induction l1 as [|a l1 IH]; intros s; [done|]. cbn [run_loop app].
  destruct (refresh s a) as [s' err]. specialize (IH s').
  destruct (run_loop s' (l1 ++ l2)), (run_loop s' l1). done.
Qed.

Lemma run_loop_one s a : fst (run_loop s [a]) = fst (refresh s a).
Proof. cbn [run_loop]. by destruct (refresh s a). Qed.

(** What the source holds after some attempts. *)
Lemma run_loop_inv s0 attempts :
  snap s0 = None ->
  let s := fst (run_loop s0 attempts) in
  sessionKey s = sessionKey s0 /\ maxStaleness s = maxStaleness s0 /\
  match snap s with
  | None => Forall (refresh_failed s0) attempts
  | Some sn => exists before a after, attempts = before ++ a :: after /\
      stores s0 a sn /\ lastOK s = a_stored a /\ Forall (refresh_failed s0) after
  end.
Proof.
  intros H0. induction attempts as [|a l IH] using rev_ind; cbn zeta; [cbn [run_loop fst]; by rewrite H0|].
  rewrite run_loop_app, run_loop_one. cbn zeta in IH. set (s := fst (run_loop s0 l)) in *.
  destruct IH as (Hk & Hm & IH). destruct (refresh_conf s0 s a Hk) as (Hr & -> & -> & H).
  split; [done|]. split; [done|]. destruct (snd (refresh s0 a)) as [e|] eqn:Er.
  - rewrite H. destruct (snap s) as [sn|].
    + destruct IH as (before & a' & after & -> & Hst & Hl & Hf). exists before, a', (after ++ [a]).
      rewrite <- app_assoc, app_comm_cons. split_and!; try done. apply Forall_app. split; [done|].
      apply Forall_singleton. by exists e.
    + apply Forall_app. split; [done|]. apply Forall_singleton. by exists e.
  - destruct H as (sn & Hst & -> & Hl). exists l, a, []. split_and!; done.
Qed.

(** ** The claims *)

(** The snapshot served is the latest one loaded, and "fresh" means what
    it says.  After any sequence of refreshes of a new source, it serves the
    snapshot of the last refresh that succeeded, failed refreshes never
    disturbing it; it is reported fresh exactly while that refresh is at most
    MaxStaleness (30s by default) old; and before the first success there is
    an error, never an empty snapshot. *)
Theorem served_snapshot_is_latest opts s0 attempts now
  (Hnew : New opts = Ok s0) :
  match SourceSnapshot (fst (run_loop s0 attempts)) now with
  | Err _ => Forall (refresh_failed s0) attempts
  | Ok (sn, fresh) => exists before a after, attempts = before ++ a :: after /\
      stores s0 a sn /\ Forall (refresh_failed s0) after /\
      (fresh = true <-> Sub now (a_stored a) <= orDur (MaxStaleness opts) (30 * Second))
  end.
Proof.
  assert (snap s0 = None /\ maxStaleness s0 = orDur (MaxStaleness opts) (30 * Second)) as [H0 Hms].
  { unfold New in Hnew. repeat (apply bind_ok in Hnew as (? & _ & Hnew)). injection Hnew as <-. done. }
  destruct (run_loop_inv s0 attempts H0) as (_ & Hm & H). unfold SourceSnapshot.
  destruct (snap (fst (run_loop s0 attempts))) as [sn|]; [|done].
  destruct H as (before & a & after & -> & Hst & Hl & Hf). exists before, a, after. split_and!; try done.
  rewrite Hl, Hm, Hms. apply Z.leb_le.
Qed.

Lemma served_snapshot_is_latest_witness :
  exists s0, New (mkOptions (str "https://x") [] (str "1") (key_of x05) 0 0 [] false false) = Ok s0 /\
    Forall (refresh_failed s0) [mkAttempt (Err CallFailed) map_to_list map_to_list 0 0].
Proof.
  destruct (New (mkOptions (str "https://x") [] (str "1") (key_of x05) 0 0 [] false false)) as [s0|] eqn:E; [|not_err E].
  exists s0. split; [reflexivity|].
  pose proof (served_snapshot_is_latest _ s0 [mkAttempt (Err CallFailed) map_to_list map_to_list 0 0] 5 E) as H.
  unfold New in E. injection E as <-. exact H.
Defined.

(** The watcher's delays stay within one and thirty seconds. *)
Lemma watch_delays_bounded turns backoff :
  Second <= backoff <= maxBackoff -> Forall (fun d => Second <= d <= maxBackoff) (watch_delays backoff turns).
Proof.
  revert backoff. induction turns as [|t turns IH]; intros backoff Hb; cbn [watch_delays]; [constructor|].
  unfold watch_backoff. set (b := match t with WDialFailed => _ | WConn _ => _ end).
  assert (Second <= b <= maxBackoff) as Hb'.
  { unfold b, maxBackoff in *. destruct t; [done|]. destruct (_ <? d); unfold Second in *; lia. }
  constructor; [done|]. apply IH. unfold maxBackoff in *. destruct (_ <? b * 2) eqn:E; go_bool; unfold Second in *; lia.
Qed.

(** A reconcile that succeeds leaves every target subscribed, each request
    with a fresh id. *)
Lemma reconcile_spec targets sub id ok sub' id' sent :
  reconcile targets sub id ok = (sub', id', sent, true) ->
  sub' = list_to_set targets ∪ sub /\ id' = id + len sent /\
  sent.*1 = (fun i => id + 1 + Z.of_nat i) <$> seq 0 (length sent).
Proof.
  revert sub id sent. induction targets as [|t targets IH]; intros sub id sent; cbn [reconcile].
  { intros [= <- <- <-]. split_and!; [set_solver|len_nil; lia|done]. }
  case_bool_decide as Hin.
  - intros (-> & -> & Hs)%IH. split_and!; [set_solver|done|done].
  - destruct (ok (id + 1)); [|done].
    destruct (reconcile targets ({[t]} ∪ sub) (id + 1) ok) as [[[sub1 id1] sent1] r] eqn:Er.
    intros [= <- <- <- ->]. apply IH in Er as (-> & -> & Hs). split_and!; [set_solver|rewrite len_cons; lia|].
    cbn [fmap list_fmap fst length seq]. f_equal; [lia|]. rewrite Hs, <- seq_shift, <- list_fmap_compose.
    apply list_fmap_ext. intros i x _. simpl. lia.
Qed.
