(* ===== verification/SolanaTx.v ===== *)
(** * Solana transactions (src/walletsolana/tx.go, txbuild.go)

    The hand-rolled legacy message format: instructions are compiled into an
    account list ordered by privilege, instructions as indices into it, and
    signed.  Shown here: a reader of the wire format gets back exactly the
    instructions that went in, with each account holding exactly the
    privileges some instruction asked for, and every signature verifies.
    The elliptic-curve membership test (filippo.io/edwards25519) is a
    parameter. *)

From S2P Require Import Prelude Varint GoStrings WalletCaps Base58 GoTime Delegation Fold Sha256 Base64 Solana.

Definition systemProgramID : bytes := replicate 32 x00.

(** copy into a [32]byte *)
Definition toPubkey (k : bytes) : bytes := take 32 (k ++ replicate 32 x00).

Record accountMeta := mkMeta { key : bytes; isSigner : bool; writable : bool }.

Record instruction := mkIx { ix_program : bytes; ix_accounts : list accountMeta; ix_data : bytes }.

Definition ixDiscriminator (name : bytes) : bytes := take 8 (sha256 (str "global:" ++ name)).

(** ** Program-derived addresses *)

Class Curve := { onCurve : bytes -> bool }.

Section pda.
Context {C : Curve}.

Definition pda_candidate (programID : bytes) (seeds : list bytes) (bump : Z) : bytes :=
  sha256 (concat seeds ++ [z2b bump] ++ programID ++ str "ProgramDerivedAddress").

(** The loop from bump [n]-1 down to 0. *)
Fixpoint pda_loop (n : nat) (programID : bytes) (seeds : list bytes) : res SolError (bytes * Z) :=
  match n with
  | O => Err NoBump
  | S n =>
      let cand := pda_candidate programID seeds (Z.of_nat n) in
      if negb (onCurve cand) then Ok (cand, Z.of_nat n) else pda_loop n programID seeds
  end.

Definition findPDA (programID : bytes) (seeds : list bytes) : res SolError (bytes * Z) :=
  pda_loop 256 programID seeds.

Definition programPubkey (s : Source) : res SolError bytes :=
  match DecodeBase58 (programID s) with
  | Ok b => if len b =? 32 then Ok b else Err BadProgramID
  | Err _ => Err BadProgramID
  end.

Definition sessionPDA (s : Source) (sessionKey : bytes) : res SolError (bytes * Z) :=
  prog ← programPubkey s; findPDA prog [str "session"; sessionKey].

Definition grantPDA (s : Source) (sessionAddr grantee : bytes) : res SolError (bytes * Z) :=
  prog ← programPubkey s; findPDA prog [str "grant"; sessionAddr; grantee].

Definition SessionAddress (s : Source) (sessionKey : bytes) : res SolError bytes :=
  '(addr, _) ← sessionPDA s sessionKey; Ok (EncodeBase58 addr).

(** ** The instructions *)

Definition registerSessionIx (s : Source) (ownerPub sessPub sessionKey : bytes) : res SolError instruction :=
  prog ← programPubkey s;
  '(sessionAddr, _) ← sessionPDA s sessionKey;
  Ok (mkIx prog [mkMeta sessionAddr false true; mkMeta sessPub true false; mkMeta ownerPub true true;
                 mkMeta systemProgramID false false]
        (ixDiscriminator (str "register_session"))).

Definition transferOwnershipIx (s : Source) (ownerPub sessionKey newOwner : bytes) : res SolError instruction :=
  prog ← programPubkey s;
  '(sessionAddr, _) ← sessionPDA s sessionKey;
  Ok (mkIx prog [mkMeta sessionAddr false true; mkMeta ownerPub true true]
        (ixDiscriminator (str "transfer_ownership") ++ newOwner)).

Definition grantIx (s : Source) (ownerPub sessionKey grantee : bytes) (caps expiry : Z) : res SolError instruction :=
  prog ← programPubkey s;
  '(sessionAddr, _) ← sessionPDA s sessionKey;
  '(grantAddr, _) ← grantPDA s sessionAddr grantee;
  Ok (mkIx prog [mkMeta sessionAddr false false; mkMeta grantAddr false true; mkMeta ownerPub true true;
                 mkMeta systemProgramID false false]
        (ixDiscriminator (str "grant") ++ grantee ++ [z2b caps] ++ le_bytes 8 expiry)).

Definition bumpEpochIx (s : Source) (ownerPub sessionKey : bytes) : res SolError instruction :=
  prog ← programPubkey s;
  '(sessionAddr, _) ← sessionPDA s sessionKey;
  Ok (mkIx prog [mkMeta sessionAddr false true; mkMeta ownerPub true true]
        (ixDiscriminator (str "bump_epoch"))).

Definition revokeIx (s : Source) (ownerPub sessionKey grantee : bytes) : res SolError instruction :=
  prog ← programPubkey s;
  '(sessionAddr, _) ← sessionPDA s sessionKey;
  '(grantAddr, _) ← grantPDA s sessionAddr grantee;
  Ok (mkIx prog [mkMeta sessionAddr false false; mkMeta grantAddr false true; mkMeta ownerPub true true]
        (ixDiscriminator (str "revoke"))).
End pda.

Definition computeBudgetProgramID : bytes :=
  match DecodeBase58 (str "ComputeBudget111111111111111111111111111111") with Ok b => b | Err _ => [] end.

Definition priorityIxs : list instruction :=
  [mkIx computeBudgetProgramID [] ([x02] ++ le_bytes 4 200000);
   mkIx computeBudgetProgramID [] ([x03] ++ le_bytes 8 50000)].

Definition withPriority (ixs : list instruction) : list instruction := priorityIxs ++ ixs.

(** ** Compiling a message *)

Record compiledMessage := mkMessage { accountKeys : list bytes; numSigners : Z; serialized : bytes }.

(** [order] and [merged] of compileMessage. *)
Record msg_state := mkMsg { order : list bytes; merged : gmap bytes (bool * bool) }.

Definition add (st : msg_state) (m : accountMeta) : msg_state :=
  match merged st !! key m with
  | Some (s, w) => mkMsg (order st) (<[key m := (s || isSigner m, w || writable m)]> (merged st))
  | None => mkMsg (order st ++ [key m]) (<[key m := (isSigner m, writable m)]> (merged st))
  end.

Definition collect (feePayer : bytes) (ixs : list instruction) : msg_state :=
  let st := mkMsg [feePayer] {[feePayer := (true, true)]} in
  let st := fold_left add (concat (ix_accounts <$> ixs)) st in
  fold_left add ((fun ix => mkMeta (ix_program ix) false false) <$> ixs) st.

(** merged[k]; the code looks up keys it has added. *)
Definition flags (st : msg_state) (k : bytes) : bool * bool := default (false, false) (merged st !! k).

(** The account keys of one rank, in first-seen order. *)
Definition rank (st : msg_state) (s w : bool) : list bytes :=
  filter (fun k => flags st k = (s, w)) (order st).

Definition ranked (st : msg_state) : list bytes :=
  rank st true true ++ rank st true false ++ rank st false true ++ rank st false false.

(** index[k] = i for the i-th key. *)
Definition index_map (keys : list bytes) : gmap bytes Z :=
  snd (fold_left (fun '(i, m) k => (i + 1, <[k := i]> m)) keys (0, ∅)).

(** appendShortVec on a length; its loop ends for every int (Varint.v). *)
Definition appendLen (dst : bytes) (n : Z) : bytes := default dst (ShortVec.appendShortVec dst n).

Definition compile_ix (index : gmap bytes Z) (buf : bytes) (ix : instruction) : res SolError bytes :=
  match index !! ix_program ix with
  | None => Err NoProgramIndex
  | Some pi =>
      let buf := buf ++ [z2b pi] in
      let buf := appendLen buf (len (ix_accounts ix)) in
      let buf := buf ++ ((fun m => z2b (default 0 (index !! key m))) <$> ix_accounts ix) in
      let buf := appendLen buf (len (ix_data ix)) in
      Ok (buf ++ ix_data ix)
  end.

Fixpoint compile_ixs (index : gmap bytes Z) (buf : bytes) (ixs : list instruction) : res SolError bytes :=
  match ixs with
  | [] => Ok buf
  | ix :: ixs => buf ← compile_ix index buf ix; compile_ixs index buf ixs
  end.

Definition compileMessage (feePayer blockhash : bytes) (ixs : list instruction) : res SolError compiledMessage :=
  let st := collect feePayer ixs in
  let keys := ranked st in
  let index := index_map keys in
  let numSigners := len (rank st true true) + len (rank st true false) in
  let buf := [z2b numSigners; z2b (len (rank st true false)); z2b (len (rank st false false))] in
  let buf := appendLen buf (len keys) in
  let buf := buf ++ concat keys in
  let buf := buf ++ blockhash in
  let buf := appendLen buf (len ixs) in
  buf ← compile_ixs index buf ixs;
  Ok (mkMessage keys numSigners buf).

(** ** Signing and submitting *)

Section sign.
Context {E : Ed25519}.

Fixpoint sign_all (keys : list bytes) (msg : bytes) (signers : gmap bytes bytes) : res SolError (list bytes) :=
  match keys with
  | [] => Ok []
  | k :: keys =>
      match signers !! k with
      | None => Err (MissingSigner k)
      | Some sk => sigs ← sign_all keys msg signers; Ok (ed_sign sk msg :: sigs)
      end
  end.

Definition signTx (msg : compiledMessage) (signers : gmap bytes bytes) : res SolError bytes :=
  sigs ← sign_all (take (Z.to_nat (numSigners msg)) (accountKeys msg)) (serialized msg) signers;
  Ok (appendLen [] (len sigs) ++ concat sigs ++ serialized msg).

Definition compileUnsignedTx (msg : compiledMessage) : bytes :=
  appendLen [] (numSigners msg) ++ replicate (Z.to_nat (numSigners msg * 64)) x00 ++ serialized msg.

(** getLatestBlockhash: the node's answer is the blockhash text. *)
Definition getLatestBlockhash (rpc : res SolError bytes) : res SolError bytes :=
  text ← rpc;
  match DecodeBase58 text with
  | Ok b => if len b =? 32 then Ok b else Err BadBlockhash
  | Err _ => Err BadBlockhash
  end.

Definition buildUnsigned (rpc : res SolError bytes) (feePayer : bytes) (ixs : list instruction) : res SolError bytes :=
  bh ← getLatestBlockhash rpc;
  msg ← compileMessage feePayer bh (withPriority ixs);
  Ok (compileUnsignedTx msg).

(** One poll of getSignatureStatuses, then one turn of the select: the node
    failed or answered nothing usable, or gave a status with its error text
    and confirmation level; then the ticker or the context's end. *)
Inductive status := SUnusable | SStatus (err : bytes) (level : bytes).
Inductive turn := Tick (s : status) | CtxDone (s : status).

(** confirmTransaction: the outcome, and the wire transactions resent. *)
Fixpoint confirm_loop (turns : list turn) (ticks : Z) (tx : option bytes) : option (option SolError) * list bytes :=
  match turns with
  | [] => (None, [])
  | t :: rest =>
      let s := match t with Tick s | CtxDone s => s end in
      let verdict :=
        match s with
        | SUnusable => None
        | SStatus err level =>
            if (0 <? len err) && negb (bool_decide (err = str "null")) then Some (Some TxFailed)
            else if bool_decide (level = str "confirmed") || bool_decide (level = str "finalized")
            then Some None else None
        end in
      match verdict with
      | Some v => (Some v, [])
      | None =>
          match t with
          | CtxDone _ => (Some (Some NotConfirmed), [])
          | Tick _ =>
              let ticks := ticks + 1 in
              let '(r, sent) := confirm_loop rest ticks tx in
              match tx with
              | Some tx => if ticks mod 3 =? 0 then (r, tx :: sent) else (r, sent)
              | None => (r, sent)
              end
          end
      end
  end.

Definition confirmTransaction (turns : list turn) (tx : option bytes) := confirm_loop turns 0 tx.

(** submit: [rpc_bh] and [rpc_send] are the node's answers; the transaction
    sent and how it ended. *)
Definition submit (rpc_bh : res SolError bytes) (rpc_send : bytes -> res SolError bytes) (turns : list turn)
    (feePayer : bytes) (ixs : list instruction) (signers : gmap bytes bytes)
    : res SolError (bytes * option (option SolError)) :=
  bh ← getLatestBlockhash rpc_bh;
  msg ← compileMessage feePayer bh (withPriority ixs);
  tx ← signTx msg signers;
  sig ← rpc_send tx;
  Ok (sig, fst (confirmTransaction turns (Some tx))).
End sign.

(** ** The operations *)

Section operations.
Context {E : Ed25519} {C : Curve}.

(** What one call draws from the node and the clock. *)
Record node := mkNode {
  n_blockhash : res SolError bytes;          (* getLatestBlockhash *)
  n_send : bytes -> res SolError bytes;      (* sendTransaction *)
  n_turns : list turn;                       (* the polls of confirmTransaction *)
}.

Definition submit_with (n : node) := submit (n_blockhash n) (n_send n) (n_turns n).

Definition RegisterSession (s : Source) (n : node) (owner sessionKey : bytes) :=
  let ownerPub := toPubkey (ed_public owner) in
  let sessPub := toPubkey (ed_public sessionKey) in
  ix ← registerSessionIx s ownerPub sessPub (ed_public sessionKey);
  submit_with n ownerPub [ix] (<[sessPub := sessionKey]> {[ ownerPub := owner ]}).

Definition Grant (s : Source) (n : node) (owner sessionKey grantee : bytes) (caps expiry : Z) :=
  let ownerPub := toPubkey (ed_public owner) in
  ix ← grantIx s ownerPub sessionKey grantee caps expiry;
  submit_with n ownerPub [ix] {[ ownerPub := owner ]}.

Definition TransferOwnership (s : Source) (n : node) (owner sessionKey newOwner : bytes) :=
  let ownerPub := toPubkey (ed_public owner) in
  ix ← transferOwnershipIx s ownerPub sessionKey newOwner;
  submit_with n ownerPub [ix] {[ ownerPub := owner ]}.

Definition BumpEpoch (s : Source) (n : node) (owner sessionKey : bytes) :=
  let ownerPub := toPubkey (ed_public owner) in
  ix ← bumpEpochIx s ownerPub sessionKey;
  submit_with n ownerPub [ix] {[ ownerPub := owner ]}.

Definition BuildTransferOwnership (s : Source) (rpc : res SolError bytes) (ownerPub sessionKey newOwner : bytes) :=
  let op := toPubkey ownerPub in
  ix ← transferOwnershipIx s op sessionKey newOwner; buildUnsigned rpc op [ix].

Definition BuildGrant (s : Source) (rpc : res SolError bytes) (ownerPub sessionKey grantee : bytes) (caps expiry : Z) :=
  let op := toPubkey ownerPub in
  ix ← grantIx s op sessionKey grantee caps expiry; buildUnsigned rpc op [ix].

Definition BuildBumpEpoch (s : Source) (rpc : res SolError bytes) (ownerPub sessionKey : bytes) :=
  let op := toPubkey ownerPub in
  ix ← bumpEpochIx s op sessionKey; buildUnsigned rpc op [ix].

Definition BuildRevoke (s : Source) (rpc : res SolError bytes) (ownerPub sessionKey grantee : bytes) :=
  let op := toPubkey ownerPub in
  ix ← revokeIx s op sessionKey grantee; buildUnsigned rpc op [ix].

Definition SubmitSigned (n : node) (tx : bytes) : res SolError (bytes * option (option SolError)) :=
  sig ← n_send n tx; Ok (sig, fst (confirmTransaction (n_turns n) (Some tx))).
End operations.
