(* ===== verification/SolanaWire.v ===== *)
(** * What a Solana node reads (src/walletsolana/tx.go)

    A reader of the legacy wire format, as the specification of
    compileMessage and signTx: header, account keys, blockhash, instructions
    as indices; an account's privileges are given by its position.  The claims
    say that reading a compiled message gives the instructions back with
    exactly the privileges they asked for, and that signatures verify. *)

From S2P Require Import Prelude Varint WalletCaps Base58 Delegation Solana SolanaTx.

(** ** The reader *)

Record wire_ix := mkWireIx { w_prog : Z; w_accts : list Z; w_data : bytes }.

Record wire_msg := mkWire {
  w_signers : Z; w_ro_signed : Z; w_ro_unsigned : Z;
  w_keys : list bytes; w_blockhash : bytes; w_ixs : list wire_ix
}.

Definition read_n (n : Z) (bs : bytes) : option (bytes * bytes) :=
  if len bs <? n then None else Some (slice_to bs n, slice_from bs n).

Definition read_len (bs : bytes) : option (Z * bytes) :=
  match UnixProto.ReadUvarint bs with Ok r => Some r | Err _ => None end.

Fixpoint read_many {A} (n : nat) (p : bytes -> option (A * bytes)) (bs : bytes) : option (list A * bytes) :=
  match n with
  | O => Some ([], bs)
  | S n => '(x, bs) ← p bs; '(xs, bs) ← read_many n p bs; Some (x :: xs, bs)
  end.

Definition read_ix (bs : bytes) : option (wire_ix * bytes) :=
  '(p, bs) ← read_n 1 bs;
  '(n, bs) ← read_len bs;
  '(accts, bs) ← read_n n bs;
  '(n, bs) ← read_len bs;
  '(data, bs) ← read_n n bs;
  Some (mkWireIx (b2z (nth 0 p x00)) (b2z <$> accts) data, bs).

Definition read_message (bs : bytes) : option (wire_msg * bytes) :=
  '(h, bs) ← read_n 3 bs;
  '(n, bs) ← read_len bs;
  '(keys, bs) ← read_many (Z.to_nat n) (read_n 32) bs;
  '(bh, bs) ← read_n 32 bs;
  '(n, bs) ← read_len bs;
  '(ixs, bs) ← read_many (Z.to_nat n) read_ix bs;
  Some (mkWire (b2z (nth 0 h x00)) (b2z (nth 1 h x00)) (b2z (nth 2 h x00)) keys bh ixs, bs).

(** The privileges of position [i]. *)
Definition w_is_signer (m : wire_msg) (i : Z) : Prop := 0 <= i < w_signers m.

Definition w_is_writable (m : wire_msg) (i : Z) : Prop :=
  0 <= i < w_signers m - w_ro_signed m \/ w_signers m <= i < len (w_keys m) - w_ro_unsigned m.

(** What the instructions ask for. *)
Definition asks (flag : accountMeta -> bool) (feePayer : bytes) (ixs : list instruction) (k : bytes) : Prop :=
  k = feePayer \/ exists ix m, ix ∈ ixs /\ m ∈ ix_accounts ix /\ key m = k /\ flag m = true.

(** ** Collecting the accounts *)

Definition metas (feePayer : bytes) (ixs : list instruction) : list accountMeta :=
  mkMeta feePayer true true :: concat (ix_accounts <$> ixs) ++ ((fun ix => mkMeta (ix_program ix) false false) <$> ixs).

Definition any (flag : accountMeta -> bool) (ms : list accountMeta) (k : bytes) : bool :=
  existsb (fun m => bool_decide (key m = k) && flag m) ms.

Record collected (st : msg_state) (ms : list accountMeta) : Prop := mk_collected {
  co_nodup : NoDup (order st);
  co_keys k : k ∈ order st <-> k ∈ key <$> ms;
  co_merged k : merged st !! k = (if decide (k ∈ key <$> ms) then Some (any isSigner ms k, any writable ms k) else None);
}.

Lemma any_snoc flag ms m k :
  any flag (ms ++ [m]) k = any flag ms k || (bool_decide (key m = k) && flag m).
Proof. unfold any. rewrite existsb_app. simpl. by rewrite orb_false_r. Qed.

Lemma any_absent flag ms k : k ∉ key <$> ms -> any flag ms k = false.
Proof.
  unfold any. induction ms as [|m ms IH]; [done|]. rewrite fmap_cons, not_elem_of_cons. intros [Hne Hk].
  simpl. rewrite IH by done. rewrite bool_decide_eq_false_2 by congruence. done.
Qed.

Lemma collected_add st ms m : collected st ms -> collected (add st m) (ms ++ [m]).
Proof.
  intros [Hn Hk Hm]. unfold add. rewrite Hm.
  assert (forall k, k ∈ key <$> (ms ++ [m]) <-> k ∈ key <$> ms \/ k = key m) as Hin.
  { intros k. rewrite fmap_app, elem_of_app. simpl. by rewrite list_elem_of_singleton. }
  destruct (decide (key m ∈ key <$> ms)) as [Hkm|Hkm].
  - constructor; simpl; [done|intros k; rewrite Hk, Hin; naive_solver|]. intros k. rewrite !any_snoc.
    destruct (decide (key m = k)) as [<-|Hne].
    + rewrite lookup_insert_eq, bool_decide_eq_true_2 by done. rewrite decide_True by naive_solver. done.
    + rewrite lookup_insert_ne, bool_decide_eq_false_2 by done. rewrite Hm. cbn [andb]. rewrite !orb_false_r.
      destruct (decide (k ∈ key <$> ms)); [rewrite decide_True by naive_solver|rewrite decide_False by naive_solver]; done.
  - constructor; simpl.
    + apply list.NoDup_app. split; [done|]. split; [|apply NoDup_singleton].
      intros k Hk'. rewrite list_elem_of_singleton. intros ->. by apply Hkm, Hk.
    + intros k. rewrite elem_of_app, Hk, Hin, list_elem_of_singleton. done.
    + intros k. rewrite !any_snoc. destruct (decide (key m = k)) as [<-|Hne].
      * rewrite lookup_insert_eq, bool_decide_eq_true_2 by done. rewrite decide_True by naive_solver.
        by rewrite !any_absent.
      * rewrite lookup_insert_ne, bool_decide_eq_false_2 by done. rewrite Hm. cbn [andb]. rewrite !orb_false_r.
        destruct (decide (k ∈ key <$> ms)); [rewrite decide_True by naive_solver|rewrite decide_False by naive_solver]; done.
Qed.

Lemma collected_fold st ms ms' : collected st ms -> collected (fold_left add ms' st) (ms ++ ms').
Proof.
  revert st ms. induction ms' as [|m ms' IH]; intros st ms H; [by rewrite app_nil_r|].
  cbn [fold_left]. rewrite cons_middle, app_assoc. apply IH. by apply collected_add.
Qed.

Lemma collect_collected feePayer ixs : collected (collect feePayer ixs) (metas feePayer ixs).
Proof.
  unfold collect, metas. rewrite app_comm_cons. apply collected_fold.
  apply (collected_fold _ [mkMeta feePayer true true]).
  constructor; simpl; [apply NoDup_singleton|done|]. intros k.
  destruct (decide (feePayer = k)) as [<-|Hne].
  - rewrite lookup_singleton_eq, decide_True by (by left). unfold any. simpl.
    by rewrite bool_decide_eq_true_2.
  - rewrite lookup_singleton_ne, decide_False by (by rewrite ?list_elem_of_singleton; auto). done.
Qed.

Lemma any_asks (flag : accountMeta -> bool) feePayer ixs k :
  (forall k, flag (mkMeta k true true) = true) -> (forall k, flag (mkMeta k false false) = false) ->
  any flag (metas feePayer ixs) k = true <-> asks flag feePayer ixs k.
Proof.
  intros Ht Hf. unfold any, metas, asks. rewrite existsb_exists. split.
  - intros (m & Hm & [Hk%bool_decide_eq_true Hfl]%andb_true_iff). destruct Hm as [<-|Hm]; [left; auto|].
    apply in_app_or in Hm as [Hm|Hm].
    + right. apply in_concat in Hm as (l & Hl & Hm). apply list_elem_of_In, list_elem_of_fmap in Hl as (ix & -> & Hix).
      exists ix, m. split_and!; [done|by apply list_elem_of_In|done|done].
    + apply list_elem_of_In, list_elem_of_fmap in Hm as (ix & -> & _). by rewrite Hf in Hfl.
  - intros [->|(ix & m & Hix & Hm & <- & Hfl)].
    + exists (mkMeta feePayer true true). split; [by left|]. rewrite Ht. simpl. by rewrite bool_decide_eq_true_2.
    + exists m. rewrite Hfl, bool_decide_eq_true_2 by done. split; [|done]. right. apply in_or_app. left.
      apply in_concat. exists (ix_accounts ix). split; [|by apply list_elem_of_In].
      apply list_elem_of_In, list_elem_of_fmap. eauto.
Qed.

(** ** Positions *)

Lemma rank_elem st s w k : k ∈ rank st s w <-> flags st k = (s, w) /\ k ∈ order st.
Proof. unfold rank. by rewrite list_elem_of_filter. Qed.

Lemma ranked_elem st k : k ∈ ranked st <-> k ∈ order st.
Proof.
  unfold ranked. rewrite !elem_of_app, !rank_elem. split; [naive_solver|]. intros Hk.
  destruct (flags st k) as [[] []]; auto 10.
Qed.

Lemma ranked_nodup st : NoDup (order st) -> NoDup (ranked st).
Proof.
  intros Hn. assert (forall s w, NoDup (rank st s w)) as HR by (intros; by apply list.NoDup_filter).
  unfold ranked. rewrite !list.NoDup_app. split_and!; try apply HR.
  all: intros k Hk Hk'; rewrite ?elem_of_app in Hk'; destruct_or? Hk';
    rewrite rank_elem in Hk, Hk'; destruct Hk, Hk'; congruence.
Qed.

(** A key's position tells its flags. *)
Lemma ranked_pos st i k :
  NoDup (order st) -> ranked st !! i = Some k ->
  let ns := (length (rank st true true) + length (rank st true false))%nat in
  (fst (flags st k) = true <-> (i < ns)%nat) /\
  (snd (flags st k) = true <->
    (i < length (rank st true true))%nat \/ (ns <= i < ns + length (rank st false true))%nat).
Proof.
  intros Hn Hi ns. unfold ranked in Hi. subst ns.
  assert (forall s w j, rank st s w !! j = Some k -> flags st k = (s, w)) as HF.
  { intros s w j Hj. by apply list_elem_of_lookup_2, rank_elem in Hj as [? _]. }
  apply lookup_app_Some in Hi as [Hi|[Hl1 Hi]].
  { rewrite (HF _ _ _ Hi). apply lookup_lt_Some in Hi. simpl. intuition lia. }
  apply lookup_app_Some in Hi as [Hi|[Hl2 Hi]].
  { rewrite (HF _ _ _ Hi). apply lookup_lt_Some in Hi. simpl. intuition (try done; lia). }
  apply lookup_app_Some in Hi as [Hi|[Hl3 Hi]].
  { rewrite (HF _ _ _ Hi). apply lookup_lt_Some in Hi. simpl. intuition (try done; lia). }
  rewrite (HF _ _ _ Hi). simpl. intuition (try done; lia).
Qed.

Lemma len_ranked st :
  len (ranked st) = len (rank st true true) + len (rank st true false) +
                    len (rank st false true) + len (rank st false false).
Proof. unfold ranked. rewrite !len_app. lia. Qed.

(** index_map: the position of each key. *)
Lemma index_map_spec keys : NoDup keys ->
  forall k i, index_map keys !! k = Some i <-> exists n, keys !! n = Some k /\ i = Z.of_nat n.
Proof.
  intros Hn. unfold index_map.
  assert (forall ks j (m : gmap bytes Z), NoDup ks -> (forall k, k ∈ ks -> m !! k = None) ->
    forall k i, snd (fold_left (fun '(i, m) k => (i + 1, <[k := i]> m)) ks (j, m)) !! k = Some i <->
      m !! k = Some i \/ exists n, ks !! n = Some k /\ i = j + Z.of_nat n) as HG.
  { clear. induction ks as [|k0 ks IH]; intros j m Hn Hm k i; simpl.
    { split; [by left|]. intros [?|(n & ? & _)]; done. }
    apply list.NoDup_cons in Hn as [Hk0 Hn]. rewrite IH; [|done|].
    2:{ intros k' Hk'. rewrite lookup_insert_ne by congruence. apply Hm. by right. }
    rewrite lookup_insert_Some. split.
    - intros [[[<- <-]|[_ ?]]|(n & Hl & ->)]; [|by left|].
      + right. exists 0%nat. split; [done|lia].
      + right. exists (S n). split; [done|lia].
    - intros [Hmk|(n & Hl & ->)].
      + left. right. split; [|done]. intros ->. rewrite Hm in Hmk; [done|by left].
      + destruct n as [|n]; simpl in Hl.
        * left. left. split; [congruence|lia].
        * right. exists n. split; [done|lia]. }
  intros k i. rewrite HG by done. rewrite lookup_empty. naive_solver lia.
Qed.

(** ** Reading back *)

Definition short (n : Z) : Prop := 0 <= n < 128 ^ 2.

Lemma appendLen_eq dst n : short n -> appendLen dst n = dst ++ uvarint 9 n.
Proof.
  intros [? H]. unfold appendLen. rewrite appendShortVec_uvarint; [done|].
  unfold is_u64. change (128 ^ 2) with 16384 in H. lia.
Qed.

Lemma read_len_ok n rest : short n -> read_len (uvarint 9 n ++ rest) = Some (n, rest).
Proof. intros. unfold read_len. by rewrite ReadUvarint_uvarint. Qed.

Lemma read_n_ok n a rest : len a = n -> read_n n (a ++ rest) = Some (a, rest).
Proof.
  intros <-. unfold read_n. rewrite len_app. pose proof (len_nonneg rest). pose proof (len_nonneg a).
  assert ((len a + len rest <? len a) = false) as -> by lia.
  rewrite slice_from_app_ge, Z.sub_diag, slice_from_0 by lia.
  unfold slice_to, len. by rewrite Nat2Z.id, take_app_length.
Qed.

(** A reader that inverts a printer on each element inverts it on a list. *)
Lemma read_many_ok {A} (p : bytes -> option (A * bytes)) (print : A -> bytes) xs rest :
  (forall x r, x ∈ xs -> p (print x ++ r) = Some (x, r)) ->
  read_many (length xs) p (concat (print <$> xs) ++ rest) = Some (xs, rest).
Proof.
  induction xs as [|x xs IH]; intros Hp; [done|]. cbn [fmap list_fmap concat length read_many].
  rewrite <- app_assoc, Hp by (by left). cbn [mbind option_bind]. rewrite IH; [done|].
  intros y r Hy. apply Hp. by right.
Qed.

Definition index_of_key (index : gmap bytes Z) (k : bytes) : Z := default 0 (index !! k).

Definition wire_of (index : gmap bytes Z) (ix : instruction) : wire_ix :=
  mkWireIx (index_of_key index (ix_program ix)) (index_of_key index ∘ key <$> ix_accounts ix) (ix_data ix).

Definition print_ix (w : wire_ix) : bytes :=
  [z2b (w_prog w)] ++ uvarint 9 (len (w_accts w)) ++ (z2b <$> w_accts w) ++ uvarint 9 (len (w_data w)) ++ w_data w.

Lemma read_print_ix w rest :
  0 <= w_prog w < 256 -> Forall (fun i => 0 <= i < 256) (w_accts w) ->
  short (len (w_accts w)) -> short (len (w_data w)) ->
  read_ix (print_ix w ++ rest) = Some (w, rest).
Proof.
  intros Hp Ha Hla Hld. unfold read_ix, print_ix. rewrite <- !app_assoc.
  rewrite (read_n_ok 1 [z2b (w_prog w)]) by done. cbn [mbind option_bind].
  rewrite read_len_ok by done. cbn [mbind option_bind].
  rewrite read_n_ok by (unfold len; by rewrite length_fmap). cbn [mbind option_bind].
  rewrite read_len_ok by done. cbn [mbind option_bind].
  rewrite read_n_ok by done. cbn [mbind option_bind nth].
  rewrite b2z_z2b, Z.mod_small by done.
  assert (b2z <$> (z2b <$> w_accts w) = w_accts w) as ->.
  { clear -Ha. induction Ha as [|i l Hi _ IH]; [done|]. simpl. rewrite b2z_z2b, Z.mod_small by done. by f_equal. }
  by destruct w.
Qed.

Lemma compile_ixs_eq index buf ixs out :
  Forall (fun ix => short (len (ix_accounts ix)) /\ short (len (ix_data ix))) ixs ->
  compile_ixs index buf ixs = Ok out -> out = buf ++ concat (print_ix <$> (wire_of index <$> ixs)).
Proof.
  intros HF. revert buf. induction HF as [|ix ixs [Ha Hd] _ IH]; intros buf H.
  { injection H as <-. by rewrite app_nil_r. }
  cbn [compile_ixs] in H. apply bind_ok in H as (buf' & Hc & H). apply IH in H as ->.
  unfold compile_ix in Hc. destruct (index !! ix_program ix) as [pi|] eqn:Ep; [|done].
  injection Hc as <-. rewrite !appendLen_eq by done. cbn [fmap list_fmap concat].
  unfold print_ix at 2. cbn [wire_of w_prog w_accts w_data].
  unfold index_of_key at 1. rewrite Ep. cbn [default from_option].
  assert (z2b <$> (index_of_key index ∘ key <$> ix_accounts ix) =
    (fun m => z2b (default 0 (index !! key m))) <$> ix_accounts ix) as -> by (by rewrite <- list_fmap_compose).
  rewrite <- !app_assoc. unfold len. rewrite !length_fmap. done.
Qed.

Lemma add_head st m k l : order st = k :: l -> exists l', order (add st m) = k :: l'.
Proof. intros H. unfold add. destruct (merged st !! key m) as [[]|]; simpl; rewrite H; by eexists. Qed.

Lemma fold_add_head ms st k l : order st = k :: l -> exists l', order (fold_left add ms st) = k :: l'.
Proof.
  revert st l. induction ms as [|m ms IH]; intros st l H; [by exists l|]. simpl.
  destruct (add_head st m k l H) as [l' H']. by eapply IH.
Qed.

Section compiled.
Context (feePayer : bytes) (ixs : list instruction).
Abbreviation st := (collect feePayer ixs).
Abbreviation keys := (ranked st).
Abbreviation index := (index_map keys).

Lemma flags_any k : k ∈ keys -> flags st k = (any isSigner (metas feePayer ixs) k, any writable (metas feePayer ixs) k).
Proof.
  rewrite ranked_elem. intros Hk. pose proof (collect_collected feePayer ixs) as [_ Hin Hm].
  unfold flags. rewrite Hm, decide_True by (by apply Hin). done.
Qed.

Lemma keys_elem k : k ∈ keys <-> k ∈ key <$> metas feePayer ixs.
Proof. rewrite ranked_elem. apply collect_collected. Qed.

Lemma keys_nodup : NoDup keys.
Proof. apply ranked_nodup, (collect_collected feePayer ixs). Qed.

Lemma keys_len : len keys <= len (metas feePayer ixs).
Proof.
  unfold len. rewrite <- (length_fmap key (metas feePayer ixs)). apply inj_le, submseteq_length.
  apply NoDup_submseteq; [apply keys_nodup|]. intros k. by rewrite keys_elem.
Qed.

Lemma keys_head : keys !! 0%nat = Some feePayer.
Proof.
  assert (feePayer ∈ keys) as Hin by (apply keys_elem; left).
  assert (flags st feePayer = (true, true)) as Hf.
  { rewrite flags_any by done. unfold any, metas. simpl. by rewrite bool_decide_eq_true_2. }
  assert (exists l, order st = feePayer :: l) as [l Hl].
  { unfold collect.
    destruct (fold_add_head (concat (ix_accounts <$> ixs)) (mkMsg [feePayer] {[feePayer := (true, true)]}) feePayer []) as [l Hl]; [done|].
    by eapply fold_add_head. }
  unfold ranked, rank at 1. rewrite Hl, filter_cons_True by done. done.
Qed.

(** Every key has a position, below the number of references. *)
Lemma index_elem k : k ∈ keys ->
  exists n, keys !! n = Some k /\ index !! k = Some (Z.of_nat n) /\ Z.of_nat n < len keys.
Proof.
  intros (n & Hn)%list_elem_of_lookup. exists n. split; [done|]. split.
  - apply index_map_spec; [apply keys_nodup|]. eauto.
  - apply lookup_lt_Some in Hn. unfold len. lia.
Qed.

Lemma program_elem ix : ix ∈ ixs -> ix_program ix ∈ keys.
Proof.
  intros H. apply keys_elem. unfold metas. rewrite fmap_cons, fmap_app. right. apply elem_of_app. right.
  rewrite <- list_fmap_compose. apply list_elem_of_fmap. by exists ix.
Qed.

Lemma account_elem ix m : ix ∈ ixs -> m ∈ ix_accounts ix -> key m ∈ keys.
Proof.
  intros H Hm. apply keys_elem. unfold metas. rewrite fmap_cons, fmap_app. right. apply elem_of_app. left.
  apply list_elem_of_fmap. exists m. split; [done|]. apply list_elem_of_In, in_concat.
  exists (ix_accounts ix). split; [|by apply list_elem_of_In].
  apply list_elem_of_In, list_elem_of_fmap. by exists ix.
Qed.

Lemma index_of_key_elem k : k ∈ keys ->
  0 <= index_of_key index k < len keys /\ keys !! Z.to_nat (index_of_key index k) = Some k.
Proof.
  intros (n & Hn & Hi & Hl)%index_elem. unfold index_of_key. rewrite Hi. simpl. rewrite Nat2Z.id. split; [lia|done].
Qed.

Lemma compile_ixs_total buf ixs' :
  ixs' ⊆ ixs -> exists out, compile_ixs index buf ixs' = Ok out.
Proof.
  revert buf. induction ixs' as [|ix ixs' IH]; intros buf Hsub; [by eexists|]. cbn [compile_ixs].
  destruct (index_elem (ix_program ix)) as (n & _ & Hi & _).
  { apply program_elem, Hsub. by left. }
  unfold compile_ix. rewrite Hi. cbn [mbind res_bind]. apply IH. intros x Hx. apply Hsub. by right.
Qed.
End compiled.

(** The limits of the format, all far above a transaction's 1232 bytes. *)
Record fits (feePayer blockhash : bytes) (ixs : list instruction) : Prop := mk_fits {
  fits_keys k : k ∈ key <$> metas feePayer ixs -> len k = 32;
  fits_hash : len blockhash = 32;
  fits_refs : len (metas feePayer ixs) <= 255;
  fits_data ix : ix ∈ ixs -> short (len (ix_data ix));
}.

Lemma fits_short feePayer blockhash ixs : fits feePayer blockhash ixs ->
  short (len ixs) /\ Forall (fun ix => short (len (ix_accounts ix)) /\ short (len (ix_data ix))) ixs.
Proof.
  intros [_ _ Hr Hd]. unfold metas in Hr. rewrite len_cons, len_app in Hr.
  unfold len at 2 in Hr. rewrite length_fmap in Hr. fold (len ixs) in Hr. split.
  { unfold short. change (128 ^ 2) with 16384. pose proof (len_nonneg (concat (ix_accounts <$> ixs))).
    pose proof (len_nonneg ixs). lia. }
  apply List.Forall_forall. intros ix Hix%list_elem_of_In. split; [|by apply Hd].
  assert (len (ix_accounts ix) <= len (concat (ix_accounts <$> ixs))) as Hle.
  { clear -Hix. induction ixs as [|x ixs IH]; [by apply elem_of_nil in Hix|]. cbn [fmap list_fmap concat].
    rewrite len_app. pose proof (len_nonneg (ix_accounts x)). pose proof (len_nonneg (concat (ix_accounts <$> ixs))).
    apply elem_of_cons in Hix as [->|Hix]; [lia|]. specialize (IH Hix). lia. }
  unfold short. change (128 ^ 2) with 16384. pose proof (len_nonneg (ix_accounts ix)). pose proof (len_nonneg ixs). lia.
Qed.

(** The message as a reader sees it. *)
Definition wire_message (feePayer blockhash : bytes) (ixs : list instruction) : wire_msg :=
  let st := collect feePayer ixs in
  mkWire (len (rank st true true) + len (rank st true false)) (len (rank st true false)) (len (rank st false false))
    (ranked st) blockhash (wire_of (index_map (ranked st)) <$> ixs).

Lemma compileMessage_reads feePayer blockhash ixs :
  fits feePayer blockhash ixs ->
  exists m, compileMessage feePayer blockhash ixs = Ok m /\
    accountKeys m = ranked (collect feePayer ixs) /\
    numSigners m = w_signers (wire_message feePayer blockhash ixs) /\
    forall rest, read_message (serialized m ++ rest) = Some (wire_message feePayer blockhash ixs, rest).
Proof.
  intros Hf. pose proof (fits_short _ _ _ Hf) as [Hsn Hsi]. destruct Hf as [Hk Hbh Hr Hd].
  unfold compileMessage. set (st := collect feePayer ixs). set (keys := ranked st).
  pose proof (keys_len feePayer ixs) as Hkl. fold st keys in Hkl.
  pose proof (len_ranked st) as Hlr. fold keys in Hlr.
  pose proof (len_nonneg (rank st true true)). pose proof (len_nonneg (rank st true false)).
  pose proof (len_nonneg (rank st false true)). pose proof (len_nonneg (rank st false false)).
  assert (short (len keys)) as Hsk by (unfold short; change (128 ^ 2) with 16384; lia).
  edestruct (compile_ixs_total feePayer ixs) as [out Ho]; [reflexivity|]. fold st keys in Ho. rewrite Ho.
  eexists. split; [reflexivity|]. cbn [accountKeys numSigners serialized]. split; [done|]. split; [done|].
  intros rest. apply compile_ixs_eq in Ho as ->; [|done].
  rewrite !appendLen_eq by done. unfold read_message. rewrite <- !app_assoc.
  rewrite (read_n_ok 3) by done. cbn [mbind option_bind].
  rewrite read_len_ok by done. cbn [mbind option_bind].
  assert (forall r, read_many (Z.to_nat (len keys)) (read_n 32) (concat keys ++ r) = Some (keys, r)) as Hrk.
  { intros r. unfold len. rewrite Nat2Z.id. pose proof (read_many_ok (read_n 32) id keys r) as Hm.
    rewrite list_fmap_id in Hm. apply Hm. intros x r' Hx. by apply read_n_ok, Hk, keys_elem. }
  rewrite Hrk. cbn [mbind option_bind]. rewrite (read_n_ok 32) by done. cbn [mbind option_bind].
  rewrite read_len_ok by done. cbn [mbind option_bind]. assert (Z.to_nat (len ixs) = length ixs) as -> by (unfold len; lia).
  rewrite <- (length_fmap (wire_of (index_map keys)) ixs). rewrite read_many_ok.
  - cbn [mbind option_bind nth]. unfold wire_message. fold st keys. rewrite !b2z_z2b, !Z.mod_small by lia. done.
  - intros w r (ix & -> & Hix)%list_elem_of_fmap.
    pose proof (proj1 (List.Forall_forall _ _) Hsi ix (proj1 (list_elem_of_In _ _) Hix)) as [Hsa Hsd].
    apply read_print_ix; cbn [wire_of w_prog w_accts w_data].
    + pose proof (index_of_key_elem feePayer ixs _ (program_elem feePayer ixs ix Hix)) as [Hb _].
      fold st in Hb. fold keys in Hb. lia.
    + apply Forall_fmap, List.Forall_forall. intros m Hm%list_elem_of_In. simpl.
      pose proof (index_of_key_elem feePayer ixs _ (account_elem feePayer ixs ix m Hix Hm)) as [Hb _].
      fold st in Hb. fold keys in Hb. lia.
    + unfold len. by rewrite length_fmap.
    + done.
Qed.

(** The instructions a reader finds, and the privileges of each position. *)
Lemma wire_message_refs feePayer blockhash ixs :
  let w := wire_message feePayer blockhash ixs in
  Forall2 (fun ix wi =>
    w_keys w !! Z.to_nat (w_prog wi) = Some (ix_program ix) /\
    Forall2 (fun m i => 0 <= i /\ w_keys w !! Z.to_nat i = Some (key m)) (ix_accounts ix) (w_accts wi) /\
    w_data wi = ix_data ix) ixs (w_ixs w).
Proof.
  cbn [wire_message w_ixs w_keys]. apply Forall2_fmap_r, Forall_Forall2_diag, List.Forall_forall.
  intros ix Hix%list_elem_of_In. cbn [wire_of w_prog w_accts w_data]. split_and!; [| |done].
  - apply index_of_key_elem. by apply program_elem.
  - apply Forall2_fmap_r, Forall_Forall2_diag, List.Forall_forall. intros mt Hmt%list_elem_of_In.
    destruct (index_of_key_elem feePayer ixs (key mt)) as [[? _] ?]; [by eapply account_elem|done].
Qed.

Lemma wire_message_privileges feePayer blockhash ixs n k :
  let w := wire_message feePayer blockhash ixs in
  w_keys w !! n = Some k ->
  (w_is_signer w (Z.of_nat n) <-> asks isSigner feePayer ixs k) /\
  (w_is_writable w (Z.of_nat n) <-> asks writable feePayer ixs k).
Proof.
  intros w Hn. cbn [w wire_message w_keys] in Hn.
  destruct (ranked_pos _ _ _ (co_nodup _ _ (collect_collected feePayer ixs)) Hn) as [Hsig Hwr].
  rewrite (flags_any feePayer ixs) in Hsig, Hwr by (by eapply list_elem_of_lookup_2).
  cbn [fst snd] in Hsig, Hwr. rewrite any_asks in Hsig by done. rewrite any_asks in Hwr by done.
  rewrite Hsig, Hwr. unfold w_is_signer, w_is_writable.
  cbn [w wire_message w_signers w_ro_signed w_ro_unsigned w_keys].
  rewrite len_ranked. unfold len. split; lia.
Qed.

Lemma wire_message_signers feePayer blockhash ixs :
  let w := wire_message feePayer blockhash ixs in 0 <= w_signers w <= len (w_keys w).
Proof.
  cbn [wire_message w_signers w_keys]. rewrite len_ranked.
  set (st := collect feePayer ixs).
  pose proof (len_nonneg (rank st true true)). pose proof (len_nonneg (rank st true false)).
  pose proof (len_nonneg (rank st false true)). pose proof (len_nonneg (rank st false false)). lia.
Qed.

(** Signing with the right keys: one valid signature per required signer. *)
Lemma sign_all_valid {E : Ed25519} {EL : Ed25519Laws E} ks msg signers sigs :
  (forall k sk, signers !! k = Some sk -> ed_public sk = k) -> sign_all ks msg signers = Ok sigs ->
  Forall2 (fun k sig => len sig = SignatureSize /\ ed_verify k msg sig = true) ks sigs.
Proof.
  intros Hkeys. revert sigs. induction ks as [|k ks IH]; intros sigs Es; cbn [sign_all] in Es.
  - injection Es as <-. constructor.
  - destruct (signers !! k) as [sk|] eqn:Ek; [|done].
    apply bind_ok in Es as (sigs' & Es' & [= <-]). constructor; [|by apply IH].
    split; [apply ed_sign_size|]. rewrite <- (Hkeys k sk Ek). apply ed_verify_sign.
Qed.

Lemma sign_all_total {E : Ed25519} ks msg signers :
  (forall k, k ∈ ks -> is_Some (signers !! k)) -> exists sigs, sign_all ks msg signers = Ok sigs.
Proof.
  induction ks as [|k ks IH]; intros Hk; [by exists []|]. cbn [sign_all].
  destruct (Hk k) as [sk ->]; [by left|]. destruct IH as [sigs ->]; [intros; apply Hk; by right|]. by eexists.
Qed.

(** ** The claims *)

(** C21: a compiled message says what was asked, and no more.  For every fee
    payer and list of instructions within the format's limits compileMessage
    succeeds, and whoever reads its bytes recovers the blockhash, an account
    list without repetition that starts with the fee payer, and the
    instructions in order with the same program, accounts and data; and an
    account is a signer (a writable account) exactly if it is the fee payer or
    some instruction asked for it to be. *)
Theorem compiled_message_reads_back feePayer blockhash ixs
  (Hfits : fits feePayer blockhash ixs) :
  exists m w, compileMessage feePayer blockhash ixs = Ok m /\
    read_message (serialized m) = Some (w, []) /\
    w_keys w = accountKeys m /\ w_signers w = numSigners m /\ w_blockhash w = blockhash /\
    NoDup (w_keys w) /\ w_keys w !! 0%nat = Some feePayer /\
    Forall2 (fun ix wi =>
      w_keys w !! Z.to_nat (w_prog wi) = Some (ix_program ix) /\
      Forall2 (fun m i => w_keys w !! Z.to_nat i = Some (key m)) (ix_accounts ix) (w_accts wi) /\
      w_data wi = ix_data ix) ixs (w_ixs w) /\
    forall n k, w_keys w !! n = Some k ->
      (w_is_signer w (Z.of_nat n) <-> asks isSigner feePayer ixs k) /\
      (w_is_writable w (Z.of_nat n) <-> asks writable feePayer ixs k).
Proof.
  destruct (compileMessage_reads _ _ _ Hfits) as (m & Hm & Hk & Hs & Hr).
  exists m, (wire_message feePayer blockhash ixs). specialize (Hr []). rewrite app_nil_r in Hr.
  split_and!; try done.
  - apply keys_nodup.
  - apply keys_head.
  - eapply List.Forall2_impl, (wire_message_refs feePayer blockhash ixs). intros ix wi (Hp & Ha & Hd).
    split_and!; try done. eapply List.Forall2_impl, Ha. by intros mt i [_ ?].
  - intros n k Hn. by apply wire_message_privileges.
Qed.

(** A signed transaction carries a valid signature of every required
    signer.  If each required signer's private key is in the map, signing
    succeeds and the wire form is the signature count, one signature per
    required signer in account order, each verifying over exactly the message
    bytes under that signer's key, then the message; if one is missing,
    signing fails naming a missing one. *)
Theorem signed_tx_verifies {E : Ed25519} {EL : Ed25519Laws E} msg signers
  (Hcount : 0 <= numSigners msg <= len (accountKeys msg)) (Hshort : short (numSigners msg))
  (Hkeys : forall k sk, signers !! k = Some sk -> ed_public sk = k) :
  match signTx msg signers with
  | Ok tx => exists sigs, len sigs = numSigners msg /\
      Forall2 (fun k sig => len sig = SignatureSize /\ ed_verify k (serialized msg) sig = true)
        (slice_to (accountKeys msg) (numSigners msg)) sigs /\
      read_len tx = Some (numSigners msg, concat sigs ++ serialized msg)
  | Err e => exists k, e = MissingSigner k /\
      k ∈ slice_to (accountKeys msg) (numSigners msg) /\ signers !! k = None
  end.
Proof.
  unfold signTx, slice_to. set (ks := take _ _).
  assert (len ks = numSigners msg) as Hks by (unfold ks, len in *; rewrite length_take; lia).
  clearbody ks. destruct (sign_all ks (serialized msg) signers) as [sigs|e] eqn:Es; cbn [mbind res_bind].
  - pose proof (sign_all_valid ks _ signers sigs Hkeys Es) as HF.
    assert (len sigs = numSigners msg) as Hls.
    { apply Forall2_length in HF. unfold len in *. lia. }
    exists sigs. split_and!; [done|done|]. rewrite Hls, appendLen_eq by done. rewrite app_nil_l.
    by apply read_len_ok.
  - clear Hks. revert e Es. induction ks as [|k ks IH]; intros e Es; cbn [sign_all] in Es; [done|].
    destruct (signers !! k) as [sk|] eqn:Ek.
    + destruct (sign_all ks (serialized msg) signers) as [|e'] eqn:Es'; [done|]. injection Es as <-.
      destruct (IH e' eq_refl) as (k' & -> & Hin & Hn). exists k'. split_and!; [done|by right|done].
    + injection Es as <-. exists k. split_and!; [done|left|done].
Qed.

(** ** Witnesses *)

Definition sample_ixs : list instruction :=
  withPriority [mkIx (key_of x09) [mkMeta (key_of x05) false true; mkMeta (key_of x06) true true;
                                   mkMeta (key_of x04) false false] (str "data")].

Lemma sample_fits : fits (key_of x06) (key_of x01) sample_ixs.
Proof.
  constructor.
  - assert (Forall (fun k => len k = 32) (key <$> metas (key_of x06) sample_ixs)) as HF
      by (apply (bool_decide_unpack _); vm_compute; exact I).
    intros k Hk%list_elem_of_In. exact (proj1 (List.Forall_forall _ _) HF k Hk).
  - reflexivity.
  - vm_compute. discriminate.
  - assert (Forall (fun ix => short (len (ix_data ix))) sample_ixs) as HF.
    { repeat constructor; vm_compute; congruence. }
    intros ix Hix%list_elem_of_In. exact (proj1 (List.Forall_forall _ _) HF ix Hix).
Qed.

Lemma compiled_message_reads_back_witness :
  fits (key_of x06) (key_of x01) sample_ixs /\
  exists m w, compileMessage (key_of x06) (key_of x01) sample_ixs = Ok m /\
    read_message (serialized m) = Some (w, []) /\ w_keys w !! 0%nat = Some (key_of x06).
Proof.
  split; [exact sample_fits|].
  destruct (compiled_message_reads_back (key_of x06) (key_of x01) sample_ixs sample_fits)
    as (m & w & Hm & Hr & _ & _ & _ & _ & Hh & _).
  exists m, w. split; [exact Hm|]. split; [exact Hr|exact Hh].
Defined.

Lemma signed_tx_verifies_witness :
  exists sigs, Forall2 (fun k sig => len sig = SignatureSize /\ ed_verify k (str "msg") sig = true) [key_of x06] sigs.
Proof.
  pose proof (signed_tx_verifies (mkMessage [key_of x06; key_of x05] 1 (str "msg"))
    {[ key_of x06 := key_of x06 ]}) as H.
  assert (is_ok (signTx (mkMessage [key_of x06; key_of x05] 1 (str "msg")) {[ key_of x06 := key_of x06 ]}) = true)
    as Hok by (vm_compute; reflexivity).
  destruct (signTx _ _) as [tx|]; [|discriminate].
  destruct H as (sigs & _ & HF & _).
  - split; vm_compute; discriminate.
  - split; [discriminate|vm_compute; reflexivity].
  - intros k sk [<- <-]%lookup_singleton_Some. vm_compute. reflexivity.
  - exists sigs. exact HF.
Defined.
