(* ===== verification/Ledger.v ===== *)
(** * The on-chain program and what the source reads of it
      (src/programs/mosey-session/src/lib.rs)

    The mosey-session program as a transition function on its accounts:
    Anchor's documented account constraints (signer, mut, has_one, seeds and
    bump, init, init_if_needed, close) are the guards, the handler bodies the
    updates, and instruction data is parsed the way the Go builders
    (SolanaTx.v) lay it out.  The claims join the two languages: what the Go
    client builds does what it says on chain, only a session's owner changes
    what concerns it, and a refresh of the Go source reads back exactly the
    owner and the live grants the program holds. *)

From S2P Require Import Prelude GoStrings WalletCaps Base58 GoTime Delegation Fold Sha256 Base64 Solana SolanaTx.

(** ** Accounts *)

Inductive account := ASession (s : SolSession) (bump : Z) | AGrant (g : SolGrant) (bump : Z).

(** The account data Anchor stores: discriminator, then the Borsh fields. *)
Definition account_data (a : account) : bytes :=
  match a with
  | ASession s bump =>
      sessionDisc ++ SSessionKey s ++ SOwner s ++ le_bytes 2 (SEpoch s) ++ [z2b bump]
  | AGrant g bump =>
      grantDisc ++ GSession g ++ GGrantee g ++ [z2b (GCaps g)] ++ le_bytes 8 (GExpiry g) ++
      le_bytes 2 (GEpoch g) ++ [z2b bump]
  end.

Abbreviation ledger := (gmap bytes account).

Inductive ProgError :=
| InvalidCaps | EpochOverflow | ConstraintSeeds | ConstraintHasOne | ConstraintSigner | ConstraintMut
| AlreadyInUse | WrongAccount | WrongSystemProgram | BadInstruction.

Section program.
Context {C : Curve} (prog : bytes).

(** seeds = [...], bump = b: the address is the candidate of that bump. *)
Definition at_pda (addr : bytes) (seeds : list bytes) (bump : Z) : bool :=
  negb (onCurve (pda_candidate prog seeds bump)) && bool_decide (addr = pda_candidate prog seeds bump).

(** seeds = [...], bump (canonical), for init and init_if_needed. *)
Definition canonical (addr : bytes) (seeds : list bytes) : res ProgError Z :=
  match findPDA prog seeds with
  | Ok (a, bump) => if bool_decide (addr = a) then Ok bump else Err ConstraintSeeds
  | Err _ => Err ConstraintSeeds
  end.

(** The session account with has_one = owner and its seeds; the owner signs. *)
Definition load_session (L : ledger) (ms mo : accountMeta) : res ProgError (SolSession * Z) :=
  match L !! key ms with
  | Some (ASession s bump) =>
      _ ← guard_ok (at_pda (key ms) [str "session"; SSessionKey s] bump) ConstraintSeeds;
      _ ← guard_ok (bool_decide (SOwner s = key mo)) ConstraintHasOne;
      _ ← guard_ok (isSigner mo) ConstraintSigner;
      Ok (s, bump)
  | _ => Err WrongAccount
  end.

Definition register_session (L : ledger) (ms mk mo msys : accountMeta) : res ProgError ledger :=
  _ ← guard_ok (isSigner mk && isSigner mo) ConstraintSigner;
  _ ← guard_ok (writable ms && writable mo) ConstraintMut;
  _ ← guard_ok (bool_decide (key msys = systemProgramID)) WrongSystemProgram;
  bump ← canonical (key ms) [str "session"; key mk];
  match L !! key ms with
  | Some _ => Err AlreadyInUse
  | None => Ok (<[key ms := ASession (mkSolSession (key mk) (key mo) 0) bump]> L)
  end.

Definition transfer_ownership (L : ledger) (ms mo : accountMeta) (new_owner : bytes) : res ProgError ledger :=
  '(s, bump) ← load_session L ms mo;
  _ ← guard_ok (writable ms) ConstraintMut;
  Ok (<[key ms := ASession (mkSolSession (SSessionKey s) new_owner (SEpoch s)) bump]> L).

Definition grant (L : ledger) (ms mg mo msys : accountMeta) (grantee : bytes) (caps expiry : Z)
    : res ProgError ledger :=
  '(s, _) ← load_session L ms mo;
  _ ← guard_ok (writable mg && writable mo) ConstraintMut;
  _ ← guard_ok (bool_decide (key msys = systemProgramID)) WrongSystemProgram;
  bump ← canonical (key mg) [str "grant"; key ms; grantee];
  _ ← match L !! key mg with Some (ASession _ _) => Err WrongAccount | _ => Ok tt end;
  _ ← guard_ok (Subset caps AllCaps) InvalidCaps;
  Ok (<[key mg := AGrant (mkSolGrant (key ms) grantee caps expiry (SEpoch s)) bump]> L).

Definition revoke (L : ledger) (ms mg mo : accountMeta) : res ProgError ledger :=
  '(s, _) ← load_session L ms mo;
  match L !! key mg with
  | Some (AGrant g bump) =>
      _ ← guard_ok (at_pda (key mg) [str "grant"; key ms; GGrantee g] bump) ConstraintSeeds;
      _ ← guard_ok (writable mg && writable mo) ConstraintMut;
      Ok (delete (key mg) L)
  | _ => Err WrongAccount
  end.

Definition bump_epoch (L : ledger) (ms mo : accountMeta) : res ProgError ledger :=
  '(s, bump) ← load_session L ms mo;
  _ ← guard_ok (writable ms) ConstraintMut;
  _ ← guard_ok (SEpoch s + 1 <? 2 ^ 16) EpochOverflow;
  Ok (<[key ms := ASession (mkSolSession (SSessionKey s) (SOwner s) (SEpoch s + 1)) bump]> L).

(** The entry point: dispatch on the instruction's discriminator, parse its
    arguments, take its accounts in order. *)
Definition process (L : ledger) (ix : instruction) : res ProgError ledger :=
  let tag := take 8 (ix_data ix) in
  let args := drop 8 (ix_data ix) in
  if bool_decide (tag = ixDiscriminator (str "register_session")) then
    match ix_accounts ix with
    | ms :: mk :: mo :: msys :: _ => register_session L ms mk mo msys
    | _ => Err BadInstruction
    end
  else if bool_decide (tag = ixDiscriminator (str "transfer_ownership")) then
    match ix_accounts ix with
    | ms :: mo :: _ =>
        _ ← guard_ok (32 <=? len args) BadInstruction; transfer_ownership L ms mo (take 32 args)
    | _ => Err BadInstruction
    end
  else if bool_decide (tag = ixDiscriminator (str "grant")) then
    match ix_accounts ix with
    | ms :: mg :: mo :: msys :: _ =>
        _ ← guard_ok (41 <=? len args) BadInstruction;
        grant L ms mg mo msys (take 32 args) (b2z (nth 32 args x00)) (i64 (le_value (sub_slice args 33 8)))
    | _ => Err BadInstruction
    end
  else if bool_decide (tag = ixDiscriminator (str "revoke")) then
    match ix_accounts ix with
    | ms :: mg :: mo :: _ => revoke L ms mg mo
    | _ => Err BadInstruction
    end
  else if bool_decide (tag = ixDiscriminator (str "bump_epoch")) then
    match ix_accounts ix with
    | ms :: mo :: _ => bump_epoch L ms mo
    | _ => Err BadInstruction
    end
  else Err BadInstruction.

(** Reachable ledgers: instructions of this program, over 32-byte account
    keys, each applied if it succeeds. *)
Inductive reachable : ledger -> Prop :=
| reachable_init : reachable ∅
| reachable_step L ix L' :
    reachable L -> Forall (fun m => len (key m) = 32) (ix_accounts ix) ->
    process L ix = Ok L' -> reachable L'.

(** ** Well-formed ledgers *)

Definition account_ok (L : ledger) (addr : bytes) (a : account) : Prop :=
  match a with
  | ASession s bump =>
      findPDA prog [str "session"; SSessionKey s] = Ok (addr, bump) /\
      len (SSessionKey s) = 32 /\ len (SOwner s) = 32 /\ 0 <= SEpoch s < 2 ^ 16
  | AGrant g bump =>
      findPDA prog [str "grant"; GSession g; GGrantee g] = Ok (addr, bump) /\
      len (GSession g) = 32 /\ len (GGrantee g) = 32 /\ 0 <= GCaps g < 8 /\
      - 2 ^ 63 <= GExpiry g < 2 ^ 63 /\ 0 <= GEpoch g < 2 ^ 16 /\
      exists s b, L !! GSession g = Some (ASession s b) /\ GEpoch g <= SEpoch s
  end.

Definition ledger_ok (L : ledger) : Prop := forall addr a, L !! addr = Some a -> account_ok L addr a.

Lemma pda_loop_ok n seeds addr bump :
  pda_loop n prog seeds = Ok (addr, bump) ->
  addr = pda_candidate prog seeds bump /\ onCurve addr = false /\ 0 <= bump < Z.of_nat n.
Proof.
  induction n as [|n IH]; [done|]. cbn [pda_loop].
  destruct (onCurve (pda_candidate prog seeds (Z.of_nat n))) eqn:Ec; cbn [negb].
  - intros H. destruct (IH H) as (? & ? & ?). split_and!; try done; lia.
  - intros [= <- <-]. split_and!; try done; lia.
Qed.

Lemma findPDA_at_pda seeds addr bump : findPDA prog seeds = Ok (addr, bump) -> at_pda addr seeds bump = true.
Proof.
  intros (-> & Hc & _)%pda_loop_ok. unfold at_pda. rewrite Hc. cbn [negb andb]. by apply bool_decide_eq_true_2.
Qed.

Lemma findPDA_len seeds addr bump : findPDA prog seeds = Ok (addr, bump) -> len addr = 32.
Proof. intros (-> & _)%pda_loop_ok. unfold len, pda_candidate. by rewrite sha256_len. Qed.

Lemma canonical_ok addr seeds bump : canonical addr seeds = Ok bump <-> findPDA prog seeds = Ok (addr, bump).
Proof.
  unfold canonical. destruct (findPDA prog seeds) as [[a b]|]; [|naive_solver].
  case_bool_decide; naive_solver.
Qed.

(** Sessions persist and their epochs only grow. *)
Definition sess_le (L L' : ledger) : Prop :=
  forall addr s b, L !! addr = Some (ASession s b) ->
    exists s' b', L' !! addr = Some (ASession s' b') /\ SEpoch s <= SEpoch s'.

Lemma account_ok_mono L L' addr a : sess_le L L' -> account_ok L addr a -> account_ok L' addr a.
Proof.
  intros Hle. destruct a as [s b|g b]; [done|]. intros (H1 & H2 & H3 & H4 & H5 & H6 & s & b' & Hs & He).
  destruct (Hle _ _ _ Hs) as (s' & b'' & Hs' & He'). do 6 (split; [assumption|]). exists s', b''. split; [done|lia].
Qed.

Lemma ledger_ok_insert L addr a :
  ledger_ok L -> sess_le L (<[addr := a]> L) -> account_ok (<[addr := a]> L) addr a ->
  ledger_ok (<[addr := a]> L).
Proof.
  intros Hok Hle Ha x y [[<- <-]|[_ Hx]]%lookup_insert_Some; [done|].
  eapply account_ok_mono; [done|]. by apply Hok.
Qed.

Lemma sess_le_insert L addr a :
  (forall s b, L !! addr = Some (ASession s b) -> exists s' b', a = ASession s' b' /\ SEpoch s <= SEpoch s') ->
  sess_le L (<[addr := a]> L).
Proof.
  intros H x s b Hx. destruct (decide (addr = x)) as [<-|Hne].
  - destruct (H s b Hx) as (s' & b' & -> & He). exists s', b'. by rewrite lookup_insert_eq.
  - exists s, b. rewrite lookup_insert_ne by done. split; [done|lia].
Qed.

Lemma load_session_ok L ms mo s b :
  load_session L ms mo = Ok (s, b) ->
  L !! key ms = Some (ASession s b) /\ SOwner s = key mo /\ isSigner mo = true.
Proof.
  unfold load_session. destruct (L !! key ms) as [[s' b'|]|]; try done.
  intros (? & Hp%guard_ok_ok & (? & Ho%guard_ok_ok & (? & Hs%guard_ok_ok & [= -> ->])%bind_ok)%bind_ok)%bind_ok.
  go_bool. done.
Qed.

Lemma load_session_run L ms mo s b :
  ledger_ok L -> L !! key ms = Some (ASession s b) -> SOwner s = key mo -> isSigner mo = true ->
  load_session L ms mo = Ok (s, b).
Proof.
  intros Hok Hs Ho Hsig. destruct (Hok _ _ Hs) as (Hp & _). unfold load_session. rewrite Hs, Hsig.
  rewrite (findPDA_at_pda _ _ _ Hp), bool_decide_eq_true_2 by done. done.
Qed.

(** Every successful instruction is one of the five operations, by the signed
    owner of the session it names where one exists. *)
Inductive effect (L : ledger) : ledger -> Prop :=
| eff_register addr sk owner bump :
    findPDA prog [str "session"; sk] = Ok (addr, bump) -> L !! addr = None -> len sk = 32 -> len owner = 32 ->
    effect L (<[addr := ASession (mkSolSession sk owner 0) bump]> L)
| eff_session addr s b s' :
    L !! addr = Some (ASession s b) -> SSessionKey s' = SSessionKey s -> len (SOwner s') = 32 ->
    SEpoch s <= SEpoch s' < 2 ^ 16 -> effect L (<[addr := ASession s' b]> L)
| eff_grant addr sess grantee caps expiry s b bump :
    L !! sess = Some (ASession s b) -> findPDA prog [str "grant"; sess; grantee] = Ok (addr, bump) ->
    (forall s b, L !! addr <> Some (ASession s b)) -> len sess = 32 -> len grantee = 32 -> 0 <= caps < 8 ->
    - 2 ^ 63 <= expiry < 2 ^ 63 ->
    effect L (<[addr := AGrant (mkSolGrant sess grantee caps expiry (SEpoch s)) bump]> L)
| eff_revoke addr g b : L !! addr = Some (AGrant g b) -> effect L (delete addr L).

Lemma effect_ok L L' : ledger_ok L -> effect L L' -> ledger_ok L'.
Proof.
  intros Hok He. destruct He as [addr sk o bump Hp Hn Hk Ho|addr s b s' Hs Hk Ho He
    |addr sess w caps expiry s b bump Hs Hp Hn Hls Hlw Hc Hx|addr g b Hg].
  - apply ledger_ok_insert; [done|apply sess_le_insert; congruence|]. by split_and!.
  - destruct (Hok _ _ Hs) as (Hp & Hlk & _ & Hse).
    apply ledger_ok_insert; [done|apply sess_le_insert|].
    + intros s0 b0 Hs0. assert (s0 = s) as -> by congruence. exists s', b. split; [done|lia].
    + split_and!; [congruence|congruence|done|lia|lia].
  - destruct (Hok _ _ Hs) as (_ & _ & _ & Hse).
    apply ledger_ok_insert; [done|apply sess_le_insert; intros s0 b0 Hs0; by destruct (Hn s0 b0)|].
    split_and!; simpl; try done; try lia. exists s, b. split; [|lia]. rewrite lookup_insert_ne; [done|].
    intros ->. by destruct (Hn s b).
  - intros x y [Hne Hx]%lookup_delete_Some. eapply account_ok_mono; [|by apply Hok].
    intros z s b' Hz. exists s, b'. rewrite lookup_delete_ne; [split; [done|lia]|]. congruence.
Qed.

Lemma Subset_all caps : 0 <= caps < 256 -> Subset caps AllCaps = true -> caps < 8.
Proof.
  intros Hc Hs. assert (forallb (fun n => implb (Subset (Z.of_nat n) AllCaps) (Z.of_nat n <? 8)) (seq 0 256) = true)
    as HF by (vm_compute; reflexivity).
  rewrite forallb_forall in HF. specialize (HF (Z.to_nat caps)). rewrite in_seq, Z2Nat.id in HF by lia.
  specialize (HF ltac:(lia)). rewrite Hs in HF. simpl in HF. lia.
Qed.

Lemma Subset_known caps : 0 <= caps < 8 -> Subset caps AllCaps = true.
Proof.
  intros Hc. assert (forallb (fun n => Subset (Z.of_nat n) AllCaps) (seq 0 8) = true) as HF by (vm_compute; reflexivity).
  rewrite forallb_forall in HF. specialize (HF (Z.to_nat caps)). rewrite in_seq, Z2Nat.id in HF by lia.
  apply HF. lia.
Qed.

Lemma i64_range z : - 2 ^ 63 <= i64 z < 2 ^ 63.
Proof. unfold i64. pose proof (Z.mod_pos_bound (z + 2 ^ 63) (2 ^ 64) ltac:(lia)). lia. Qed.

Lemma len_take_ge {A} n (l : list A) : Z.of_nat n <= len l -> len (take n l) = Z.of_nat n.
Proof. unfold len. rewrite length_take. lia. Qed.

Lemma process_effect L ix L' :
  ledger_ok L -> Forall (fun m => len (key m) = 32) (ix_accounts ix) -> process L ix = Ok L' -> effect L L'.
Proof.
  intros Hok HF. unfold process. destruct (ix_accounts ix) as [|ma [|mb rest]];
    [repeat case_bool_decide; done..|].
  apply Forall_cons_1 in HF as [Ha [Hb HF]%Forall_cons_1].
  repeat (case_bool_decide as Htag; [clear Htag|clear Htag]); [| | | | |done].
  - destruct rest as [|mo [|msys rest]]; try done. apply Forall_cons_1 in HF as [Ho _]. unfold register_session.
    intros (? & _ & (? & _ & (? & _ & (bump & Hp%canonical_ok & H)%bind_ok)%bind_ok)%bind_ok)%bind_ok.
    destruct (L !! key ma) eqn:En; [done|]. injection H as <-. by apply eff_register.
  - intros (? & Hl%guard_ok_ok & ([s b] & (Hs & _)%load_session_ok & (? & _ & [= <-])%bind_ok)%bind_ok)%bind_ok.
    go_bool. destruct (Hok _ _ Hs) as (_ & _ & _ & He).
    eapply eff_session; [done|done|by apply len_take_ge|simpl; lia].
  - destruct rest as [|mo [|msys rest]]; try done. unfold grant.
    intros (? & Hl%guard_ok_ok & ([s b] & (Hs & _)%load_session_ok & (? & _ & (? & _ & H)%bind_ok)%bind_ok)%bind_ok)%bind_ok.
    apply bind_ok in H as (bump & Hp%canonical_ok & (? & Hn & (? & Hc%guard_ok_ok & [= <-])%bind_ok)%bind_ok).
    go_bool. eapply eff_grant; [done|done| |done|apply len_take_ge; lia| |apply i64_range].
    + intros s0 b0 Hs0. by rewrite Hs0 in Hn.
    + split; [apply b2z_range|]. apply Subset_all; [apply b2z_range|done].
  - destruct rest as [|mo rest]; try done. unfold revoke. intros ([s b] & _ & H)%bind_ok.
    destruct (L !! key mb) as [[|g b']|] eqn:Eg; try done.
    apply bind_ok in H as (? & _ & (? & _ & [= <-])%bind_ok). by eapply eff_revoke.
  - intros ([s b] & (Hs & _)%load_session_ok & (? & _ & (? & He%guard_ok_ok & [= <-])%bind_ok)%bind_ok)%bind_ok.
    go_bool. destruct (Hok _ _ Hs) as (_ & _ & Ho & He').
    eapply eff_session; [done|done|done|simpl; lia].
Qed.

Lemma reachable_ok L : reachable L -> ledger_ok L.
Proof.
  induction 1 as [|L ix L' _ IH HF Hp]; [done|]. eapply effect_ok; [done|]. by eapply process_effect.
Qed.
End program.

(** ** Reading account data back *)

Lemma le_value_bytes n z : le_value (le_bytes n z) = z mod 2 ^ (8 * Z.of_nat n).
Proof.
  revert z. induction n as [|n IH]; intros z; cbn [le_bytes le_value].
  { by rewrite Z.mod_1_r. }
  rewrite IH, b2z_z2b, Z.shiftr_div_pow2, Z.shiftl_mul_pow2 by lia.
  replace (8 * Z.of_nat (S n)) with (8 + 8 * Z.of_nat n) by lia.
  rewrite Z.pow_add_r by lia. rewrite Z.rem_mul_r by lia. change (2 ^ 8) with 256. lia.
Qed.

Lemma le_bytes_len n z : length (le_bytes n z) = n.
Proof. revert z. induction n as [|n IH]; intros z; simpl; [done|]. by rewrite IH. Qed.

Lemma sub_slice_mid (a b c : bytes) : sub_slice (a ++ b ++ c) (length a) (length b) = b.
Proof. unfold sub_slice. by rewrite drop_app_length, take_app_length. Qed.

Lemma take_tag (d r : bytes) : length d = 8%nat -> take 8 (d ++ r) = d.
Proof. intros <-. apply take_app_length. Qed.

Lemma length_of_len {A} (l : list A) n : len l = Z.of_nat n -> length l = n.
Proof. unfold len. lia. Qed.

Lemma decodeSession_data s b :
  len (SSessionKey s) = 32 -> len (SOwner s) = 32 -> 0 <= SEpoch s < 2 ^ 16 ->
  decodeSession (account_data (ASession s b)) = Ok s.
Proof.
  intros Hk%(length_of_len _ 32) Ho%(length_of_len _ 32) He. unfold decodeSession, account_data.
  assert (len (sessionDisc ++ SSessionKey s ++ SOwner s ++ le_bytes 2 (SEpoch s) ++ [z2b b]) = sessionLen) as ->.
  { unfold len. rewrite !length_app, Hk, Ho, le_bytes_len. reflexivity. }
  rewrite Z.ltb_irrefl. rewrite take_tag by done.
  rewrite bool_decide_eq_true_2 by done. cbn [negb].
  pose proof (sub_slice_mid sessionDisc (SSessionKey s) (SOwner s ++ le_bytes 2 (SEpoch s) ++ [z2b b])) as H1.
  pose proof (sub_slice_mid (sessionDisc ++ SSessionKey s) (SOwner s) (le_bytes 2 (SEpoch s) ++ [z2b b])) as H2.
  pose proof (sub_slice_mid (sessionDisc ++ SSessionKey s ++ SOwner s) (le_bytes 2 (SEpoch s)) [z2b b]) as H3.
  rewrite ?length_app, ?Hk, ?Ho, ?le_bytes_len, <- ?app_assoc in *.
  change (length sessionDisc) with 8%nat in *. simpl plus in *. rewrite H1, H2, H3, le_value_bytes, Z.mod_small by lia.
  by destruct s.
Qed.

Lemma decodeGrant_data g b :
  len (GSession g) = 32 -> len (GGrantee g) = 32 -> 0 <= GCaps g < 8 -> - 2 ^ 63 <= GExpiry g < 2 ^ 63 ->
  0 <= GEpoch g < 2 ^ 16 -> decodeGrant (account_data (AGrant g b)) = Ok g.
Proof.
  intros Hs%(length_of_len _ 32) Hg%(length_of_len _ 32) Hc Hx He. unfold decodeGrant, account_data.
  set (ex := le_bytes 8 (GExpiry g)). set (ep := le_bytes 2 (GEpoch g)).
  assert (length ex = 8%nat /\ length ep = 2%nat) as [Hlx Hlp] by (split; apply le_bytes_len).
  assert (len (grantDisc ++ GSession g ++ GGrantee g ++ [z2b (GCaps g)] ++ ex ++ ep ++ [z2b b]) = grantLen) as ->.
  { unfold len. rewrite !length_app, Hs, Hg, Hlx, Hlp. reflexivity. }
  rewrite Z.ltb_irrefl. rewrite take_tag by done.
  rewrite bool_decide_eq_true_2 by done. cbn [negb].
  pose proof (sub_slice_mid grantDisc (GSession g) (GGrantee g ++ [z2b (GCaps g)] ++ ex ++ ep ++ [z2b b])) as H1.
  pose proof (sub_slice_mid (grantDisc ++ GSession g) (GGrantee g) ([z2b (GCaps g)] ++ ex ++ ep ++ [z2b b])) as H2.
  pose proof (sub_slice_mid (grantDisc ++ GSession g ++ GGrantee g ++ [z2b (GCaps g)]) ex (ep ++ [z2b b])) as H3.
  pose proof (sub_slice_mid (grantDisc ++ GSession g ++ GGrantee g ++ [z2b (GCaps g)] ++ ex) ep [z2b b]) as H4.
  assert (nth (8 + 64) (grantDisc ++ GSession g ++ GGrantee g ++ [z2b (GCaps g)] ++ ex ++ ep ++ [z2b b]) x00 = z2b (GCaps g)) as ->.
  { rewrite !app_assoc, <- (app_assoc _ [_] _), <- 2!(app_assoc _ _ ep), <- app_assoc.
    rewrite app_nth2 by (rewrite !length_app, Hs, Hg; simpl; lia). rewrite !length_app, Hs, Hg. done. }
  rewrite ?length_app, ?Hs, ?Hg, ?Hlx, ?Hlp, <- ?app_assoc in *. simpl length in *. simpl plus in *.
  rewrite H1, H2, H3, H4. unfold ex, ep. rewrite !le_value_bytes.
  rewrite b2z_z2b, (Z.mod_small (GCaps g)), (Z.mod_small (GEpoch g)) by lia.
  assert (i64 (GExpiry g mod 2 ^ (8 * Z.of_nat 8)) = GExpiry g) as ->; [|by destruct g].
  unfold i64. change (8 * Z.of_nat 8) with 64. rewrite Z.add_mod_idemp_l, Z.mod_small by lia. lia.
Qed.

(** ** What a node answers, and what the source makes of it *)

Definition rpc_of (x : bytes * account) : rpcAccount :=
  mkRpcAccount (EncodeBase58 (fst x)) [EncodeToString (account_data (snd x)); str "base64"].

(** getProgramAccounts lists every account of the program once, in any
    order. *)
Definition answers (L : ledger) (accounts : list rpcAccount) : Prop :=
  accounts ≡ₚ rpc_of <$> map_to_list L.

Definition any_order (order : gmap bytes bytes -> list (bytes * bytes)) : Prop :=
  forall m, order m ≡ₚ map_to_list m.

Lemma encode_inj a b : a <> [] -> b <> [] -> EncodeBase58 a = EncodeBase58 b -> a = b.
Proof.
  intros Ha Hb E. pose proof (base58_decode_encode a Ha) as H1. unfold EncodeBase58 in E. rewrite E in H1.
  rewrite base58_decode_encode in H1 by done. by injection H1.
Qed.

Lemma ParseAddress_Encode addr : len addr = 32 -> ParseAddress (EncodeBase58 addr) = Ok addr.
Proof.
  intros Hl. unfold ParseAddress, EncodeBase58. rewrite base58_decode_encode by (by intros ->).
  cbn [mbind res_bind]. by rewrite Hl.
Qed.

Lemma decode_accounts_list (l : list (bytes * account)) :
  NoDup l.*1 -> (forall x, x ∈ l -> fst x <> []) ->
  forall k d, decode_accounts (rpc_of <$> l) !! k = Some d <->
    exists addr a, (addr, a) ∈ l /\ k = EncodeBase58 addr /\ d = account_data a.
Proof.
  induction l as [|[addr0 a0] l IH] using rev_ind; intros Hn Hne k d.
  { split; [done|]. intros (? & ? & []%elem_of_nil & _). }
  rewrite fmap_app in Hn. apply list.NoDup_app in Hn as (Hn & Hd & _).
  unfold decode_accounts. rewrite fmap_app, fold_left_app. cbn [fmap list_fmap fold_left]. fold (decode_accounts (rpc_of <$> l)).
  unfold add_account at 1, rpc_of at 1 2. cbn [Data Pubkey fst snd]. rewrite Decode_Encode.
  assert (forall x, x ∈ l -> fst x <> []) as Hne' by (intros x Hx; apply Hne, elem_of_app; by left).
  assert (addr0 <> []) as H0 by (apply (Hne (addr0, a0)), elem_of_app; right; left).
  specialize (IH Hn Hne'). rewrite lookup_insert_Some, IH. split.
  - intros [[<- <-]|[_ (addr & a & Hin & -> & ->)]].
    + exists addr0, a0. split; [|done]. apply elem_of_app. right. left.
    + exists addr, a. split; [|done]. apply elem_of_app. by left.
  - intros (addr & a & [Hin|Hin]%elem_of_app & -> & ->).
    + right. split; [|by eauto]. intros E%encode_inj; [|done|by apply (Hne' _ Hin)]. subst addr.
      apply (Hd addr0); [|left]. apply list_elem_of_fmap. by exists (addr0, a).
    + apply list_elem_of_singleton in Hin as [= -> ->]. by left.
Qed.

Section read.
Context {C : Curve} (prog : bytes) (L : ledger) (Hok : ledger_ok prog L).

Lemma account_len addr a : L !! addr = Some a -> len addr = 32.
Proof. intros H%Hok. destruct a; destruct H as [H _]; by eapply findPDA_len. Qed.

Lemma decode_accounts_lookup accounts k d :
  answers L accounts ->
  decode_accounts accounts !! k = Some d <->
  exists addr a, L !! addr = Some a /\ k = EncodeBase58 addr /\ d = account_data a.
Proof.
  intros Ha. apply Permutation_map_inv in Ha as (l & -> & Hp).
  fold (rpc_of <$> l). rewrite decode_accounts_list.
  - setoid_rewrite <- (elem_of_map_to_list L). by setoid_rewrite Hp.
  - rewrite <- Hp. apply NoDup_fst_map_to_list.
  - intros [addr a] Hin. rewrite <- Hp in Hin. apply elem_of_map_to_list, account_len in Hin. simpl. intros ->. done.
Qed.

Lemma session_data addr s b : L !! addr = Some (ASession s b) -> decodeSession (account_data (ASession s b)) = Ok s.
Proof. intros (_ & ? & ? & ?)%Hok. by apply decodeSession_data. Qed.

Lemma grant_data addr g b : L !! addr = Some (AGrant g b) -> decodeGrant (account_data (AGrant g b)) = Ok g.
Proof. intros (_ & ? & ? & ? & ? & ? & _)%Hok. by apply decodeGrant_data. Qed.

(** Neither kind of account reads as the other. *)
Lemma decodeSession_inv addr a s :
  L !! addr = Some a -> decodeSession (account_data a) = Ok s -> exists b, a = ASession s b.
Proof.
  intros Ha Hd. destruct a as [s' b|g b].
  - rewrite (session_data _ _ _ Ha) in Hd. injection Hd as ->. by exists b.
  - exfalso. unfold decodeSession in Hd. destruct (_ <? _); [done|]. cbn [account_data] in Hd.
    rewrite take_tag in Hd by done. done.
Qed.

Lemma decodeGrant_inv addr a g :
  L !! addr = Some a -> decodeGrant (account_data a) = Ok g -> exists b, a = AGrant g b.
Proof.
  intros Ha Hd. destruct a as [s b|g' b].
  - exfalso. unfold decodeGrant in Hd. destruct (_ <? _); [done|]. cbn [account_data] in Hd.
    rewrite take_tag in Hd by done. done.
  - rewrite (grant_data _ _ _ Ha) in Hd. injection Hd as ->. by exists b.
Qed.

(** A session key has one account, a grantee of a session one grant. *)
Lemma session_unique a1 a2 s1 s2 b1 b2 :
  L !! a1 = Some (ASession s1 b1) -> L !! a2 = Some (ASession s2 b2) ->
  SSessionKey s1 = SSessionKey s2 -> a1 = a2 /\ s1 = s2.
Proof.
  intros H1 H2 E. destruct (Hok _ _ H1) as (P1 & _), (Hok _ _ H2) as (P2 & _).
  rewrite E in P1. assert (a1 = a2) as -> by congruence. split; congruence.
Qed.

Lemma grant_unique a1 a2 g1 g2 b1 b2 :
  L !! a1 = Some (AGrant g1 b1) -> L !! a2 = Some (AGrant g2 b2) ->
  GSession g1 = GSession g2 -> GGrantee g1 = GGrantee g2 -> g1 = g2.
Proof.
  intros H1 H2 E1 E2. destruct (Hok _ _ H1) as (P1 & _), (Hok _ _ H2) as (P2 & _).
  rewrite E1, E2 in P1. assert (a1 = a2) as -> by congruence. congruence.
Qed.
End read.

(** ** The two loops of Refresh *)

Lemma decodeSession_tag data s : decodeSession data = Ok s ->
  (len data <? 8) || negb (bool_decide (take 8 data = sessionDisc)) = false.
Proof.
  unfold decodeSession. destruct (len data <? sessionLen) eqn:El; [done|]. case_bool_decide; [|done].
  intros _. go_bool. unfold sessionLen in El. cbn [negb]. rewrite orb_false_r. lia.
Qed.

Lemma decodeGrant_tag data g : decodeGrant data = Ok g ->
  (len data <? 8) || negb (bool_decide (take 8 data = grantDisc)) = false.
Proof.
  unfold decodeGrant. destruct (len data <? grantLen) eqn:El; [done|]. case_bool_decide; [|done].
  intros _. go_bool. unfold grantLen in El. cbn [negb]. rewrite orb_false_r. lia.
Qed.

Definition is_session (k : bytes) (e : bytes * bytes) (s : SolSession) (addr : bytes) : Prop :=
  decodeSession (snd e) = Ok s /\ SSessionKey s = k /\ ParseAddress (fst e) = Ok addr.

Lemma find_session_spec k entries :
  match find_session k entries with
  | Some (s, addr, pub) => exists data, (pub, data) ∈ entries /\ is_session k (pub, data) s addr
  | None => forall e s addr, e ∈ entries -> ~ is_session k e s addr
  end.
Proof.
  induction entries as [|[pub data] rest IH]; cbn [find_session]; [intros e s a []%elem_of_nil|].
  assert (Hskip : (forall s addr, ~ is_session k (pub, data) s addr) ->
    match find_session k rest with
    | Some (s, addr, pub') => exists data', (pub', data') ∈ (pub, data) :: rest /\ is_session k (pub', data') s addr
    | None => forall e s addr, e ∈ (pub, data) :: rest -> ~ is_session k e s addr
    end).
  { intros Hno. destruct (find_session k rest) as [[[s addr] pub']|].
    - destruct IH as (data' & Hin & Hs). exists data'. split; [by right|done].
    - intros e s addr [->|Hin]%elem_of_cons; [apply Hno|by apply IH]. }
  destruct ((len data <? 8) || negb (bool_decide (take 8 data = sessionDisc))) eqn:Et.
  { apply Hskip. intros s addr [Hd%decodeSession_tag _]. simpl in Hd. congruence. }
  destruct (decodeSession data) as [dec|] eqn:Ed; [|apply Hskip; intros s addr [Hd _]; simpl in Hd; congruence].
  clear Et. case_bool_decide as Hk; cbn [negb]; [|apply Hskip; intros s addr (Hd & ? & _); simpl in Hd; congruence].
  destruct (ParseAddress pub) as [addr|] eqn:Ep; [|apply Hskip; intros s addr (_ & _ & Hp); simpl in Hp; congruence].
  exists data. split; [left|]. done.
Qed.

Lemma collect_grants_spec addr entries g :
  g ∈ fst (collect_grants addr entries) <->
  exists pub data, (pub, data) ∈ entries /\ decodeGrant data = Ok g /\ GSession g = addr.
Proof.
  induction entries as [|[pub data] rest IH]; cbn [collect_grants].
  { split; [intros []%elem_of_nil|]. intros (? & ? & []%elem_of_nil & _). }
  destruct (collect_grants addr rest) as [gs ts]. cbn [fst] in IH.
  assert (Hskip : (decodeGrant data = Ok g -> GSession g <> addr) -> g ∈ gs <->
    exists pub' data', (pub', data') ∈ (pub, data) :: rest /\ decodeGrant data' = Ok g /\ GSession g = addr).
  { intros Hno. rewrite IH. split; intros (p & d & Hin & Hd & Hs).
    - exists p, d. split; [by right|done].
    - apply elem_of_cons in Hin as [[= -> ->]|Hin]; [by destruct (Hno Hd)|eauto]. }
  destruct ((len data <? 8) || negb (bool_decide (take 8 data = grantDisc))) eqn:Et.
  { apply Hskip. intros Hd%decodeGrant_tag. congruence. }
  destruct (decodeGrant data) as [g'|] eqn:Ed; [|by apply Hskip].
  clear Et. case_bool_decide as Hk; cbn [negb fst]; [|apply Hskip; congruence].
  rewrite elem_of_cons, IH. split.
  - intros [->|(p & d & Hin & ?)]; [exists pub, data; split; [left|done]|exists p, d; split; [by right|done]].
  - intros (p & d & [[= -> ->]|Hin]%elem_of_cons & Hd & Hs); [left; congruence|right; eauto].
Qed.

(** buildSnapshot keeps the live grants, one per grantee. *)
Lemma buildSnapshot_spec s gs now w c :
  (forall g1 g2, g1 ∈ gs -> g2 ∈ gs -> GGrantee g1 = GGrantee g2 -> g1 = g2) ->
  grants (buildSnapshot s gs now) !! w = Some c <->
  exists g, g ∈ gs /\ GGrantee g = w /\ GCaps g = c /\ live_grant s g now = true.
Proof.
  unfold buildSnapshot. cbn [grants].
  induction gs as [|g gs IH] using rev_ind; intros Hu.
  { split; [done|]. intros (? & []%elem_of_nil & _). }
  rewrite fold_left_app. cbn [fold_left]. set (m := fold_left _ gs ∅) in *.
  assert (Hu' : forall g1 g2, g1 ∈ gs -> g2 ∈ gs -> GGrantee g1 = GGrantee g2 -> g1 = g2).
  { intros g1 g2 H1 H2. apply Hu; apply elem_of_app; by left. }
  assert (Hdead : live_grant s g now = false -> m !! w = Some c <->
    exists g0, g0 ∈ gs ++ [g] /\ GGrantee g0 = w /\ GCaps g0 = c /\ live_grant s g0 now = true).
  { intros Hd. rewrite IH by done. split; intros (g0 & Hin & Hg); exists g0.
    - split; [apply elem_of_app; by left|done].
    - apply elem_of_app in Hin as [Hin| ->%list_elem_of_singleton]; [done|]. destruct Hg as (_ & _ & Hl). congruence. }
  destruct (GEpoch g =? SEpoch s) eqn:Ee; cbn [negb]; [|apply Hdead; unfold live_grant; by rewrite Ee].
  destruct (negb (GExpiry g =? 0) && (GExpiry g <=? Unix now)) eqn:Ex;
    [apply Hdead; unfold live_grant; by rewrite Ee, Ex|].
  assert (live_grant s g now = true) as Hl by (unfold live_grant; by rewrite Ee, Ex).
  rewrite lookup_insert_Some, IH by done. split.
  - intros [[<- <-]|[_ (g0 & Hin & Hg)]]; [exists g|exists g0]; (split; [apply elem_of_app|]); [right; left|done|by left|done].
  - intros (g0 & [Hin| ->%list_elem_of_singleton]%elem_of_app & <- & <- & Hg0); [|by left].
    destruct (decide (GGrantee g = GGrantee g0)) as [E|E]; [|right; split; [done|eauto]].
    left. split; [done|]. f_equal. apply Hu; [apply elem_of_app; right; left|apply elem_of_app; by left|done].
Qed.

(** ** The snapshot a ledger stands for *)

(** [sn] shows session [sk] of ledger [L] at time [now]: its owner, and for
    each grantee the capabilities of its live grant. *)
Definition shows (L : ledger) (sk : bytes) (now : Z) (sn : snapshot) : Prop :=
  exists addr s b, L !! addr = Some (ASession s b) /\ SSessionKey s = sk /\ owner sn = SOwner s /\
    forall w c, grants sn !! w = Some c <->
      exists ga g gb, L !! ga = Some (AGrant g gb) /\ GSession g = addr /\ GGrantee g = w /\
        GCaps g = c /\ live_grant s g now = true.

Definition registered (L : ledger) (sk : bytes) : Prop :=
  exists addr s b, L !! addr = Some (ASession s b) /\ SSessionKey s = sk.

(** A refresh whose node answered from [L]. *)
Record faithful (L : ledger) (a : attempt) : Prop := mk_faithful {
  fa_rpc : exists accounts, a_rpc a = Ok accounts /\ answers L accounts;
  fa_order1 : any_order (a_order1 a);
  fa_order2 : any_order (a_order2 a);
}.

Lemma refresh_shows {C : Curve} prog L src a :
  ledger_ok prog L -> faithful L a ->
  match refresh src a with
  | (src', None) => exists sn, snap src' = Some sn /\ lastOK src' = a_stored a /\
                      maxStaleness src' = maxStaleness src /\ sessionKey src' = sessionKey src /\
                      shows L (sessionKey src) (a_built a) sn
  | (src', Some e) => src' = src /\ e = NotRegistered /\ ~ registered L (sessionKey src)
  end.
Proof.
  intros Hok [(accounts & Hrpc & Ha) H1 H2]. unfold refresh, Refresh, fetch. rewrite Hrpc.
  set (decoded := decode_accounts accounts).
  assert (Hmem : forall order, any_order order -> forall pub data, (pub, data) ∈ order decoded <->
    exists addr x, L !! addr = Some x /\ pub = EncodeBase58 addr /\ data = account_data x).
  { intros order Ho pub data. rewrite (Ho decoded), elem_of_map_to_list. by eapply decode_accounts_lookup. }
  pose proof (find_session_spec (sessionKey src) (a_order1 a decoded)) as Hf.
  destruct (find_session _ _) as [[[s addr] pub]|].
  - destruct Hf as (data & Hin & Hd & Hk & Hp). cbn [fst snd] in *.
    apply (Hmem _ H1) in Hin as (addr' & x & Hx & -> & ->).
    destruct (decodeSession_inv _ _ Hok _ _ _ Hx Hd) as [b ->].
    rewrite ParseAddress_Encode in Hp by (by eapply account_len). injection Hp as ->.
    pose proof (collect_grants_spec addr (a_order2 a decoded)) as Hc.
    destruct (collect_grants _ _) as [gs ts]. cbn [fst] in Hc.
    assert (Hg : forall g, g ∈ gs <-> exists ga gb, L !! ga = Some (AGrant g gb) /\ GSession g = addr).
    { intros g. rewrite Hc. split.
      - intros (p & d & (ga & x & Hx' & -> & ->)%(Hmem _ H2) & Hd' & Hs).
        destruct (decodeGrant_inv _ _ Hok _ _ _ Hx' Hd') as [gb ->]. by exists ga, gb.
      - intros (ga & gb & Hga & Hs). exists (EncodeBase58 ga), (account_data (AGrant g gb)).
        split; [apply (Hmem _ H2); by eauto|]. split; [by eapply grant_data|done]. }
    eexists. split_and!; try done. exists addr, s, b. split_and!; try done. intros w c.
    rewrite buildSnapshot_spec.
    + setoid_rewrite Hg. naive_solver.
    + intros g1 g2 (ga1 & gb1 & Hg1 & Hs1)%Hg (ga2 & gb2 & Hg2 & Hs2)%Hg Hw.
      eapply grant_unique; [done|exact Hg1|exact Hg2|congruence|done].
  - split_and!; try done. intros (addr & s & b & Hs & Hk).
    apply (Hf (EncodeBase58 addr, account_data (ASession s b)) s addr).
    + apply (Hmem _ H1). eauto.
    + split; [by eapply session_data|]. split; [done|]. apply ParseAddress_Encode. by eapply account_len.
Qed.

(** The refresh of a registered session, in terms of its account. *)
Lemma refresh_session {C : Curve} prog L src a addr s b :
  reachable prog L -> faithful L a -> L !! addr = Some (ASession s b) -> sessionKey src = SSessionKey s ->
  exists src' sn, refresh src a = (src', None) /\ snap src' = Some sn /\ owner sn = SOwner s /\
    forall w c, grants sn !! w = Some c <->
      exists ga g gb, L !! ga = Some (AGrant g gb) /\ GSession g = addr /\ GGrantee g = w /\
        GCaps g = c /\ live_grant s g (a_built a) = true.
Proof.
  intros Hr Ha Hs Hk. pose proof (refresh_shows prog L src a (reachable_ok _ _ Hr) Ha) as H.
  destruct (refresh src a) as [src' [e|]].
  { destruct H as (_ & _ & []). exists addr, s, b. by rewrite Hk. }
  destruct H as (sn & Hsn & _ & _ & _ & addr' & s' & b' & HL & Hk' & Ho & Hg).
  destruct (session_unique prog L (reachable_ok _ _ Hr) _ _ _ _ _ _ HL Hs) as [-> ->]; [congruence|].
  by exists src', sn.
Qed.

(** ** The Go builders meet the program *)

Lemma ixDiscriminator_len name : length (ixDiscriminator name) = 8%nat.
Proof. unfold ixDiscriminator. rewrite length_take, sha256_len. lia. Qed.

(** The five tags are distinct. *)
Definition ix_names : list bytes :=
  [str "register_session"; str "transfer_ownership"; str "grant"; str "revoke"; str "bump_epoch"].

Lemma tags_distinct a b : a ∈ ix_names -> b ∈ ix_names -> ixDiscriminator a = ixDiscriminator b -> a = b.
Proof.
  assert (Forall (fun a => Forall (fun b => ixDiscriminator a = ixDiscriminator b -> a = b) ix_names) ix_names) as HF
    by (apply (bool_decide_unpack _); vm_compute; exact I).
  intros Ha%list_elem_of_In Hb%list_elem_of_In.
  exact (proj1 (List.Forall_forall _ _) (proj1 (List.Forall_forall _ _) HF a Ha) b Hb).
Qed.

Lemma tag_eq a b : a ∈ ix_names -> b ∈ ix_names ->
  bool_decide (ixDiscriminator a = ixDiscriminator b) = bool_decide (a = b).
Proof.
  intros Ha Hb. apply bool_decide_ext. split; [by apply tags_distinct|by intros ->].
Qed.

(** Reduce the dispatch of a built instruction. *)
Ltac dispatch :=
  unfold process; cbn [ix_data ix_accounts];
  rewrite ?take_tag, ?(take_ge (ixDiscriminator _)) by (rewrite ?ixDiscriminator_len; done || lia);
  rewrite !tag_eq by (unfold ix_names; set_solver);
  repeat (rewrite bool_decide_eq_false_2 by (vm_compute; discriminate)); rewrite bool_decide_eq_true_2 by done.

Lemma drop_tag (d r : bytes) : length d = 8%nat -> drop 8 (d ++ r) = r.
Proof. intros <-. apply drop_app_length. Qed.

Lemma Ok_inj {E A} (x y : A) : @Ok E A x = Ok y -> x = y.
Proof. congruence. Qed.

Section governance.
Context {C : Curve} (prog : bytes) (L : ledger) (Hreach : reachable prog L).
Context (src : Source) (Hprog : programPubkey src = Ok prog).
Context (addr : bytes) (s : SolSession) (b : Z) (Hs : L !! addr = Some (ASession s b)).

Lemma session_pda : sessionPDA src (SSessionKey s) = Ok (addr, b).
Proof.
  unfold sessionPDA. rewrite Hprog. cbn [mbind res_bind]. destruct (reachable_ok _ _ Hreach _ _ Hs) as [H _]. exact H.
Qed.

Lemma grant_pda w : grantPDA src addr w = findPDA prog [str "grant"; addr; w].
Proof. unfold grantPDA. by rewrite Hprog. Qed.

Lemma owner_len : len (SOwner s) = 32.
Proof. by destruct (reachable_ok _ _ Hreach _ _ Hs) as (_ & _ & ? & _). Qed.

Lemma addr_len : len addr = 32.
Proof. eapply account_len; [by apply reachable_ok|done]. Qed.

Lemma load_owner w1 w2 :
  load_session prog L (mkMeta addr w1 w2) (mkMeta (SOwner s) true true) = Ok (s, b).
Proof. by apply load_session_run; [apply reachable_ok|..]. Qed.

Lemma process_bump ix :
  SEpoch s + 1 < 2 ^ 16 -> bumpEpochIx src (SOwner s) (SSessionKey s) = Ok ix ->
  process prog L ix = Ok (<[addr := ASession (mkSolSession (SSessionKey s) (SOwner s) (SEpoch s + 1)) b]> L) /\
  Forall (fun m => len (key m) = 32) (ix_accounts ix).
Proof.
  intros He. unfold bumpEpochIx. rewrite Hprog, session_pda. cbn [mbind res_bind]. intros <-%Ok_inj. split.
  - dispatch. unfold bump_epoch. rewrite load_owner. cbn [mbind res_bind].
    assert ((SEpoch s + 1 <? 2 ^ 16) = true) as -> by lia. done.
  - cbn [ix_accounts]. repeat constructor; [apply addr_len|apply owner_len].
Qed.

Lemma process_revoke ix w ga g gb :
  grantPDA src addr w = Ok (ga, gb) -> L !! ga = Some (AGrant g gb) -> GSession g = addr -> GGrantee g = w ->
  revokeIx src (SOwner s) (SSessionKey s) w = Ok ix ->
  process prog L ix = Ok (delete ga L) /\ Forall (fun m => len (key m) = 32) (ix_accounts ix).
Proof.
  intros Hp Hg Hgs Hgw. unfold revokeIx. rewrite Hprog, session_pda. cbn [mbind res_bind]. rewrite Hp.
  cbn [mbind res_bind]. intros <-%Ok_inj. rewrite grant_pda in Hp. split.
  - dispatch. unfold revoke. rewrite load_owner. cbn [mbind res_bind key]. rewrite Hg, Hgw.
    rewrite (findPDA_at_pda _ _ _ _ Hp). done.
  - cbn [ix_accounts]. repeat constructor; [apply addr_len|by eapply findPDA_len|apply owner_len].
Qed.

Lemma process_grant ix w caps expiry ga gb :
  grantPDA src addr w = Ok (ga, gb) -> (forall s b, L !! ga <> Some (ASession s b)) ->
  len w = 32 -> 0 <= caps < 8 -> - 2 ^ 63 <= expiry < 2 ^ 63 ->
  grantIx src (SOwner s) (SSessionKey s) w caps expiry = Ok ix ->
  process prog L ix = Ok (<[ga := AGrant (mkSolGrant addr w caps expiry (SEpoch s)) gb]> L) /\
  Forall (fun m => len (key m) = 32) (ix_accounts ix).
Proof.
  intros Hp Hg Hw Hc Hx. unfold grantIx. rewrite Hprog, session_pda. cbn [mbind res_bind]. rewrite Hp.
  cbn [mbind res_bind]. intros <-%Ok_inj. rewrite grant_pda in Hp. apply (length_of_len _ 32) in Hw. split.
  - dispatch. rewrite drop_tag by apply ixDiscriminator_len.
    set (ex := le_bytes 8 expiry). assert (length ex = 8%nat) as Hex by apply le_bytes_len.
    assert (len (w ++ [z2b caps] ++ ex) = 41) as -> by (unfold len; rewrite !length_app, Hw, Hex; done).
    cbn [Z.leb Z.compare guard_ok mbind res_bind].
    rewrite take_app_le, take_ge by lia. rewrite app_nth2 by lia. rewrite Hw, Nat.sub_diag. cbn [app nth].
    assert (sub_slice (w ++ z2b caps :: ex) 33 8 = ex) as ->.
    { pose proof (sub_slice_mid (w ++ [z2b caps]) ex []) as H. rewrite app_nil_r, length_app, Hw, Hex in H.
      rewrite <- app_assoc in H. exact H. }
    unfold grant. rewrite load_owner. cbn [mbind res_bind key writable andb guard_ok].
    rewrite bool_decide_eq_true_2 by done. cbn [guard_ok mbind res_bind].
    rewrite (proj2 (canonical_ok prog ga _ gb) Hp). cbn [mbind res_bind].
    assert (match L !! ga with Some (ASession _ _) => Err WrongAccount | _ => Ok tt end = Ok tt) as ->.
    { destruct (L !! ga) as [[]|] eqn:E; [by destruct (Hg s0 bump)|done|done]. }
    rewrite b2z_z2b, Z.mod_small by lia.
    rewrite Subset_known by done.
    cbn [guard_ok mbind res_bind]. unfold ex. rewrite le_value_bytes.
    assert (i64 (expiry mod 2 ^ (8 * Z.of_nat 8)) = expiry) as ->; [|done].
    unfold i64. change (8 * Z.of_nat 8) with 64. rewrite Z.add_mod_idemp_l, Z.mod_small by lia. lia.
  - cbn [ix_accounts]. repeat constructor; [apply addr_len|by eapply findPDA_len|apply owner_len].
Qed.

End governance.

(** ** The claims *)

(** A refresh shows exactly what the chain holds.  Let the node answer
    from any reachable state of the on-chain program, its accounts in any
    order and the Go maps iterated in any order.  If this source's session is
    registered, the refresh succeeds and the snapshot's owner is the session's
    owner and its grants are exactly the grants of that session whose epoch is
    the session's and whose expiry has not passed, with the capabilities
    stored on chain; if it is not registered, the refresh fails and the source
    is left as it was. *)
Theorem refresh_reads_ledger {C : Curve} prog L src a
  (Hreach : reachable prog L) (Hrpc : faithful L a) :
  (registered L (sessionKey src) ->
   exists sn src', refresh src a = (src', None) /\ snap src' = Some sn /\
     shows L (sessionKey src) (a_built a) sn) /\
  (~ registered L (sessionKey src) -> refresh src a = (src, Some NotRegistered)).
Proof.
  pose proof (refresh_shows prog L src a (reachable_ok prog L Hreach) Hrpc) as H.
  destruct (refresh src a) as [src' [e|]].
  - destruct H as (-> & -> & Hn). split; [done|done].
  - destruct H as (sn & Hs & _ & _ & _ & Hsh). split; [by eauto|].
    intros Hn. destruct Hsh as (addr & s & b & HL & Hk & _). destruct Hn. by exists addr, s, b.
Qed.

(** No hash collision among the addresses at hand: a grant account of [L] is
    not also the candidate address of the same grantee, or of the grantee the
    instruction names, under another session the instruction names. *)
Definition no_collision (prog : bytes) (L : ledger) (ix : instruction) : Prop :=
  forall ga g gb sess w b,
    L !! ga = Some (AGrant g gb) -> sess ∈ key <$> ix_accounts ix ->
    w = GGrantee g \/ w = take 32 (drop 8 (ix_data ix)) ->
    pda_candidate prog [str "grant"; sess; w] b = ga -> sess = GSession g.

(** An update of one session account leaves the rest alone. *)
Lemma set_session_frame (L : ledger) addr a' s' b' s b :
  addr <> a' -> (L !! a' = None \/ exists s0 b0, L !! a' = Some (ASession s0 b0)) ->
  L !! addr = Some (ASession s b) ->
  let L' := <[a' := ASession s' b']> L in
  L' !! addr = Some (ASession s b) /\
  forall ga g gb, L' !! ga = Some (AGrant g gb) <-> L !! ga = Some (AGrant g gb).
Proof.
  intros Hne Hold Hs L'. unfold L'. rewrite lookup_insert_ne by done. split; [done|]. intros ga g gb.
  destruct (decide (a' = ga)) as [<-|Hne']; [rewrite lookup_insert_eq; naive_solver|by rewrite lookup_insert_ne].
Qed.

(** C13: only its owner changes a session.  Whatever instruction succeeds on a
    reachable ledger, for every registered session either the session's
    current owner is among the instruction's signers, or the session account
    and every grant of that session are exactly as before. *)
Theorem only_owner_changes_session {C : Curve} prog L ix L' addr s b
  (Hreach : reachable prog L) (Hproc : process prog L ix = Ok L') (Hnc : no_collision prog L ix)
  (Hsess : L !! addr = Some (ASession s b)) :
  (exists m, m ∈ ix_accounts ix /\ isSigner m = true /\ key m = SOwner s) \/
  (L' !! addr = Some (ASession s b) /\
   forall ga g gb, GSession g = addr -> L' !! ga = Some (AGrant g gb) <-> L !! ga = Some (AGrant g gb)).
Proof.
  pose proof (reachable_ok prog L Hreach) as Hok. revert Hproc. unfold process.
  unfold no_collision in Hnc. destruct (ix_accounts ix) as [|ms [|mb rest]];
    [repeat case_bool_decide; done..|].
  repeat (case_bool_decide as Htag; [clear Htag|clear Htag]); [| | | | |done].
  - destruct rest as [|mo [|msys rest]]; try done. unfold register_session.
    intros (? & _ & (? & _ & (? & _ & (bump & _ & H)%bind_ok)%bind_ok)%bind_ok)%bind_ok.
    destruct (L !! key ms) eqn:En; [done|]. injection H as <-. right.
    edestruct (set_session_frame L addr (key ms)) as [H1 H2]; [congruence|by left|done|]. by split; [|intros; apply H2].
  - intros (? & _ & ([s' b'] & (Hs & Ho & Hsig)%load_session_ok & (? & _ & [= <-])%bind_ok)%bind_ok)%bind_ok.
    destruct (decide (key ms = addr)) as [<-|Hne].
    { left. exists mb. split; [right; left|]. split; [done|congruence]. }
    right. edestruct (set_session_frame L addr (key ms)) as [H1 H2]; [done|right; by eauto|done|].
    by split; [|intros; apply H2].
  - destruct rest as [|mo [|msys rest]]; try done. unfold grant.
    intros (? & _ & ([s' b'] & (Hs & Ho & Hsig)%load_session_ok & (? & _ & (? & _ & H)%bind_ok)%bind_ok)%bind_ok)%bind_ok.
    apply bind_ok in H as (bump & Hp%canonical_ok & (? & Hn & (? & _ & [= <-])%bind_ok)%bind_ok).
    destruct (decide (key ms = addr)) as [<-|Hne].
    { left. exists mo. split; [do 2 right; left|]. split; [done|congruence]. }
    right. split.
    { rewrite lookup_insert_ne; [done|]. intros E. rewrite E, Hsess in Hn. done. }
    intros ga g gb Hg. destruct (decide (key mb = ga)) as [<-|Hne']; [|by rewrite lookup_insert_ne].
    rewrite lookup_insert_eq. split; [intros [= <- _]; simpl in Hg; congruence|]. intros HL.
    apply pda_loop_ok in Hp as (Hp & _). symmetry in Hp.
    specialize (Hnc _ _ _ (key ms) _ bump HL ltac:(left) ltac:(by right) Hp). congruence.
  - destruct rest as [|mo rest]; try done. unfold revoke.
    intros ([s' b'] & (Hs & Ho & Hsig)%load_session_ok & H)%bind_ok.
    destruct (L !! key mb) as [[|g0 b0]|] eqn:Eg; try done.
    apply bind_ok in H as (? & Hp%guard_ok_ok & (? & _ & [= <-])%bind_ok).
    destruct (decide (key ms = addr)) as [<-|Hne].
    { left. exists mo. split; [do 2 right; left|]. split; [done|congruence]. }
    right. rewrite lookup_delete_ne by congruence. split; [done|]. intros ga g gb Hg.
    destruct (decide (key mb = ga)) as [<-|Hne']; [|by rewrite lookup_delete_ne].
    rewrite lookup_delete_eq. split; [done|]. intros HL. unfold at_pda in Hp. go_bool.
    assert (g = g0) as -> by congruence. match goal with H : key mb = _ |- _ => symmetry in H; rename H into Hc end.
    specialize (Hnc _ _ _ (key ms) _ b0 HL ltac:(left) ltac:(by left) Hc). congruence.
  - intros ([s' b'] & (Hs & Ho & Hsig)%load_session_ok & (? & _ & (? & _ & [= <-])%bind_ok)%bind_ok)%bind_ok.
    destruct (decide (key ms = addr)) as [<-|Hne].
    { left. exists mb. split; [right; left|]. split; [done|congruence]. }
    right. edestruct (set_session_frame L addr (key ms)) as [H1 H2]; [done|right; by eauto|done|].
    by split; [|intros; apply H2].
Qed.

Lemma live_grant_unexpired s sess w caps expiry now :
  expiry = 0 \/ Unix now < expiry -> live_grant s (mkSolGrant sess w caps expiry (SEpoch s)) now = true.
Proof.
  intros Hlive. unfold live_grant. cbn [GEpoch GExpiry]. rewrite Z.eqb_refl. destruct Hlive as [->|Hlive]; [done|].
  assert ((expiry <=? Unix now) = false) as -> by lia. by rewrite andb_false_r.
Qed.

(** A grant the client submits is what servers see.  For a session
    registered on a reachable ledger, the instruction the Go client builds for
    (grantee, caps, expiry) succeeds when the owner signs it, and after it any
    refresh shows that grantee with exactly those capabilities while the
    expiry has not passed, with the owner unchanged. *)
Theorem grant_takes_effect {C : Curve} prog L src addr s b w caps expiry ga gb ix
  (Hreach : reachable prog L) (Hprog : programPubkey src = Ok prog)
  (Hs : L !! addr = Some (ASession s b)) (Hk : sessionKey src = SSessionKey s)
  (Hpda : grantPDA src addr w = Ok (ga, gb)) (Hfree : forall s b, L !! ga <> Some (ASession s b))
  (Hw : len w = 32) (Hcaps : 0 <= caps < 8) (Hexp : - 2 ^ 63 <= expiry < 2 ^ 63)
  (Hix : grantIx src (SOwner s) (SSessionKey s) w caps expiry = Ok ix) :
  exists L', process prog L ix = Ok L' /\ reachable prog L' /\
    forall a, faithful L' a -> expiry = 0 \/ Unix (a_built a) < expiry ->
      exists src' sn, refresh src a = (src', None) /\ snap src' = Some sn /\
        owner sn = SOwner s /\ grants sn !! w = Some caps.
Proof.
  destruct (process_grant prog L Hreach src Hprog addr s b Hs ix w caps expiry ga gb) as [Hp HF]; [done..|].
  eexists. split; [exact Hp|]. assert (reachable prog (<[ga := AGrant (mkSolGrant addr w caps expiry (SEpoch s)) gb]> L))
    as Hr by (by eapply reachable_step). split; [done|]. intros a Ha Hlive.
  destruct (refresh_session prog _ src a addr s b Hr Ha) as (src' & sn & Hrf & Hsn & Ho & Hg); [|done|].
  { rewrite lookup_insert_ne; [done|]. intros ->. by destruct (Hfree s b). }
  exists src', sn. split_and!; try done. apply Hg.
  exists ga, (mkSolGrant addr w caps expiry (SEpoch s)), gb. rewrite lookup_insert_eq. split_and!; try done.
  by apply live_grant_unexpired.
Qed.

(** Revocation takes effect at the next refresh.  The owner's bump_epoch,
    as the Go client builds it, succeeds (below the epoch's 16-bit limit) and
    after it a refresh shows no grant at all; the owner's revoke of one
    grantee succeeds when that grant exists and after it a refresh shows
    nothing for that grantee. *)
Theorem revocation_takes_effect {C : Curve} prog L src addr s b
  (Hreach : reachable prog L) (Hprog : programPubkey src = Ok prog)
  (Hs : L !! addr = Some (ASession s b)) (Hk : sessionKey src = SSessionKey s) :
  (forall ix, SEpoch s + 1 < 2 ^ 16 -> bumpEpochIx src (SOwner s) (SSessionKey s) = Ok ix ->
     exists L', process prog L ix = Ok L' /\
       forall a, faithful L' a -> exists src' sn, refresh src a = (src', None) /\ snap src' = Some sn /\
         owner sn = SOwner s /\ grants sn = ∅) /\
  (forall ix w ga g gb, L !! ga = Some (AGrant g gb) -> GSession g = addr -> GGrantee g = w ->
     revokeIx src (SOwner s) (SSessionKey s) w = Ok ix ->
     exists L', process prog L ix = Ok L' /\
       forall a, faithful L' a -> exists src' sn, refresh src a = (src', None) /\ snap src' = Some sn /\
         owner sn = SOwner s /\ grants sn !! w = None).
Proof.
  pose proof (reachable_ok _ _ Hreach) as Hok. split.
  - intros ix He Hix. destruct (process_bump prog L Hreach src Hprog addr s b Hs ix He Hix) as [Hp HF].
    eexists. split; [exact Hp|]. set (L' := <[addr := _]> L) in *.
    assert (reachable prog L') as Hr by (by eapply reachable_step). intros a Ha.
    edestruct (refresh_session prog L' src a addr) as (src' & sn & Hrf & Hsn & Ho & Hg);
      [done|done|apply lookup_insert_eq|done|].
    exists src', sn. split_and!; try done. apply map_eq. intros w. rewrite lookup_empty.
    destruct (grants sn !! w) as [c|] eqn:Ew; [|done]. exfalso.
    apply Hg in Ew as (ga & g & gb & Hga & Hgs & _ & _ & Hl). unfold L' in Hga.
    apply lookup_insert_Some in Hga as [[_ ?]|[_ Hga]]; [done|].
    destruct (Hok _ _ Hga) as (_ & _ & _ & _ & _ & _ & s0 & b0 & Hs0 & Hle).
    rewrite Hgs, Hs in Hs0. injection Hs0 as <- <-. unfold live_grant in Hl. go_bool. simpl in *. lia.
  - intros ix w ga g gb Hg Hgs Hgw Hix.
    assert (grantPDA src addr w = Ok (ga, gb)) as Hpda.
    { rewrite (grant_pda prog src Hprog). destruct (Hok _ _ Hg) as (H & _). by rewrite Hgs, Hgw in H. }
    destruct (process_revoke prog L Hreach src Hprog addr s b Hs ix w ga g gb) as [Hp HF]; [done..|].
    eexists. split; [exact Hp|].
    assert (reachable prog (delete ga L)) as Hr by (by eapply reachable_step). intros a Ha.
    destruct (refresh_session prog _ src a addr s b Hr Ha) as (src' & sn & Hrf & Hsn & Ho & Hgr);
      [rewrite lookup_delete_ne; [done|congruence]|done|].
    exists src', sn. split_and!; try done.
    destruct (grants sn !! w) as [c|] eqn:Ew; [|done]. exfalso.
    apply Hgr in Ew as (ga' & g' & gb' & Hga & Hgs' & Hgw' & _).
    apply lookup_delete_Some in Hga as [Hne Hga]. destruct (Hok _ _ Hga) as (Hp' & _).
    rewrite Hgs', Hgw', <- (grant_pda prog src Hprog), Hpda in Hp'. congruence.
Qed.

(** ** Witnesses *)

Definition toy_curve : Curve := {| onCurve _ := false |}.
#[local] Existing Instance toy_curve.

Definition sample_prog : bytes := key_of x09.

Definition sample_source : Source :=
  mkSource (EncodeBase58 sample_prog) (key_of x05) (30 * Second) (10 * Second) (10 * Second)
    (str "confirmed") [] false None 0 [].

Definition sample_session : SolSession := mkSolSession (key_of x05) (key_of x06) 0.

(** A ledger with one registered session. *)
Lemma sample_ledger :
  exists L addr b, reachable sample_prog L /\ L !! addr = Some (ASession sample_session b) /\
    L = {[ addr := ASession sample_session b ]} /\ addr = pda_candidate sample_prog [str "session"; key_of x05] 255.
Proof.
  assert (exists addr, findPDA sample_prog [str "session"; key_of x05] = Ok (addr, 255) /\
    addr = pda_candidate sample_prog [str "session"; key_of x05] 255) as (addr & Hp & Ha)
    by (eexists; split; reflexivity).
  exists {[ addr := ASession sample_session 255 ]}, addr, 255.
  split; [|split; [apply lookup_singleton_eq|split; [reflexivity|exact Ha]]]. clear Ha.
  eapply (reachable_step sample_prog ∅
    (mkIx sample_prog [mkMeta addr false true; mkMeta (key_of x05) true false; mkMeta (key_of x06) true true;
       mkMeta systemProgramID false false] (ixDiscriminator (str "register_session")))).
  - constructor.
  - cbn [ix_accounts]. repeat constructor. exact (findPDA_len _ _ _ _ Hp).
  - dispatch. unfold register_session. cbn [isSigner writable andb guard_ok mbind res_bind key].
    rewrite bool_decide_eq_true_2 by done. cbn [guard_ok mbind res_bind].
    rewrite (proj2 (canonical_ok sample_prog addr _ 255) Hp). cbn [mbind res_bind]. rewrite lookup_empty.
    by rewrite insert_empty.
Qed.

Definition answer_of (L : ledger) : attempt :=
  mkAttempt (Ok (rpc_of <$> map_to_list L)) map_to_list map_to_list t0 t0.

Lemma answer_of_faithful L : faithful L (answer_of L).
Proof. constructor; [eexists; split; [reflexivity|unfold answers; reflexivity]|intros m; reflexivity..]. Qed.

Lemma sample_program : programPubkey sample_source = Ok sample_prog.
Proof. vm_compute. reflexivity. Qed.

Lemma refresh_reads_ledger_witness :
  exists L sn src', reachable sample_prog L /\ refresh sample_source (answer_of L) = (src', None) /\
    snap src' = Some sn /\ shows L (key_of x05) t0 sn.
Proof.
  destruct sample_ledger as (L & addr & b & Hr & Hs & _).
  destruct (refresh_reads_ledger sample_prog L sample_source (answer_of L) Hr (answer_of_faithful L)) as [Hyes _].
  destruct Hyes as (sn & src' & Hrf & Hsn & Hsh); [exists addr, sample_session, b; split; [exact Hs|reflexivity]|].
  exists L, sn, src'. split; [exact Hr|]. split; [exact Hrf|]. split; [exact Hsn|exact Hsh].
Defined.

Lemma sample_no_grant (L : ledger) addr s b ga g gb :
  L = {[ addr := ASession s b ]} -> L !! ga = Some (AGrant g gb) -> False.
Proof. intros -> H%lookup_singleton_Some. by destruct H. Qed.

Lemma only_owner_changes_session_witness :
  exists (L L' : ledger) addr b, L !! addr = Some (ASession sample_session b) /\
    (L' !! addr = Some (ASession sample_session b) -> False) /\
    exists m, isSigner m = true /\ key m = key_of x06.
Proof.
  destruct sample_ledger as (L & addr & b & Hr & Hs & HL & _).
  destruct (bumpEpochIx sample_source (key_of x06) (key_of x05)) as [ix|] eqn:Eix; [|not_err Eix].
  destruct (process_bump sample_prog L Hr sample_source sample_program addr sample_session b Hs ix
    ltac:(vm_compute; reflexivity) Eix) as [Hp _].
  exists L, (<[addr := ASession (mkSolSession (key_of x05) (key_of x06) 1) b]> L), addr, b.
  assert (<[addr := ASession (mkSolSession (key_of x05) (key_of x06) 1) b]> L !! addr =
    Some (ASession sample_session b) -> False) as Hch by (rewrite lookup_insert_eq; discriminate).
  split; [exact Hs|]. split; [exact Hch|].
  destruct (only_owner_changes_session sample_prog L ix _ addr sample_session b Hr Hp) as [(m & _ & Hm & Hk)|[Hx _]].
  - intros ga g gb sess w bb Hg. destruct (sample_no_grant _ _ _ _ _ _ _ HL Hg).
  - exact Hs.
  - exists m. split; [exact Hm|exact Hk].
  - destruct (Hch Hx).
Defined.

Lemma grant_takes_effect_witness :
  exists ix, grantIx sample_source (key_of x06) (key_of x05) (key_of x07) 5 0 = Ok ix /\
  exists L L' src' sn, process sample_prog L ix = Ok L' /\
    refresh sample_source (answer_of L') = (src', None) /\ snap src' = Some sn /\
    grants sn !! key_of x07 = Some 5.
Proof.
  destruct (grantIx sample_source (key_of x06) (key_of x05) (key_of x07) 5 0) as [ix|] eqn:Eix; [|not_err Eix].
  exists ix. split; [reflexivity|].
  destruct sample_ledger as (L & addr & b & Hr & Hs & HL & Ha).
  set (ga := pda_candidate sample_prog [str "grant"; addr; key_of x07] 255).
  destruct (grant_takes_effect sample_prog L sample_source addr sample_session b (key_of x07) 5 0 ga 255 ix)
    as (L' & Hp & _ & Hrf).
  - exact Hr.
  - exact sample_program.
  - exact Hs.
  - reflexivity.
  - rewrite (grant_pda sample_prog sample_source sample_program). reflexivity.
  - intros s' b' H. rewrite HL in H. apply lookup_singleton_Some in H as [Hc _]. revert Hc. rewrite Ha.
    unfold ga. rewrite Ha. vm_compute. discriminate.
  - reflexivity.
  - split; [discriminate|reflexivity].
  - split; [discriminate|reflexivity].
  - exact Eix.
  - destruct (Hrf (answer_of L') (answer_of_faithful L') (or_introl eq_refl)) as (src' & sn & H1 & H2 & _ & H3).
    exists L, L', src', sn. split; [exact Hp|]. split; [exact H1|]. split; [exact H2|exact H3].
Defined.

Lemma revocation_takes_effect_witness :
  exists ix L L' src' sn, bumpEpochIx sample_source (key_of x06) (key_of x05) = Ok ix /\
    process sample_prog L ix = Ok L' /\ refresh sample_source (answer_of L') = (src', None) /\
    snap src' = Some sn /\ grants sn = ∅.
Proof.
  destruct (bumpEpochIx sample_source (key_of x06) (key_of x05)) as [ix|] eqn:Eix; [|not_err Eix].
  destruct sample_ledger as (L & addr & b & Hr & Hs & _).
  destruct (revocation_takes_effect sample_prog L sample_source addr sample_session b Hr sample_program Hs eq_refl)
    as [Hb _].
  destruct (Hb ix ltac:(vm_compute; reflexivity) Eix) as (L' & Hp & Hrf).
  destruct (Hrf (answer_of L') (answer_of_faithful L')) as (src' & sn & H1 & H2 & _ & H3).
  exists ix, L, L', src', sn. split; [reflexivity|]. split; [exact Hp|]. split; [exact H1|]. split; [exact H2|exact H3].
Defined.
