(* ===== verification/Landing.v ===== *)
(** * From the client's bytes to the ledger (src/walletsolana/tx.go with
      src/programs/mosey-session/src/lib.rs)

    What it means for a transaction the Go client sent to land: the validator
    reads the wire format (SolanaWire.v), checks one signature per required
    signer, rebuilds each instruction's account list with the privileges the
    header gives, and runs the program's instructions (Ledger.v) in order.
    The lemma [submit_lands] joins the two sides: whatever instruction would
    succeed on chain, submit compiles, signs and sends a transaction that
    lands with exactly its effect. *)

From S2P Require Import Prelude Varint WalletCaps Base58 Delegation Solana SolanaTx SolanaWire Ledger.

(** ** Reading a transaction *)

Definition wire_meta (w : wire_msg) (i : Z) : option accountMeta :=
  k ← w_keys w !! Z.to_nat i;
  Some (mkMeta k (bool_decide (w_is_signer w i)) (bool_decide (w_is_writable w i))).

Definition wire_instruction (w : wire_msg) (wi : wire_ix) : option instruction :=
  p ← w_keys w !! Z.to_nat (w_prog wi);
  ms ← mapM (wire_meta w) (w_accts wi);
  Some (mkIx p ms (w_data wi)).

Section landing.
Context {E : Ed25519} {C : Curve} (prog : bytes).

(** The accounts of [prog] change only through its own instructions. *)
Fixpoint run_instructions (w : wire_msg) (wis : list wire_ix) (L : ledger) : option ledger :=
  match wis with
  | [] => Some L
  | wi :: wis =>
      ix ← wire_instruction w wi;
      if bool_decide (ix_program ix = prog) then
        match process prog L ix with Ok L' => run_instructions w wis L' | Err _ => None end
      else run_instructions w wis L
  end.

Record lands (L : ledger) (tx : bytes) (L' : ledger) : Prop := mk_lands {
  la_read : exists sigs msg w,
    read_len tx = Some (len sigs, concat sigs ++ msg) /\ read_message msg = Some (w, []) /\
    w_signers w = len sigs /\
    Forall2 (fun k sig => len sig = SignatureSize /\ ed_verify k msg sig = true)
      (slice_to (w_keys w) (w_signers w)) sigs /\
    run_instructions w (w_ixs w) L = Some L'
}.

(** ** A higher privilege does no harm *)

Definition covers (m m' : accountMeta) : Prop :=
  key m' = key m /\ (isSigner m = true -> isSigner m' = true) /\ (writable m = true -> writable m' = true).

Lemma load_session_covers L ms ms' mo mo' r :
  covers ms ms' -> covers mo mo' -> load_session prog L ms mo = Ok r -> load_session prog L ms' mo' = Ok r.
Proof.
  intros (Ek & _) (Ek' & Hs & _). unfold load_session. rewrite Ek, Ek'.
  destruct (L !! key ms) as [[s b|]|]; try done.
  intros (u & H1 & (u' & H2 & (u'' & H3%guard_ok_ok & H)%bind_ok)%bind_ok)%bind_ok.
  rewrite H1. cbn [mbind res_bind]. rewrite H2. cbn [mbind res_bind]. by rewrite (Hs H3).
Qed.

Ltac uncover :=
  repeat match goal with
  | H : covers _ _ |- _ => let Ek := fresh "Ek" in destruct H as (Ek & ? & ?); rewrite ?Ek; clear Ek
  | H : guard_ok _ _ = Ok _ |- _ => apply guard_ok_ok in H
  end; go_bool; repeat match goal with H : ?a = true -> _, H' : ?a = true |- _ => specialize (H H') end.

Lemma process_covers L p ms ms' data L' :
  Forall2 covers ms ms' -> process prog L (mkIx p ms data) = Ok L' -> process prog L (mkIx p ms' data) = Ok L'.
Proof.
  intros HF. unfold process. cbn [ix_data ix_accounts].
  destruct HF as [|ma ma' ? ? Ha [|mb mb' ? ? Hb HF]]; [done|by repeat case_bool_decide|].
  repeat (case_bool_decide as Htag; [clear Htag|clear Htag]); [| | | | |done].
  - destruct HF as [|mo mo' ? ? Ho [|msys msys' ? ? Hsys _]]; [done|done|]. unfold register_session.
    intros (? & G1 & (? & G2 & (? & G3 & H)%bind_ok)%bind_ok)%bind_ok. uncover.
    repeat match goal with H : isSigner _ = true |- _ => rewrite H; clear H
      | H : writable _ = true |- _ => rewrite H; clear H end.
    rewrite bool_decide_eq_true_2 by done. exact H.
  - intros (? & G & ([s b] & Hl & (? & G2 & H)%bind_ok)%bind_ok)%bind_ok. rewrite G. cbn [mbind res_bind].
    unfold transfer_ownership. rewrite (load_session_covers _ _ _ _ _ _ Ha Hb Hl). cbn [mbind res_bind].
    uncover. by match goal with H : writable ma' = true |- _ => rewrite H end.
  - destruct HF as [|mo mo' ? ? Ho [|msys msys' ? ? Hsys _]]; [done|done|].
    intros (? & G & ([s b] & Hl & (? & G2 & (? & G3 & H)%bind_ok)%bind_ok)%bind_ok)%bind_ok. rewrite G.
    cbn [mbind res_bind]. unfold grant. rewrite (load_session_covers _ _ _ _ _ _ Ha Ho Hl). cbn [mbind res_bind].
    uncover.
    match goal with H : writable mb' = true, H' : writable mo' = true |- _ => rewrite H, H' end.
    rewrite bool_decide_eq_true_2 by done. exact H.
  - destruct HF as [|mo mo' ? ? Ho _]; [done|]. unfold revoke. intros ([s b] & Hl & H)%bind_ok.
    rewrite (load_session_covers _ _ _ _ _ _ Ha Ho Hl). cbn [mbind res_bind]. destruct Hb as (-> & _ & Hb).
    destruct Ha as (-> & _). destruct (L !! key mb) as [[|g gb]|]; try done.
    apply bind_ok in H as (? & G1 & (? & G2 & H)%bind_ok). rewrite G1. cbn [mbind res_bind]. uncover.
    match goal with H : writable mb' = true, H' : writable mo' = true |- _ => rewrite H, H' end. exact H.
  - intros ([s b] & Hl & (? & G & H)%bind_ok)%bind_ok. unfold bump_epoch.
    rewrite (load_session_covers _ _ _ _ _ _ Ha Hb Hl). cbn [mbind res_bind]. uncover.
    match goal with H : writable ma' = true |- _ => rewrite H end. exact H.
Qed.

(** ** What submit sends *)

Lemma asks_self flag feePayer ixs ix m :
  ix ∈ ixs -> m ∈ ix_accounts ix -> flag m = true -> asks flag feePayer ixs (key m).
Proof. intros. right. by exists ix, m. Qed.

(** Reading an instruction back gives its accounts with at least the
    privileges asked for. *)
Lemma wire_instruction_covers feePayer bh ixs ix wi :
  let w := wire_message feePayer bh ixs in
  ix ∈ ixs ->
  w_keys w !! Z.to_nat (w_prog wi) = Some (ix_program ix) ->
  Forall2 (fun m i => 0 <= i /\ w_keys w !! Z.to_nat i = Some (key m)) (ix_accounts ix) (w_accts wi) ->
  w_data wi = ix_data ix ->
  exists ms, wire_instruction w wi = Some (mkIx (ix_program ix) ms (ix_data ix)) /\ Forall2 covers (ix_accounts ix) ms.
Proof.
  intros w Hix Hp Ha Hd. unfold wire_instruction. rewrite Hp. cbn [mbind option_bind].
  assert (exists ms, mapM (wire_meta w) (w_accts wi) = Some ms /\ Forall2 covers (ix_accounts ix) ms) as (ms & -> & Hms).
  { assert (Forall (fun m => forall i, 0 <= i -> w_keys w !! Z.to_nat i = Some (key m) ->
      exists m', wire_meta w i = Some m' /\ covers m m') (ix_accounts ix)) as HF.
    { apply List.Forall_forall. intros m Hm%list_elem_of_In i Hi Hk. unfold wire_meta. rewrite Hk. cbn [mbind option_bind].
      eexists. split; [reflexivity|]. destruct (wire_message_privileges feePayer bh ixs _ _ Hk) as [Hs Hw].
      rewrite Z2Nat.id in Hs, Hw by done. fold w in Hs, Hw. split_and!; cbn [key isSigner writable]; [done|..]; intros Hf.
      - apply bool_decide_eq_true_2, Hs. by eapply asks_self.
      - apply bool_decide_eq_true_2, Hw. by eapply asks_self. }
    clear Hp Hd Hix. revert HF. induction Ha as [|m i ms js [Hi Hk] Ha IH]; intros HF; [by exists []|].
    apply Forall_cons_1 in HF as [(m' & Em & Hc)%(fun H => H i Hi Hk) HF]. destruct (IH HF) as (ms' & Ems & Hms).
    exists (m' :: ms'). cbn [mapM]. rewrite Em. cbn [mbind option_bind]. rewrite Ems. split; [done|by constructor]. }
  cbn [mbind option_bind]. exists ms. by rewrite Hd.
Qed.

(** The same instructions before they are compiled. *)
Fixpoint run_built (ixs : list instruction) (L : ledger) : option ledger :=
  match ixs with
  | [] => Some L
  | ix :: ixs =>
      if bool_decide (ix_program ix = prog) then
        match process prog L ix with Ok L' => run_built ixs L' | Err _ => None end
      else run_built ixs L
  end.

Lemma run_instructions_built feePayer bh ixs L L' :
  let w := wire_message feePayer bh ixs in
  run_built ixs L = Some L' -> run_instructions w (w_ixs w) L = Some L'.
Proof.
  intros w. assert (forall ixs' wis, ixs' ⊆ ixs -> Forall2 (fun ix wi =>
      w_keys w !! Z.to_nat (w_prog wi) = Some (ix_program ix) /\
      Forall2 (fun m i => 0 <= i /\ w_keys w !! Z.to_nat i = Some (key m)) (ix_accounts ix) (w_accts wi) /\
      w_data wi = ix_data ix) ixs' wis ->
    forall L, run_built ixs' L = Some L' -> run_instructions w wis L = Some L') as HG.
  2:{ apply HG; [reflexivity|exact (wire_message_refs feePayer bh ixs)]. }
  clear L. intros ixs' wis Hsub HF. induction HF as [|ix wi ixs' wis (Hp & Ha & Hd) HF IH]; intros L; [done|].
  cbn [run_built run_instructions].
  destruct (wire_instruction_covers feePayer bh ixs ix wi) as (ms & Ew & Hc); [apply Hsub; left|done..|].
  fold w in Ew. rewrite Ew. cbn [mbind option_bind ix_program].
  assert (ixs' ⊆ ixs) as Hsub' by (intros x Hx; apply Hsub; by right).
  case_bool_decide as Hpr; [|by apply IH].
  destruct (process prog L ix) as [L1|] eqn:Epr; [|done]. destruct ix as [p accts data].
  cbn [ix_program ix_data ix_accounts] in *. rewrite (process_covers _ _ _ _ _ _ Hc Epr). by apply IH.
Qed.

Context {EL : Ed25519Laws E}.

Lemma blockhash_len rpc bh : getLatestBlockhash rpc = Ok bh -> len bh = 32.
Proof.
  unfold getLatestBlockhash. intros (text & _ & H)%bind_ok. destruct (DecodeBase58 text) as [b|]; [|done].
  destruct (len b =? 32) eqn:El; [|done]. injection H as <-. by apply Z.eqb_eq.
Qed.

Lemma priority_accounts ix ix' : ix' ∈ withPriority [ix] -> ix' = ix \/ ix_accounts ix' = [].
Proof.
  unfold withPriority, priorityIxs. cbn [app]. rewrite !elem_of_cons.
  intros [->|[->|[->|[]%elem_of_nil]]]; [by right|by right|by left].
Qed.

Lemma computeBudget_len : len computeBudgetProgramID = 32.
Proof. vm_compute. reflexivity. Qed.

Lemma one_ix_fits feePayer bh ix :
  len bh = 32 -> len (ix_program ix) = 32 -> len feePayer = 32 ->
  Forall (fun m => len (key m) = 32) (ix_accounts ix) ->
  len (ix_accounts ix) <= 200 -> len (ix_data ix) <= 1000 -> fits feePayer bh (withPriority [ix]).
Proof.
  intros Hbh Hlp Hlf Hla Hna Hnd. pose proof computeBudget_len as Hcb.
  assert (metas feePayer (withPriority [ix]) = mkMeta feePayer true true :: ix_accounts ix ++
    [mkMeta computeBudgetProgramID false false; mkMeta computeBudgetProgramID false false;
     mkMeta (ix_program ix) false false]) as Em.
  { unfold metas, withPriority, priorityIxs. cbn [app fmap list_fmap concat ix_accounts ix_program].
    by rewrite app_nil_r. }
  constructor; [rewrite Em|done|rewrite Em|].
  - intros k. rewrite fmap_cons, fmap_app. cbn [fmap list_fmap key]. rewrite elem_of_cons, elem_of_app, !elem_of_cons.
    intros [->|[(m & -> & Hm)%list_elem_of_fmap|[->|[->|[->|[]%elem_of_nil]]]]];
      [exact Hlf| |exact Hcb|exact Hcb|exact Hlp].
    rewrite List.Forall_forall in Hla. by apply Hla, list_elem_of_In.
  - rewrite len_cons, len_app. unfold len at 2. cbn [length]. lia.
  - intros i Hi. unfold short. split; [apply len_nonneg|]. change (128 ^ 2) with 16384.
    unfold withPriority, priorityIxs in Hi. cbn [app] in Hi. rewrite !elem_of_cons in Hi.
    destruct Hi as [->|[->|[->|[]%elem_of_nil]]]; cbn [ix_data]; [vm_compute; done|vm_compute; done|lia].
Qed.

(** One instruction compiled and signed: if its accounts are 32-byte keys, the
    signers it asks for are at hand and it would succeed on chain, the signed
    transaction lands with its effect; the message asks for no signature but
    the fee payer's and theirs. *)
Lemma compiled_lands (feePayer : bytes) (ix : instruction) (signers : gmap bytes bytes) (bh : bytes) (L L' : ledger) :
  len bh = 32 -> ix_program ix = prog -> prog <> computeBudgetProgramID ->
  len prog = 32 -> len feePayer = 32 -> Forall (fun m => len (key m) = 32) (ix_accounts ix) ->
  len (ix_accounts ix) <= 200 -> len (ix_data ix) <= 1000 ->
  (forall k sk, signers !! k = Some sk -> ed_public sk = k) ->
  is_Some (signers !! feePayer) ->
  (forall m, m ∈ ix_accounts ix -> isSigner m = true -> is_Some (signers !! key m)) ->
  process prog L ix = Ok L' ->
  exists m tx, compileMessage feePayer bh (withPriority [ix]) = Ok m /\ signTx m signers = Ok tx /\ lands L tx L' /\
    exists others, accountKeys m = feePayer :: others /\ NoDup (accountKeys m) /\ 1 <= numSigners m <= len (accountKeys m) /\
      Forall (fun k => is_Some (signers !! k)) (take (Z.to_nat (numSigners m)) (accountKeys m)).
Proof.
  intros Hbh Hprog Hne Hlp Hlf Hla Hna Hnd Hkeys Hfee Hsigs Hpr.
  assert (fits feePayer bh (withPriority [ix])) as Hfits.
  { apply one_ix_fits; [exact Hbh|congruence|exact Hlf|exact Hla|exact Hna|exact Hnd]. }
  destruct (compileMessage_reads feePayer bh (withPriority [ix]) Hfits) as (m & Hm & Hk & Hn & Hr).
  specialize (Hr []). rewrite app_nil_r in Hr.
  set (w := wire_message feePayer bh (withPriority [ix])) in *.
  pose proof (wire_message_signers feePayer bh (withPriority [ix])) as Hcount. cbv zeta in Hcount. fold w in Hcount.
  assert (Forall (fun k => is_Some (signers !! k)) (take (Z.to_nat (numSigners m)) (accountKeys m))) as Hall.
  { apply List.Forall_forall. intros k Hin%list_elem_of_In. apply list_elem_of_lookup in Hin as (i & Hi).
    apply lookup_take_Some in Hi as [Hi Hlt]. rewrite Hk in Hi.
    destruct (wire_message_privileges feePayer bh (withPriority [ix]) i k Hi) as [[Hs _] _].
    destruct Hs as [->|(ix' & m' & Hix & Hm' & <- & Hf)]; [unfold w_is_signer; fold w; lia|done|].
    apply priority_accounts in Hix as [->|Hix]; [by apply Hsigs|]. rewrite Hix in Hm'. by apply elem_of_nil in Hm'. }
  destruct (sign_all_total (take (Z.to_nat (numSigners m)) (accountKeys m)) (serialized m) signers) as [sigs Es].
  { intros k Hin. exact (proj1 (List.Forall_forall _ _) Hall k (proj1 (list_elem_of_In _ _) Hin)). }
  pose proof (sign_all_valid _ _ _ _ Hkeys Es) as HF.
  assert (len sigs = w_signers w) as Hls.
  { apply Forall2_length in HF. rewrite length_take, Hk, Hn in HF. change (ranked _) with (w_keys w) in HF.
    unfold len in *. lia. }
  exists m. eexists. split; [exact Hm|]. split; [unfold signTx; rewrite Es; reflexivity|]. split.
  - constructor. exists sigs, (serialized m), w. split_and!.
    + assert (short (len sigs)) as Hsh.
      { pose proof (fits_refs _ _ _ Hfits). pose proof (keys_len feePayer (withPriority [ix])).
        change (ranked _) with (w_keys w) in *. unfold short. change (128 ^ 2) with 16384. lia. }
      rewrite appendLen_eq, app_nil_l by done. by apply read_len_ok.
    + done.
    + done.
    + rewrite Hk, Hn in HF. exact HF.
    + apply run_instructions_built. unfold withPriority, priorityIxs. cbn [app run_built ix_program].
      rewrite !bool_decide_eq_false_2 by congruence. rewrite bool_decide_eq_true_2 by done. by rewrite Hpr.
  - pose proof (keys_head feePayer (withPriority [ix])) as Hh. cbv zeta in Hh. rewrite <- Hk in Hh.
    destruct (accountKeys m) as [|k0 others] eqn:Ek; [done|]. injection Hh as ->. exists others.
    split; [done|]. split; [rewrite Hk; apply keys_nodup|]. split; [split|done].
    + pose proof (wire_message_privileges feePayer bh (withPriority [ix]) 0 feePayer) as Hpv.
      destruct Hpv as [[_ Hs] _]; [change (ranked _) with (w_keys w) in Hk; fold w; by rewrite <- Hk|].
      specialize (Hs ltac:(by left)). unfold w_is_signer in Hs. fold w in Hs. lia.
    + rewrite Hk. change (ranked _) with (w_keys w). lia.
Qed.

(** The same, submitted: the answer is the node's. *)
Lemma submit_lands (n : node) (feePayer : bytes) (ix : instruction) (signers : gmap bytes bytes) (bh : bytes) (L L' : ledger) :
  getLatestBlockhash (n_blockhash n) = Ok bh -> ix_program ix = prog -> prog <> computeBudgetProgramID ->
  len prog = 32 -> len feePayer = 32 -> Forall (fun m => len (key m) = 32) (ix_accounts ix) ->
  len (ix_accounts ix) <= 200 -> len (ix_data ix) <= 1000 ->
  (forall k sk, signers !! k = Some sk -> ed_public sk = k) ->
  is_Some (signers !! feePayer) ->
  (forall m, m ∈ ix_accounts ix -> isSigner m = true -> is_Some (signers !! key m)) ->
  process prog L ix = Ok L' ->
  exists tx, lands L tx L' /\
    submit_with n feePayer [ix] signers =
      (sig ← n_send n tx; Ok (sig, fst (confirmTransaction (n_turns n) (Some tx)))).
Proof.
  intros Hbh ???????????.
  destruct (compiled_lands feePayer ix signers bh L L') as (m & tx & Hm & Htx & Hl & _); [by eapply blockhash_len|done..|].
  exists tx. split; [exact Hl|]. unfold submit_with, submit. rewrite Hbh. cbn [mbind res_bind]. rewrite Hm.
  cbn [mbind res_bind]. by rewrite Htx.
Qed.
End landing.
