(* ===== verification/Refreshers.v ===== *)
(** * Several refreshes of one Solana source at once
    (src/walletsolana/source.go Refresh, VerifyNow, Run)

    Run's poller and any number of handshakes' VerifyNow share one Source.
    Refresh calls the node and builds the snapshot outside s.mu and takes it
    only to store, and VerifyNow takes it again to read; [cstep] runs one of
    them up to its next such point.  Whatever the interleaving, the source is
    what one loop over the refreshes in the order of their stores leaves, and
    a VerifyNow answers what a lookup on one refresh of the run does. *)

From S2P Require Import Prelude GoStrings WalletCaps Base58 GoTime Delegation Fold Base64 Solana.

(** Refresh (for [Some w] inside VerifyNow of w): in the call to the node;
    with the snapshot built, about to lock and store; after the store, about
    to lock and read (VerifyNow only); returned, with VerifyNow's answer. *)
Inductive call_pc :=
| CCalling (who : option bytes)
| CStoring (who : option bytes) (a : attempt)
| CReading (w : bytes)
| CReturned (r : option (res SolError (option WCaps))).

Record shared := mkShared { csrc : Source; calls : gmap nat call_pc }.

Inductive cevent :=
| CBegin (k : nat) (who : option bytes)
| CFetch (k : nat) (a : attempt)
| CStore (k : nat)
| CRead (k : nat).

Definition set_call (c : shared) (k : nat) (p : call_pc) : shared := mkShared (csrc c) (<[k := p]> (calls c)).

Definition cstep (c : shared) (e : cevent) : option shared :=
  match e with
  | CBegin k who =>
      match calls c !! k with None => Some (set_call c k (CCalling who)) | Some _ => None end
  | CFetch k a =>
      match calls c !! k with
      | Some (CCalling who) =>
          match fetch (sessionKey (csrc c)) (a_rpc a) (a_order1 a) (a_order2 a) (a_built a) with
          | Err e => Some (set_call c k (CReturned (match who with Some _ => Some (Err e) | None => None end)))
          | Ok _ => Some (set_call c k (CStoring who a))
          end
      | _ => None
      end
  | CStore k =>
      match calls c !! k with
      | Some (CStoring who a) =>
          match fetch (sessionKey (csrc c)) (a_rpc a) (a_order1 a) (a_order2 a) (a_built a) with
          | Ok (sn, targets) =>
              Some (mkShared (store (csrc c) sn targets (a_stored a))
                      (<[k := match who with Some w => CReading w | None => CReturned None end]> (calls c)))
          | Err _ => None
          end
      | _ => None
      end
  | CRead k =>
      match calls c !! k with
      | Some (CReading w) =>
          Some (set_call c k (CReturned (Some (Ok (match snap (csrc c) with Some sn => grants sn !! w | None => None end)))))
      | _ => None
      end
  end.

Definition crel (c : shared) (e : cevent) (c' : shared) : Prop := cstep c e = Some c'.

(** A source nobody is refreshing yet. *)
Definition alone (s : Source) : shared := mkShared s ∅.

(** The refreshes stored along a run, in the order of their stores. *)
Fixpoint stored (c : shared) (es : list cevent) : list attempt :=
  match es with
  | [] => []
  | e :: es =>
      match e with
      | CStore k => match calls c !! k with Some (CStoring _ a) => [a] | _ => [] end
      | _ => []
      end ++ match cstep c e with Some c' => stored c' es | None => [] end
  end.

Fixpoint cexec (c : shared) (es : list cevent) : option shared :=
  match es with
  | [] => Some c
  | e :: es => c' ← cstep c e; cexec c' es
  end.

(** ** Lemmas *)

Lemma cexec_app c es es' c1 : cexec c es = Some c1 -> cexec c (es ++ es') = cexec c1 es'.
Proof.
  revert c. induction es as [|e es IH]; intros c Hx; cbn [app cexec] in *; [by injection Hx as ->|].
  destruct (cstep c e) as [c2|]; [|done]. cbn [mbind option_bind] in *. by apply IH.
Qed.

Lemma steps_cexec c es c' : steps crel c es c' -> cexec c es = Some c'.
Proof.
  induction 1 as [|c es c1 e c2 _ IH Hs]; [done|]. rewrite (cexec_app _ _ _ _ IH). cbn [cexec]. by rewrite Hs.
Qed.

Lemma stored_snoc c es c1 e :
  cexec c es = Some c1 ->
  stored c (es ++ [e]) =
    stored c es ++ match e with
                   | CStore k => match calls c1 !! k with Some (CStoring _ a) => [a] | _ => [] end
                   | _ => []
                   end.
Proof.
  revert c. induction es as [|x es IH]; intros c Hx; cbn [app cexec stored] in *.
  - injection Hx as ->. destruct (cstep c1 e); by rewrite app_nil_r.
  - destruct (cstep c x) as [c2|]; [|done]. by rewrite (IH c2 Hx), app_assoc.
Qed.

(** A refresh is its fetch and its store. *)
Lemma refresh_store s a sn targets :
  fetch (sessionKey s) (a_rpc a) (a_order1 a) (a_order2 a) (a_built a) = Ok (sn, targets) ->
  refresh s a = (store s sn targets (a_stored a), None).
Proof. intros H. unfold refresh, Refresh. by rewrite H. Qed.

Lemma run_loop_key s0 l : sessionKey (fst (run_loop s0 l)) = sessionKey s0.
Proof.
  induction l as [|a l IH] using rev_ind; [done|]. rewrite run_loop_app, run_loop_one.
  by destruct (refresh_conf s0 (fst (run_loop s0 l)) a IH) as (_ & -> & _).
Qed.

(** After a loop that ends with a success, the lookup is on its snapshot. *)
Lemma loop_answer s0 l a w :
  snd (refresh s0 a) = None ->
  snd (SourceVerifyNow s0 a w) =
    Ok (match snap (fst (run_loop s0 (l ++ [a]))) with Some sn => grants sn !! w | None => None end).
Proof.
  intros Hok. rewrite run_loop_app, run_loop_one.
  destruct (refresh_conf s0 (fst (run_loop s0 l)) a (run_loop_key s0 l)) as (_ & _ & _ & H). rewrite Hok in H.
  destruct H as (sn & [_ Hst] & -> & _). unfold SourceVerifyNow. destruct (refresh s0 a) as [s' [e|]]; [done|].
  cbn [fst snd] in *. by rewrite Hst.
Qed.

(** What every interleaving keeps true: the source is the loop over the
    stores, each of them a success that some call fetched; a call waiting to
    store has fetched what it will store; a VerifyNow past its store finds
    it among the stored ones. *)
Record serialised (s0 : Source) (es : list cevent) (c : shared) : Prop := mk_serialised {
  sr_src : csrc c = fst (run_loop s0 (stored (alone s0) es));
  sr_ok : Forall (fun a => snd (refresh s0 a) = None /\ exists k, CFetch k a ∈ es) (stored (alone s0) es);
  sr_storing : forall k who a, calls c !! k = Some (CStoring who a) -> CFetch k a ∈ es;
  sr_reading : forall k w, calls c !! k = Some (CReading w) ->
    exists a, CFetch k a ∈ es /\ a ∈ stored (alone s0) es;
}.

(** A step that stores nothing and moves one call. *)
Lemma serialised_call s0 es c e k p :
  serialised s0 es c -> cexec (alone s0) es = Some c ->
  (forall j, e <> CStore j) ->
  (forall who a, p = CStoring who a -> CFetch k a ∈ es ++ [e]) -> (forall w, p <> CReading w) ->
  serialised s0 (es ++ [e]) (set_call c k p).
Proof.
  intros [H1 H2 H3 H4] Hx He Hp Hr.
  assert (stored (alone s0) (es ++ [e]) = stored (alone s0) es) as Es.
  { rewrite (stored_snoc _ _ c e Hx). destruct e; rewrite ?app_nil_r; try done. by destruct (He k0). }
  assert (forall x, x ∈ es -> x ∈ es ++ [e]) as Hin by (intros x Hx'; apply elem_of_app; by left).
  constructor; rewrite ?Es; cbn [csrc calls set_call].
  - done.
  - eapply Forall_impl; [|exact H2]. intros a (? & j & ?). split; [done|]. exists j. auto.
  - intros j who a [[<- E]|[_ Hj]]%lookup_insert_Some; [by eapply Hp|eauto].
  - intros j w [[<- E]|[_ Hj]]%lookup_insert_Some; [by destruct (Hr w)|]. destruct (H4 j w Hj) as (a & ? & ?). eauto.
Qed.

Lemma serialised_store s0 es c k who a sn targets :
  serialised s0 es c -> cexec (alone s0) es = Some c -> calls c !! k = Some (CStoring who a) ->
  fetch (sessionKey (csrc c)) (a_rpc a) (a_order1 a) (a_order2 a) (a_built a) = Ok (sn, targets) ->
  serialised s0 (es ++ [CStore k]) (mkShared (store (csrc c) sn targets (a_stored a))
    (<[k := match who with Some w => CReading w | None => CReturned None end]> (calls c))).
Proof.
  intros [H1 H2 H3 H4] Hx Hk Hf.
  assert (stored (alone s0) (es ++ [CStore k]) = stored (alone s0) es ++ [a]) as Es
    by (rewrite (stored_snoc _ _ c _ Hx); by rewrite Hk).
  assert (sessionKey (csrc c) = sessionKey s0) as Hkey by (rewrite H1; apply run_loop_key).
  assert (forall x, x ∈ es -> x ∈ es ++ [CStore k]) as Hin by (intros x Hx'; apply elem_of_app; by left).
  constructor; rewrite ?Es; cbn [csrc calls].
  - rewrite run_loop_app, run_loop_one, <- H1. by rewrite (refresh_store _ _ _ _ Hf).
  - apply Forall_app. split.
    + eapply Forall_impl; [|exact H2]. intros a' (? & j & ?). split; [done|]. exists j. auto.
    + apply Forall_singleton. split; [|exists k; eauto]. rewrite Hkey in Hf. by rewrite (refresh_store _ _ _ _ Hf).
  - intros j who' a' [[_ E]|[_ Hj]]%lookup_insert_Some; [by destruct who|eauto].
  - intros j w [[<- E]|[_ Hj]]%lookup_insert_Some.
    + exists a. split; [eauto|]. apply elem_of_app. right. left.
    + destruct (H4 j w Hj) as (a' & ? & ?). exists a'. split; [auto|]. apply elem_of_app. by left.
Qed.

Lemma serialised_run s0 es c : steps crel (alone s0) es c -> serialised s0 es c.
Proof.
  intros Hs. remember (alone s0) as c0 eqn:E0. induction Hs as [|c0 es c1 e c2 Hr IH Hs]; subst.
  - constructor; cbn; [done|constructor|done|done].
  - specialize (IH eq_refl). pose proof (steps_cexec _ _ _ Hr) as Hx. unfold crel in Hs.
    destruct e as [k who|k a|k|k]; cbn [cstep] in Hs; destruct (calls c1 !! k) as [[who'|who' a'|w|r]|] eqn:Ek; try done.
    + injection Hs as <-. by apply serialised_call.
    + destruct (fetch _ _ _ _ _) as [[sn ts]|e]; injection Hs as <-; apply serialised_call; try done.
      intros who a0 [= -> ->]. apply elem_of_app. right. left.
    + destruct (fetch _ _ _ _ _) as [[sn ts]|e] eqn:Ef; [|done]. injection Hs as <-. by eapply serialised_store.
    + injection Hs as <-. by apply serialised_call.
Qed.

(** ** The claims *)

(** Concurrent refreshes serialise by their stores.  In every interleaving of
    calls to Refresh and VerifyNow on a source, the source is what a single
    loop leaves that makes the refreshes that stored, in the order of their
    stores, each of them fetched by some call and successful; and when a
    VerifyNow of w reads, it answers what a lookup of w on the last of them
    does, which is its own refresh or one stored after it. *)
Theorem concurrent_refreshes_serialise s0 es c (Hrun : steps crel (alone s0) es c) :
  csrc c = fst (run_loop s0 (stored (alone s0) es)) /\
  Forall (fun a => snd (refresh s0 a) = None /\ exists k, CFetch k a ∈ es) (stored (alone s0) es) /\
  forall k w, calls c !! k = Some (CReading w) ->
    exists own a, CFetch k own ∈ es /\ own ∈ stored (alone s0) es /\ list.last (stored (alone s0) es) = Some a /\
      cstep c (CRead k) = Some (set_call c k (CReturned (Some (snd (SourceVerifyNow s0 a w))))).
Proof.
  destruct (serialised_run s0 es c Hrun) as [H1 H2 _ H4]. split; [done|]. split; [done|].
  intros k w Hk. destruct (H4 k w Hk) as (own & Hf & Hin). exists own.
  destruct (stored (alone s0) es) as [|x l] eqn:El using rev_ind; [by apply not_elem_of_nil in Hin|clear IHl].
  exists x. split; [done|]. split; [done|]. split; [by rewrite list.last_snoc|].
  apply Forall_app in H2 as [_ [[Hok _] _]%Forall_cons_1].
  cbn [cstep]. rewrite Hk, (loop_answer s0 l x w Hok), <- H1. done.
Qed.

(** The order of the stores is not that of the reads: of two refreshes that
    overlap, the one whose call to the node was answered first can store last,
    and the source then serves the older read. *)
Theorem older_read_can_win s0 older newer sn
  (Holder : stores s0 older sn) (Hnewer : snd (refresh s0 newer) = None) :
  exists c, cexec (alone s0)
      [CBegin 1 None; CFetch 1 older; CBegin 2 None; CFetch 2 newer; CStore 2; CStore 1] = Some c /\
    csrc c = fst (run_loop s0 [newer; older]) /\ snap (csrc c) = Some sn.
Proof.
  assert (forall a, snd (refresh s0 a) = None -> exists sn ts,
    fetch (sessionKey s0) (a_rpc a) (a_order1 a) (a_order2 a) (a_built a) = Ok (sn, ts)) as Hf.
  { intros a. unfold refresh, Refresh. destruct (fetch _ _ _ _ _) as [[sn' ts]|]; [eauto|done]. }
  destruct Holder as [Ho Hsn]. destruct (Hf older Ho) as (so & to & Eo), (Hf newer Hnewer) as (sN & tN & En).
  pose proof (refresh_store s0 older so to Eo) as Ro. rewrite Ro in Hsn. injection Hsn as ->.
  pose proof (refresh_store s0 newer sN tN En) as Rn.
  assert (refresh (store s0 sN tN (a_stored newer)) older =
    (store (store s0 sN tN (a_stored newer)) sn to (a_stored older), None)) as Rl by (by apply refresh_store).
  eexists. split.
  - repeat (cbn [cexec cstep alone calls csrc set_call mbind option_bind sessionKey store];
      first [rewrite lookup_empty | rewrite lookup_insert_eq | rewrite lookup_insert_ne by done | rewrite Eo | rewrite En]).
    reflexivity.
  - cbn [csrc]. split; [|done]. cbn [run_loop]. rewrite Rn, Rl. reflexivity.
Qed.
