(* ===== verification/Hex.v ===== *)
(** * What the program uses of encoding/hex, and hex key files

    hex.EncodeToString (lower case) and hex.DecodeString (either case), and
    the key files every command shares: a hexadecimal private key and a
    newline (loadHexKey of src/cmd/mosey/grant.go, loadOrCreateKey of
    src/cmd/internal/walletflags/walletflags.go, loadPrivateKey and
    loadPublicKey of src/cmd/internal/certflags/certflags.go, loadKeyMaterial
    and writeKeyMaterial of src/cmd/mosey/cert.go). *)

From S2P Require Import Prelude GoStrings.

Definition hexdigit (n : Z) : byte := if n <? 10 then z2b (48 + n) else z2b (87 + n).

Definition hexEncode (bs : bytes) : bytes :=
  concat (map (fun b => [hexdigit (b2z b / 16); hexdigit (b2z b mod 16)]) bs).

(** The value of a hexadecimal digit. *)
Definition unhexdigit (c : byte) : option Z :=
  let v := b2z c in
  if (48 <=? v) && (v <=? 57) then Some (v - 48)
  else if (97 <=? v) && (v <=? 102) then Some (v - 87)
  else if (65 <=? v) && (v <=? 70) then Some (v - 55)
  else None.

(** [None]: an odd length or another character. *)
Fixpoint hexDecode (s : bytes) : option bytes :=
  match s with
  | [] => Some []
  | a :: b :: s =>
      match unhexdigit a, unhexdigit b with
      | Some x, Some y => cons (z2b (16 * x + y)) <$> hexDecode s
      | _, _ => None
      end
  | _ => None
  end.

Lemma hexEncode_graphic bs : forallb graphic (hexEncode bs) = true /\ (x2c ∉ hexEncode bs).
Proof.
  unfold hexEncode. induction bs as [|b bs [IH1 IH2]]; [split; [done|set_solver]|].
  cbn [map concat]. rewrite forallb_app, IH1. split; [by destruct b|].
  apply not_elem_of_app. split; [|done]. rewrite !not_elem_of_cons.
  split_and!; [destruct b; by vm_compute..|set_solver].
Qed.

Lemma hexEncode_len bs : len (hexEncode bs) = 2 * len bs.
Proof.
  unfold hexEncode. induction bs as [|b bs IH]; [done|]. cbn [map concat].
  rewrite len_app, IH, !len_cons. len_nil. lia.
Qed.

Lemma hexdigit_inj u v : 0 <= u < 16 -> 0 <= v < 16 -> hexdigit u = hexdigit v -> u = v.
Proof.
  intros Hu Hv Huv%(f_equal b2z). unfold hexdigit in Huv.
  destruct (u <? 10) eqn:Eu, (v <? 10) eqn:Ev; go_bool; rewrite !b2z_z2b, !Z.mod_small in Huv by lia; lia.
Qed.

Lemma hexEncode_inj bs cs : hexEncode bs = hexEncode cs -> bs = cs.
Proof.
  revert cs. induction bs as [|b bs IH]; intros [|c cs] H; [done|done|done|].
  unfold hexEncode in H. cbn [map concat app] in H. injection H as H1 H2 H3.
  f_equal; [|by apply IH]. pose proof (b2z_range b). pose proof (b2z_range c).
  apply hexdigit_inj in H1; [|split; [apply Z.div_pos; lia|apply Z.div_lt_upper_bound; lia]..].
  apply hexdigit_inj in H2; [|apply Z.mod_pos_bound; lia..].
  apply b2z_inj. rewrite (Z.div_mod (b2z b) 16), (Z.div_mod (b2z c) 16) by lia. lia.
Qed.

Lemma unhexdigit_digit n : 0 <= n < 16 -> unhexdigit (hexdigit n) = Some n.
Proof.
  intros Hn. assert (n ∈ seqZ 0 16) as Hin by (apply elem_of_seqZ; lia). clear Hn.
  change (seqZ 0 16) with [0;1;2;3;4;5;6;7;8;9;10;11;12;13;14;15] in Hin.
  rewrite !elem_of_cons in Hin. destruct_or! Hin; subst; try reflexivity. set_solver.
Qed.

Lemma hexDecode_Encode bs : hexDecode (hexEncode bs) = Some bs.
Proof.
  unfold hexEncode. induction bs as [|b bs IH]; [done|]. cbn [map concat app hexDecode].
  pose proof (b2z_range b).
  rewrite !unhexdigit_digit by (split; [apply Z.div_pos; lia|apply Z.div_lt_upper_bound; lia] || (apply Z.mod_pos_bound; lia)).
  rewrite IH. cbn. rewrite <- Z.div_mod by lia. by rewrite z2b_b2z.
Qed.

(** ** Key files *)

Inductive KeyFileError := KReadFailed | KNotExist | KHexDecode | KLength (n : Z) | KGenerate | KWriteFailed.

(** [file] is what os.ReadFile returned; [size] the key's length in bytes. *)
Definition parse_key (size : Z) (raw : bytes) : res KeyFileError bytes :=
  match hexDecode (TrimSpace raw) with
  | None => Err KHexDecode
  | Some dec => if negb (len dec =? size) then Err (KLength (len dec)) else Ok dec
  end.

Definition loadHexKey (file : res KeyFileError bytes) : res KeyFileError bytes := raw ← file; parse_key 64 raw.
Definition loadPrivateKey (file : res KeyFileError bytes) : res KeyFileError bytes := raw ← file; parse_key 64 raw.
Definition loadPublicKey (file : res KeyFileError bytes) : res KeyFileError bytes := raw ← file; parse_key 32 raw.
Definition loadKeyMaterial (file : res KeyFileError bytes) : res KeyFileError bytes := raw ← file; parse_key 64 raw.

(** The text a key is written as. *)
Definition key_text (priv : bytes) : bytes := hexEncode priv ++ [x0a].

Definition writeKeyMaterial (priv : bytes) (wr : option KeyFileError) : res KeyFileError bytes :=
  if negb (len priv =? 64) then Err (KLength (len priv))
  else match wr with Some e => Err e | None => Ok (key_text priv) end.

(** The file is loaded, or a key is generated and written; [gen], [wr] answer
    the generation and the write (the directory included).  Returns the key,
    whether it was created, and the file's content afterwards. *)
Definition loadOrCreateHexKey (file : res KeyFileError bytes) (gen : option bytes) (wr : option KeyFileError)
    : res KeyFileError (bytes * bool * bytes) :=
  match file with
  | Ok raw => k ← parse_key 64 raw; Ok (k, false, raw)
  | Err KNotExist =>
      match gen with
      | None => Err KGenerate
      | Some key => match wr with Some e => Err e | None => Ok (key, true, key_text key) end
      end
  | Err e => Err e
  end.

Definition loadOrCreateKey (file : res KeyFileError bytes) (gen : option bytes) (wr : option KeyFileError)
    : res KeyFileError (bytes * bytes) :=
  match file with
  | Ok raw => k ← parse_key 64 raw; Ok (k, raw)
  | Err KNotExist =>
      match gen with
      | None => Err KGenerate
      | Some key => match wr with Some e => Err e | None => Ok (key, key_text key) end
      end
  | Err e => Err e
  end.

Lemma TrimSpace_line s : forallb graphic s = true -> TrimSpace (s ++ [x0a]) = s.
Proof.
  destruct s as [|c s]; [done|]. intros Hg. pose proof Hg as Hg'. rewrite forallb_forall in Hg.
  assert (List.find (fun sp => HasPrefix ((c :: s) ++ [x0a]) sp) spaces = None) as Hl.
  { destruct (List.find (fun sp => HasPrefix ((c :: s) ++ [x0a]) sp) spaces) as [sp|] eqn:E; [|done].
    apply List.find_some in E as [Hin Hp]. apply spaces_ends in Hin as (_ & _ & _ & _ & b & q & -> & Hb).
    apply HasPrefix_split in Hp. injection Hp as -> _. rewrite (Hg b (in_eq _ _)) in Hb. discriminate. }
  assert (List.find (fun sp => HasSuffix ((c :: s) ++ [x0a]) sp) spaces = Some [x0a]) as Hr.
  { cbn [spaces List.find].
    assert (HasSuffix ((c :: s) ++ [x0a]) [x09] = false) as ->.
    { unfold HasSuffix. apply andb_false_iff. right. apply bool_decide_eq_false.
      rewrite drop_app_length'; [done|]. rewrite length_app. simpl. lia. }
    assert (HasSuffix ((c :: s) ++ [x0a]) [x0a] = true) as ->; [|done].
    unfold HasSuffix. apply andb_true_iff. split; [apply Nat.leb_le; rewrite length_app; simpl; lia|].
    apply bool_decide_eq_true. rewrite drop_app_length'; [done|]. rewrite length_app. simpl. lia. }
  pose proof (TrimSpace_graphic (c :: s) Hg') as Ht. unfold TrimSpace.
  assert (trim_left (length ((c :: s) ++ [x0a])) ((c :: s) ++ [x0a]) = (c :: s) ++ [x0a]) as ->.
  { cbn [length app trim_left] in *. by rewrite Hl. }
  rewrite length_app. cbn [length]. rewrite Nat.add_1_r. cbn [trim_right]. rewrite Hr.
  assert (take (length ((c :: s) ++ [x0a]) - length [x0a]) ((c :: s) ++ [x0a]) = c :: s) as ->.
  { rewrite take_app_length'; [done|]. rewrite length_app. simpl. lia. }
  unfold TrimSpace in Ht.
  assert (trim_left (length (c :: s)) (c :: s) = c :: s) as Hl'.
  { destruct (trim_left_suffix (length (c :: s)) (c :: s)) as [q Hq].
    pose proof (trim_right_length (length (trim_left (length (c :: s)) (c :: s))) (trim_left (length (c :: s)) (c :: s))) as Hlen.
    rewrite Ht in Hlen. apply (f_equal length) in Hq as Hql. rewrite length_app in Hql.
    destruct q; [done|]. simpl in *. lia. }
  rewrite Hl' in Ht. exact Ht.
Qed.

(** A key file reads back the key that was written. *)
Lemma parse_key_text priv : len priv = 64 -> parse_key 64 (key_text priv) = Ok priv.
Proof.
  intros Hl. unfold parse_key, key_text. rewrite TrimSpace_line by apply hexEncode_graphic.
  rewrite hexDecode_Encode, Hl. done.
Qed.
