(* ===== verification/GoPath.v ===== *)
(** * What the program uses of path/filepath

    filepath.Clean and filepath.Join on a Unix system. *)

From S2P Require Import Prelude GoStrings.

Definition SEP : byte := x2f.
Definition DOT : bytes := [x2e].
Definition DOTDOT : bytes := [x2e; x2e].

(** The elements kept so far, the last one first. *)
Fixpoint clean_go (rooted : bool) (acc : list bytes) (comps : list bytes) : list bytes :=
  match comps with
  | [] => reverse acc
  | c :: comps =>
      if bool_decide (c = []) || bool_decide (c = DOT) then clean_go rooted acc comps
      else if bool_decide (c = DOTDOT) then
        match acc with
        | [] => clean_go rooted (if rooted then [] else [c]) comps
        | d :: acc' => if bool_decide (d = DOTDOT) then clean_go rooted (c :: acc) comps
                       else clean_go rooted acc' comps
        end
      else clean_go rooted (c :: acc) comps
  end.

Definition is_rooted (p : bytes) : bool := match p with x2f :: _ => true | _ => false end.

Definition render_path (rooted : bool) (comps : list bytes) : bytes :=
  match comps with
  | [] => if rooted then [SEP] else DOT
  | _ => (if rooted then [SEP] else []) ++ Join comps [SEP]
  end.

Definition Clean (p : bytes) : bytes := render_path (is_rooted p) (clean_go (is_rooted p) [] (Split p [SEP])).

(** filepath.Join: leading empty elements are dropped, the rest joined and
    cleaned. *)
Fixpoint path_Join (elems : list bytes) : bytes :=
  match elems with
  | [] => []
  | e :: rest => if bool_decide (e = []) then path_Join rest else Clean (Join (e :: rest) [SEP])
  end.

(** filepath.Dir: everything up to the last separator, cleaned. *)
Definition Dir (p : bytes) : bytes :=
  match reverse (Split p [SEP]) with
  | [] | [_] => DOT
  | _ :: rest => Clean (Join (reverse rest) [SEP] ++ [SEP])
  end.

(** ** A plain name is appended to the path *)

(** A path element that names something. *)
Definition plain_elem (c : bytes) : Prop := c <> [] /\ c <> DOT /\ c <> DOTDOT /\ SEP ∉ c.

Lemma clean_go_plain rooted acc comps c :
  plain_elem c -> clean_go rooted acc (comps ++ [c]) = clean_go rooted acc comps ++ [c].
Proof.
  intros (H1 & H2 & H3 & _). revert acc. induction comps as [|d comps IH]; intros acc; cbn [app clean_go].
  - rewrite !bool_decide_eq_false_2 by done. cbn [orb]. by rewrite reverse_cons.
  - repeat case_match; by rewrite IH.
Qed.

(** What Clean leaves: no empty or dot elements, and .. only in front of a
    relative path.  Last element first. *)
Inductive cleaned (rooted : bool) : list bytes -> Prop :=
| cleaned_nil : cleaned rooted []
| cleaned_up acc : rooted = false -> Forall (eq DOTDOT) acc -> cleaned rooted (DOTDOT :: acc)
| cleaned_elem c acc : plain_elem c -> cleaned rooted acc -> cleaned rooted (c :: acc).

Lemma cleaned_tail rooted c acc : cleaned rooted (c :: acc) -> cleaned rooted acc.
Proof.
  intros H. inversion H as [|a Hr Ha|]; subst; [|done].
  destruct acc as [|d acc]; [constructor|]. apply Forall_cons_1 in Ha as [<- Ha]. by constructor.
Qed.

Lemma clean_go_cleaned rooted acc comps :
  cleaned rooted acc -> Forall (fun c => SEP ∉ c) comps -> cleaned rooted (reverse (clean_go rooted acc comps)).
Proof.
  intros Hacc Hc. revert acc Hacc. induction Hc as [|c comps Hc _ IH]; intros acc Hacc; cbn [clean_go].
  { by rewrite reverse_involutive. }
  destruct (bool_decide (c = []) || bool_decide (c = DOT)) eqn:E0; [by apply IH|]. go_bool.
  case_bool_decide as E1.
  - subst c. destruct acc as [|d acc].
    + apply IH. destruct rooted; [constructor|]. constructor; [done|constructor].
    + case_bool_decide as E2; [|apply IH; by eapply cleaned_tail]. subst d. apply IH.
      inversion Hacc as [|a Hr Ha|? ? (_ & _ & ? & _)]; subst; [|done].
      constructor; [done|]. by constructor.
  - apply IH. by constructor.
Qed.

Lemma cleaned_no_sep rooted acc : cleaned rooted acc -> Forall (fun c => SEP ∉ c) acc.
Proof.
  induction 1 as [|acc _ Ha|c acc (_ & _ & _ & ?)]; constructor; try done.
  - by apply (bool_decide_unpack _).
  - eapply Forall_impl; [|exact Ha]. intros ? <-. by apply (bool_decide_unpack _).
Qed.

(** Cleaning again changes nothing. *)
Lemma clean_go_fixed rooted l acc :
  cleaned rooted (reverse l ++ acc) -> clean_go rooted acc l = reverse acc ++ l.
Proof.
  revert acc. induction l as [|c l IH]; intros acc Hl; cbn [clean_go]; [by rewrite app_nil_r|].
  rewrite reverse_cons, <- app_assoc in Hl. cbn [app] in Hl.
  assert (cleaned rooted (c :: acc)) as Hc.
  { clear IH. revert Hl. induction (reverse l) as [|x r IHr]; [done|]. intros ?%cleaned_tail. by apply IHr. }
  inversion Hc as [|a Hr Ha|? ? (H1 & H2 & H3 & _)]; subst.
  - rewrite (bool_decide_eq_false_2 (DOTDOT = [])), (bool_decide_eq_false_2 (DOTDOT = DOT)) by done.
    rewrite (bool_decide_eq_true_2 (DOTDOT = DOTDOT)) by done. cbn [orb].
    destruct acc as [|d acc].
    + cbn. rewrite IH by done. done.
    + apply Forall_cons_1 in Ha as [<- Ha]. rewrite bool_decide_eq_true_2 by done. rewrite IH by done.
      by rewrite (reverse_cons (DOTDOT :: acc)), <- app_assoc.
  - rewrite !bool_decide_eq_false_2 by done. cbn [orb]. rewrite IH by done.
    by rewrite reverse_cons, <- app_assoc.
Qed.

Lemma split_go_no_sep s cur : SEP ∉ cur -> Forall (fun c => SEP ∉ c) (split_go [SEP] s 0 cur).
Proof.
  revert cur. induction s as [|b s IH]; intros cur Hn; cbn [split_go].
  - by constructor.
  - rewrite HasPrefix_single. case_bool_decide as Hb.
    + constructor; [done|]. apply IH. set_solver.
    + apply IH. rewrite elem_of_app. set_solver.
Qed.

(** Joining a plain name to a cleaned, non-empty path appends it. *)
Lemma Clean_cleaned p : exists comps, Clean p = render_path (is_rooted p) comps /\
  cleaned (is_rooted p) (reverse comps).
Proof.
  eexists. split; [reflexivity|]. apply clean_go_cleaned; [constructor|]. apply split_go_no_sep. set_solver.
Qed.

Lemma Clean_plain_elem rooted comps c :
  cleaned rooted (reverse comps) -> comps <> [] -> plain_elem c ->
  Clean (render_path rooted comps ++ [SEP] ++ c) = render_path rooted comps ++ [SEP] ++ c.
Proof.
  intros Hc Hne Hp. destruct comps as [|d comps]; [done|].
  assert (is_rooted (render_path rooted (d :: comps) ++ [SEP] ++ c) = rooted) as Hr.
  { assert (exists b d', d = b :: d' /\ b <> SEP) as (b & d' & -> & Hb).
    { apply cleaned_no_sep in Hc as Hs. rewrite Forall_reverse in Hs. apply Forall_cons_1 in Hs as [Hs _].
      assert (d <> []) as Hd.
      { rewrite reverse_cons in Hc. clear - Hc. induction (reverse comps) as [|x l IH].
        - cbn in Hc. inversion Hc as [|? ? ?|? ? (? & _)]; done.
        - apply IH. by apply cleaned_tail in Hc. }
      destruct d as [|b d']; [done|]. exists b, d'. set_solver. }
    destruct rooted; [done|]. cbn [render_path app]. destruct comps; simpl; by destruct b. }
  unfold Clean. rewrite Hr.
  assert (Split (render_path rooted (d :: comps) ++ [SEP] ++ c) [SEP] =
    (if rooted then [[]] else []) ++ (d :: comps) ++ [c]) as ->.
  { apply cleaned_no_sep in Hc. rewrite Forall_reverse in Hc.
    assert (Split (Join (d :: comps) [SEP]) [SEP] = d :: comps) as Hs by (by apply Split_Join).
    assert (Split c [SEP] = [c]) as Hs' by (apply Split_piece; apply Hp).
    cbn [render_path]. destruct rooted; cbn [app].
    - change (SEP :: Join (d :: comps) [SEP] ++ SEP :: c) with ([] ++ SEP :: Join (d :: comps) [SEP] ++ SEP :: c).
      rewrite !Split_app, Hs, Hs'. done.
    - by rewrite Split_app, Hs, Hs'. }
  assert (clean_go rooted [] ((if rooted then [[]] else []) ++ (d :: comps) ++ [c]) = (d :: comps) ++ [c]) as ->.
  { assert (clean_go rooted [] ((d :: comps) ++ [c]) = (d :: comps) ++ [c]) as Hg.
    { rewrite clean_go_plain by done. rewrite clean_go_fixed; [done|]. by rewrite app_nil_r. }
    destruct rooted; [|exact Hg]. exact Hg. }
  cbn [render_path app]. rewrite <- app_assoc. f_equal.
  clear. revert d. induction comps as [|e comps IH]; intros d; [done|].
  change ((e :: comps) ++ [c]) with (e :: (comps ++ [c])).
  rewrite (Join_cons d (e :: comps)), (Join_cons d (e :: (comps ++ [c]))) by done.
  by rewrite IH, <- !app_assoc.
Qed.
