(* ===== verification/Json.v ===== *)
(** * What the program uses of encoding/json

    The text of a JSON value as json.Marshal writes it, the scanner and
    decoder behind json.Unmarshal and json.Decoder.Decode, and the rules by
    which an object fills the fields of a struct: keys match up to case
    folding, a null leaves the field alone, unknown keys are skipped, a later
    duplicate overrides, a value of another type is an error.  Numbers stay in
    their text form until a field asks for an integer. *)

From S2P Require Import Prelude GoStrings GoTime Hex.

Inductive json :=
| JNull
| JBool (b : bool)
| JNum (text : bytes)
| JStr (s : bytes)
| JArr (l : list json)
| JObj (l : list (bytes * json)).

(** ** UTF-8 *)

Definition cont (c : byte) (lo hi : Z) : bool := (lo <=? b2z c) && (b2z c <=? hi).

(** The length of the well-formed sequence at the front; 0 when there is none. *)
Definition utf8_width (s : bytes) : nat :=
  match s with
  | [] => 0%nat
  | a :: s =>
      let v := b2z a in
      if v <? 128 then 1%nat
      else if (194 <=? v) && (v <=? 223) then
        match s with b :: _ => if cont b 128 191 then 2%nat else 0%nat | _ => 0%nat end
      else if (224 <=? v) && (v <=? 239) then
        let lo := if v =? 224 then 160 else 128 in
        let hi := if v =? 237 then 159 else 191 in
        match s with b :: c :: _ => if cont b lo hi && cont c 128 191 then 3%nat else 0%nat | _ => 0%nat end
      else if (240 <=? v) && (v <=? 244) then
        let lo := if v =? 240 then 144 else 128 in
        let hi := if v =? 244 then 143 else 191 in
        match s with
        | b :: c :: d :: _ => if cont b lo hi && cont c 128 191 && cont d 128 191 then 4%nat else 0%nat
        | _ => 0%nat
        end
      else 0%nat
  end.

(** utf8.RuneError, and utf8.AppendRune for a code point. *)
Definition rune_error : bytes := [xef; xbf; xbd].

Definition encode_rune (r : Z) : bytes :=
  if r <? 128 then [z2b r]
  else if r <? 2048 then [z2b (192 + r / 64); z2b (128 + r mod 64)]
  else if r <? 65536 then [z2b (224 + r / 4096); z2b (128 + r / 64 mod 64); z2b (128 + r mod 64)]
  else [z2b (240 + r / 262144); z2b (128 + r / 4096 mod 64); z2b (128 + r / 64 mod 64); z2b (128 + r mod 64)].

(** ** Writing *)

(** Characters written as they are: printable, not a quote, a backslash or
    one of <, > and &. *)
Definition html_safe (c : byte) : bool :=
  (32 <=? b2z c) && (b2z c <? 128) &&
  negb (bool_decide (c ∈ [x22; x5c; x3c; x3e; x26])).

Definition escape (c : byte) : bytes :=
  match c with
  | x22 | x5c => [x5c; c]
  | x08 => str "\b" | x0c => str "\f" | x0a => str "\n" | x0d => str "\r" | x09 => str "\t"
  | _ => str "\u00" ++ hexEncode [c]
  end.

Fixpoint string_body (fuel : nat) (s : bytes) : bytes :=
  match fuel, s with
  | O, _ | _, [] => []
  | S fuel, c :: s' =>
      if html_safe c then c :: string_body fuel s'
      else if b2z c <? 128 then escape c ++ string_body fuel s'
      else
        match utf8_width s with
        | O => str "\ufffd" ++ string_body fuel s'
        | w => (if bool_decide (take w s = [xe2; x80; xa8]) then str "\u2028"
                else if bool_decide (take w s = [xe2; x80; xa9]) then str "\u2029"
                else take w s) ++ string_body fuel (drop w s)
        end
  end.

Definition write_string (s : bytes) : bytes := x22 :: string_body (length s) s ++ [x22].

Fixpoint Marshal (v : json) : bytes :=
  match v with
  | JNull => str "null"
  | JBool b => if b then str "true" else str "false"
  | JNum t => t
  | JStr s => write_string s
  | JArr l => [x5b] ++ Join (map Marshal l) [x2c] ++ [x5d]
  | JObj l =>
      [x7b] ++ Join (map (fun kv => write_string kv.1 ++ [x3a] ++ Marshal kv.2) l) [x2c] ++ [x7d]
  end.

(** ** Reading *)

Definition is_ws (c : byte) : bool := bool_decide (c ∈ [x20; x09; x0d; x0a]).

Fixpoint skip_ws (s : bytes) : bytes :=
  match s with c :: s' => if is_ws c then skip_ws s' else s | [] => [] end.

Definition hex4 (s : bytes) : option (Z * bytes) :=
  match s with
  | a :: b :: c :: d :: r =>
      match unhexdigit a, unhexdigit b, unhexdigit c, unhexdigit d with
      | Some a, Some b, Some c, Some d => Some (4096 * a + 256 * b + 16 * c + d, r)
      | _, _, _, _ => None
      end
  | _ => None
  end.

(** What follows a backslash and a u: one code point, or the two halves of a
    surrogate pair; a half on its own stands for U+FFFD. *)
Definition unicode_escape (s : bytes) : option (bytes * bytes) :=
  match hex4 s with
  | None => None
  | Some (r, s) =>
      if (55296 <=? r) && (r <=? 57343) then
        match s with
        | x5c :: x75 :: s' =>
            match hex4 s' with
            | Some (r', s'') =>
                if (r <=? 56319) && (56320 <=? r') && (r' <=? 57343)
                then Some (encode_rune (65536 + 1024 * (r - 55296) + (r' - 56320)), s'')
                else Some (rune_error, s)
            | None => Some (rune_error, s)
            end
        | _ => Some (rune_error, s)
        end
      else Some (encode_rune r, s)
  end.

Definition simple_escape (c : byte) : option byte :=
  match c with
  | x22 | x5c | x2f => Some c
  | x62 => Some x08 | x66 => Some x0c | x6e => Some x0a | x72 => Some x0d | x74 => Some x09
  | _ => None
  end.

(** The rest of a string literal after its opening quote. *)
Fixpoint read_string (fuel : nat) (s : bytes) : option (bytes * bytes) :=
  match fuel, s with
  | O, _ | _, [] => None
  | S fuel, x22 :: r => Some ([], r)
  | S fuel, x5c :: x75 :: r =>
      match unicode_escape r with
      | None => None
      | Some (c, r) => '(t, r) ← read_string fuel r; Some (c ++ t, r)
      end
  | S fuel, x5c :: e :: r =>
      match simple_escape e with
      | None => None
      | Some c => '(t, r) ← read_string fuel r; Some (c :: t, r)
      end
  | S fuel, c :: r =>
      if b2z c <? 32 then None
      else if b2z c <? 128 then '(t, r) ← read_string fuel r; Some (c :: t, r)
      else match utf8_width s with
           | O => '(t, r) ← read_string fuel r; Some (rune_error ++ t, r)
           | w => '(t, r) ← read_string fuel (drop w s); Some (take w s ++ t, r)
           end
  end.

Definition is_digit (c : byte) : bool := (48 <=? b2z c) && (b2z c <=? 57).

Fixpoint span_digits (s : bytes) : bytes * bytes :=
  match s with
  | c :: s' => if is_digit c then let '(d, r) := span_digits s' in (c :: d, r) else ([], s)
  | [] => ([], [])
  end.

Definition read_frac (s : bytes) : option (bytes * bytes) :=
  match s with
  | x2e :: s' =>
      let '(d, r) := span_digits s' in
      match d with [] => None | _ => Some (x2e :: d, r) end
  | _ => Some ([], s)
  end.

Definition read_exp (s : bytes) : option (bytes * bytes) :=
  match s with
  | (x65 | x45) as e :: s' =>
      let '(sign, s'') := match s' with
                          | (x2b | x2d) as c :: r => ([c], r)
                          | _ => ([], s')
                          end in
      let '(d, r) := span_digits s'' in
      match d with [] => None | _ => Some (e :: sign ++ d, r) end
  | _ => Some ([], s)
  end.

Definition read_number (s : bytes) : option (bytes * bytes) :=
  let '(sign, s) := match s with x2d :: r => ([x2d], r) | _ => ([], s) end in
  '(int, s) ← match s with
              | x30 :: r => Some ([x30], r)
              | _ => let '(d, r) := span_digits s in match d with [] => None | _ => Some (d, r) end
              end;
  '(frac, s) ← read_frac s;
  '(exp, s) ← read_exp s;
  Some (sign ++ int ++ frac ++ exp, s).

Definition literal (word : bytes) (v : json) (s : bytes) : option (json * bytes) :=
  if HasPrefix s word then Some (v, drop (length word) s) else None.

(** One value from the front of [s]; [depth] open arrays and objects are still
    allowed (at most 10,000).  Every call consumes a byte or fails, so the
    length of the text is enough fuel. *)
Fixpoint read_value (fuel : nat) (depth : Z) (s : bytes) : option (json * bytes) :=
  match fuel with
  | O => None
  | S fuel =>
      match skip_ws s with
      | x7b :: r =>
          if depth <=? 0 then None
          else match skip_ws r with
               | x7d :: r => Some (JObj [], r)
               | r => '(l, r) ← read_members fuel (depth - 1) r; Some (JObj l, r)
               end
      | x5b :: r =>
          if depth <=? 0 then None
          else match skip_ws r with
               | x5d :: r => Some (JArr [], r)
               | r => '(l, r) ← read_elements fuel (depth - 1) r; Some (JArr l, r)
               end
      | x22 :: r => '(t, r) ← read_string (length r) r; Some (JStr t, r)
      | (x74 :: _) as s => literal (str "true") (JBool true) s
      | (x66 :: _) as s => literal (str "false") (JBool false) s
      | (x6e :: _) as s => literal (str "null") JNull s
      | s => '(t, r) ← read_number s; Some (JNum t, r)
      end
  end
with read_elements (fuel : nat) (depth : Z) (s : bytes) : option (list json * bytes) :=
  match fuel with
  | O => None
  | S fuel =>
      '(v, r) ← read_value fuel depth s;
      match skip_ws r with
      | x2c :: r => '(l, r) ← read_elements fuel depth r; Some (v :: l, r)
      | x5d :: r => Some ([v], r)
      | _ => None
      end
  end
with read_members (fuel : nat) (depth : Z) (s : bytes) : option (list (bytes * json) * bytes) :=
  match fuel with
  | O => None
  | S fuel =>
      match skip_ws s with
      | x22 :: r =>
          '(k, r) ← read_string (length r) r;
          match skip_ws r with
          | x3a :: r =>
              '(v, r) ← read_value fuel depth r;
              match skip_ws r with
              | x2c :: r => '(l, r) ← read_members fuel depth r; Some ((k, v) :: l, r)
              | x7d :: r => Some ([(k, v)], r)
              | _ => None
              end
          | _ => None
          end
      | _ => None
      end
  end.

Definition maxNestingDepth : Z := 10000.

(** json.Decoder.Decode: the first value of the stream. *)
Definition Decode (s : bytes) : option json :=
  fst <$> read_value (S (2 * length s)) maxNestingDepth s.

(** json.Unmarshal: the whole text is one value. *)
Definition Unmarshal (s : bytes) : option json :=
  '(v, r) ← read_value (S (2 * length s)) maxNestingDepth s;
  match skip_ws r with [] => Some v | _ => None end.

(** ** Filling the fields of a struct *)

(** foldName: ASCII letters in upper case, and the two other characters whose
    case folds to an ASCII letter. *)
Fixpoint fold_name (s : bytes) : bytes :=
  match s with
  | xc5 :: xbf :: s => x53 :: fold_name s
  | xe2 :: x84 :: xaa :: s => x4b :: fold_name s
  | c :: s => (if (97 <=? b2z c) && (b2z c <=? 122) then z2b (b2z c - 32) else c) :: fold_name s
  | [] => []
  end.

(** The values given to the field [name], in the order of the text. *)
Definition members (name : bytes) (l : list (bytes * json)) : list json :=
  snd <$> filter (fun kv => fold_name kv.1 = fold_name name) l.

(** A field decoded by [step], from its zero value on. *)
Definition get_field {A} (step : A -> json -> option A) (zero : A) (name : bytes) (v : json) : option A :=
  match v with
  | JNull => Some zero
  | JObj l => foldl (fun a x => a ≫= fun a => step a x) (Some zero) (members name l)
  | _ => None
  end.

Definition set_string (old : bytes) (v : json) : option bytes :=
  match v with JNull => Some old | JStr s => Some s | _ => None end.

(** strconv.ParseInt in base 10 with its range; a fraction or an exponent is
    an error. *)
Definition set_int (lo hi : Z) (old : Z) (v : json) : option Z :=
  match v with
  | JNull => Some old
  | JNum t =>
      n ← match t with x2d :: d => Z.opp <$> digits_value d 0 | _ => digits_value t 0 end;
      if (lo <=? n) && (n <=? hi) then Some n else None
  | _ => None
  end.

(** strconv.ParseUint: no sign. *)
Definition set_uint (hi : Z) (old : Z) (v : json) : option Z :=
  match v with
  | JNum (x2d :: _) => None
  | _ => set_int 0 hi old v
  end.

Definition get_string : bytes -> json -> option bytes := get_field set_string [].
Definition get_int64 : bytes -> json -> option Z := get_field (set_int (- 2 ^ 63) (2 ^ 63 - 1)) 0.
Definition get_uint32 : bytes -> json -> option Z := get_field (set_uint (2 ^ 32 - 1)) 0.

(** ** Reading back what was written

    Values without numbers whose strings need no escape. *)

Section json_induction.
Variable P : json -> Prop.
Hypothesis Hnull : P JNull.
Hypothesis Hbool : forall b, P (JBool b).
Hypothesis Hnum : forall t, P (JNum t).
Hypothesis Hstr : forall s, P (JStr s).
Hypothesis Harr : forall l, Forall P l -> P (JArr l).
Hypothesis Hobj : forall l, Forall (fun kv => P kv.2) l -> P (JObj l).

Fixpoint json_nested_ind (v : json) : P v :=
  match v with
  | JNull => Hnull
  | JBool b => Hbool b
  | JNum t => Hnum t
  | JStr s => Hstr s
  | JArr l =>
      Harr l ((fix go l : Forall P l :=
        match l with
        | [] => Forall_nil_2 _
        | x :: l => Forall_cons_2 _ _ _ (json_nested_ind x) (go l)
        end) l)
  | JObj l =>
      Hobj l ((fix go l : Forall (fun kv => P kv.2) l :=
        match l with
        | [] => Forall_nil_2 _
        | x :: l => Forall_cons_2 _ _ _ (json_nested_ind x.2) (go l)
        end) l)
  end.
End json_induction.

(** [readable d v]: nested at most [d] deep. *)
Fixpoint readable (d : nat) (v : json) : Prop :=
  match v with
  | JNull | JBool _ => True
  | JNum _ => False
  | JStr s => forallb html_safe s = true
  | JArr l => match d with O => False | S d => Forall (readable d) l end
  | JObj l => match d with
              | O => False
              | S d => Forall (fun kv => forallb html_safe kv.1 = true /\ readable d kv.2) l
              end
  end.

Lemma html_safe_facts c : html_safe c = true -> 32 <= b2z c < 128 /\ c <> x22 /\ c <> x5c.
Proof.
  unfold html_safe. intros ?. go_bool. split; [lia|]. set_solver.
Qed.

Lemma string_body_safe s : forallb html_safe s = true -> string_body (length s) s = s.
Proof.
  induction s as [|c s IH]; [done|]. cbn [forallb length string_body]. intros [-> Hs]%andb_true_iff.
  by rewrite IH.
Qed.

Lemma read_string_char fuel c r : html_safe c = true ->
  read_string (S fuel) (c :: r) = '(t, r) ← read_string fuel r; Some (c :: t, r).
Proof.
  intros (Hr & H1 & H2)%html_safe_facts.
  destruct c; try done; exfalso; unfold b2z in Hr; simpl in Hr; lia.
Qed.

Lemma read_string_safe s fuel r : forallb html_safe s = true -> (length s < fuel)%nat ->
  read_string fuel (s ++ x22 :: r) = Some (s, r).
Proof.
  revert fuel. induction s as [|c s IH]; intros [|fuel] Hs Hf; simpl in Hf; try lia; [done|].
  cbn [forallb] in Hs. apply andb_true_iff in Hs as [Hc Hs].
  cbn [app]. rewrite read_string_char by done. rewrite IH by (done || lia). done.
Qed.

Lemma write_string_safe s : forallb html_safe s = true -> write_string s = x22 :: s ++ [x22].
Proof. intros Hs. unfold write_string. by rewrite string_body_safe. Qed.

(** The first byte of a written value. *)
Definition starts_value (c : byte) : Prop := c ∈ [x22; x5b; x7b; x74; x66; x6e].

Lemma Marshal_head d v : readable d v -> exists c t, Marshal v = c :: t /\ starts_value c.
Proof.
  destruct v as [|[]|t|s|l|l]; intros Hv; try (by destruct d);
    (eexists _, _; split; [reflexivity|unfold starts_value; rewrite !elem_of_cons; tauto]).
Qed.

Lemma starts_value_ws c r : starts_value c -> skip_ws (c :: r) = c :: r.
Proof. unfold starts_value. rewrite !elem_of_cons. intros Hc. destruct_or! Hc; subst; try done. set_solver. Qed.

Lemma read_value_array f d c r : starts_value c -> 0 < d ->
  read_value (S f) d (x5b :: c :: r) = '(l, r) ← read_elements f (d - 1) (c :: r); Some (JArr l, r).
Proof.
  intros Hc Hd. cbn [read_value skip_ws is_ws]. change (is_ws x5b) with false. cbv iota.
  replace (d <=? 0) with false by (symmetry; apply Z.leb_gt; lia).
  rewrite starts_value_ws by done. unfold starts_value in Hc. rewrite !elem_of_cons in Hc.
  destruct_or! Hc; subst; try done. set_solver.
Qed.

Lemma read_value_object f d r : 0 < d ->
  read_value (S f) d (x7b :: x22 :: r) = '(l, r) ← read_members f (d - 1) (x22 :: r); Some (JObj l, r).
Proof.
  intros Hd. cbn [read_value skip_ws]. change (is_ws x7b) with false. cbv iota.
  replace (d <=? 0) with false by (symmetry; apply Z.leb_gt; lia). done.
Qed.

Definition reads_back (d : nat) (v : json) : Prop :=
  forall fuel r, (length (Marshal v) <= fuel)%nat -> read_value fuel (Z.of_nat d) (Marshal v ++ r) = Some (v, r).

Lemma read_elements_written d l fuel r :
  l <> [] -> Forall (reads_back d) l -> (length (Join (map Marshal l) [x2c]) < fuel)%nat ->
  read_elements fuel (Z.of_nat d) (Join (map Marshal l) [x2c] ++ x5d :: r) = Some (l, r).
Proof.
  revert fuel. induction l as [|v l IH]; intros [|fuel] Hne Hl Hf; try done; [lia|].
  apply Forall_cons_1 in Hl as [Hv Hl]. destruct l as [|w l].
  - cbn [map Join] in *. cbn [read_elements]. rewrite Hv by lia. done.
  - cbn [map] in *. rewrite Join_cons in * by done. rewrite !length_app in Hf. cbn [length] in Hf.
    rewrite <- app_assoc. cbn [read_elements]. rewrite Hv by lia. cbn [mbind option_bind app skip_ws].
    change (is_ws x2c) with false. cbv iota. by rewrite IH by (done || lia).
Qed.

Definition write_member (kv : bytes * json) : bytes := write_string kv.1 ++ [x3a] ++ Marshal kv.2.

Lemma read_members_written d l fuel r :
  l <> [] -> Forall (fun kv => forallb html_safe kv.1 = true /\ reads_back d kv.2) l ->
  (length (Join (map write_member l) [x2c]) < fuel)%nat ->
  read_members fuel (Z.of_nat d) (Join (map write_member l) [x2c] ++ x7d :: r) = Some (l, r).
Proof.
  revert fuel. induction l as [|[k v] l IH]; intros [|fuel] Hne Hl Hf; try done; [lia|].
  apply Forall_cons_1 in Hl as [[Hk Hv] Hl]. cbn [fst snd] in *.
  assert (forall tail, write_member (k, v) ++ tail = x22 :: k ++ x22 :: x3a :: Marshal v ++ tail) as Hw.
  { intros tail. unfold write_member. cbn [fst snd]. rewrite write_string_safe by done.
    cbn [app]. by rewrite <- !app_assoc. }
  assert (forall tail, read_string (length (k ++ x22 :: x3a :: tail)) (k ++ x22 :: x3a :: tail) =
    Some (k, x3a :: tail)) as Hrd.
  { intros tail. apply read_string_safe; [done|]. rewrite length_app. simpl. lia. }
  assert (length (write_member (k, v)) = length k + 3 + length (Marshal v))%nat as Hlen.
  { rewrite <- (app_nil_r (write_member (k, v))), Hw. cbn [length]. rewrite length_app. cbn [length].
    rewrite app_nil_r. lia. }
  destruct l as [|w l].
  - cbn [map Join] in *. rewrite Hw. cbn [read_members skip_ws]. change (is_ws x22) with false. cbv iota.
    rewrite Hrd. cbn [mbind option_bind skip_ws]. change (is_ws x3a) with false. cbv iota.
    rewrite Hv by lia. done.
  - cbn [map] in *. rewrite Join_cons in * by done. rewrite !length_app in Hf.
    rewrite <- app_assoc, Hw. cbn [read_members skip_ws]. change (is_ws x22) with false. cbv iota.
    rewrite Hrd. cbn [mbind option_bind skip_ws]. change (is_ws x3a) with false. cbv iota.
    rewrite Hv by lia.
    cbn [mbind option_bind app skip_ws]. change (is_ws x2c) with false. cbv iota.
    rewrite IH; [done|done|done|]. cbn [map]. cbn [length] in Hf. lia.
Qed.

Lemma literal_written word v r : literal word v (word ++ r) = Some (v, r).
Proof. unfold literal. rewrite HasPrefix_app. by rewrite drop_app_length. Qed.

Lemma read_value_written v : forall d, readable d v -> reads_back d v.
Proof.
  induction v as [|b|t|s|l IH|l IH] using json_nested_ind; intros d Hv fuel r Hf.
  - destruct fuel; [simpl in Hf; lia|]. exact (literal_written (str "null") JNull r).
  - destruct fuel; [destruct b; simpl in Hf; lia|]. destruct b.
    + exact (literal_written (str "true") (JBool true) r).
    + exact (literal_written (str "false") (JBool false) r).
  - by destruct d.
  - assert (forallb html_safe s = true) by by destruct d.
    cbn [Marshal] in *. rewrite write_string_safe in * by done. destruct fuel; [simpl in Hf; lia|].
    cbn [app read_value skip_ws]. change (is_ws x22) with false. cbv iota. rewrite <- app_assoc. cbn [app].
    rewrite read_string_safe; [done|done|]. rewrite length_app. simpl. lia.
  - destruct d as [|d]; [done|]. cbn [readable] in Hv. destruct fuel; [simpl in Hf; lia|].
    destruct l as [|v l]; [by cbn|].
    change (Marshal (JArr (v :: l))) with ([x5b] ++ Join (map Marshal (v :: l)) [x2c] ++ [x5d]) in *.
    destruct (Marshal_head d v) as (c & t & Hc & Hst); [by apply Forall_cons_1 in Hv as [? _]|].
    assert (exists t', Join (map Marshal (v :: l)) [x2c] = c :: t') as (t' & Ht').
    { destruct l; [exists t; by simpl|]. cbn [map]. rewrite Join_cons by done. rewrite Hc. by eexists. }
    rewrite !length_app in Hf. change (length [x5b]) with 1%nat in Hf. change (length [x5d]) with 1%nat in Hf.
    rewrite <- !app_assoc. rewrite Ht'. cbn [app]. rewrite read_value_array by (done || lia).
    replace (Z.of_nat (S d) - 1) with (Z.of_nat d) by lia. change (c :: t' ++ x5d :: r) with ((c :: t') ++ x5d :: r).
    rewrite <- Ht'. rewrite read_elements_written; [done|done| |].
    + rewrite Forall_forall in IH, Hv |- *. intros x Hx. by apply IH, Hv.
    + lia.
  - destruct d as [|d]; [done|]. cbn [readable] in Hv. destruct fuel; [simpl in Hf; lia|].
    destruct l as [|[k v] l]; [by cbn|].
    change (Marshal (JObj ((k, v) :: l))) with ([x7b] ++ Join (map write_member ((k, v) :: l)) [x2c] ++ [x7d]) in *.
    rewrite !length_app in Hf. change (length [x7b]) with 1%nat in Hf. change (length [x7d]) with 1%nat in Hf.
    assert (exists t', Join (map write_member ((k, v) :: l)) [x2c] = x22 :: t') as (t' & Ht').
    { destruct l; cbn [map]; [by eexists|]. rewrite Join_cons by done. by eexists. }
    rewrite <- !app_assoc. rewrite Ht'. cbn [app]. rewrite read_value_object by lia.
    replace (Z.of_nat (S d) - 1) with (Z.of_nat d) by lia.
    change (x22 :: t' ++ x7d :: r) with ((x22 :: t') ++ x7d :: r).
    rewrite <- Ht'. rewrite read_members_written; [done|done| |lia].
    rewrite Forall_forall in IH, Hv |- *. intros x Hx. destruct (Hv x Hx). split; [done|]. by apply IH.
Qed.

Lemma Unmarshal_Marshal v d : readable d v -> Z.of_nat d <= maxNestingDepth -> Unmarshal (Marshal v) = Some v.
Proof.
  intros Hv Hd.
  assert (forall d', (d <= d')%nat -> readable d' v) as Hmono.
  { clear Hd. revert d Hv. induction v as [|b|t|s|l IH|l IH] using json_nested_ind; intros d Hv d' Hd'; try (by destruct d, d').
    - destruct d, d'; try done; [lia|]. cbn in *. rewrite Forall_forall in *. intros x Hx.
      eapply IH; [done|by apply Hv|lia].
    - destruct d, d'; try done; [lia|]. cbn in *. rewrite Forall_forall in *. intros x Hx.
      destruct (Hv x Hx). split; [done|]. eapply IH; [done|done|lia]. }
  assert (read_value (S (2 * length (Marshal v))) (Z.of_nat (Z.to_nat maxNestingDepth)) (Marshal v ++ []) = Some (v, []))
    as Hr by (apply read_value_written; [apply Hmono; lia|lia]).
  rewrite app_nil_r, Z2Nat.id in Hr by (unfold maxNestingDepth; lia).
  unfold Unmarshal. by rewrite Hr.
Qed.
