(* ===== verification/Rpc.v ===== *)
(** * The JSON-RPC layer of walletsolana
    (src/walletsolana/source.go httpCaller and the decoding in Refresh,
    src/walletsolana/tx.go getLatestBlockhash, sendTransaction and
    confirmTransaction, src/walletsolana/dashboard.go)

    The requests the source posts, as the JSON text it sends, and the way from
    the body of the node's answer to the values Solana.v and SolanaTx.v work
    on: the envelope with its result and error, the account list, the
    blockhash, the signature, the statuses.  [resp = None] stands for a
    request that failed before a body could be read. *)

From S2P Require Import Solana SolanaTx SolanaWire Ledger.
From S2P Require Import Prelude GoStrings WalletCaps Base58 GoTime Delegation Fold Base64 Hex Json.

(** ** Requests *)

(** json.Marshal of the map: its keys in order. *)
Definition rpc_request (method : bytes) (params : list json) : bytes :=
  Marshal (JObj [(str "id", JNum (str "1")); (str "jsonrpc", JStr (str "2.0"));
                 (str "method", JStr method); (str "params", JArr params)]).

Definition getProgramAccounts_request (s : Source) : bytes :=
  rpc_request (str "getProgramAccounts")
    [JStr (programID s);
     JObj [(str "commitment", JStr (commitment s)); (str "encoding", JStr (str "base64"))]].

Definition SessionsByOwner_request (s : Source) (ownerKey : bytes) : bytes :=
  rpc_request (str "getProgramAccounts")
    [JStr (programID s);
     JObj [(str "commitment", JStr (commitment s)); (str "encoding", JStr (str "base64"));
           (str "filters", JArr [JObj [(str "memcmp",
              JObj [(str "bytes", JStr (EncodeBase58 ownerKey)); (str "offset", JNum (Itoa ownerOffset))])]])]].

Definition getLatestBlockhash_request (s : Source) : bytes :=
  rpc_request (str "getLatestBlockhash") [JObj [(str "commitment", JStr (commitment s))]].

Definition sendTransaction_request (s : Source) (tx : bytes) : bytes :=
  rpc_request (str "sendTransaction")
    [JStr (EncodeToString tx);
     JObj [(str "encoding", JStr (str "base64")); (str "preflightCommitment", JStr (commitment s))]].

Definition getSignatureStatuses_request (sig : bytes) : bytes :=
  rpc_request (str "getSignatureStatuses")
    [JArr [JStr sig]; JObj [(str "searchTransactionHistory", JBool true)]].

(** ** The envelope *)

(** A json.RawMessage field: the value given last, null included. *)
Definition set_raw (_ : option json) (v : json) : option (option json) := Some (Some v).

(** The error member, a pointer to a struct of code and message. *)
Definition set_error (old : option (Z * bytes)) (v : json) : option (option (Z * bytes)) :=
  let '(code, message) := default (0, []) old in
  match v with
  | JNull => Some None
  | JObj l =>
      c ← foldl (fun a x => a ≫= fun a => set_int (- 2 ^ 63) (2 ^ 63 - 1) a x) (Some code) (members (str "code") l);
      m ← foldl (fun a x => a ≫= fun a => set_string a x) (Some message) (members (str "message") l);
      Some (Some (c, m))
  | _ => None
  end.

(** httpCaller: the result, which may be missing. *)
Definition httpCaller (resp : option bytes) : res SolError (option json) :=
  match resp with
  | None => Err CallFailed
  | Some body =>
      match
        v ← Decode body;
        result ← get_field set_raw None (str "result") v;
        err ← get_field set_error None (str "error") v;
        Some (result, err)
      with
      | None => Err CallFailed
      | Some (_, Some _) => Err CallFailed
      | Some (result, None) => Ok result
      end
  end.

(** call, then json.Unmarshal of the raw result; no text is no value. *)
Definition call {A} (resp : option bytes) (unmarshal : json -> option A) : res SolError A :=
  raw ← httpCaller resp;
  match v ← raw; unmarshal v with
  | Some a => Ok a
  | None => Err DecodeFailed
  end.

(** ** Results *)

(** A []string field: decoded element by element over what is there. *)
Fixpoint set_elems (old : list bytes) (l : list json) : option (list bytes) :=
  match l with
  | [] => Some []
  | v :: l => s ← set_string (default [] (head old)) v; ss ← set_elems (tail old) l; Some (s :: ss)
  end.

Definition set_strings (old : list bytes) (v : json) : option (list bytes) :=
  match v with
  | JNull => Some []
  | JArr l => set_elems old l
  | _ => None
  end.

(** The account member: a struct with a data field. *)
Definition set_account (old : list bytes) (v : json) : option (list bytes) :=
  match v with
  | JNull => Some old
  | JObj l => foldl (fun a x => a ≫= fun a => set_strings a x) (Some old) (members (str "data") l)
  | _ => None
  end.

Definition rpc_account (v : json) : option rpcAccount :=
  pubkey ← get_string (str "pubkey") v;
  data ← get_field set_account [] (str "account") v;
  Some (mkRpcAccount pubkey data).

Definition rpc_accounts (v : json) : option (list rpcAccount) :=
  match v with
  | JNull => Some []
  | JArr l => mapM rpc_account l
  | _ => None
  end.

Definition getProgramAccounts (resp : option bytes) : rpc_answer := call resp rpc_accounts.

(** {value: {blockhash}} *)
Definition blockhash_text (v : json) : option bytes :=
  get_field (fun old x => match x with
                          | JNull => Some old
                          | JObj l => foldl (fun a x => a ≫= fun a => set_string a x) (Some old) (members (str "blockhash") l)
                          | _ => None
                          end) [] (str "value") v.

Definition blockhash_answer (resp : option bytes) : res SolError bytes := call resp blockhash_text.

Definition signature_answer (resp : option bytes) : res SolError bytes := call resp (set_string []).

(** One status: null, or an object with confirmationStatus and err; the err
    member is kept as text, which only has to differ from nothing and null. *)
Definition status_value (v : json) : option (option (bytes * bytes)) :=
  match v with
  | JNull => Some None
  | _ =>
      level ← get_string (str "confirmationStatus") v;
      err ← get_field set_raw None (str "err") v;
      Some (Some (match err with None => [] | Some e => Marshal e end, level))
  end.

Definition set_statuses (_ : list (option (bytes * bytes))) (v : json) : option (list (option (bytes * bytes))) :=
  match v with
  | JNull => Some []
  | JArr l => mapM status_value l
  | _ => None
  end.

Definition status_answer (resp : option bytes) : status :=
  match call resp (get_field set_statuses [] (str "value")) with
  | Ok (Some (err, level) :: _) => SStatus err level
  | _ => SUnusable
  end.

(** ** The operations, from the bodies the node sends *)

Definition http_attempt (resp : option bytes) (order1 order2 : gmap bytes bytes -> list (bytes * bytes))
    (built stored : Z) : attempt :=
  mkAttempt (getProgramAccounts resp) order1 order2 built stored.

Definition http_SessionsByOwner (resp : bytes -> option bytes) (s : Source) (ownerKey : bytes)
    : res SolError (list OwnedSession) :=
  SessionsByOwner (fun _ => getProgramAccounts (resp (SessionsByOwner_request s ownerKey))) ownerKey.

(** A node as its answers to request bodies; [polls] are its answers to the
    statuses asked for, and whether the context ended after each. *)
Definition http_node (s : Source) (answer : bytes -> option bytes) (polls : list (option bytes * bool)) : node :=
  mkNode (blockhash_answer (answer (getLatestBlockhash_request s)))
    (fun tx => signature_answer (answer (sendTransaction_request s tx)))
    ((fun p : option bytes * bool => if p.2 then CtxDone (status_answer p.1) else Tick (status_answer p.1)) <$> polls).

(** ** Lemmas *)

Lemma set_elems_written ss : set_elems [] (JStr <$> ss) = Some ss.
Proof. induction ss as [|s ss IH]; [done|]. cbn. by rewrite IH. Qed.

Lemma mapM_Forall2 {A B} (f : A -> option B) l k : Forall2 (fun a b => f a = Some b) l k -> mapM f l = Some k.
Proof. apply mapM_Some_2. Qed.

(** ** What a node writes *)

(** An account object: its address and its base64 data, among other members. *)
Definition account_item (v : json) (a : rpcAccount) : Prop :=
  exists l la, v = JObj l /\ members (str "pubkey") l = [JStr (Pubkey a)] /\
    members (str "account") l = [JObj la] /\ members (str "data") la = [JArr (JStr <$> Data a)].

(** A JSON-RPC answer with these accounts as its result. *)
Definition accounts_body (body : bytes) (accounts : list rpcAccount) : Prop :=
  exists l items, Decode body = Some (JObj l) /\ members (str "result") l = [JArr items] /\
    Forall (fun v => v = JNull) (members (str "error") l) /\ Forall2 account_item items accounts.

(** A JSON-RPC answer that reports an error. *)
Definition error_body (body : bytes) : Prop :=
  exists l le, Decode body = Some (JObj l) /\ members (str "error") l = [JObj le].

Lemma rpc_account_item v a : account_item v a -> rpc_account v = Some a.
Proof.
  intros (l & la & -> & Hp & Ha & Hd). unfold rpc_account, get_string, get_field.
  rewrite Hp, Ha. cbn [foldl mbind option_bind set_string set_account]. rewrite Hd.
  cbn [foldl mbind option_bind set_strings]. rewrite set_elems_written. by destruct a.
Qed.

Lemma no_error l : Forall (fun v => v = JNull) l ->
  foldl (fun a x => a ≫= fun a => set_error a x) (Some None) l = Some None.
Proof. induction 1 as [|v l -> _ IH]; [done|]. exact IH. Qed.

Lemma getProgramAccounts_body body accounts :
  accounts_body body accounts -> getProgramAccounts (Some body) = Ok accounts.
Proof.
  intros (l & items & Hd & Hr & He & HF). unfold getProgramAccounts, call, httpCaller. rewrite Hd.
  cbn [mbind option_bind]. unfold get_field. rewrite Hr. cbn [foldl mbind option_bind set_raw].
  rewrite no_error by done. cbn [mbind option_bind res_bind rpc_accounts].
  rewrite (mapM_Forall2 _ items accounts); [done|]. eapply Forall2_impl; [|exact HF]. apply rpc_account_item.
Qed.

Lemma getProgramAccounts_error body : error_body body -> exists e, getProgramAccounts (Some body) = Err e.
Proof.
  intros (l & le & Hd & He). unfold getProgramAccounts, call, httpCaller. rewrite Hd. cbn [mbind option_bind].
  destruct (get_field set_raw None (str "result") (JObj l)); [|by eexists].
  assert (match get_field set_error None (str "error") (JObj l) with Some None => False | _ => True end) as Hx.
  { cbn [get_field]. rewrite He. cbn [foldl mbind option_bind set_error default].
    by repeat (destruct (foldl _ _ _); cbn [mbind option_bind]). }
  cbn [mbind option_bind]. destruct (get_field set_error None (str "error") (JObj l)) as [[e|]|]; [|done|]; by eexists.
Qed.

(** ** The claims *)

(** C12: a refresh over HTTP reads the chain.  If the body of the node's answer
    is a JSON-RPC answer that lists the accounts of a reachable ledger, in any
    order and with whatever other members, the refresh stores the snapshot
    that ledger stands for when the session is registered; and if the request
    failed, the body is not JSON or reports an error, the source serves what
    it served before. *)
Theorem http_refresh_reads_ledger {C : Curve} prog L src resp o1 o2 built stored
  (Hreach : reachable prog L) (Ho1 : any_order o1) (Ho2 : any_order o2) :
  let a := http_attempt resp o1 o2 built stored in
  (forall body accounts, resp = Some body -> accounts_body body accounts -> answers L accounts ->
     registered L (sessionKey src) ->
     exists sn src', refresh src a = (src', None) /\ snap src' = Some sn /\ lastOK src' = stored /\
       shows L (sessionKey src) built sn) /\
  (resp = None \/ (exists body, resp = Some body /\ (Decode body = None \/ error_body body)) ->
     exists e, refresh src a = (src, Some e)).
Proof.
  intros a. split.
  - intros body accounts -> Hb Ha Hreg.
    assert (faithful L a) as Hf.
    { split; [|done|done]. exists accounts. split; [|done]. by apply getProgramAccounts_body. }
    pose proof (refresh_shows prog L src a (reachable_ok prog L Hreach) Hf) as H.
    destruct (refresh src a) as [src' [e|]]; [by destruct H as (_ & _ & [])|].
    destruct H as (sn & Hs & Hl & _ & _ & Hsh). by exists sn, src'.
  - intros H. assert (exists e, a_rpc a = Err e) as [e He].
    { unfold a, http_attempt. cbn [a_rpc]. destruct H as [->|(body & -> & [Hd|Hb])]; [by eexists| |by apply getProgramAccounts_error].
      unfold getProgramAccounts, call, httpCaller. rewrite Hd. by eexists. }
    exists e. unfold refresh, Refresh, fetch. by rewrite He.
Qed.

(** ** Witness: a node's answer in full *)

Definition account_json (a : rpcAccount) : json :=
  JObj [(str "account", JObj [(str "data", JArr (JStr <$> Data a)); (str "executable", JBool false);
                              (str "lamports", JNum (str "1447680"))]); (str "pubkey", JStr (Pubkey a))].

Definition sample_body (accounts : list rpcAccount) : bytes :=
  Marshal (JObj [(str "jsonrpc", JStr (str "2.0")); (str "result", JArr (account_json <$> accounts));
                 (str "id", JNum (str "1"))]).

#[local] Existing Instance toy_curve.

Lemma http_refresh_reads_ledger_witness :
  exists L sn src', reachable sample_prog L /\
    refresh sample_source (http_attempt (Some (sample_body (rpc_of <$> map_to_list L))) map_to_list map_to_list t0 t0)
      = (src', None) /\
    snap src' = Some sn /\ shows L (key_of x05) t0 sn.
Proof.
  destruct sample_ledger as (L & addr & b & Hr & Hs & HL & Ha).
  assert (b = 255) as ->.
  { destruct (reachable_ok _ _ Hr _ _ Hs) as (Hp & _).
    assert (findPDA sample_prog [str "session"; SSessionKey sample_session] = Ok (addr, 255)) as Hp'
      by (rewrite Ha; reflexivity). congruence. }
  destruct (http_refresh_reads_ledger sample_prog L sample_source (Some (sample_body (rpc_of <$> map_to_list L)))
    map_to_list map_to_list t0 t0 Hr ltac:(intros m; reflexivity) ltac:(intros m; reflexivity)) as [Hyes _].
  destruct (Hyes (sample_body (rpc_of <$> map_to_list L)) (rpc_of <$> map_to_list L) eq_refl) as (sn & src' & H1 & H2 & _ & H3).
  - exists [(str "jsonrpc", JStr (str "2.0")); (str "result", JArr (account_json <$> (rpc_of <$> map_to_list L)));
            (str "id", JNum (str "1"))], (account_json <$> (rpc_of <$> map_to_list L)).
    split; [rewrite HL, Ha; vm_compute; reflexivity|]. split; [reflexivity|]. split; [constructor|].
    generalize (rpc_of <$> map_to_list L). intros accounts. induction accounts as [|x accounts IH]; constructor; [|exact IH].
    eexists _, _. split; [reflexivity|]. split; [reflexivity|]. split; reflexivity.
  - unfold answers. reflexivity.
  - exists addr, sample_session, 255. split; [exact Hs|reflexivity].
  - exists L, sn, src'. split; [exact Hr|]. split; [exact H1|]. split; [exact H2|exact H3].
Defined.
