(* ===== verification/Watch.v ===== *)
(** * The running Solana source
    (src/walletsolana/source.go Run, src/walletsolana/subscribe.go watch and
    runConn)

    Two goroutines keep the snapshot current, and one reader per subscription
    connection feeds them.  [live] is their shared state; [vstep] runs one of
    them up to its next channel operation, network call or lock.  The poller
    refreshes, then waits for its ticker, the refreshNow token or the context;
    the watcher dials, subscribes to the accounts the last refresh recorded,
    and reconciles on its own ticker; a reader turns notifications into the
    token. *)

From S2P Require Import Solana SolanaTx SolanaWire Ledger.
From S2P Require Import Prelude GoStrings WalletCaps Base58 GoTime Delegation Fold Base64 Hex Json Rpc.

(** ** Frames *)

(** The request runConn writes; a map's keys in order. *)
Definition subscribe_request (s : Source) (id : Z) (addr : bytes) : bytes :=
  Marshal (JObj [(str "id", JNum (Itoa id)); (str "jsonrpc", JStr (str "2.0"));
                 (str "method", JStr (str "accountSubscribe"));
                 (str "params", JArr [JStr addr;
                    JObj [(str "commitment", JStr (commitment s)); (str "encoding", JStr (str "base64"))]])]).

(** ReadJSON into struct{ Method string }. *)
Definition frame_method (frame : bytes) : option bytes := v ← Decode frame; get_string (str "method") v.

(** ** State *)

(** Run: about to refresh, at its select, returned. *)
Inductive poll_pc := PRefresh | PSelect | PStopped.

(** watch: at the head of its loop; in runConn's select on connection [k],
    with its subscribed map and request counter; waiting [d]; returned. *)
Inductive watch_pc :=
| WDialing
| WConnected (k : nat) (subscribed : gset bytes) (id : Z)
| WWaiting (d : Z)
| WStopped.

Record live := mkLive {
  lsrc : Source;
  refreshNow : bool;           (* the channel of capacity one holds a token *)
  cancelled : bool;            (* ctx is done *)
  poll : poll_pc;
  watcher : watch_pc;
  backoff : Z;
  readers : gmap nat bool;     (* per connection: its reader runs *)
  readErr : gset nat;          (* connections whose readErr holds an error *)
  wire : list (nat * (Z * bytes)); (* requests written: connection, id, address *)
  conns : nat;
}.

(** What ends a wait at Run's select. *)
Inductive wake := WakeTicker | WakeToken | WakeCtx.

(** What ends runConn: the context, its reader's error, or a write of the
    reconcile that failed.  VRefresh is the store that ends a refresh of Run;
    a notification that comes during its call to the node finds the poller at
    PRefresh and leaves the token set for the next turn. *)
Inductive vevent :=
| VCancel
| VRefresh (a : attempt)
| VPoll (k : wake)
| VDial (conn : bool) (ok : Z -> bool) (lasted : Z)
| VFrame (k : nat) (frame : option bytes)
| VTick (ok : Z -> bool) (lasted : Z)
| VReadErr (lasted : Z)
| VConnCtx (lasted : Z)
| VWaited (ctx : bool).

(** ** Steps *)

Definition set_watch (l : live) (w : watch_pc) (b : Z) (sent : list (nat * (Z * bytes))) : live :=
  mkLive (lsrc l) (refreshNow l) (cancelled l) (poll l) w b (readers l) (readErr l) (wire l ++ sent) (conns l).

Definition set_poll (l : live) (src : Source) (tok : bool) (p : poll_pc) : live :=
  mkLive src tok (cancelled l) p (watcher l) (backoff l) (readers l) (readErr l) (wire l) (conns l).

(** After runConn: watch returns if the context is done, else it resets the
    backoff after a connection that lasted, and waits. *)
Definition conn_ended (l : live) (lasted : Z) (sent : list (nat * (Z * bytes))) : live :=
  if cancelled l then set_watch l WStopped (backoff l) sent
  else let b := if maxBackoff <? lasted then Second else backoff l in set_watch l (WWaiting b) b sent.

(** One reconcile of connection [k]. *)
Definition reconcile_step (l : live) (k : nat) (sub : gset bytes) (id : Z) (ok : Z -> bool) (lasted : Z) : live * bool :=
  let '(sub', id', sent, fine) := reconcile (subscribeTargets (lsrc l)) sub id ok in
  let sent := (fun r => (k, r)) <$> sent in
  if fine : bool then (set_watch l (WConnected k sub' id') (backoff l) sent, true)
  else (conn_ended l lasted sent, false).

(** The dial succeeded: the first reconcile, then the reader starts. *)
Definition connect (l : live) (ok : Z -> bool) (lasted : Z) : live :=
  let k := conns l in
  let l := mkLive (lsrc l) (refreshNow l) (cancelled l) (poll l) (watcher l) (backoff l) (readers l) (readErr l)
             (wire l) (S k) in
  let '(l, fine) := reconcile_step l k ∅ 0 ok lasted in
  if fine : bool
  then mkLive (lsrc l) (refreshNow l) (cancelled l) (poll l) (watcher l) (backoff l) (<[k := true]> (readers l))
         (readErr l) (wire l) (conns l)
  else l.

(** A reader's turn: an error, also one in the frame's JSON, goes to its
    readErr and ends it; a notification fills the token. *)
Definition reader_step (l : live) (k : nat) (frame : option bytes) : live :=
  match f ← frame; frame_method f with
  | None => mkLive (lsrc l) (refreshNow l) (cancelled l) (poll l) (watcher l) (backoff l) (<[k := false]> (readers l))
              ({[k]} ∪ readErr l) (wire l) (conns l)
  | Some method =>
      mkLive (lsrc l) (notify (refreshNow l) method) (cancelled l) (poll l) (watcher l) (backoff l) (readers l)
        (readErr l) (wire l) (conns l)
  end.

Definition vstep (l : live) (e : vevent) : option live :=
  match e with
  | VCancel => Some (mkLive (lsrc l) (refreshNow l) true (poll l) (watcher l) (backoff l) (readers l) (readErr l)
                       (wire l) (conns l))
  | VRefresh a =>
      match poll l with
      | PRefresh => Some (set_poll l (fst (refresh (lsrc l) a)) (refreshNow l) PSelect)
      | _ => None
      end
  | VPoll k =>
      match poll l, k with
      | PSelect, WakeTicker => Some (set_poll l (lsrc l) (refreshNow l) PRefresh)
      | PSelect, WakeToken => if refreshNow l then Some (set_poll l (lsrc l) false PRefresh) else None
      | PSelect, WakeCtx => if cancelled l then Some (set_poll l (lsrc l) (refreshNow l) PStopped) else None
      | _, _ => None
      end
  | VDial conn ok lasted =>
      match watcher l with
      | WDialing =>
          if cancelled l then Some (set_watch l WStopped (backoff l) [])
          else if conn then Some (connect l ok lasted)
          else Some (set_watch l (WWaiting (backoff l)) (backoff l) [])
      | _ => None
      end
  | VFrame k frame =>
      match readers l !! k with
      | Some true => Some (reader_step l k frame)
      | _ => None
      end
  | VTick ok lasted =>
      match watcher l with
      | WConnected k sub id => Some (fst (reconcile_step l k sub id ok lasted))
      | _ => None
      end
  | VReadErr lasted =>
      match watcher l with
      | WConnected k _ _ => if bool_decide (k ∈ readErr l) then Some (conn_ended l lasted []) else None
      | _ => None
      end
  | VConnCtx lasted =>
      match watcher l with
      | WConnected _ _ _ => if cancelled l then Some (conn_ended l lasted []) else None
      | _ => None
      end
  | VWaited ctx =>
      match watcher l with
      | WWaiting d =>
          if ctx then if cancelled l then Some (set_watch l WStopped (backoff l) []) else None
          else let b := d * 2 in Some (set_watch l WDialing (if maxBackoff <? b then maxBackoff else b) [])
      | _ => None
      end
  end.

Definition vrel (l : live) (e : vevent) (l' : live) : Prop := vstep l e = Some l'.

(** Run starting; the watcher only when a WebSocket dialer is configured. *)
Definition running (s : Source) : live :=
  mkLive s false false PRefresh (if has_dialWS s then WDialing else WStopped) Second ∅ ∅ [] 0.

(** ** The specification *)

Definition notification (frame : bytes) : bool :=
  bool_decide (frame_method frame = Some (str "accountNotification")).

(** A notification was read and no refresh has started since. *)
Definition overdue (es : list vevent) : bool :=
  foldl (fun d e => match e with
                    | VRefresh _ => false
                    | VFrame _ (Some f) => notification f || d
                    | _ => d
                    end) false es.

(** The requests written on connection [k]. *)
Definition requests (l : live) (k : nat) : list (Z * bytes) := (filter (fun r => r.1 = k) (wire l)).*2.

(** ** Lemmas *)

Lemma overdue_snoc es e :
  overdue (es ++ [e]) = match e with
                        | VRefresh _ => false
                        | VFrame _ (Some f) => notification f || overdue es
                        | _ => overdue es
                        end.
Proof. unfold overdue. by rewrite foldl_app. Qed.

(** A reconcile writes one request per address it adds. *)
Lemma reconcile_sent targets sub id ok sub' id' sent fine :
  reconcile targets sub id ok = (sub', id', sent, fine) ->
  NoDup sent.*2 /\ (forall addr, addr ∈ sent.*2 -> addr ∉ sub) /\
  (fine = true -> forall addr, addr ∈ sub' <-> addr ∈ sub \/ addr ∈ sent.*2).
Proof.
  revert sub id sent. induction targets as [|t targets IH]; intros sub id sent; cbn [reconcile].
  { intros [= <- <- <- <-]. cbn. split; [constructor|]. set_solver. }
  case_bool_decide as Hin; [apply IH|].
  destruct (ok (id + 1)).
  - destruct (reconcile targets ({[t]} ∪ sub) (id + 1) ok) as [[[sub1 id1] sent1] r] eqn:Er.
    intros [= <- <- <- <-]. apply IH in Er as (Hn & Hf & Hs). cbn [fmap list_fmap snd]. split_and!.
    + constructor; [|done]. intros H. specialize (Hf _ H). set_solver.
    + intros addr [->|H]%elem_of_cons; [done|]. specialize (Hf _ H). set_solver.
    + intros H addr. rewrite Hs by done. set_solver.
  - intros [= <- <- <- <-]. cbn. split; [constructor; [set_solver|constructor]|]. split; [|done].
    intros addr ->%list_elem_of_singleton. done.
Qed.

Lemma requests_app l w b sent k :
  requests (set_watch l w b sent) k = requests l k ++ (filter (fun r => r.1 = k) sent).*2.
Proof. unfold requests, set_watch. cbn [wire]. by rewrite list.filter_app, fmap_app. Qed.

Lemma filter_own (k : nat) (sent : list (Z * bytes)) :
  (filter (fun r => r.1 = k) ((fun r => (k, r)) <$> sent)).*2 = sent.
Proof.
  induction sent as [|r sent IH]; [done|]. cbn [fmap list_fmap]. rewrite filter_cons_True by done.
  cbn [fmap list_fmap snd]. by rewrite IH.
Qed.

(** The subscriptions of a connection that is up. *)
Definition subscribed_ok (l : live) (k : nat) (sub : gset bytes) (id : Z) : Prop :=
  (k < conns l)%nat /\ (requests l k).*1 = (fun i => Z.of_nat i + 1) <$> seq 0 (length (requests l k)) /\
  id = len (requests l k) /\ NoDup (requests l k).*2 /\ forall addr, addr ∈ sub <-> addr ∈ (requests l k).*2.

Record watch_inv (es : list vevent) (l : live) : Prop := mk_watch_inv {
  wi_due : overdue es = true -> refreshNow l = true \/ poll l = PRefresh \/ cancelled l = true;
  wi_stop : poll l = PStopped -> cancelled l = true;
  wi_wire : Forall (fun r => (r.1 < conns l)%nat) (wire l);
  wi_sub : forall k sub id, watcher l = WConnected k sub id -> subscribed_ok l k sub id;
  wi_backoff : Second <= backoff l <= maxBackoff;
  wi_wait : forall d, watcher l = WWaiting d -> Second <= d <= maxBackoff;
}.

(** A reconcile keeps the invariant of the watcher's part. *)
Definition watch_part (l : live) : Prop :=
  Forall (fun r => (r.1 < conns l)%nat) (wire l) /\
  (forall k sub id, watcher l = WConnected k sub id -> subscribed_ok l k sub id) /\
  Second <= backoff l <= maxBackoff /\ (forall d, watcher l = WWaiting d -> Second <= d <= maxBackoff).

(** The fields the poller's part is about. *)
Definition same_poller (l l' : live) : Prop :=
  refreshNow l' = refreshNow l /\ cancelled l' = cancelled l /\ poll l' = poll l.

Lemma conn_ended_part l lasted sent :
  Forall (fun r => (r.1 < conns l)%nat) (wire l ++ sent) -> Second <= backoff l <= maxBackoff ->
  watch_part (conn_ended l lasted sent) /\ same_poller l (conn_ended l lasted sent).
Proof.
  intros Hw Hb. unfold conn_ended. destruct (cancelled l) eqn:Ec.
  - split; [|by repeat split]. split; [done|]. split; [done|]. split; [done|]. done.
  - split; [|by repeat split]. assert (Second <= (if maxBackoff <? lasted then Second else backoff l) <= maxBackoff).
    { destruct (_ <? _); [unfold maxBackoff, Second; lia|done]. }
    split; [done|]. split; [done|]. split; [done|]. by intros d [= <-].
Qed.

Lemma reconcile_part l k sub id ok lasted :
  Forall (fun r => (r.1 < conns l)%nat) (wire l) -> Second <= backoff l <= maxBackoff -> subscribed_ok l k sub id ->
  watch_part (fst (reconcile_step l k sub id ok lasted)) /\ same_poller l (fst (reconcile_step l k sub id ok lasted)) /\
  (snd (reconcile_step l k sub id ok lasted) = true -> exists sub' id',
     watcher (fst (reconcile_step l k sub id ok lasted)) = WConnected k sub' id' /\
     forall addr, addr ∈ subscribeTargets (lsrc l) -> addr ∈ sub').
Proof.
  intros Hw Hb (Hk & H1 & H2 & H3 & H4). unfold reconcile_step.
  destruct (reconcile (subscribeTargets (lsrc l)) sub id ok) as [[[sub' id'] sent] fine] eqn:Er.
  pose proof (reconcile_sent _ _ _ _ _ _ _ _ Er) as (Hn & Hf & Hs).
  assert (Forall (fun r : nat * (Z * bytes) => (r.1 < conns l)%nat) (wire l ++ ((fun r => (k, r)) <$> sent))) as Hw'.
  { apply Forall_app. split; [done|]. rewrite Forall_fmap. apply Forall_true. intros r. exact Hk. }
  destruct fine; [|cbn [fst snd]; destruct (conn_ended_part l lasted _ Hw' Hb); by split; [|split]].
  destruct (reconcile_spec _ _ _ _ _ _ _ Er) as (Hsub & Hid & Hids). cbn [fst snd].
  split; [|split; [by repeat split|]].
  - split; [done|]. split; [|by split; [|done]].
    intros k0 sub0 id0 [= <- <- <-]. unfold subscribed_ok. rewrite requests_app, filter_own. split_and!; try done.
    + rewrite fmap_app, H1, Hids, length_app, seq_app, fmap_app. f_equal. rewrite H2.
      rewrite <- (Nat.add_0_r (0 + _)), <- fmap_add_seq, <- list_fmap_compose.
      apply list_fmap_ext. intros i x _. simpl. unfold len. lia.
    + rewrite len_app, <- H2. done.
    + rewrite fmap_app. apply list.NoDup_app. split_and!; [done| |done]. intros addr Ha Hb'.
      apply (Hf _ Hb'). by apply H4.
    + intros addr. rewrite (Hs eq_refl), fmap_app, elem_of_app, H4. done.
  - intros _. exists sub', id'. split; [done|]. intros addr Ha. rewrite Hsub. apply elem_of_union. left.
    by apply elem_of_list_to_set.
Qed.

Lemma connect_part l ok lasted :
  watch_part l -> watch_part (connect l ok lasted) /\ same_poller l (connect l ok lasted).
Proof.
  intros (Hw & _ & Hb & _). unfold connect.
  set (l0 := mkLive _ _ _ _ _ _ _ _ _ (S (conns l))).
  assert (Forall (fun r : nat * (Z * bytes) => (r.1 < conns l0)%nat) (wire l0)) as Hw0.
  { eapply Forall_impl; [|exact Hw]. intros r Hr. cbv beta in Hr. change (conns l0) with (S (conns l)). lia. }
  assert (requests l0 (conns l) = []) as Hr.
  { unfold requests. change (wire l0) with (wire l). clear - Hw. induction Hw as [|r w Hr _ IH]; [done|]. rewrite filter_cons_False by lia. exact IH. }
  destruct (reconcile_part l0 (conns l) ∅ 0 ok lasted Hw0 Hb) as ((Hp1 & Hp2 & Hp3 & Hp4) & Hs & _).
  { unfold subscribed_ok. rewrite Hr. change (conns l0) with (S (conns l)). split; [lia|]. split; [done|]. split; [done|].
    split; [constructor|]. intros addr. set_solver. }
  destruct (reconcile_step l0 _ _ _ _ _) as [l1 []]; cbn [fst snd] in *; [|by split].
  split; [|exact Hs]. split; [done|]. split; [|by split]. intros k sub id Hk. exact (Hp2 k sub id Hk).
Qed.

Lemma watch_inv_run s es l : steps vrel (running s) es l -> watch_inv es l.
Proof.
  intros Hr. remember (running s) as l0 eqn:E0.
  induction Hr as [|l0 es l1 e l2 Hr IH Hs]; subst.
  { split; try done; cbn; by destruct (has_dialWS s). }
  destruct (IH eq_refl) as [Hd Hst Hw Hsub Hb Hwait]. clear IH Hr.
  assert (watch_part l1) as Hp by (by split; [|split; [|split]]).
  assert (forall l, watch_part l -> same_poller l1 l -> overdue (es ++ [e]) = overdue es -> watch_inv (es ++ [e]) l) as Hwatch.
  { intros l (? & ? & ? & ?) (E1 & E2 & E3) Eo. split; try done; rewrite ?Eo, ?E1, ?E2, ?E3; done. }
  assert (forall w b, b = backoff l1 -> (forall k sub id, w <> WConnected k sub id) -> (forall d, w = WWaiting d -> d = b) ->
    watch_part (set_watch l1 w b [])) as Hset.
  { intros w b -> Hc Hd'. split; cbn [set_watch wire conns]; [by rewrite app_nil_r|]. split; [intros ??? H; by destruct (Hc _ _ _ H)|].
    split; [done|]. intros d H. by rewrite (Hd' _ H). }
  assert (forall lasted, watch_part (conn_ended l1 lasted []) /\ same_poller l1 (conn_ended l1 lasted [])) as Hend.
  { intros lasted. apply conn_ended_part; [by rewrite app_nil_r|done]. }
  unfold vrel in Hs. destruct e as [|a|wk|conn ok lasted|k frame|ok lasted|lasted|lasted|ctx]; cbn [vstep] in Hs.
  - injection Hs as <-. split; try done; cbn; auto.
  - destruct (poll l1); try done. injection Hs as <-. split; try done. by rewrite overdue_snoc.
  - destruct (poll l1) eqn:Ep; try done. destruct wk.
    + injection Hs as <-. split; try done; cbn; auto.
    + destruct (refreshNow l1); [|done]. injection Hs as <-. split; try done; cbn; auto.
    + destruct (cancelled l1) eqn:Ec; [|done]. injection Hs as <-. split; try done; cbn; auto.
  - destruct (watcher l1) eqn:Ew; try done. destruct (cancelled l1) eqn:Ec; [|destruct conn].
    + injection Hs as <-. apply Hwatch; [by apply Hset|by repeat split|by rewrite overdue_snoc].
    + injection Hs as <-. destruct (connect_part l1 ok lasted Hp). apply Hwatch; [done|done|by rewrite overdue_snoc].
    + injection Hs as <-. apply Hwatch; [apply Hset; [done|done|by intros d [= <-]]|by repeat split|by rewrite overdue_snoc].
  - destruct (readers l1 !! k) as [[]|]; try done. injection Hs as <-. unfold reader_step.
    destruct frame as [f|]; cbn [mbind option_bind]; [destruct (frame_method f) as [meth|] eqn:Em|].
    + split; try done; cbn [refreshNow cancelled poll]. rewrite overdue_snoc. unfold notification, notify. rewrite Em.
      intros H. destruct (bool_decide (Some meth = _)) eqn:Eb.
      * apply bool_decide_eq_true in Eb as [= ->]. left. by rewrite bool_decide_eq_true_2.
      * destruct (Hd H) as [?|?]; [left|by right]. by destruct (bool_decide (meth = _)).
    + split; try done; cbn [refreshNow cancelled poll]. rewrite overdue_snoc. unfold notification. rewrite Em. exact Hd.
    + split; try done; cbn [refreshNow cancelled poll]. by rewrite overdue_snoc.
  - destruct (watcher l1) as [|k sub id| |] eqn:Ew; try done. injection Hs as <-.
    destruct (reconcile_part l1 k sub id ok lasted Hw Hb (Hsub _ _ _ eq_refl)) as (? & ? & _).
    apply Hwatch; [done|done|by rewrite overdue_snoc].
  - destruct (watcher l1) as [|k sub id| |]; try done. case_bool_decide; [|done]. injection Hs as <-.
    destruct (Hend lasted). apply Hwatch; [done|done|by rewrite overdue_snoc].
  - destruct (watcher l1) as [|k sub id| |]; try done. destruct (cancelled l1) eqn:Ec; [|done]. injection Hs as <-.
    destruct (Hend lasted). apply Hwatch; [done|done|by rewrite overdue_snoc].
  - destruct (watcher l1) as [| |d|] eqn:Ew; try done. destruct ctx.
    + destruct (cancelled l1) eqn:Ec; [|done]. injection Hs as <-.
      apply Hwatch; [by apply Hset|by repeat split|by rewrite overdue_snoc].
    + injection Hs as <-. specialize (Hwait d eq_refl). apply Hwatch; [|by repeat split|by rewrite overdue_snoc].
      split; cbn [set_watch wire conns watcher backoff]; [by rewrite app_nil_r|]. split; [done|]. split; [|done].
      unfold maxBackoff in *. destruct (_ <? d * 2) eqn:E; go_bool; unfold Second in *; lia.
Qed.

(** ** The claims *)


(** Each connection subscribes to every account once.  In every run, the
    requests written on the connection that is up carry the ids 1, 2, 3, ...
    and pairwise different addresses, exactly those the watcher counts as
    subscribed; after a reconcile tick that leaves the connection up, all
    accounts the last refresh recorded are among them. *)
Theorem subscriptions_cover_targets s es l k sub id ok lasted l' k' sub' id'
  (Hrun : steps vrel (running s) es l) (Hup : watcher l = WConnected k sub id)
  (Htick : vstep l (VTick ok lasted) = Some l') (Hup' : watcher l' = WConnected k' sub' id') :
  (requests l k).*1 = (fun i => Z.of_nat i + 1) <$> seq 0 (length (requests l k)) /\
  NoDup (requests l k).*2 /\ (forall addr, addr ∈ sub <-> addr ∈ (requests l k).*2) /\
  k' = k /\ (forall addr, addr ∈ subAddrs (lsrc l) -> addr ∈ (requests l' k).*2).
Proof.
  destruct (watch_inv_run s es l Hrun) as [_ _ Hw Hsub Hb _].
  destruct (Hsub _ _ _ Hup) as (Hk & H1 & H2 & H3 & H4). split_and!; try done.
  all: cbn [vstep] in Htick; rewrite Hup in Htick; injection Htick as <-.
  all: destruct (reconcile_part l k sub id ok lasted Hw Hb (Hsub _ _ _ Hup)) as ((_ & Hs' & _) & _ & Hfine).
  all: assert (snd (reconcile_step l k sub id ok lasted) = true) as Hf
    by (unfold reconcile_step in *; destruct (reconcile _ _ _ _) as [[[? ?] ?] []]; [done|];
        cbn [fst] in Hup'; unfold conn_ended in Hup'; by destruct (cancelled l)).
  all: destruct (Hfine Hf) as (sub1 & id1 & Hw1 & Hcov); rewrite Hw1 in Hup'; injection Hup' as <- <- <-; try done.
  destruct (Hs' _ _ _ Hw1) as (_ & _ & _ & _ & Hin). intros addr Ha. apply Hin, Hcov, Ha.
Qed.

(** ** Witnesses *)

Fixpoint vexec (l : live) (es : list vevent) : option live :=
  match es with
  | [] => Some l
  | e :: es => match vstep l e with Some l => vexec l es | None => None end
  end.

Lemma vexec_steps l es l' : vexec l es = Some l' -> steps vrel l es l'.
Proof.
  revert l. induction es as [|e es IH]; intros l H; cbn [vexec] in H.
  { injection H as <-. constructor. }
  destruct (vstep l e) as [m|] eqn:E; [|done].
  apply (steps_app vrel l [e] m); [by apply steps_one|by apply IH].
Qed.

#[local] Existing Instance toy_curve.

Definition ws_source : Source :=
  Solana.mkSource (EncodeBase58 sample_prog) (key_of x05) (30 * Second) (10 * Second) (10 * Second)
    (str "confirmed") (str "wss://node") true None 0 [].

Definition notice : bytes :=
  Marshal (JObj [(str "jsonrpc", JStr (str "2.0")); (str "method", JStr (str "accountNotification"))]).

(** A refresh that finds the session, a connection, a notification. *)
Definition watch_script (a : attempt) : list vevent :=
  [VRefresh a; VDial true (fun _ => true) 0; VFrame 0 (Some notice)].

Lemma watch_script_runs a :
  exists l, vexec (running ws_source) (watch_script a) = Some l /\ steps vrel (running ws_source) (watch_script a) l /\
    lsrc l = fst (refresh ws_source a) /\ cancelled l = false /\ exists sub id, watcher l = WConnected 0 sub id.
Proof.
  assert (forall targets sub id, exists sub' id' sent, reconcile targets sub id (fun _ => true) = (sub', id', sent, true)) as Hrec.
  { intros targets. induction targets as [|t targets IH]; intros sub id; cbn [reconcile]; [eauto|].
    case_bool_decide; [apply IH|]. destruct (IH ({[t]} ∪ sub) (id + 1)) as (? & ? & ? & ->). eauto. }
  set (l1 := set_poll (running ws_source) (fst (refresh ws_source a)) false PSelect).
  destruct (Hrec (subscribeTargets (lsrc l1)) ∅ 0) as (sub & id & sent & Hr).
  assert (vexec (running ws_source) (watch_script a) = vexec (connect l1 (fun _ => true) 0) [VFrame 0 (Some notice)]) as E
    by reflexivity.
  unfold connect, reconcile_step in E. cbn [lsrc] in E. rewrite Hr in E. cbn [vexec vstep readers] in E.
  rewrite lookup_insert_eq in E. unfold reader_step in E.
  assert (frame_method notice = Some (str "accountNotification")) as Hm by (vm_compute; reflexivity).
  cbn [mbind option_bind] in E. rewrite Hm in E.
  eexists. split; [exact E|]. split; [by apply vexec_steps|]. split; [reflexivity|]. split; [reflexivity|].
  exists sub, id. reflexivity.
Qed.


Lemma subscriptions_cover_targets_witness :
  exists l l' k sub id, steps vrel (running ws_source) (watch_script (mkAttempt (Err CallFailed) map_to_list map_to_list 0 0)) l /\
    watcher l = WConnected k sub id /\ vstep l (VTick (fun _ => true) 0) = Some l' /\
    NoDup (requests l k).*2.
Proof.
  set (a := mkAttempt (Err CallFailed) map_to_list map_to_list 0 0).
  destruct (watch_script_runs a) as (l & E & Hst & _ & _ & sub & id & Hw).
  destruct (vstep l (VTick (fun _ => true) 0)) as [l'|] eqn:Et; [|cbn [vstep] in Et; rewrite Hw in Et; discriminate].
  assert (exists k' sub' id', watcher l' = WConnected k' sub' id') as (k' & sub' & id' & Hw').
  { unfold a in E. vm_compute in E. injection E as <-. vm_compute in Et. injection Et as <-. eexists _, _, _. reflexivity. }
  exists l, l', 0%nat, sub, id. split; [exact Hst|]. split; [exact Hw|]. split; [exact Et|].
  destruct (subscriptions_cover_targets ws_source (watch_script a) l 0 sub id (fun _ => true) 0 l' k' sub' id' Hst Hw Et Hw')
    as (_ & Hn & _). exact Hn.
Defined.
