(* ===== verification/Grants.v ===== *)
(** * Chain files and `mosey grant` (src/wallet/chain.go, src/cmd/mosey/grant.go)

    The portable JSON form of a delegation chain, read with the rules of
    encoding/json (Json.v), and the command that signs a one-hop grant and
    writes it, with a fresh connection key when the grant is a bearer one. *)

From S2P Require Import Prelude GoStrings WalletCaps Base58 GoTime Delegation Base64 Hex Json.

(** ** wallet/chain.go *)

Record delegationJSON := mkDJ { dj_content : bytes; dj_signature : bytes }.

Inductive ChainError := ChainParse | ChainContent (i : nat) | ChainSignature (i : nat).

Definition delegation_value (d : Delegation) : json :=
  JObj [(str "content", JStr (EncodeToString (Content d))); (str "signature", JStr (EncodeToString (Signature d)))].

Definition chain_value (chain : list Delegation) : json :=
  JObj [(str "chain", JArr (map delegation_value chain))].

(** Marshalling a struct of strings cannot fail. *)
Definition EncodeChain (chain : list Delegation) : res ChainError bytes := Ok (Marshal (chain_value chain)).

(** One element of the array decoded over what the slot held. *)
Definition set_delegation (old : delegationJSON) (v : json) : option delegationJSON :=
  c ← get_field set_string (dj_content old) (str "content") v;
  s ← get_field set_string (dj_signature old) (str "signature") v;
  Some (mkDJ c s).

Fixpoint fill (backing : list delegationJSON) (l : list json) : option (list delegationJSON) :=
  match l, backing with
  | [], _ => Some backing
  | v :: l, old :: backing => d ← set_delegation old v; cons d <$> fill backing l
  | v :: l, [] => d ← set_delegation (mkDJ [] []) v; cons d <$> fill [] l
  end.

(** The slice as its backing array and length: a repeated key decodes into
    the array an earlier one filled. *)
Definition set_chain (old : list delegationJSON * nat) (v : json) : option (list delegationJSON * nat) :=
  match v with
  | JNull | JArr [] => Some ([], 0%nat)
  | JArr l => b ← fill (fst old) l; Some (b, length l)
  | _ => None
  end.

Fixpoint decode_items (i : nat) (l : list delegationJSON) : res ChainError (list Delegation) :=
  match l with
  | [] => Ok []
  | dj :: l =>
      content ← match DecodeString (dj_content dj) with None => Err (ChainContent i) | Some b => Ok b end;
      sig ← match DecodeString (dj_signature dj) with None => Err (ChainSignature i) | Some b => Ok b end;
      rest ← decode_items (S i) l;
      Ok (mkDelegation content sig :: rest)
  end.

Definition DecodeChain (blob : bytes) : res ChainError (list Delegation) :=
  match v ← Unmarshal blob; get_field set_chain ([], 0%nat) (str "chain") v with
  | None => Err ChainParse
  | Some (b, n) => decode_items 0 (take n b)
  end.

(** ** Reading back an encoded chain *)

Lemma b64_char_safe i : 0 <= i < 64 -> html_safe (b64_char i) = true.
Proof.
  intros Hi. assert (Forall (fun n => html_safe (b64_char (Z.of_nat n)) = true) (seq 0 64)) as HF.
  { apply (bool_decide_unpack _). vm_compute. done. }
  rewrite <- (Z2Nat.id i) by lia.
  refine (proj1 (List.Forall_forall _ _) HF (Z.to_nat i) _). apply in_seq. lia.
Qed.

Lemma EncodeToString_safe bs : forallb html_safe (EncodeToString bs) = true.
Proof.
  induction bs as [bs IH] using (induction_ltof1 _ (@length byte)); unfold ltof in IH.
  destruct bs as [|a [|b [|c rest]]]; cbn [EncodeToString forallb]; [done|..].
  all: repeat match goal with |- context [b2z ?x] => lazymatch goal with
         | _ : 0 <= b2z x < 256 |- _ => fail | _ => pose proof (b2z_range x) end end.
  all: rewrite !b64_char_safe by (Z.to_euclidean_division_equations; lia); cbn [andb]; try done.
  apply IH. simpl. lia.
Qed.

Lemma chain_value_readable chain : readable 3 (chain_value chain).
Proof.
  cbn [readable chain_value]. constructor; [|constructor]. split; [done|]. cbn [snd readable].
  apply List.Forall_forall. intros v (d & <- & _)%in_map_iff. cbn [readable delegation_value].
  repeat (constructor; [split; [done|cbn; apply EncodeToString_safe]|]). constructor.
Qed.

Lemma decode_items_encoded i chain :
  decode_items i (map (fun d => mkDJ (EncodeToString (Content d)) (EncodeToString (Signature d))) chain) = Ok chain.
Proof.
  revert i. induction chain as [|d chain IH]; intros i; [done|].
  cbn [map decode_items dj_content dj_signature]. rewrite !Decode_Encode. cbn [mbind res_bind].
  rewrite IH. by destruct d.
Qed.

Lemma fill_encoded chain : fill [] (map delegation_value chain) =
  Some (map (fun d => mkDJ (EncodeToString (Content d)) (EncodeToString (Signature d))) chain).
Proof. induction chain as [|d chain IH]; [done|]. cbn [map fill]. by rewrite IH. Qed.

Lemma DecodeChain_EncodeChain chain blob : EncodeChain chain = Ok blob -> DecodeChain blob = Ok chain.
Proof.
  intros Hb. assert (blob = Marshal (chain_value chain)) as -> by (unfold EncodeChain in Hb; congruence).
  unfold DecodeChain. rewrite (Unmarshal_Marshal _ 3) by (apply chain_value_readable || (unfold maxNestingDepth; lia)).
  cbn [mbind option_bind].
  assert (get_field set_chain ([], 0%nat) (str "chain") (chain_value chain) =
    set_chain ([], 0%nat) (JArr (map delegation_value chain))) as -> by reflexivity.
  destruct chain as [|d chain]; [done|]. cbn [map set_chain].
  change (delegation_value d :: map delegation_value chain) with (map delegation_value (d :: chain)).
  cbn [fst]. rewrite fill_encoded. cbn [mbind option_bind].
  rewrite length_map, take_ge by (rewrite length_map; lia). apply decode_items_encoded.
Qed.

(** ** cmd/mosey/grant.go *)

(** What fs.Parse makes of the arguments. *)
Inductive parsed (A : Type) := PHelp | PBad | PFlags (a : A).
Arguments PHelp {A}.
Arguments PBad {A}.
Arguments PFlags {A} a.

Definition Minute : Z := 60 * Second.
Definition Hour : Z := 60 * Minute.

(** The fields every signing command asks for: valid from a minute ago. *)
Definition mint_fields (session delegator delegate : bytes) (caps : WCaps) (now ttl : Z) (nonce : bytes) : Fields :=
  mkFields session delegator delegate caps (now - Minute) (now + ttl) nonce.

Record grant_flags := mkGrantFlags {
  gf_keypair : bytes; gf_session : bytes; gf_caps : bytes; gf_expires : Z; gf_to : bytes
}.

(** What the command draws from outside: the key file, a generated key, the
    nonce, the clock, and whether the directory and the two files could be
    written. *)
Record grant_env := mkGrantEnv {
  ge_key_file : res KeyFileError bytes; ge_bearer : option bytes; ge_nonce : option bytes; ge_now : Z;
  ge_mkdir : bool; ge_write_grant : bool; ge_write_key : bool
}.

(** The exit code, and grant.json and conn.key where they were written. *)
Record grant_out := mkGrantOut { exit_code : Z; grant_json : option bytes; conn_key : option bytes }.

Definition exits (code : Z) : grant_out := mkGrantOut code None None.

Section grant.
Context {E : Ed25519}.

(** The delegate's public key, and the bearer key when one is made; an exit
    code on failure. *)
Definition resolve_delegate (to : bytes) (gen : option bytes) : res Z (bytes * option bytes) :=
  if negb (bool_decide (to = [])) then
    match ParseAddress to with Err _ => Err 2 | Ok d => Ok (d, None) end
  else match gen with None => Err 1 | Some k => Ok (ed_public k, Some k) end.

Definition write_grant (env : grant_env) (signer session delegate nonce : bytes) (caps : WCaps) (expires : Z)
    (bearer : option bytes) : grant_out :=
  let deleg := Sign signer (mint_fields session (ed_public signer) delegate caps (ge_now env) expires nonce) in
  match EncodeChain [deleg] with
  | Err _ => exits 1
  | Ok blob =>
      if negb (ge_mkdir env) then exits 1
      else if negb (ge_write_grant env) then exits 1
      else match bearer with
           | None => mkGrantOut 0 (Some blob) None
           | Some k => if negb (ge_write_key env) then mkGrantOut 1 (Some blob) None
                       else mkGrantOut 0 (Some blob) (Some (key_text k))
           end
  end.

Definition runGrant (args : parsed grant_flags) (env : grant_env) : grant_out :=
  match args with
  | PHelp => exits 0
  | PBad => exits 2
  | PFlags f =>
      if bool_decide (gf_keypair f = []) || bool_decide (gf_session f = []) then exits 2
      else match loadHexKey (ge_key_file env) with
      | Err _ => exits 2
      | Ok signer =>
      match ParseAddress (gf_session f) with
      | Err _ => exits 2
      | Ok session =>
      match ParseCapsLenient (gf_caps f) with
      | Err _ => exits 2
      | Ok caps =>
      match resolve_delegate (gf_to f) (ge_bearer env) with
      | Err code => exits code
      | Ok (delegate, bearer) =>
      match ge_nonce env with
      | None => exits 1
      | Some nonce => write_grant env signer session delegate nonce caps (gf_expires f) bearer
      end end end end end
  end.
End grant.

Lemma ParseAddress_len s b : ParseAddress s = Ok b -> len b = PublicKeySize.
Proof.
  unfold ParseAddress. intros (x & _ & H)%bind_ok. go_run. done.
Qed.

Lemma ParseAddress_Address b : len b = PublicKeySize -> ParseAddress (Address b) = Ok b.
Proof.
  intros Hb. unfold ParseAddress, Address. rewrite base58_decode_encode; [|by intros ->].
  cbn [mbind res_bind]. by rewrite Hb.
Qed.

Lemma ParseCapsLenient_small s c : ParseCapsLenient s = Ok c -> small_caps c.
Proof.
  unfold ParseCapsLenient. go_case; [intros [= <-]; unfold small_caps; lia|].
  intros H. eapply parse_lenient_small; [|exact H]. unfold small_caps. lia.
Qed.

(** A hop that is rendered for its delegator and signed by it. *)
Lemma mint_ok session delegator delegate caps now ttl nonce :
  len session = PublicKeySize -> len delegator = PublicKeySize -> len delegate = PublicKeySize ->
  small_caps caps -> four_digit_year (now - Minute) -> four_digit_year (now + ttl) -> len nonce = nonceSize ->
  fields_ok (mint_fields session delegator delegate caps now ttl nonce).
Proof. intros. by constructor. Qed.

(** A bearer grant that succeeds: what the two files hold. *)
Lemma bearer_grant_files {E : Ed25519} f env o
  (Hto : gf_to f = []) (Hok : runGrant (PFlags f) env = o) (Hexit : exit_code o = 0) :
  exists signer session caps k nonce,
    loadHexKey (ge_key_file env) = Ok signer /\ ParseAddress (gf_session f) = Ok session /\
    ParseCapsLenient (gf_caps f) = Ok caps /\ ge_bearer env = Some k /\ ge_nonce env = Some nonce /\
    conn_key o = Some (key_text k) /\
    exists blob, grant_json o = Some blob /\
      EncodeChain [Sign signer (mint_fields session (ed_public signer) (ed_public k) caps (ge_now env)
                                  (gf_expires f) nonce)] = Ok blob.
Proof.
  subst o. revert Hexit. unfold runGrant, resolve_delegate. rewrite Hto.
  rewrite (bool_decide_eq_true_2 (@nil byte = [])) by done. cbn [negb].
  destruct (_ || _); [done|]. destruct (loadHexKey _) as [signer|]; [|done].
  destruct (ParseAddress _) as [session|]; [|done]. destruct (ParseCapsLenient _) as [caps|]; [|done].
  destruct (ge_bearer env) as [k|]; [|done]. destruct (ge_nonce env) as [nonce|]; [|done].
  unfold write_grant. destruct (EncodeChain _) as [blob|] eqn:Hb; [|done].
  destruct (ge_mkdir env); [|done]. destruct (ge_write_grant env); [|done].
  destruct (ge_write_key env); [|done]. cbn [negb exit_code]. intros _.
  exists signer, session, caps, k, nonce. split_and!; try done. by exists blob.
Qed.

(** ** The claim *)

(** Chain files round-trip: the blob EncodeChain writes decodes to
    exactly the chain, whatever bytes its contents and signatures hold. *)
Theorem chain_file_roundtrip (chain : list Delegation) :
  exists blob, EncodeChain chain = Ok blob /\ DecodeChain blob = Ok chain.
Proof. eexists. split; [reflexivity|]. by apply DecodeChain_EncodeChain. Qed.
