(* ===== verification/CertCmd.v ===== *)
(** * `mosey cert` and the certificate flags (src/cmd/mosey/cert.go,
      src/cmd/internal/certflags/certflags.go)

    Minting a master key, minting an agent's certificate and key, revoking a
    serial, and loading a certificate back into an authenticator.  The
    serialisation of api.Cert is an interface, [CertCodec]; files, identifiers,
    generated keys and the clock are inputs. *)

From S2P Require Import Prelude Identity GoStrings Base58 GoTime Delegation Cert Handshake AuthCert Hex Grants.

(** proto.Marshal and proto.Unmarshal of api.Cert. *)
Class CertCodec := {
  marshalCert : ApiCert -> option bytes;
  unmarshalCert : bytes -> option ApiCert;
}.

Class CertCodecLaws (C : CertCodec) := {
  unmarshalCert_marshal c b : marshalCert c = Some b -> unmarshalCert b = Some c;
}.

(** ** parseCaps *)

Fixpoint parse_cap_tokens (toks : list bytes) (bits : Z) : option Z :=
  match toks with
  | [] => Some bits
  | tok :: toks =>
      let t := TrimSpace tok in
      if bool_decide (t = str "owner") then parse_cap_tokens toks (Z.lor bits CapsBitOwner)
      else if bool_decide (t = str "write") then parse_cap_tokens toks (Z.lor bits CapsBitWrite)
      else if bool_decide (t = str "resize") then parse_cap_tokens toks (Z.lor bits CapsBitResize)
      else None
  end.

Definition parseCaps (s : bytes) : option Z :=
  if bool_decide (s = []) then None else parse_cap_tokens (Split s (str ",")) 0.

(** ** The subcommands *)

(** The text of a public key file. *)
Definition pub_text (pub : bytes) : bytes := hexEncode pub ++ [LF].

Record master_out := mkMasterOut { mm_exit : Z; mm_key : option bytes; mm_pub : option bytes }.

Section certcmd.
Context {E : Ed25519} {P : ProtoCodec} {C : CertCodec} {B : Bip39}.

(** [out]: the --out flag; [mkdir] and the two writes. *)
Definition cmdMintMaster (args : parsed bytes) (mkdir : bool) (write_k write_p : option KeyFileError) : master_out :=
  match args with
  | PHelp | PBad => mkMasterOut 2 None None
  | PFlags out =>
      if bool_decide (out = []) then mkMasterOut 2 None None
      else if negb mkdir then mkMasterOut 1 None None
      else match NewMasterMnemonic with
           | Err _ => mkMasterOut 1 None None
           | Ok (_, priv) =>
               match writeKeyMaterial priv write_k with
               | Err _ => mkMasterOut 1 None None
               | Ok text =>
                   match write_p with
                   | Some _ => mkMasterOut 1 (Some text) None
                   | None => mkMasterOut 0 (Some text) (Some (pub_text (MasterPublicKey priv)))
                   end
               end
           end
  end.

Record agent_flags := mkAgentFlags {
  af_master : bytes; af_workspace : bytes; af_agent_id : bytes; af_label : bytes; af_caps : bytes;
  af_valid_for : Z; af_out : bytes
}.

(** The master key file, two fresh ULIDs, the generated key pair, the clock,
    the directory and the two writes. *)
Record agent_env := mkAgentEnv {
  ae_master : res KeyFileError bytes; ae_id : bytes; ae_serial : bytes; ae_key : option bytes; ae_now : Z;
  ae_mkdir : bool; ae_write_cert : bool; ae_write_key : option KeyFileError
}.

Record agent_out := mkAgentOut { ao_exit : Z; ao_cert : option bytes; ao_key : option bytes }.

Definition agent_claim (f : agent_flags) (env : agent_env) (peerPriv : bytes) (caps : Z) : Claim :=
  mkClaim (if bool_decide (af_agent_id f = []) then ae_id env else af_agent_id f) (ed_public peerPriv) (af_label f) caps
    (ae_now env - Minute) (ae_now env + af_valid_for f) (ae_serial env) (af_workspace f).

Definition write_agent (env : agent_env) (c : ApiCert) (peerPriv : bytes) : agent_out :=
  if negb (ae_mkdir env) then mkAgentOut 1 None None
  else match marshalCert c with
       | None => mkAgentOut 1 None None
       | Some certBytes =>
           if negb (ae_write_cert env) then mkAgentOut 1 None None
           else match writeKeyMaterial peerPriv (ae_write_key env) with
                | Err _ => mkAgentOut 1 (Some certBytes) None
                | Ok text => mkAgentOut 0 (Some certBytes) (Some text)
                end
       end.

Definition cmdMintAgent (args : parsed agent_flags) (env : agent_env) : agent_out :=
  match args with
  | PHelp | PBad => mkAgentOut 2 None None
  | PFlags f =>
      if bool_decide (af_master f = []) || bool_decide (af_workspace f = []) || bool_decide (af_label f = []) ||
         bool_decide (af_out f = [])
      then mkAgentOut 2 None None
      else match loadKeyMaterial (ae_master env) with
           | Err _ => mkAgentOut 1 None None
           | Ok masterPriv =>
               match parseCaps (af_caps f) with
               | None => mkAgentOut 2 None None
               | Some caps =>
                   match ae_key env with
                   | None => mkAgentOut 1 None None
                   | Some peerPriv =>
                       match CertSign masterPriv (agent_claim f env peerPriv caps) with
                       | Err _ => mkAgentOut 1 None None
                       | Ok c => write_agent env c peerPriv
                       end
                   end
               end
           end
  end.

(** --revocation-file and --serial; the file before, and after. *)
Definition cmdRevoke (args : parsed (bytes * bytes)) (f : file) : Z * file :=
  match args with
  | PHelp | PBad => (2, f)
  | PFlags (path, serial) =>
      if bool_decide (path = []) || bool_decide (serial = []) then (2, f)
      else match AppendRevocation f serial with
           | Err _ => (1, f)
           | Ok f' => (0, f')
           end
  end.

(** Dispatch of `mosey cert`: the subcommand, or an exit code. *)
Inductive cert_sub := MintMaster | MintAgent | Revoke.

Definition runCert (args : list bytes) : res Z (cert_sub * list bytes) :=
  match args with
  | [] => Err 2
  | sub :: rest =>
      if bool_decide (sub = str "mint-master") then Ok (MintMaster, rest)
      else if bool_decide (sub = str "mint-agent") then Ok (MintAgent, rest)
      else if bool_decide (sub = str "revoke") then Ok (Revoke, rest)
      else if bool_decide (sub ∈ [str "-h"; str "--help"; str "help"]) then Err 0
      else Err 2
  end.

(** ** certflags *)

Record CertFlags := mkCertFlags {
  CertPath : bytes; KeyPath : bytes; MasterPubPath : bytes; CFWorkspaceID : bytes; RevocationPath : bytes
}.

Inductive CertFlagsError :=
| CFNotConfigured | CFRequired | CFReadCert | CFParseCert | CFKey (e : KeyFileError) | CFMasterPub (e : KeyFileError)
| CFRevocation (e : RevocationError) | CFAuth (e : CertAuthError).

Definition Configured (f : CertFlags) : bool :=
  negb (bool_decide (CertPath f = [])) || negb (bool_decide (KeyPath f = [])) ||
  negb (bool_decide (MasterPubPath f = [])).

(** The three files as read, the revocation file, the clock. *)
Definition Build (f : CertFlags) (read : bytes -> res KeyFileError bytes) (rev : file) (wall : Z)
    : res CertFlagsError CertAuth :=
  _ ← guard_ok (Configured f) CFNotConfigured;
  _ ← guard_ok (negb (bool_decide (CertPath f = []) || bool_decide (KeyPath f = []) ||
                      bool_decide (MasterPubPath f = []) || bool_decide (CFWorkspaceID f = []))) CFRequired;
  certBytes ← match read (CertPath f) with Err _ => Err CFReadCert | Ok b => Ok b end;
  c ← match unmarshalCert certBytes with None => Err CFParseCert | Some c => Ok c end;
  priv ← map_err CFKey (loadPrivateKey (read (KeyPath f)));
  pub ← map_err CFMasterPub (loadPublicKey (read (MasterPubPath f)));
  revoked ← (if negb (bool_decide (RevocationPath f = [])) then map_err CFRevocation (LoadRevocationFile rev)
             else Ok ∅);
  map_err CFAuth (NewCertAuth wall (mkCertAuthOptions (Some c) priv pub (CFWorkspaceID f) revoked)).
End certcmd.

(** ** Lemmas *)

Lemma parse_pub_text pub : len pub = 32 -> parse_key 32 (pub_text pub) = Ok pub.
Proof.
  intros Hl. unfold parse_key, pub_text. change LF with x0a. rewrite TrimSpace_line by apply hexEncode_graphic.
  rewrite hexDecode_Encode, Hl. done.
Qed.

(** What a successful mint-agent leaves behind. *)
Lemma mint_agent_files {E : Ed25519} {P : ProtoCodec} {C : CertCodec} f env o
  (Hok : cmdMintAgent (PFlags f) env = o) (Hexit : ao_exit o = 0) :
  exists master caps peer cert certBytes,
    loadKeyMaterial (ae_master env) = Ok master /\ parseCaps (af_caps f) = Some caps /\ ae_key env = Some peer /\
    len peer = PrivateKeySize /\
    CertSign master (agent_claim f env peer caps) = Ok cert /\ marshalCert cert = Some certBytes /\
    ao_cert o = Some certBytes /\ ao_key o = Some (key_text peer).
Proof.
  subst o. revert Hexit. unfold cmdMintAgent. destruct (_ || _); [done|].
  destruct (loadKeyMaterial _) as [master|]; [|done]. destruct (parseCaps _) as [caps|]; [|done].
  destruct (ae_key env) as [peer|]; [|done]. destruct (CertSign _ _) as [cert|] eqn:Hs; [|done].
  unfold write_agent. destruct (ae_mkdir env); [|done]. destruct (marshalCert cert) as [cb|] eqn:Hm; [|done].
  destruct (ae_write_cert env); [|done]. cbn [negb].
  destruct (writeKeyMaterial peer (ae_write_key env)) as [text|] eqn:Hw; [|done]. intros _.
  unfold writeKeyMaterial in Hw. destruct (len peer =? 64) eqn:Hl; [|done]. cbn [negb] in Hw. go_bool.
  destruct (ae_write_key env); [done|]. injection Hw as <-.
  exists master, caps, peer, cert, cb. split_and!; done.
Qed.

(** An agent's files, its workspace's public key and an up-to-date list of
    revocations that does not name it, as the flags load them. *)
Record enrolled {E : Ed25519} (master : bytes) (f : agent_flags) (env : agent_env) (o : agent_out)
    (flags : CertFlags) (read : bytes -> res KeyFileError bytes) (rev : file) (revoked : gset bytes) : Prop := mk_enrolled {
  en_master : loadKeyMaterial (ae_master env) = Ok master;
  en_paths : CertPath flags <> [] /\ KeyPath flags <> [] /\ MasterPubPath flags <> [] /\ CFWorkspaceID flags <> [];
  en_workspace : CFWorkspaceID flags = af_workspace f;
  en_cert : forall b, ao_cert o = Some b -> read (CertPath flags) = Ok b;
  en_key : forall b, ao_key o = Some b -> read (KeyPath flags) = Ok b;
  en_pub : read (MasterPubPath flags) = Ok (pub_text (ed_public master));
  en_rev : (if bool_decide (RevocationPath flags = []) then revoked = ∅ else LoadRevocationFile rev = Ok revoked);
}.

Lemma enrolled_builds {E : Ed25519} {EL : Ed25519Laws E} {P : ProtoCodec} {PL : ProtoLaws P} {C : CertCodec} {CL : CertCodecLaws C}
  master f env o flags read rev revoked wall :
  cmdMintAgent (PFlags f) env = o -> ao_exit o = 0 -> enrolled master f env o flags read rev revoked ->
  ae_now env - Minute <= wall <= ae_now env + af_valid_for f -> ae_serial env ∉ revoked ->
  exists peer caps cert, ae_key env = Some peer /\ parseCaps (af_caps f) = Some caps /\
    CertSign master (agent_claim f env peer caps) = Ok cert /\
    Build flags read rev wall = Ok (mkCertAuth cert peer (ed_public master) (af_workspace f) revoked).
Proof.
  intros Ho Hx [Hm (H1 & H2 & H3 & H4) Hws Hc Hk Hp Hr] Ht Hs.
  destruct (mint_agent_files f env o Ho Hx) as (master' & caps & peer & cert & cb & Em & Hcaps & Hpeer & Hl & Hsign & Hcb & Hoc & Hok).
  assert (master' = master) as -> by congruence. exists peer, caps, cert. split_and!; try done.
  unfold Build, Configured.
  rewrite (bool_decide_eq_false_2 (CertPath flags = [])), (bool_decide_eq_false_2 (KeyPath flags = [])),
    (bool_decide_eq_false_2 (MasterPubPath flags = [])), (bool_decide_eq_false_2 (CFWorkspaceID flags = [])) by done.
  cbn [negb orb guard_ok mbind res_bind].
  rewrite (Hc _ Hoc). cbn [mbind res_bind]. rewrite (unmarshalCert_marshal _ _ Hcb). cbn [mbind res_bind].
  rewrite (Hk _ Hok). unfold loadPrivateKey. cbn [mbind res_bind]. rewrite parse_key_text by exact Hl. cbn [map_err mbind res_bind].
  rewrite Hp. unfold loadPublicKey. cbn [mbind res_bind]. rewrite parse_pub_text by apply ed_public_size.
  cbn [map_err mbind res_bind].
  assert ((if negb (bool_decide (RevocationPath flags = [])) then map_err CFRevocation (LoadRevocationFile rev) else Ok ∅) =
    Ok revoked) as ->.
  { case_bool_decide; cbn [negb]; [by subst|]. by rewrite Hr. }
  cbn [mbind res_bind]. unfold NewCertAuth. cbn [LocalCert LocalPriv OMasterPub OWorkspaceID ORevoked].
  rewrite Hl, ed_public_size, bool_decide_eq_false_2 by done.
  change (PrivateKeySize =? PrivateKeySize) with true. change (PublicKeySize =? PublicKeySize) with true.
  cbn [guard_ok negb mbind res_bind].
  rewrite (signed_cert_verifies master (agent_claim f env peer caps) cert wall _ Hsign);
    [|done|constructor; simpl; [done|right; by rewrite Hws|done|apply ed_public_size]].
  cbn [map_err mbind res_bind]. unfold pubKeyMatches. rewrite Hl, bool_decide_eq_true_2 by done.
  change (PrivateKeySize =? PrivateKeySize) with true. cbn. by rewrite Hws.
Qed.

(** ** The claim *)

(** C35: enrolled agents authenticate each other.  Take two successful
    `mosey cert mint-agent` runs under the same master key and workspace.
    Loading each agent's files with the certificate flags succeeds while the
    certificates are valid and unrevoked, and the two authenticators then
    complete the certificate handshake, each side learning the other's label
    and exactly the capabilities of its --caps. *)
Theorem enrolled_agents_authenticate {E : Ed25519} {EL : Ed25519Laws E} {P : ProtoCodec} {PL : ProtoLaws P}
  {C : CertCodec} {CL : CertCodecLaws C}
  master f1 env1 o1 flags1 read1 rev1 revoked1 f2 env2 o2 flags2 read2 rev2 revoked2 wall nonceC nonceS
  (Hm1 : cmdMintAgent (PFlags f1) env1 = o1) (Hx1 : ao_exit o1 = 0)
  (Hm2 : cmdMintAgent (PFlags f2) env2 = o2) (Hx2 : ao_exit o2 = 0)
  (He1 : enrolled master f1 env1 o1 flags1 read1 rev1 revoked1)
  (He2 : enrolled master f2 env2 o2 flags2 read2 rev2 revoked2)
  (Hws : af_workspace f1 = af_workspace f2)
  (Ht1 : ae_now env1 - Minute <= wall <= ae_now env1 + af_valid_for f1)
  (Ht2 : ae_now env2 - Minute <= wall <= ae_now env2 + af_valid_for f2)
  (Hr1 : ae_serial env1 ∉ revoked1 ∪ revoked2) (Hr2 : ae_serial env2 ∉ revoked1 ∪ revoked2)
  (HnC : len nonceC = certNonceSize) (HnS : len nonceS = certNonceSize) :
  exists c s claim1 claim2,
    Build flags1 read1 rev1 wall = Ok c /\ Build flags2 read2 rev2 wall = Ok s /\
    parseCaps (af_caps f1) = Some (CapsBits claim1) /\ CLabel claim1 = af_label f1 /\
    parseCaps (af_caps f2) = Some (CapsBits claim2) /\ CLabel claim2 = af_label f2 /\
    duet (CertClientHandshake c wall (Some nonceC)) (CertServerHandshake s wall (Some nonceS)) =
      Some (Ok (claimToIdentity claim2), Ok (claimToIdentity claim1)).
Proof.
  destruct (enrolled_builds master f1 env1 o1 flags1 read1 rev1 revoked1 wall Hm1 Hx1 He1 Ht1)
    as (p1 & c1 & cert1 & _ & Hc1 & Hs1 & Hb1); [set_solver|].
  destruct (enrolled_builds master f2 env2 o2 flags2 read2 rev2 revoked2 wall Hm2 Hx2 He2 Ht2)
    as (p2 & c2 & cert2 & _ & Hc2 & Hs2 & Hb2); [set_solver|].
  eexists _, _, (agent_claim f1 env1 p1 c1), (agent_claim f2 env2 p2 c2).
  split; [exact Hb1|]. split; [exact Hb2|]. split_and!; try done.
  apply cert_duet; try done; constructor; try done; cbn [localCert masterPub workspaceID revoked].
  - apply (signed_cert_verifies master); [done|done|].
    constructor; simpl; [done|by right|set_solver|apply ed_public_size].
  - apply (signed_cert_verifies master); [done|done|].
    constructor; simpl; [done|by right|set_solver|apply ed_public_size].
Qed.

(** ** An agent, minted and loaded *)

(** A serialisation for the witness: the content, then a 64-byte signature. *)
Definition tail_codec : CertCodec := {|
  marshalCert c := if (length (CSignature c) =? 64)%nat then Some (CContent c ++ CSignature c) else None;
  unmarshalCert b := Some (mkCert (take (length b - 64) b) (drop (length b - 64) b));
|}.
#[local] Existing Instance tail_codec.

#[local] Instance tail_codec_laws : CertCodecLaws tail_codec.
Proof.
  constructor. intros [ct sg] b. simpl. destruct (length sg =? 64)%nat eqn:El; [|done]. intros [= <-].
  apply Nat.eqb_eq in El. rewrite length_app, El, Nat.add_sub. by rewrite take_app_length, drop_app_length.
Qed.

Definition demo_master : bytes := key_of x06 ++ key_of x06.
Definition demo_agent : agent_flags :=
  mkAgentFlags (str "master.key") (str "ws") (str "agent") (str "laptop") (str "owner, write") (t1 - t0 - Minute) (str "out").
Definition demo_agent_env : agent_env :=
  mkAgentEnv (Ok (key_text demo_master)) (str "unused") (str "s1") (Some (key_of x07 ++ key_of x07)) (t0 + Minute)
    true true None.
Definition demo_agent_out : agent_out := cmdMintAgent (PFlags demo_agent) demo_agent_env.
Definition demo_cert_flags : CertFlags :=
  mkCertFlags (str "laptop.cert") (str "laptop.key") (str "master.pub") (str "ws") [].
Definition demo_read (p : bytes) : res KeyFileError bytes :=
  if bool_decide (p = str "laptop.cert") then Ok (default [] (ao_cert demo_agent_out))
  else if bool_decide (p = str "laptop.key") then Ok (default [] (ao_key demo_agent_out))
  else Ok (pub_text (ed_public demo_master)).

Lemma demo_enrolled :
  enrolled demo_master demo_agent demo_agent_env demo_agent_out demo_cert_flags demo_read Missing ∅.
Proof.
  constructor.
  - vm_compute. reflexivity.
  - split_and!; discriminate.
  - reflexivity.
  - intros b Hb. unfold demo_read. rewrite bool_decide_eq_true_2 by reflexivity. rewrite Hb. reflexivity.
  - intros b Hb. unfold demo_read. rewrite bool_decide_eq_false_2 by discriminate.
    rewrite bool_decide_eq_true_2 by reflexivity. rewrite Hb. reflexivity.
  - unfold demo_read. rewrite bool_decide_eq_false_2 by discriminate.
    rewrite bool_decide_eq_false_2 by discriminate. reflexivity.
  - reflexivity.
Qed.

Lemma enrolled_agents_authenticate_witness :
  ao_exit demo_agent_out = 0 /\
  exists c s i j, Build demo_cert_flags demo_read Missing (t0 + 5) = Ok c /\
    Build demo_cert_flags demo_read Missing (t0 + 5) = Ok s /\
    duet (CertClientHandshake c (t0 + 5) (Some (replicate 32 x01)))
         (CertServerHandshake s (t0 + 5) (Some (replicate 32 x02))) = Some (Ok i, Ok j).
Proof.
  assert (ao_exit demo_agent_out = 0) as Hx by (vm_compute; reflexivity). split; [exact Hx|].
  destruct (enrolled_agents_authenticate demo_master demo_agent demo_agent_env demo_agent_out demo_cert_flags demo_read
    Missing ∅ demo_agent demo_agent_env demo_agent_out demo_cert_flags demo_read Missing ∅ (t0 + 5)
    (replicate 32 x01) (replicate 32 x02)) as (c & s & k1 & k2 & Hc & Hs & _ & _ & _ & _ & Hd).
  - reflexivity.
  - exact Hx.
  - reflexivity.
  - exact Hx.
  - exact demo_enrolled.
  - exact demo_enrolled.
  - reflexivity.
  - vm_compute. split; discriminate.
  - vm_compute. split; discriminate.
  - intros H. apply elem_of_union in H as [H|H]; exact (not_elem_of_empty _ H).
  - intros H. apply elem_of_union in H as [H|H]; exact (not_elem_of_empty _ H).
  - reflexivity.
  - reflexivity.
  - exists c, s, (claimToIdentity k2), (claimToIdentity k1). split; [exact Hc|]. split; [exact Hs|exact Hd].
Defined.
