(* ===== verification/WalletFlags.v ===== *)
(** * The wallet flags of the commands (src/cmd/internal/walletflags/walletflags.go)

    How `mosey launch` and `mosey attach` turn their wallet flags into a
    server-side or client-side authenticator: the session key and its managed
    path, the in-memory stub or the Solana source, the chain file and the
    connection key.  Files, randomness, the clock and the RPC answers are
    inputs.  With Grants.v this closes the loop from `mosey grant` to an
    admitted client. *)

From S2P Require Import Prelude Solana.
From S2P Require Import Identity GoStrings WalletCaps Base58 GoTime Delegation Fold Cert Handshake AuthWallet Hex GoPath Grants.

Record ServerFlags := mkServerFlags {
  SessionKeyPath : bytes; SessionName : bytes;
  Program : bytes; RPC : bytes; MaxStaleness : Z; Commitment : bytes;
  DevOwner : bytes; DevGrants : list bytes
}.

Record ClientFlags := mkClientFlags { ConnKeyPath : bytes; GrantPath : bytes; Session : bytes }.

Inductive FlagsError :=
| HomeUnknown | InvalidName (name : bytes) | OnlyOneKey | KeyRequired
| SessionKeyFile (e : KeyFileError) | NoSource | BadOwner (e : Base58Error)
| NotAddressCaps (s : bytes) | BadGrantAddress (e : Base58Error) | BadGrantCaps (e : CapsError)
| RPCRequired | BadSource (e : Solana.SolError) | InitialSnapshot (e : Solana.SolError)
| GrantRequired | GrantRead | GrantDecode (e : ChainError)
| ConnKeyFile (e : KeyFileError) | ConnKeyGenerate | BadSession (e : Base58Error)
| AuthFailed (e : WAuthError).

(** [home]: what os.UserHomeDir returns. *)
Definition DefaultSessionDir (home : option bytes) : res FlagsError bytes :=
  match home with
  | None => Err HomeUnknown
  | Some h => Ok (path_Join [h; str ".mosey"; str "sessions"])
  end.

Definition key_name (name : bytes) : bytes := name ++ str ".key".

Definition KeyPathForName (home : option bytes) (name : bytes) : res FlagsError bytes :=
  if bool_decide (name = []) || bool_decide (name = DOT) || bool_decide (name = DOTDOT) ||
     existsb (fun c => bool_decide (c = x2f) || bool_decide (c = x5c)) name
  then Err (InvalidName name)
  else dir ← DefaultSessionDir home; Ok (path_Join [dir; key_name name]).

Definition Server_Configured (f : ServerFlags) : bool :=
  negb (bool_decide (SessionKeyPath f = [])) || negb (bool_decide (SessionName f = [])).

Definition keyPath (home : option bytes) (f : ServerFlags) : res FlagsError bytes :=
  if negb (bool_decide (SessionKeyPath f = [])) then
    if negb (bool_decide (SessionName f = [])) then Err OnlyOneKey else Ok (SessionKeyPath f)
  else if negb (bool_decide (SessionName f = [])) then KeyPathForName home (SessionName f)
  else Err KeyRequired.

(** The file system and the generator as the commands see them: reading a
    path, a generated key, the outcome of writing a new key file. *)
Record keyenv := mkKeyEnv {
  read_file : bytes -> res KeyFileError bytes; gen_key : option bytes; write_key : option KeyFileError
}.

Definition load_key (env : keyenv) (path : bytes) : res KeyFileError bytes :=
  '(k, _) ← loadOrCreateKey (read_file env path) (gen_key env) (write_key env); Ok k.

Definition parseGrant (s : bytes) : res FlagsError (bytes * WCaps) :=
  let '(addr, capsStr, ok) := Cut s (str "=") in
  if negb ok then Err (NotAddressCaps s)
  else
    pub ← map_err BadGrantAddress (ParseAddress addr);
    caps ← map_err BadGrantCaps (ParseCapsLenient capsStr);
    Ok (pub, caps).

Fixpoint add_grants (snap : MemSnapshot) (gs : list bytes) : res FlagsError MemSnapshot :=
  match gs with
  | [] => Ok snap
  | g :: gs => '(addr, caps) ← parseGrant g; add_grants (WithGrant snap addr caps) gs
  end.

Section flags.
Context {E : Ed25519}.

Definition SessionPublic (home : option bytes) (env : keyenv) (f : ServerFlags) : res FlagsError bytes :=
  path ← keyPath home f;
  key ← map_err SessionKeyFile (load_key env path);
  Ok (ed_public key).

(** The chain's side of Build: the first refresh, and what a later reading of
    the source would see. *)
Record chain_env := mkChainEnv { ce_first : Solana.attempt; ce_now : Z; ce_lookup : Solana.attempt }.

Definition buildChain (now : Z) (ce : chain_env) (key : bytes) (f : ServerFlags) : res FlagsError WalletAuth :=
  _ ← guard_ok (negb (bool_decide (RPC f = []))) RPCRequired;
  src ← map_err BadSource (Solana.New (Solana.mkOptions (RPC f) [] (Program f) (ed_public key) (MaxStaleness f) 0
                                          (Commitment f) false false));
  match Solana.refresh src (ce_first ce) with
  | (_, Some e) => Err (InitialSnapshot e)
  | (src, None) =>
      map_err AuthFailed (NewWalletServerAuth now
        (mkServerOptions key (Some (Solana.solana_source src (ce_now ce) (ce_lookup ce))) fzero 0))
  end.

Definition Server_Build (home : option bytes) (env : keyenv) (now : Z) (ce : chain_env) (f : ServerFlags)
    : res FlagsError WalletAuth :=
  path ← keyPath home f;
  key ← map_err SessionKeyFile (load_key env path);
  if negb (bool_decide (Program f = [])) then buildChain now ce key f
  else
    _ ← guard_ok (negb (bool_decide (DevOwner f = []))) NoSource;
    owner ← map_err BadOwner (ParseAddress (DevOwner f));
    snap ← add_grants (NewMemSnapshot owner) (DevGrants f);
    map_err AuthFailed (NewWalletServerAuth now (mkServerOptions key (Some (MemSource snap)) fzero 0)).

Definition Client_Configured (f : ClientFlags) : bool :=
  negb (bool_decide (GrantPath f = [])) || negb (bool_decide (ConnKeyPath f = [])).

(** [fresh]: the key generated when no --wallet-conn-key is given. *)
Definition Client_Build (env : keyenv) (fresh : option bytes) (f : ClientFlags) : res FlagsError WalletAuth :=
  _ ← guard_ok (negb (bool_decide (GrantPath f = []))) GrantRequired;
  blob ← match read_file env (GrantPath f) with Err _ => Err GrantRead | Ok b => Ok b end;
  chain ← map_err GrantDecode (DecodeChain blob);
  connKey ← (if negb (bool_decide (ConnKeyPath f = [])) then map_err ConnKeyFile (load_key env (ConnKeyPath f))
             else match fresh with None => Err ConnKeyGenerate | Some k => Ok k end);
  expect ← (if negb (bool_decide (Session f = []))
            then b ← map_err BadSession (ParseAddress (Session f)); Ok (Some b) else Ok None);
  map_err AuthFailed (NewWalletClientAuth connKey chain expect).
End flags.

(** ** Lemmas *)

(** Loading, or creating, a key twice gives the same key. *)
Lemma loadOrCreateKey_again file gen wr k text :
  (forall g, gen = Some g -> len g = 64) ->
  loadOrCreateKey file gen wr = Ok (k, text) ->
  parse_key 64 text = Ok k.
Proof.
  intros Hg. unfold loadOrCreateKey. destruct file as [raw|e].
  - intros (k' & Hk & [= -> ->])%bind_ok. done.
  - destruct e; try done. destruct gen as [g|]; [|done]. destruct wr; [done|]. intros [= -> <-].
    apply parse_key_text. by apply Hg.
Qed.

Lemma client_of_files {E : Ed25519} env fresh f chain blob k text session :
  GrantPath f <> [] -> ConnKeyPath f <> [] -> Session f <> [] ->
  read_file env (GrantPath f) = Ok blob -> DecodeChain blob = Ok chain -> chain <> [] ->
  read_file env (ConnKeyPath f) = Ok text -> parse_key 64 text = Ok k -> len k = 64 ->
  ParseAddress (Session f) = Ok session ->
  Client_Build env fresh f =
    Ok (mkWallet None [] None None (Some k) (ed_public k) chain (Some session)).
Proof.
  intros Hg Hc Hs Hblob Hd Hne Htext Hk Hl Hsess. unfold Client_Build, load_key.
  rewrite !bool_decide_eq_false_2 by done. cbn [negb guard_ok mbind res_bind].
  rewrite Hblob. cbn [mbind res_bind]. rewrite Hd. cbn [map_err mbind res_bind].
  rewrite Htext. cbn [loadOrCreateKey]. rewrite Hk. cbn [map_err mbind res_bind]. rewrite Hsess. cbn [map_err mbind res_bind].
  unfold NewWalletClientAuth. rewrite Hl. change (64 =? PrivateKeySize) with true. cbn [guard_ok mbind res_bind].
  assert ((len chain =? 0) = false) as ->. { apply Z.eqb_neq. by rewrite len_0. }
  done.
Qed.

Lemma Fold_signed {E : Ed25519} {EL : Ed25519Laws E} signer session delegate caps now ttl nonce snap held o later :
  let f := mint_fields session (ed_public signer) delegate caps now ttl nonce in
  fields_ok f -> root_authority snap (ed_public signer) held o -> Subset caps held = true ->
  TruncateSecond (now - Minute) <= later <= TruncateSecond (now + ttl) ->
  Fold [Sign signer f] delegate session snap later = Ok (caps, o) /\
  chainRoot [Sign signer f] = Ok (ed_public signer).
Proof.
  intros f Hf Hr Hsub Ht. pose proof (Sign_verifies signer f Hf eq_refl) as Hv. split.
  - apply Fold_iff. split; [done|]. exists (ed_public signer), held. split; [done|].
    exact (delegated_leaf session later (ed_public signer) held _ (truncated f)
      (mk_hop _ _ _ _ _ Hv eq_refl Ht eq_refl) Hsub).
  - unfold chainRoot, DFields, Sign. cbn [Content]. by rewrite ParseContent_Render.
Qed.

Lemma ContainsAny_sep name :
  existsb (fun c => bool_decide (c = x2f) || bool_decide (c = x5c)) name = false -> SEP ∉ name.
Proof.
  intros Hn Hin. assert (existsb (fun c => bool_decide (c = x2f) || bool_decide (c = x5c)) name = true) as Hx.
  { apply existsb_exists. exists SEP. split; [by apply list_elem_of_In|done]. }
  congruence.
Qed.

Lemma suffix_ne (name suf c : bytes) : (length c < length name + length suf)%nat -> name ++ suf <> c.
Proof. intros Hl Hx%(f_equal length). rewrite length_app in Hx. lia. Qed.

(** The session directory is a cleaned path with at least one element. *)
Lemma session_dir_shape h : exists rooted comps,
  path_Join [h; str ".mosey"; str "sessions"] = render_path rooted comps /\
  comps <> [] /\ cleaned rooted (reverse comps).
Proof.
  assert (forall q, exists rooted comps, Clean (q ++ [SEP] ++ str "sessions") = render_path rooted comps /\
    comps <> [] /\ cleaned rooted (reverse comps)) as Hq.
  { intros q. eexists _, _. split; [reflexivity|]. split.
    - cbn [app]. rewrite Split_app, (Split_piece SEP (str "sessions")) by (apply (bool_decide_unpack _); done).
      rewrite clean_go_plain; [by destruct (clean_go _ _ _)|]. split_and!; try done.
      apply (bool_decide_unpack _). done.
    - apply clean_go_cleaned; [constructor|]. apply split_go_no_sep. set_solver. }
  cbn [path_Join]. case_bool_decide as Hh.
  - rewrite bool_decide_eq_false_2 by done. exact (Hq (str ".mosey")).
  - rewrite Join_cons by done. rewrite (Join_cons (str ".mosey")) by done. cbn [Join].
    rewrite !app_assoc. rewrite <- (app_assoc _ [SEP] (str "sessions")). apply Hq.
Qed.

Lemma render_path_nonempty rooted comps :
  comps <> [] -> cleaned rooted (reverse comps) -> render_path rooted comps <> [].
Proof.
  intros Hne Hcl. destruct comps as [|c [|d l]]; [done|..]; unfold render_path; destruct rooted; cbn [app Join]; try done.
  - rewrite reverse_singleton in Hcl. inversion Hcl as [|? ? ?|? ? (? & _)]; done.
  - by destruct c.
Qed.

Lemma KeyPathForName_shape home name path : KeyPathForName home name = Ok path ->
  (SEP ∉ name) /\ exists dir, DefaultSessionDir home = Ok dir /\ path = dir ++ [SEP] ++ key_name name.
Proof.
  unfold KeyPathForName. destruct (_ || existsb _ _) eqn:Hn; [done|]. apply orb_false_iff in Hn as [_ Hany].
  apply ContainsAny_sep in Hany as Hsep.
  intros (dir & Hdir & [= <-])%bind_ok. split; [done|].
  exists dir. split; [done|]. unfold DefaultSessionDir in Hdir. destruct home as [h|]; [|done].
  assert (dir = path_Join [h; str ".mosey"; str "sessions"]) as -> by congruence.
  assert (plain_elem (key_name name)) as Hp.
  { unfold key_name. split_and!; try (apply suffix_ne; simpl; lia).
    rewrite elem_of_app. intros [?|Hx]; [done|]. revert Hx. apply (bool_decide_unpack _). done. }
  destruct (session_dir_shape h) as (rooted & comps & -> & Hne & Hcl).
  pose proof (render_path_nonempty rooted comps Hne Hcl) as Hrne.
  cbn [path_Join]. rewrite bool_decide_eq_false_2 by done. cbn [Join]. by apply Clean_plain_elem.
Qed.

(** ** The claims *)

(** A session name never leaves the key directory: whenever KeyPathForName
    accepts a name, the path is the session directory, a separator, the name
    itself and ".key"; two names share a path only if they are equal. *)
Theorem session_key_path_confined home name path
  (Hok : KeyPathForName home name = Ok path) :
  (SEP ∉ name) /\
  (exists dir, DefaultSessionDir home = Ok dir /\ path = dir ++ [SEP] ++ key_name name) /\
  forall name', KeyPathForName home name' = Ok path -> name' = name.
Proof.
  pose proof (KeyPathForName_shape _ _ _ Hok) as [Hsep (dir & Hdir & Hpath)]. split_and!; [done|by exists dir|].
  intros name' Hok'. apply KeyPathForName_shape in Hok' as [_ (dir' & Hdir' & Hpath')].
  rewrite Hdir in Hdir'. injection Hdir' as <-. rewrite Hpath in Hpath'.
  unfold key_name in Hpath'. apply app_inv_head, app_inv_head, app_inv_tail in Hpath'. done.
Qed.

Lemma session_key_path_confined_witness :
  KeyPathForName (Some (str "/home/ann/")) (str "work") = Ok (str "/home/ann/.mosey/sessions/work.key") /\
  (SEP ∉ str "work").
Proof.
  assert (KeyPathForName (Some (str "/home/ann/")) (str "work") = Ok (str "/home/ann/.mosey/sessions/work.key")) as H
    by (vm_compute; reflexivity).
  split; [exact H|]. exact (proj1 (session_key_path_confined _ _ _ H)).
Defined.

(** C36: a bearer grant opens the door.  Take any successful `mosey grant`
    without --to, and give its two files to `mosey attach` with the session it
    named.  Then attach builds its authenticator, and against a server of that
    session whose fresh snapshot gives the signer at least those capabilities,
    at any time inside the grant's window, the wallet handshake completes on
    both sides and the server sees the signer's address with exactly the
    capabilities the grant's --caps named. *)
Theorem bearer_grant_admits {E : Ed25519} {EL : Ed25519Laws E}
  gf genv out signer caps k nonce env fresh cf sessionKey src rate burst now0 srv snap held o now nonceC nonceS
  (Hgrant : runGrant (PFlags gf) genv = out) (Hexit : exit_code out = 0) (Hto : gf_to gf = [])
  (Hsigner : loadHexKey (ge_key_file genv) = Ok signer) (Hcaps : ParseCapsLenient (gf_caps gf) = Ok caps)
  (Hbearer : ge_bearer genv = Some k) (Hk : len k = PrivateKeySize)
  (Hnonce : ge_nonce genv = Some nonce) (Hn : len nonce = nonceSize)
  (Hnb : four_digit_year (ge_now genv - Minute)) (Hna : four_digit_year (ge_now genv + gf_expires gf))
  (Hgp : GrantPath cf <> []) (Hkp : ConnKeyPath cf <> []) (Hse : Session cf = gf_session gf)
  (Hrg : forall b, grant_json out = Some b -> read_file env (GrantPath cf) = Ok b)
  (Hrk : forall b, conn_key out = Some b -> read_file env (ConnKeyPath cf) = Ok b)
  (Hsession : ParseAddress (gf_session gf) = Ok (ed_public sessionKey))
  (Hsrv : NewWalletServerAuth now0 (mkServerOptions sessionKey (Some src) rate burst) = Ok srv)
  (Hsnap : SnapshotNow src = Ok (snap, true)) (Hauth : root_authority snap (ed_public signer) held o)
  (Hsub : Subset caps held = true)
  (Hlive : TruncateSecond (ge_now genv - Minute) <= now 0%nat <= TruncateSecond (ge_now genv + gf_expires gf))
  (HnC : len nonceC = walletNonceSize) (HnS : len nonceS = walletNonceSize) :
  exists client i,
    Client_Build env fresh cf = Ok client /\
    duet (WalletClientHandshake client (Some nonceC)) (WalletServerHandshake srv now (Some nonceS)) =
      Some (Ok i, (verifyLimiter srv, Ok (wallet_identity caps o (ed_public signer)))) /\
    Label i = str "wallet:" ++ Address (ed_public sessionKey).
Proof.
  destruct (bearer_grant_files gf genv out Hto Hgrant Hexit)
    as (signer' & session & caps' & k' & nonce' & E1 & E2 & E3 & E4 & E5 & Hck & blob & Hgj & Henc).
  rewrite Hsigner in E1. rewrite Hsession in E2. rewrite Hcaps in E3. rewrite Hbearer in E4. rewrite Hnonce in E5.
  injection E1 as <-. injection E2 as <-. injection E3 as <-. injection E4 as <-. injection E5 as <-.
  set (chain := [Sign signer _]) in *. apply DecodeChain_EncodeChain in Henc as Hdec.
  assert (gf_session gf <> []) as Hsne by (intros Hx; rewrite Hx in Hsession; vm_compute in Hsession; discriminate).
  exists (mkWallet None [] None None (Some k) (ed_public k) chain (Some (ed_public sessionKey))).
  destruct (Fold_signed signer (ed_public sessionKey) (ed_public k) caps (ge_now genv) (gf_expires gf) nonce snap held o (now 0%nat))
    as [Hfold Hroot]; [|done|done|done|].
  { apply mint_ok; try done; try apply ed_public_size. by eapply ParseCapsLenient_small. }
  assert (srv = mkWallet (Some sessionKey) (ed_public sessionKey) (Some src) (verifyLimiter srv) None [] [] None) as ->.
  { revert Hsrv. unfold NewWalletServerAuth. intros (? & _ & (? & _ & [= <-])%bind_ok)%bind_ok. done. }
  destruct (wallet_duet k chain (Some (ed_public sessionKey)) sessionKey src snap (verifyLimiter srv) now nonceC nonceS
    caps o (ed_public signer)) as (i & Hd & Hl); try done; [by right|].
  exists i. split_and!; [|exact Hd|done].
  eapply client_of_files; try done; eauto.
  - by rewrite Hse.
  - by apply parse_key_text.
  - by rewrite Hse.
Qed.

(** ** A bearer grant, end to end *)

Definition demo_flags : grant_flags := mkGrantFlags (str "signer.key") (Address (key_of x05)) (str "write") Hour [].
Definition demo_env : grant_env :=
  mkGrantEnv (Ok (key_text (replicate 64 x06))) (Some (replicate 64 x0c)) (Some (replicate 16 x01)) t0 true true true.
Definition demo_out : grant_out := runGrant (PFlags demo_flags) demo_env.
Definition demo_client : ClientFlags := mkClientFlags (str "conn.key") (str "grant.json") (Address (key_of x05)).
Definition demo_files : keyenv :=
  mkKeyEnv (fun p => match (if bool_decide (p = str "conn.key") then conn_key demo_out else grant_json demo_out) with
                     | Some b => Ok b | None => Err KNotExist end) None None.

Lemma bearer_grant_admits_witness :
  exit_code demo_out = 0 /\
  exists client i srv,
    Client_Build demo_files None demo_client = Ok client /\
    duet (WalletClientHandshake client (Some (replicate 32 x01)))
         (WalletServerHandshake srv (fun _ => t0 + 1) (Some (replicate 32 x02))) =
      Some (Ok i, (verifyLimiter srv, Ok (wallet_identity 1 false (key_of x06)))).
Proof.
  assert (exit_code demo_out = 0) as Hx by (vm_compute; reflexivity). split; [exact Hx|].
  destruct (NewWalletServerAuth t0 (mkServerOptions (replicate 64 x05)
    (Some (mkSource (Ok (snap1, true)) (fun _ => Ok None))) fzero 0)) as [srv|e] eqn:Hsrv; [|not_err Hsrv].
  destruct (bearer_grant_admits demo_flags demo_env demo_out (replicate 64 x06) 1 (replicate 64 x0c) (replicate 16 x01)
    demo_files None demo_client (replicate 64 x05) (mkSource (Ok (snap1, true)) (fun _ => Ok None)) fzero 0 t0 srv snap1 7 false
    (fun _ => t0 + 1) (replicate 32 x01) (replicate 32 x02)) as (client & i & Hc & Hd & _).
  - reflexivity.
  - exact Hx.
  - reflexivity.
  - vm_compute; reflexivity.
  - vm_compute; reflexivity.
  - reflexivity.
  - reflexivity.
  - reflexivity.
  - reflexivity.
  - vm_compute. split; discriminate.
  - vm_compute. split; discriminate.
  - discriminate.
  - discriminate.
  - reflexivity.
  - intros b Hb. unfold demo_files. cbn [read_file]. rewrite bool_decide_eq_false_2 by (vm_compute; discriminate).
    rewrite Hb. reflexivity.
  - intros b Hb. unfold demo_files. cbn [read_file]. rewrite bool_decide_eq_true_2 by reflexivity.
    rewrite Hb. reflexivity.
  - vm_compute; reflexivity.
  - exact Hsrv.
  - reflexivity.
  - right. split; [vm_compute; discriminate|]. split; vm_compute; reflexivity.
  - reflexivity.
  - vm_compute. split; discriminate.
  - reflexivity.
  - reflexivity.
  - exists client, i, srv. split; [exact Hc|exact Hd].
Defined.
