(* ===== verification/SessionCmd.v ===== *)
(** * `mosey session`: the on-chain commands (src/cmd/mosey/session.go)

    The four subcommands from parsed flags to exit code and printed text: the
    owner's keypair file, the session's identity by key file, managed name or
    address, the source they build and the transaction they submit.  Files,
    the clock and the Solana node are inputs.  The claims say what a command
    does to the ledger: the transaction it sends lands with the effect its
    name promises, and the next refresh of any server shows it. *)

From S2P Require Import Prelude Solana SolanaTx SolanaWire Ledger Landing.
From S2P Require Import GoStrings WalletCaps Base58 Base64 GoTime Delegation Fold Hex Json Grants WalletFlags.

(** ** Configuration *)

Record onchainConfig := mkOnchain {
  c_keypair : bytes; c_sessionKey : bytes; c_sessionName : bytes; c_session : bytes; c_rpc : bytes; c_program : bytes
}.

Definition envOr (getenv : bytes -> bytes) (k def : bytes) : bytes :=
  if negb (bool_decide (getenv k = [])) then getenv k else def.

(** The configuration when no flag is given. *)
Definition register_flags (getenv : bytes -> bytes) : onchainConfig :=
  mkOnchain (getenv (str "SOLANA_KEYPAIR")) [] [] []
    (envOr getenv (str "SOLANA_RPC_URL") (str "https://api.devnet.solana.com"))
    (getenv (str "MOSEY_DEVNET_PROGRAM")).

Inductive OnchainError :=
| OnlyOneOfKeyName | KeyOrNameRequired | OKeyPath (e : FlagsError)
| ProgramRequired | OSource (e : SolError)
| OKeyFile (e : KeyFileError) | OSessionAddress (e : Base58Error) | SessionRequired.

Definition config_keyPath (home : option bytes) (c : onchainConfig) : res OnchainError bytes :=
  if negb (bool_decide (c_sessionKey c = [])) then
    if negb (bool_decide (c_sessionName c = [])) then Err OnlyOneOfKeyName else Ok (c_sessionKey c)
  else if negb (bool_decide (c_sessionName c = [])) then map_err OKeyPath (KeyPathForName home (c_sessionName c))
  else Err KeyOrNameRequired.

Definition config_source (c : onchainConfig) (sessionPub : bytes) : res OnchainError Source :=
  _ ← guard_ok (negb (bool_decide (c_program c = []))) ProgramRequired;
  map_err OSource (New (mkOptions (c_rpc c) [] (c_program c) sessionPub 0 0 [] false false)).

(** ** The owner's keypair *)

Inductive OwnerError := KeypairRequired | KeypairRead | KeypairParse | KeypairLength (n : Z).

Fixpoint byte_items (l : list json) : option bytes :=
  match l with
  | [] => Some []
  | v :: l => n ← set_uint 255 0 v; rest ← byte_items l; Some (z2b n :: rest)
  end.

(** json.Unmarshal into a byte slice: an array of numbers, or base64 text. *)
Definition byte_slice (v : json) : option bytes :=
  match v with
  | JNull => Some []
  | JStr s => DecodeString s
  | JArr l => byte_items l
  | _ => None
  end.

Definition loadSolanaKeypair (file : res KeyFileError bytes) : res OwnerError bytes :=
  raw ← map_err (fun _ => KeypairRead) file;
  b ← match v ← Unmarshal raw; byte_slice v with Some b => Ok b | None => Err KeypairParse end;
  if negb (len b =? 64) then Err (KeypairLength (len b)) else Ok b.

Definition loadOwner (read : bytes -> res KeyFileError bytes) (path : bytes) : res OwnerError bytes :=
  if bool_decide (path = []) then Err KeypairRequired else loadSolanaKeypair (read path).

(** ** What a command prints *)

Definition clusterParam (rpc : bytes) : bytes :=
  if bool_decide (rpc = []) || bool_decide (rpc = str "https://api.mainnet-beta.solana.com") then []
  else if bool_decide (rpc = str "https://api.devnet.solana.com") then str "?cluster=devnet"
  else if bool_decide (rpc = str "https://api.testnet.solana.com") then str "?cluster=testnet"
  else str "?cluster=custom&customUrl=" ++ rpc.

Definition printSig (rpc sig : bytes) : bytes :=
  str "  signature: " ++ sig ++ [LF] ++
  if bool_decide (clusterParam rpc = []) then []
  else str "  explorer:  https://explorer.solana.com/tx/" ++ sig ++ clusterParam rpc ++ [LF].

(** The exit code, the text on stdout, and the session key file's content
    when the command wrote one. *)
Record session_out := mkSessionOut { so_exit : Z; so_stdout : bytes; so_key : option bytes }.

Definition fails (code : Z) : session_out := mkSessionOut code [] None.

(** What the operation's answer makes of the command; [None] while
    confirmTransaction still polls. *)
Definition report (r : res SolError (bytes * option (option SolError))) (text : bytes -> bytes) (key : option bytes)
    : option session_out :=
  match r with
  | Err _ => Some (mkSessionOut 1 [] key)
  | Ok (_, None) => None
  | Ok (_, Some (Some _)) => Some (mkSessionOut 1 [] key)
  | Ok (sig, Some None) => Some (mkSessionOut 0 (text sig) key)
  end.

Record session_env := mkSessionEnv { se_home : option bytes; se_keys : keyenv; se_now : Z; se_node : node }.

(** ** The commands *)

Section commands.
Context {E : Ed25519} {C : Curve}.

Definition config_sessionPub (home : option bytes) (env : keyenv) (c : onchainConfig) : res OnchainError bytes :=
  if negb (bool_decide (c_sessionKey c = [])) || negb (bool_decide (c_sessionName c = [])) then
    path ← config_keyPath home c;
    k ← map_err OKeyFile (loadHexKey (read_file env path));
    Ok (ed_public k)
  else if negb (bool_decide (c_session c = [])) then map_err OSessionAddress (ParseAddress (c_session c))
  else Err SessionRequired.

Definition setupOwnerSession (c : onchainConfig) (env : session_env) : res Z (bytes * bytes * Source) :=
  owner ← map_err (fun _ => 2) (loadOwner (read_file (se_keys env)) (c_keypair c));
  sessionPub ← map_err (fun _ => 2) (config_sessionPub (se_home env) (se_keys env) c);
  src ← map_err (fun _ => 2) (config_source c sessionPub);
  Ok (owner, sessionPub, src).

Definition runSessionRegister (args : parsed onchainConfig) (env : session_env) : option session_out :=
  match args with
  | PHelp => Some (fails 0)
  | PBad => Some (fails 2)
  | PFlags c =>
      match config_keyPath (se_home env) c with
      | Err _ => Some (fails 2)
      | Ok path =>
      match loadOwner (read_file (se_keys env)) (c_keypair c) with
      | Err _ => Some (fails 2)
      | Ok owner =>
      match loadOrCreateHexKey (read_file (se_keys env) path) (gen_key (se_keys env)) (write_key (se_keys env)) with
      | Err _ => Some (fails 2)
      | Ok (sessionKey, created, content) =>
          let written := if created then Some content else None in
          match config_source c (ed_public sessionKey) with
          | Err _ => Some (mkSessionOut 2 [] written)
          | Ok src =>
              let id := Address (ed_public sessionKey) in
              let addr := match SessionAddress src (ed_public sessionKey) with Ok a => a | Err _ => [] end in
              report (RegisterSession src (se_node env) owner sessionKey)
                (fun sig => str "registered session " ++ id ++ [LF] ++ str "  owner:         " ++
                   Address (ed_public owner) ++ [LF] ++ str "  account (PDA): " ++ addr ++ [LF] ++
                   printSig (c_rpc c) sig ++ [LF] ++ str "The session identity is " ++ id ++
                   str " — pass it to `mosey attach --wallet-session`" ++ [LF] ++
                   str "and `mosey session grant --session`." ++ [LF]) written
          end
      end end end
  end.

Definition runSessionTransfer (args : parsed (onchainConfig * bytes)) (env : session_env) : option session_out :=
  match args with
  | PHelp => Some (fails 0)
  | PBad => Some (fails 2)
  | PFlags (c, newOwner) =>
      if bool_decide (newOwner = []) then Some (fails 2)
      else match ParseAddress newOwner with
      | Err _ => Some (fails 2)
      | Ok newOwnerPub =>
      match setupOwnerSession c env with
      | Err code => Some (fails code)
      | Ok (owner, sessionPub, src) =>
          report (TransferOwnership src (se_node env) owner sessionPub newOwnerPub)
            (fun sig => str "transferred session " ++ Address sessionPub ++ str " ownership to " ++ newOwner ++ [LF] ++
               printSig (c_rpc c) sig) None
      end end
  end.

Definition runSessionBumpEpoch (args : parsed onchainConfig) (env : session_env) : option session_out :=
  match args with
  | PHelp => Some (fails 0)
  | PBad => Some (fails 2)
  | PFlags c =>
      match setupOwnerSession c env with
      | Err code => Some (fails code)
      | Ok (owner, sessionPub, src) =>
          report (BumpEpoch src (se_node env) owner sessionPub)
            (fun sig => str "bumped epoch for session " ++ Address sessionPub ++
               str " — all current grants are now revoked" ++ [LF] ++ printSig (c_rpc c) sig) None
      end
  end.

Record onchain_grant := mkOnchainGrant { og_config : onchainConfig; og_to : bytes; og_caps : bytes; og_expires : Z }.

(** The expiry stored on chain: 0 when none was asked for. *)
Definition grant_expiry (now expires : Z) : Z := if 0 <? expires then i64 (Unix (now + expires)) else 0.

Definition runSessionGrant (args : parsed onchain_grant) (env : session_env) : option session_out :=
  match args with
  | PHelp => Some (fails 0)
  | PBad => Some (fails 2)
  | PFlags f =>
      if bool_decide (og_to f = []) then Some (fails 2)
      else match ParseAddress (og_to f) with
      | Err _ => Some (fails 2)
      | Ok grantee =>
      match ParseCapsLenient (og_caps f) with
      | Err _ => Some (fails 2)
      | Ok caps =>
          let expiry := grant_expiry (se_now env) (og_expires f) in
          match setupOwnerSession (og_config f) env with
          | Err code => Some (fails code)
          | Ok (owner, sessionPub, src) =>
              let exp := if negb (expiry =? 0) then FormatRFC3339 (expiry * Second) else str "no expiry" in
              report (Grant src (se_node env) owner sessionPub grantee (caps mod 2 ^ 8) expiry)
                (fun sig => str "granted " ++ og_to f ++ str " caps=" ++ CapsString caps ++ str " (" ++ exp ++
                   str ") on session " ++ Address sessionPub ++ [LF] ++ printSig (c_rpc (og_config f)) sig) None
          end
      end end
  end.

Inductive session_sub := SRegister | STransfer | SBumpEpoch | SGrant.

(** The dispatch: an exit code, or the subcommand with its arguments. *)
Definition runSession (args : list bytes) : res Z (session_sub * list bytes) :=
  match args with
  | [] => Err 2
  | sub :: rest =>
      if bool_decide (sub = str "register") then Ok (SRegister, rest)
      else if bool_decide (sub = str "transfer") then Ok (STransfer, rest)
      else if bool_decide (sub = str "bump-epoch") then Ok (SBumpEpoch, rest)
      else if bool_decide (sub = str "grant") then Ok (SGrant, rest)
      else if bool_decide (sub = str "-h") || bool_decide (sub = str "--help") || bool_decide (sub = str "help")
      then Err 0
      else Err 2
  end.
End commands.

(** ** Lemmas *)

Lemma ParseAddress_nonempty t b : ParseAddress t = Ok b -> t <> [] /\ len b = 32.
Proof.
  intros H. split; [intros ->; vm_compute in H; done|].
  unfold ParseAddress in H. apply bind_ok in H as (x & _ & H). destruct (len x =? PublicKeySize) eqn:El; [|done].
  injection H as <-. by apply Z.eqb_eq in El.
Qed.

Lemma toPubkey_id k : len k = 32 -> toPubkey k = k.
Proof. intros H. unfold toPubkey. apply take_app_length'. unfold len in H. lia. Qed.

(** A key file in the form solana-keygen writes: a JSON array of numbers. *)
Example keypair_file : forall bs, bs = replicate 31 x01 ++ replicate 33 xff ->
  loadSolanaKeypair (Ok (str "[" ++ Join (map (fun c => Itoa (b2z c)) bs) (str ", ") ++ str "]" ++ [LF])) = Ok bs.
Proof. intros bs ->. vm_compute. reflexivity. Qed.

(** What a submitted transaction is answered with. *)
Definition answer (n : node) (tx : bytes) : res SolError (bytes * option (option SolError)) :=
  sig ← n_send n tx; Ok (sig, fst (confirmTransaction (n_turns n) (Some tx))).

(** The node took the transaction and reported it confirmed. *)
Definition accepted (n : node) (tx : bytes) : Prop :=
  exists sig, n_send n tx = Ok sig /\ fst (confirmTransaction (n_turns n) (Some tx)) = Some None.

Lemma report_exit n tx text k o :
  report (answer n tx) text k = Some o -> (so_exit o = 0 <-> accepted n tx).
Proof.
  unfold answer, accepted. destruct (n_send n tx) as [sig|e]; cbn [mbind res_bind].
  - destruct (fst _) as [[e|]|] eqn:Ec; cbn [report]; [| |done]; intros [= <-]; cbn [so_exit]; split; try done.
    + intros (? & _ & ?). done.
    + by exists sig.
  - intros [= <-]. cbn [so_exit]. split; [done|]. by intros (? & ? & _).
Qed.

Section effects.
Context {E : Ed25519} {EL : Ed25519Laws E} {C : Curve} (prog : bytes).

(** What a run of a command needs from its environment: the owner's keypair,
    the program's address, an RPC endpoint and a node that gives a blockhash. *)
Record configured (c : onchainConfig) (env : session_env) (owner : bytes) : Prop := mk_configured {
  cf_owner : loadOwner (read_file (se_keys env)) (c_keypair c) = Ok owner;
  cf_program : ParseAddress (c_program c) = Ok prog;
  cf_rpc : c_rpc c <> [];
  cf_hash : exists bh, getLatestBlockhash (n_blockhash (se_node env)) = Ok bh;
  cf_budget : prog <> computeBudgetProgramID;
}.

Lemma config_source_ok c env owner sk :
  configured c env owner -> len sk = 32 ->
  exists src, config_source c sk = Ok src /\ programPubkey src = Ok prog /\ sessionKey src = sk.
Proof.
  intros [_ Hp Hr _ _] Hl. destruct (ParseAddress_nonempty _ _ Hp) as [Hne Hlp].
  unfold config_source, New. cbn [OProgramID OSessionKey RPCEndpoint o_call].
  rewrite !(bool_decide_eq_false_2 (c_program c = [])), !(bool_decide_eq_false_2 (c_rpc c = [])) by done.
  rewrite Hl. cbn [negb guard_ok mbind res_bind orb map_err]. change (32 =? PublicKeySize) with true.
  cbn [guard_ok mbind res_bind map_err]. eexists. split; [reflexivity|]. split; [|done].
  unfold programPubkey. cbn [programID]. unfold ParseAddress in Hp. apply bind_ok in Hp as (x & Hx & Hp).
  unfold DecodeBase58. rewrite Hx. destruct (len x =? PublicKeySize) eqn:El; [|done]. injection Hp as ->.
  change PublicKeySize with 32 in El. by rewrite El.
Qed.

Lemma prog_len c env owner : configured c env owner -> len prog = 32.
Proof. intros H. by destruct (ParseAddress_nonempty _ _ (cf_program _ _ _ H)). Qed.

(** An owner-signed instruction of the program, submitted by a command. *)
Lemma owner_submit_lands c env owner ix L L' :
  configured c env owner -> ix_program ix = prog ->
  Forall (fun m => len (key m) = 32) (ix_accounts ix) -> len (ix_accounts ix) <= 200 -> len (ix_data ix) <= 1000 ->
  (forall m, m ∈ ix_accounts ix -> isSigner m = true -> key m = ed_public owner) ->
  process prog L ix = Ok L' ->
  exists tx, lands prog L tx L' /\
    submit_with (se_node env) (ed_public owner) [ix] {[ ed_public owner := owner ]} = answer (se_node env) tx.
Proof.
  intros Hc Hp HF Hn Hd Hs Hpr. destruct (cf_hash _ _ _ Hc) as [bh Hbh].
  eapply (submit_lands prog (se_node env)); [exact Hbh|exact Hp|apply (cf_budget _ _ _ Hc)|by eapply prog_len|apply ed_public_size|done|done|done|..|done].
  - intros k sk [<- <-]%lookup_singleton_Some. done.
  - rewrite lookup_singleton_eq. by eexists.
  - intros m Hm Hsm. rewrite (Hs m Hm Hsm), lookup_singleton_eq. by eexists.
Qed.

Lemma setup_ok c env owner sk :
  configured c env owner -> len sk = 32 ->
  config_sessionPub (se_home env) (se_keys env) c = Ok sk ->
  exists src, setupOwnerSession c env = Ok (owner, sk, src) /\ programPubkey src = Ok prog /\ sessionKey src = sk.
Proof.
  intros Hc Hl Hs. destruct (config_source_ok _ _ _ _ Hc Hl) as (src & Hsrc & Hp & Hk).
  exists src. split; [|done]. unfold setupOwnerSession. rewrite (cf_owner _ _ _ Hc). cbn [map_err mbind res_bind].
  rewrite Hs. cbn [map_err mbind res_bind]. by rewrite Hsrc.
Qed.

Lemma process_register src owner sk L addr b :
  programPubkey src = Ok prog -> len owner = 32 -> len sk = 32 ->
  findPDA prog [str "session"; sk] = Ok (addr, b) -> L !! addr = None ->
  exists ix, registerSessionIx src owner sk sk = Ok ix /\ ix_program ix = prog /\
    process prog L ix = Ok (<[addr := ASession (mkSolSession sk owner 0) b]> L) /\
    Forall (fun m => len (key m) = 32) (ix_accounts ix) /\ len (ix_accounts ix) = 4 /\ len (ix_data ix) = 8 /\
    forall m, m ∈ ix_accounts ix -> isSigner m = true -> key m = sk \/ key m = owner.
Proof.
  intros Hp Ho Hk Hpda Hfree. unfold registerSessionIx, sessionPDA. rewrite Hp. cbn [mbind res_bind]. rewrite Hpda.
  cbn [mbind res_bind]. eexists. split; [reflexivity|]. split; [reflexivity|]. split; [|split; [|split; [|split]]].
  - dispatch. unfold register_session. cbn [isSigner writable andb guard_ok mbind res_bind key].
    rewrite bool_decide_eq_true_2 by reflexivity. cbn [guard_ok mbind res_bind].
    rewrite (proj2 (canonical_ok prog addr _ b) Hpda). cbn [mbind res_bind]. by rewrite Hfree.
  - cbn [ix_accounts]. repeat constructor; cbn [key]; [by eapply findPDA_len|exact Hk|exact Ho].
  - reflexivity.
  - cbn [ix_data]. unfold len. by rewrite ixDiscriminator_len.
  - cbn [ix_accounts]. intros m. rewrite !elem_of_cons.
    intros [->|[->|[->|[->|[]%elem_of_nil]]]]; cbn [isSigner key]; [discriminate|by left|by right|discriminate].
Qed.
End effects.

(** ** The claims *)

(** C17: `mosey session register` puts the session on chain.  Given the
    owner's keypair, a session key file (loaded or newly created) and a node
    that answers, on a ledger where the session is not registered, the command
    sends a transaction that carries both signatures and lands; it exits 0
    exactly if the node took and confirmed it; and after it lands every
    refresh for that session key shows the keypair's wallet as the owner, with
    no grants. *)
Theorem session_register_lands {E : Ed25519} {EL : Ed25519Laws E} {C : Curve} prog L c env owner path sk created content addr b
  (Hreach : reachable prog L) (Hconf : configured prog c env owner)
  (Hpath : config_keyPath (se_home env) c = Ok path)
  (Hkey : loadOrCreateHexKey (read_file (se_keys env) path) (gen_key (se_keys env)) (write_key (se_keys env)) =
          Ok (sk, created, content))
  (Hpda : findPDA prog [str "session"; ed_public sk] = Ok (addr, b)) (Hfree : L !! addr = None) :
  exists tx L', lands prog L tx L' /\
    (forall o, runSessionRegister (PFlags c) env = Some o ->
       (so_exit o = 0 <-> accepted (se_node env) tx) /\ so_key o = (if created then Some content else None)) /\
    forall src a, sessionKey src = ed_public sk -> faithful L' a ->
      exists src' sn, refresh src a = (src', None) /\ snap src' = Some sn /\
        Solana.owner sn = ed_public owner /\ grants sn = ∅.
Proof.
  pose proof (ed_public_size sk) as Hlk. pose proof (ed_public_size owner) as Hlo. change PublicKeySize with 32 in *.
  destruct (config_source_ok prog _ _ _ _ Hconf Hlk) as (src0 & Hsrc & Hp & _).
  destruct (process_register prog src0 (ed_public owner) (ed_public sk) L addr b Hp Hlo Hlk Hpda Hfree)
    as (ix & Hix & Hip & Hpr & HF & Hn & Hd & Hs).
  destruct (cf_hash _ _ _ _ Hconf) as [bh Hbh].
  set (L1 := <[addr := ASession (mkSolSession (ed_public sk) (ed_public owner) 0) b]> L) in *.
  destruct (submit_lands prog (se_node env) (ed_public owner) ix
    (<[ed_public sk := sk]> {[ ed_public owner := owner ]}) bh L L1 Hbh Hip (cf_budget _ _ _ _ Hconf)
    (prog_len _ _ _ _ Hconf) Hlo HF ltac:(lia) ltac:(lia)) as (tx & Hland & Hsub); [..|exact Hpr|].
  { intros k sk' [[<- <-]|[_ [<- <-]%lookup_singleton_Some]]%lookup_insert_Some; done. }
  { apply lookup_insert_is_Some'. right. rewrite lookup_singleton_eq. by eexists. }
  { intros m Hm [->| ->]%(Hs m Hm); apply lookup_insert_is_Some'; [by left|right].
    rewrite lookup_singleton_eq. by eexists. }
  assert (reachable prog L1) as Hr by (by eapply reachable_step).
  exists tx, L1. split; [exact Hland|]. split.
  - intros o. unfold runSessionRegister. rewrite Hpath, (cf_owner _ _ _ _ Hconf), Hkey, Hsrc.
    unfold RegisterSession. rewrite !toPubkey_id by done. rewrite Hix. cbn [mbind res_bind].
    rewrite Hsub. fold (answer (se_node env) tx). intros Ho. split; [by eapply report_exit|].
    revert Ho. unfold report. destruct (answer _ _) as [[? [[]|]]|]; try done; by intros [= <-].
  - intros src a Hk Ha.
    destruct (refresh_session prog _ src a addr (mkSolSession (ed_public sk) (ed_public owner) 0) b Hr Ha)
      as (src' & sn & H1 & H2 & H3 & H4); [unfold L1; apply lookup_insert_eq|exact Hk|].
    exists src', sn. split_and!; try done. apply map_empty. intros w.
    destruct (grants sn !! w) as [cps|] eqn:Ew; [|done]. exfalso.
    apply H4 in Ew as (ga & g & gb & Hg & Hgs & _).
    apply lookup_insert_Some in Hg as [[_ Hx]|[_ Hg]]; [done|].
    destruct (reachable_ok _ _ Hreach _ _ Hg) as (_ & _ & _ & _ & _ & _ & s & b' & HL & _).
    rewrite Hgs, Hfree in HL. done.
Qed.

(** `mosey session grant` reaches the servers.  Run by the session's owner
    for a grantee address, the command sends a transaction that lands; it
    exits 0 exactly if the node took and confirmed it; and after it lands
    every refresh for that session shows the grantee with exactly the
    capabilities named on the command line until the expiry it asked for. *)
Theorem session_grant_lands {E : Ed25519} {EL : Ed25519Laws E} {C : Curve} prog L f env owner addr s b w caps ga gb
  (Hreach : reachable prog L) (Hconf : configured prog (og_config f) env owner)
  (Hsess : config_sessionPub (se_home env) (se_keys env) (og_config f) = Ok (SSessionKey s))
  (Hs : L !! addr = Some (ASession s b)) (Howner : SOwner s = ed_public owner)
  (Hto : ParseAddress (og_to f) = Ok w) (Hcaps : ParseCapsLenient (og_caps f) = Ok caps)
  (Hpda : findPDA prog [str "grant"; addr; w] = Ok (ga, gb)) (Hfree : forall s b, L !! ga <> Some (ASession s b)) :
  let expiry := grant_expiry (se_now env) (og_expires f) in
  exists tx L', lands prog L tx L' /\
    (forall o, runSessionGrant (PFlags f) env = Some o -> (so_exit o = 0 <-> accepted (se_node env) tx)) /\
    forall src a, sessionKey src = SSessionKey s -> faithful L' a -> expiry = 0 \/ Unix (a_built a) < expiry ->
      exists src' sn, refresh src a = (src', None) /\ snap src' = Some sn /\
        Solana.owner sn = ed_public owner /\ grants sn !! w = Some caps.
Proof.
  intros expiry. destruct (ParseAddress_nonempty _ _ Hto) as [Hne Hlw].
  pose proof (ParseCapsLenient_small _ _ Hcaps) as Hsm. unfold small_caps in Hsm.
  destruct (reachable_ok _ _ Hreach _ _ Hs) as (_ & Hlk & _).
  destruct (setup_ok prog _ _ _ _ Hconf Hlk Hsess) as (src0 & Hset & Hp & Hk0).
  assert (- 2 ^ 63 <= expiry < 2 ^ 63) as Hex.
  { unfold expiry, grant_expiry. destruct (0 <? og_expires f); [apply i64_range|lia]. }
  assert (grantPDA src0 addr w = Ok (ga, gb)) as Hg0 by (by rewrite (grant_pda prog src0 Hp)).
  assert (exists ix, grantIx src0 (SOwner s) (SSessionKey s) w caps expiry = Ok ix /\ ix_program ix = prog /\
    len (ix_accounts ix) = 4 /\ len (ix_data ix) = 49 /\
    forall m, m ∈ ix_accounts ix -> isSigner m = true -> key m = SOwner s) as (ix & Hix & Hip & Hn & Hd & Hsig).
  { unfold grantIx. rewrite Hp, (session_pda prog L Hreach src0 Hp addr s b Hs). cbn [mbind res_bind]. rewrite Hg0.
    cbn [mbind res_bind]. eexists. split; [reflexivity|]. split; [reflexivity|]. split; [reflexivity|]. split.
    - cbn [ix_data]. unfold len in *. rewrite !length_app, ixDiscriminator_len, le_bytes_len. cbn [length]. lia.
    - cbn [ix_accounts]. intros m. rewrite !elem_of_cons.
      intros [->|[->|[->|[->|[]%elem_of_nil]]]]; cbn [isSigner key]; [discriminate..|done|discriminate]. }
  destruct (process_grant prog L Hreach src0 Hp addr s b Hs ix w caps expiry ga gb) as [Hpr HF]; [done..|].
  set (L1 := <[ga := AGrant (mkSolGrant addr w caps expiry (SEpoch s)) gb]> L) in *.
  destruct (owner_submit_lands prog _ _ _ ix L L1 Hconf Hip HF ltac:(lia) ltac:(lia)) as (tx & Hland & Hsub);
    [by rewrite <- Howner|exact Hpr|].
  assert (reachable prog L1) as Hr by (by eapply reachable_step).
  exists tx, L1. split; [exact Hland|]. split.
  - intros o. unfold runSessionGrant. rewrite bool_decide_eq_false_2 by done. rewrite Hto, Hcaps, Hset.
    unfold Grant. rewrite toPubkey_id by (by apply ed_public_size). rewrite Z.mod_small by lia.
    rewrite <- Howner at 1. fold expiry. rewrite Hix. cbn [mbind res_bind]. rewrite Hsub.
    apply report_exit.
  - intros src a Hk Ha Hlive. destruct (refresh_session prog _ src a addr s b Hr Ha) as (src' & sn & H1 & H2 & H3 & H4);
      [|done|].
    { unfold L1. rewrite lookup_insert_ne; [done|]. intros ->. by destruct (Hfree s b). }
    exists src', sn. split_and!; [done|done|congruence|]. apply H4.
    exists ga, (mkSolGrant addr w caps expiry (SEpoch s)), gb. unfold L1. rewrite lookup_insert_eq. split_and!; try done.
    by apply live_grant_unexpired.
Qed.

(** ** Witnesses *)

#[local] Existing Instance toy_curve.

Definition demo_keypair : bytes := str "[" ++ Join (replicate 64 (str "6")) (str ",") ++ str "]".

Definition demo_node : node :=
  mkNode (Ok (EncodeBase58 (key_of x01))) (fun _ => Ok (str "sig")) [Tick (SStatus [] (str "confirmed"))].

Definition demo_session_env : session_env :=
  mkSessionEnv (Some (str "/home/u"))
    (mkKeyEnv (fun p => if bool_decide (p = str "owner.json") then Ok demo_keypair else Err KNotExist)
      (Some (replicate 64 x05)) None) t0 demo_node.

Definition demo_onchain (session : bytes) : onchainConfig :=
  mkOnchain (str "owner.json") [] (if bool_decide (session = []) then str "work" else []) session
    (str "http://node") (Address sample_prog).

Lemma demo_configured session : configured sample_prog (demo_onchain session) demo_session_env (replicate 64 x06).
Proof.
  constructor.
  - vm_compute. reflexivity.
  - vm_compute. reflexivity.
  - discriminate.
  - exists (key_of x01). vm_compute. reflexivity.
  - vm_compute. discriminate.
Qed.

Lemma session_register_lands_witness :
  exists tx (L' : ledger) o, lands sample_prog ∅ tx L' /\
    runSessionRegister (PFlags (demo_onchain [])) demo_session_env = Some o /\ so_exit o = 0 /\
    so_key o = Some (key_text (replicate 64 x05)) /\
    exists src' sn, refresh sample_source (answer_of L') = (src', None) /\ snap src' = Some sn /\
      Solana.owner sn = key_of x06.
Proof.
  destruct (session_register_lands sample_prog ∅ (demo_onchain []) demo_session_env (replicate 64 x06)
    (str "/home/u/.mosey/sessions/work.key") (replicate 64 x05) true (key_text (replicate 64 x05))
    (pda_candidate sample_prog [str "session"; key_of x05] 255) 255) as (tx & L' & Hl & Hrun & Href).
  - constructor.
  - exact (demo_configured []).
  - vm_compute. reflexivity.
  - vm_compute. reflexivity.
  - reflexivity.
  - apply lookup_empty.
  - destruct (runSessionRegister (PFlags (demo_onchain [])) demo_session_env) as [o|] eqn:Eo.
    2:{ exfalso. vm_compute in Eo. discriminate. }
    destruct (Hrun o eq_refl) as [Hx Hk].
    destruct (Href sample_source (answer_of L') eq_refl (answer_of_faithful L')) as (src' & sn & H1 & H2 & H3 & _).
    exists tx, L', o. split; [exact Hl|]. split; [reflexivity|]. split.
    { apply Hx. exists (str "sig"). split; reflexivity. }
    split; [exact Hk|]. exists src', sn. split; [exact H1|]. split; [exact H2|exact H3].
Defined.

Lemma session_grant_lands_witness :
  exists tx (L L' : ledger), lands sample_prog L tx L' /\
    exists src' sn, refresh sample_source (answer_of L') = (src', None) /\ snap src' = Some sn /\
      grants sn !! key_of x07 = Some 1.
Proof.
  destruct sample_ledger as (L & addr & b & Hr & Hs & HL & Ha).
  destruct (session_grant_lands sample_prog L
    (mkOnchainGrant (demo_onchain (Address (key_of x05))) (Address (key_of x07)) (str "write") 0) demo_session_env
    (replicate 64 x06) addr sample_session b (key_of x07) 1
    (pda_candidate sample_prog [str "grant"; addr; key_of x07] 255) 255) as (tx & L' & Hl & _ & Href).
  - exact Hr.
  - exact (demo_configured _).
  - vm_compute. reflexivity.
  - exact Hs.
  - reflexivity.
  - vm_compute. reflexivity.
  - vm_compute. reflexivity.
  - reflexivity.
  - intros s' b' H. rewrite HL in H. apply lookup_singleton_Some in H as [Hc _]. revert Hc. rewrite Ha.
    vm_compute. discriminate.
  - destruct (Href sample_source (answer_of L') eq_refl (answer_of_faithful L') (or_introl eq_refl))
      as (src' & sn & H1 & H2 & _ & H3).
    exists tx, L, L'. split; [exact Hl|]. exists src', sn. split; [exact H1|]. split; [exact H2|exact H3].
Defined.
