(* ===== verification/Gateway.v ===== *)
(** * The web gateway and the signing page (src/cmd/mosey/web.go, weblogin.go,
      webgrant.go, webgovern.go, webdashboard.go, wallet.go)

    The gateway keeps two tables, logins and pending grants, behind one mutex;
    every access to them is one step.  A handler is a function of the state,
    the request body, the clock and what it draws at random, to the new state
    and the response.  Request bodies are read with the rules of encoding/json
    (Json.v).  A login's authenticated transport is the raw transport wrapped
    with a wallet authenticator, so the model keeps the authenticator. *)

From S2P Require Import Prelude Solana SolanaTx.
From S2P Require Import Identity GoStrings WalletCaps Base58 GoTime Delegation Fold Cert Handshake AuthWallet.
From S2P Require Import Base64 Hex Json Grants WalletFlags.

(** ** Requests and responses *)

Inductive response :=
| HttpError (status : Z) (text : bytes)
| JSON (v : json).

Definition StatusBadRequest : Z := 400.
Definition StatusUnauthorized : Z := 401.
Definition StatusForbidden : Z := 403.
Definition StatusNotFound : Z := 404.
Definition StatusConflict : Z := 409.
Definition StatusInternalServerError : Z := 500.
Definition StatusBadGateway : Z := 502.

Definition bad (text : bytes) : response := HttpError StatusBadRequest text.
Definition server_error : response := HttpError StatusInternalServerError (str "server error").

Definition or_resp {A} (o : option A) (r : response) : res response A :=
  match o with Some a => Ok a | None => Err r end.

Definition or_fail {X A} (o : res X A) (r : response) : res response A :=
  match o with Ok a => Ok a | Err _ => Err r end.

(** json.NewDecoder(r.Body).Decode(&req), with the fields [get] asks for. *)
Definition decode_request {A} (body : bytes) (get : json -> option A) : res response A :=
  or_resp (v ← Decode body; get v) (bad (str "bad request")).

Inductive SigError := SigBase58 (e : Base58Error) | SigSize (n : Z).

Definition base58Sig (s : bytes) : res SigError bytes :=
  b ← map_err SigBase58 (DecodeBase58 s);
  if negb (len b =? SignatureSize) then Err (SigSize (len b)) else Ok b.

(** {token, signature_base58} *)
Definition get_callback (v : json) : option (bytes * bytes) :=
  t ← get_string (str "token") v; s ← get_string (str "signature_base58") v; Some (t, s).

(** ** The gateway *)

Record loginSession := mkLogin {
  connKey : bytes; content : bytes; l_sessionKey : bytes; l_target : bytes;
  authed : option WalletAuth; expires : Z
}.

Record pendingGrant := mkPending { p_content : bytes; p_expires : Z }.

Record webGateway := mkGateway {
  g_target : bytes; g_walletLogin : bool; g_multiSession : bool;
  g_sessionKey : bytes; g_delegationTTL : Z;
  logins : gmap bytes loginSession; g_grants : gmap bytes pendingGrant
}.

Definition set_logins (g : webGateway) (m : gmap bytes loginSession) : webGateway :=
  mkGateway (g_target g) (g_walletLogin g) (g_multiSession g) (g_sessionKey g) (g_delegationTTL g) m (g_grants g).

Definition set_grants (g : webGateway) (m : gmap bytes pendingGrant) : webGateway :=
  mkGateway (g_target g) (g_walletLogin g) (g_multiSession g) (g_sessionKey g) (g_delegationTTL g) (logins g) m.

Definition putLogin (g : webGateway) (token : bytes) (ls : loginSession) : webGateway :=
  set_logins g (<[token := ls]> (logins g)).

Definition getLogin (g : webGateway) (now : Z) (token : bytes) : webGateway * option loginSession :=
  match logins g !! token with
  | None => (g, None)
  | Some ls => if After now (expires ls) then (set_logins g (delete token (logins g)), None) else (g, Some ls)
  end.

Definition authorizeLogin (g : webGateway) (token : bytes) (w : WalletAuth) : webGateway :=
  match logins g !! token with
  | None => g
  | Some ls => putLogin g token (mkLogin (connKey ls) (content ls) (l_sessionKey ls) (l_target ls) (Some w) (expires ls))
  end.

Definition putGrant (g : webGateway) (token : bytes) (p : pendingGrant) : webGateway :=
  set_grants g (<[token := p]> (g_grants g)).

Definition takeGrant (g : webGateway) (now : Z) (token : bytes) : webGateway * option pendingGrant :=
  let p := g_grants g !! token in
  let g := set_grants g (delete token (g_grants g)) in
  match p with
  | None => (g, None)
  | Some p => if After now (p_expires p) then (g, None) else (g, Some p)
  end.

(** newLoginToken, from the 16 random bytes. *)
Definition newLoginToken (rnd : option bytes) : option bytes := hexEncode <$> rnd.

(** What a handler draws: a generated key, the nonce, the token bytes. *)
Record draws := mkDraws { d_key : option bytes; d_nonce : option bytes; d_token : option bytes }.

(** peer.IDFromPublicKey over the session key, as text. *)
Class PeerIds := { peer_id_text : bytes -> option bytes }.

Section gateway.
Context {E : Ed25519} {P : PeerIds}.

Definition sessionTarget (sessionKey : bytes) : option bytes :=
  id ← peer_id_text sessionKey; Some (str "/p2p/" ++ id).

(** The caps field: absent means view-only. *)
Definition parse_req_caps (s : bytes) : res response WCaps :=
  if negb (bool_decide (s = [])) then or_fail (ParseCapsLenient s) (bad (str "bad caps")) else Ok 0.

(** Which session a login attaches to, and how to dial it. *)
Definition login_session (g : webGateway) (session : bytes) : res response (bytes * bytes) :=
  if g_multiSession g then
    key ← or_fail (ParseAddress session) (bad (str "bad or missing session"));
    target ← or_resp (sessionTarget key) (bad (str "bad session key"));
    Ok (key, target)
  else Ok (g_sessionKey g, g_target g).

Definition prepared (token content : bytes) : response :=
  JSON (JObj [(str "content_hex", JStr (hexEncode content)); (str "token", JStr token)]).

Definition login_prepare (g : webGateway) (now : Z) (d : draws) (body : bytes) : res response (bytes * loginSession) :=
  '(wallet, capsStr, session) ← decode_request body (fun v =>
     w ← get_string (str "wallet") v; c ← get_string (str "caps") v; s ← get_string (str "session") v;
     Some (w, c, s));
  delegator ← or_fail (ParseAddress wallet) (bad (str "bad wallet"));
  '(sessionKey, target) ← login_session g session;
  caps ← parse_req_caps capsStr;
  let caps := Z.ldiff caps CapForge in
  key ← or_resp (d_key d) server_error;
  nonce ← or_resp (d_nonce d) server_error;
  let content := Render (mint_fields sessionKey delegator (ed_public key) caps now (g_delegationTTL g) nonce) in
  token ← or_resp (newLoginToken (d_token d)) server_error;
  Ok (token, mkLogin key content sessionKey target None (now + g_delegationTTL g)).

Definition handleLoginPrepare (g : webGateway) (now : Z) (d : draws) (body : bytes) : webGateway * response :=
  match login_prepare g now d body with
  | Err r => (g, r)
  | Ok (token, ls) => (putLogin g token ls, prepared token (content ls))
  end.

(** The callback up to its last step: the signature is checked over the
    prepared content, and the authenticator built. *)
Definition login_check (g : webGateway) (now : Z) (body : bytes) : webGateway * res response (bytes * WalletAuth) :=
  match decode_request body get_callback with
  | Err r => (g, Err r)
  | Ok (token, sigB58) =>
      match getLogin g now token with
      | (g, None) => (g, Err (HttpError StatusForbidden (str "unknown or expired token")))
      | (g, Some ls) =>
          (g, sig ← or_fail (base58Sig sigB58) (bad (str "bad signature"));
              let deleg := mkDelegation (content ls) sig in
              _ ← or_fail (Verify deleg) (bad (str "signature did not verify"));
              w ← or_fail (NewWalletClientAuth (connKey ls) [deleg] (Some (l_sessionKey ls))) server_error;
              Ok (token, w))
      end
  end.

Definition status_ok : response := JSON (JObj [(str "status", JStr (str "ok"))]).

Definition handleLoginCallback (g : webGateway) (now : Z) (body : bytes) : webGateway * response :=
  match login_check g now body with
  | (g, Err r) => (g, r)
  | (g, Ok (token, w)) => (authorizeLogin g token w, status_ok)
  end.

(** Which transport a WebSocket is bridged over: the static one, or the
    login's; [Err] is the refusal. *)
Definition handleWS (g : webGateway) (now : Z) (token : bytes) : webGateway * res response (option WalletAuth * bytes) :=
  if g_walletLogin g then
    match getLogin g now token with
    | (g, Some (mkLogin _ _ _ target (Some w) _)) => (g, Ok (Some w, target))
    | (g, _) => (g, Err (HttpError StatusUnauthorized (str "no valid login; sign in first")))
    end
  else (g, Ok (None, g_target g)).

(** ** webgrant.go *)

Definition grant_ttl (expires_seconds : Z) : Z :=
  let ttl := i64 (expires_seconds * Second) in if ttl <=? 0 then 24 * Hour else ttl.

Definition grant_prepare (g : webGateway) (now : Z) (d : draws) (body : bytes) : res response (bytes * pendingGrant) :=
  '(wallet, session, granteeStr, capsStr, secs) ← decode_request body (fun v =>
     w ← get_string (str "wallet") v; s ← get_string (str "session") v; gr ← get_string (str "grantee") v;
     c ← get_string (str "caps") v; x ← get_int64 (str "expires_seconds") v; Some (w, s, gr, c, x));
  owner ← or_fail (ParseAddress wallet) (bad (str "bad wallet"));
  grantee ← or_fail (ParseAddress granteeStr) (bad (str "bad grantee"));
  sessionKey ← (if g_multiSession g then or_fail (ParseAddress session) (bad (str "bad or missing session"))
                else Ok (g_sessionKey g));
  caps ← parse_req_caps capsStr;
  nonce ← or_resp (d_nonce d) server_error;
  let content := Render (mint_fields sessionKey owner grantee caps now (grant_ttl secs) nonce) in
  token ← or_resp (newLoginToken (d_token d)) server_error;
  Ok (token, mkPending content (now + Hour)).

Definition handleGrantPrepare (g : webGateway) (now : Z) (d : draws) (body : bytes) : webGateway * response :=
  match grant_prepare g now d body with
  | Err r => (g, r)
  | Ok (token, p) => (putGrant g token p, prepared token (p_content p))
  end.

Definition handleGrantCallback (g : webGateway) (now : Z) (body : bytes) : webGateway * response :=
  match decode_request body get_callback with
  | Err r => (g, r)
  | Ok (token, sigB58) =>
      match takeGrant g now token with
      | (g, None) => (g, HttpError StatusForbidden (str "unknown or expired token"))
      | (g, Some p) =>
          (g, match (sig ← or_fail (base58Sig sigB58) (bad (str "bad signature"));
                     let deleg := mkDelegation (p_content p) sig in
                     _ ← or_fail (Verify deleg) (bad (str "signature did not verify"));
                     or_fail (EncodeChain [deleg]) server_error) with
              | Err r => r
              | Ok blob => JSON (JObj [(str "grant_base64", JStr (EncodeToString blob))])
              end)
      end
  end.
End gateway.

(** ** webgovern.go *)

(** The interface governor: unsigned transactions, and submission, which has
    an outcome once it has returned. *)
Class governor (X : Type) := {
  gov_transfer : X -> bytes -> bytes -> bytes -> option bytes;         (* owner, session, new owner *)
  gov_grant : X -> bytes -> bytes -> bytes -> Z -> Z -> option bytes;  (* owner, session, grantee, caps, expiry *)
  gov_bump : X -> bytes -> bytes -> option bytes;
  gov_revoke : X -> bytes -> bytes -> bytes -> option bytes;
  gov_submit : X -> bytes -> option (option bytes);
}.

Definition ok_option {X A} (r : res X A) : option A := match r with Ok a => Some a | Err _ => None end.

(** *walletsolana.Source implements it, talking to a node.  A submission has
    not returned while confirmTransaction still polls. *)
#[global] Instance solana_governor {C : Curve} : governor (Source * node) := {|
  gov_transfer '(s, n) o k w := ok_option (BuildTransferOwnership s (n_blockhash n) o k w);
  gov_grant '(s, n) o k w caps e := ok_option (BuildGrant s (n_blockhash n) o k w caps e);
  gov_bump '(s, n) o k := ok_option (BuildBumpEpoch s (n_blockhash n) o k);
  gov_revoke '(s, n) o k w := ok_option (BuildRevoke s (n_blockhash n) o k w);
  gov_submit '(s, n) tx :=
    match SubmitSigned n tx with
    | Ok (_, None) => None
    | Ok (sig, Some None) => Some (Some sig)
    | Ok (_, Some (Some _)) | Err _ => Some None
    end;
|}.

Record govern_request := mkGovern {
  gr_op : bytes; gr_wallet : bytes; gr_session : bytes; gr_new_owner : bytes; gr_grantee : bytes; gr_caps : bytes;
  gr_expiry : Z
}.

Definition get_govern (v : json) : option govern_request :=
  op ← get_string (str "op") v; w ← get_string (str "wallet") v; s ← get_string (str "session") v;
  n ← get_string (str "new_owner") v; g ← get_string (str "grantee") v; c ← get_string (str "caps") v;
  e ← get_int64 (str "expiry") v; Some (mkGovern op w s n g c e).

Definition governError : response := HttpError StatusBadGateway (str "governance op failed").

Definition govern_not_configured : response := HttpError StatusNotFound (str "governance not configured").

Section govern.
Context {X : Type} {G : governor X}.

Definition govern_tx (gov : X) (owner session : bytes) (req : govern_request) : res response bytes :=
  if bool_decide (gr_op req = str "transfer") then
    newOwner ← or_fail (ParseAddress (gr_new_owner req)) (bad (str "bad new_owner"));
    or_resp (gov_transfer gov owner session newOwner) governError
  else if bool_decide (gr_op req = str "grant") then
    grantee ← or_fail (ParseAddress (gr_grantee req)) (bad (str "bad grantee"));
    caps ← parse_req_caps (gr_caps req);
    or_resp (gov_grant gov owner session grantee caps (gr_expiry req)) governError
  else if bool_decide (gr_op req = str "bump") then
    or_resp (gov_bump gov owner session) governError
  else if bool_decide (gr_op req = str "revoke") then
    grantee ← or_fail (ParseAddress (gr_grantee req)) (bad (str "bad grantee"));
    or_resp (gov_revoke gov owner session grantee) governError
  else Err (bad (str "unknown op (want transfer|grant|revoke|bump)")).

(** [gov]: nil when governance is not configured. *)
Definition handleGovernBuild (g : webGateway) (gov : option X) (body : bytes) : response :=
  match
    gov ← or_resp gov govern_not_configured;
    req ← decode_request body get_govern;
    owner ← or_fail (ParseAddress (gr_wallet req)) (bad (str "bad wallet"));
    session ← (if g_multiSession g then or_fail (ParseAddress (gr_session req)) (bad (str "bad or missing session"))
               else Ok (g_sessionKey g));
    govern_tx gov owner session req
  with
  | Err r => r
  | Ok tx => JSON (JObj [(str "tx_base64", JStr (EncodeToString tx))])
  end.

(** [None]: no answer yet. *)
Definition handleGovernSubmit (gov : option X) (body : bytes) : option response :=
  match
    gov ← or_resp gov govern_not_configured;
    text ← decode_request body (get_string (str "tx_base64"));
    tx ← or_resp (DecodeString text) (bad (str "bad tx_base64"));
    _ ← guard_ok (negb (len tx =? 0)) (bad (str "bad tx_base64"));
    Ok (gov, tx)
  with
  | Err r => Some r
  | Ok (gov, tx) =>
      match gov_submit gov tx with
      | None => None
      | Some None => Some governError
      | Some (Some sig) => Some (JSON (JObj [(str "signature", JStr sig)]))
      end
  end.
End govern.

(** ** webdashboard.go *)

Definition session_entry (s : OwnedSession) : json :=
  JObj [(str "address", JStr (OAddress s)); (str "epoch", JNum (Itoa (OEpoch s)));
        (str "session", JStr (Address (OKey s)))].

(** [lister]: nil when the dashboard is not configured. *)
Definition handleSessions (lister : option (bytes -> option (list OwnedSession))) (wallet : bytes) : response :=
  match
    l ← or_resp lister (HttpError StatusNotFound (str "dashboard not configured"));
    owner ← or_fail (ParseAddress wallet) (bad (str "bad or missing wallet"));
    or_resp (l owner) (HttpError StatusBadGateway (str "list sessions failed"))
  with
  | Err r => r
  | Ok sessions => JSON (JObj [(str "sessions", JArr (map session_entry sessions))])
  end.

Inductive SessionPubError :=
| OnlyOneSession | BadSessionFlag (e : Base58Error) | BadSessionName (e : FlagsError) | SessionNameKey (e : KeyFileError)
| SessionFlagRequired.

Definition resolveSessionPub {E : Ed25519} (home : option bytes) (read : bytes -> res KeyFileError bytes)
    (session name : bytes) : res SessionPubError bytes :=
  if negb (bool_decide (session = [])) && negb (bool_decide (name = [])) then Err OnlyOneSession
  else if negb (bool_decide (session = [])) then map_err BadSessionFlag (ParseAddress session)
  else if negb (bool_decide (name = [])) then
    path ← map_err BadSessionName (KeyPathForName home name);
    k ← map_err SessionNameKey (loadHexKey (read path));
    Ok (ed_public k)
  else Err SessionFlagRequired.

(** ** web.go: routing, configuration and the bridge *)

Inductive route :=
| RConfig | RWS | RLoginPrepare | RLoginCallback | RGrantPrepare | RGrantCallback | RSessions | RGovernBuild
| RGovernSubmit | RStatic.

(** Which handler a (clean) path reaches. *)
Definition mux (g : webGateway) (has_lister has_gov : bool) (path : bytes) : route :=
  if bool_decide (path = str "/config") then RConfig
  else if bool_decide (path = str "/ws") then RWS
  else if g_walletLogin g && bool_decide (path = str "/login/prepare") then RLoginPrepare
  else if g_walletLogin g && bool_decide (path = str "/login/callback") then RLoginCallback
  else if g_walletLogin g && bool_decide (path = str "/grant/prepare") then RGrantPrepare
  else if g_walletLogin g && bool_decide (path = str "/grant/callback") then RGrantCallback
  else if has_lister && bool_decide (path = str "/sessions") then RSessions
  else if has_gov && bool_decide (path = str "/govern/build") then RGovernBuild
  else if has_gov && bool_decide (path = str "/govern/submit") then RGovernSubmit
  else RStatic.

Definition handleConfig (g : webGateway) : response :=
  if g_walletLogin g then
    if g_multiSession g then JSON (JObj [(str "mode", JStr (str "wallet"))])
    else JSON (JObj [(str "mode", JStr (str "wallet")); (str "session", JStr (Address (g_sessionKey g)))])
  else JSON (JObj [(str "mode", JStr (str "static"))]).

(** One WebSocket message of the browser: bytes for the pipe, or a size for
    the resize channel, which holds eight and drops the rest. *)
Inductive ws_message := WsBinary (data : bytes) | WsText (data : bytes) | WsOther.

Definition resize_capacity : nat := 8.

Definition get_resize (v : json) : option (bytes * Z * Z) :=
  t ← get_string (str "type") v; c ← get_uint32 (str "cols") v; r ← get_uint32 (str "rows") v; Some (t, c, r).

Definition bridge_message (resizeC : list (Z * Z)) (msg : ws_message) : list (Z * Z) * bytes :=
  match msg with
  | WsBinary data => (resizeC, data)
  | WsText data =>
      match v ← Unmarshal data; get_resize v with
      | Some (t, cols, rows) =>
          if bool_decide (t = str "resize") && Nat.ltb (length resizeC) resize_capacity
          then (resizeC ++ [(cols, rows)], []) else (resizeC, [])
      | None => (resizeC, [])
      end
  | WsOther => (resizeC, [])
  end.

(** wsWriter.Write: one binary frame per write. *)
Definition wsWriter_Write (frames : list bytes) (write_ok : bool) (p : bytes) : list bytes * res unit Z :=
  if write_ok then (frames ++ [p], Ok (len p)) else (frames, Err tt).

(** ** wallet.go: the loopback signing page *)

Record authzResult := mkAuthz { az_chain : bytes; az_signer : bytes }.
Inductive AuthzError := AzDecode (e : SigError) | AzVerify (e : WalletError) | AzEncode.

Record authorizer := mkAuthorizer {
  a_session : bytes; a_delegate : bytes; a_caps : WCaps; a_expires : Z; a_state : bytes;
  a_content : option bytes; a_done : option (res AuthzError authzResult)
}.

Definition newAuthorizer (session delegate : bytes) (caps : WCaps) (expires : Z) (rnd : option bytes) : option authorizer :=
  st ← rnd; Some (mkAuthorizer session delegate caps expires (hexEncode st) None None).

Definition set_content (a : authorizer) (c : bytes) : authorizer :=
  mkAuthorizer (a_session a) (a_delegate a) (a_caps a) (a_expires a) (a_state a) (Some c) (a_done a).

(** The channel holds one result; later ones are dropped. *)
Definition finish (a : authorizer) (r : res AuthzError authzResult) : authorizer :=
  match a_done a with
  | Some _ => a
  | None => mkAuthorizer (a_session a) (a_delegate a) (a_caps a) (a_expires a) (a_state a) (a_content a) (Some r)
  end.

Definition bad_state : response := HttpError StatusForbidden (str "bad state").

Section authorizer.
Context {E : Ed25519}.

Definition handlePrepare (a : authorizer) (now : Z) (nonce : option bytes) (body : bytes) : authorizer * response :=
  match
    '(state, wallet) ← decode_request body (fun v =>
       s ← get_string (str "state") v; w ← get_string (str "wallet") v; Some (s, w));
    _ ← guard_ok (bool_decide (state = a_state a)) bad_state;
    delegator ← or_fail (ParseAddress wallet) (bad (str "bad wallet"));
    nonce ← or_resp nonce server_error;
    Ok (Render (mint_fields (a_session a) delegator (a_delegate a) (a_caps a) now (a_expires a) nonce))
  with
  | Err r => (a, r)
  | Ok content => (set_content a content, JSON (JObj [(str "content_hex", JStr (hexEncode content))]))
  end.

Definition handleCallback (a : authorizer) (body : bytes) : authorizer * response :=
  match
    '(state, sigB58) ← decode_request body (fun v =>
       s ← get_string (str "state") v; w ← get_string (str "signature_base58") v; Some (s, w));
    _ ← guard_ok (bool_decide (state = a_state a)) bad_state;
    content ← or_resp (a_content a) (HttpError StatusConflict (str "no prepared content"));
    Ok (content, sigB58)
  with
  | Err r => (a, r)
  | Ok (content, sigB58) =>
      match base58Sig sigB58 with
      | Err e => (finish a (Err (AzDecode e)), bad (str "bad signature"))
      | Ok sig =>
          let deleg := mkDelegation content sig in
          match Verify deleg with
          | Err e => (finish a (Err (AzVerify e)), bad (str "signature did not verify"))
          | Ok fields =>
              match EncodeChain [deleg] with
              | Err _ => (finish a (Err AzEncode), server_error)
              | Ok chain => (finish a (Ok (mkAuthz chain (Address (Delegator fields)))), status_ok)
              end
          end
      end
  end.

(** runWalletSign up to the page: the authorizer, or an exit code. *)
Record sign_flags := mkSignFlags { s_session : bytes; s_delegate : bytes; s_caps : bytes; s_expires : Z }.

Definition sign_setup (args : parsed sign_flags) (rnd : option bytes) : res Z authorizer :=
  match args with
  | PHelp => Err 0
  | PBad => Err 2
  | PFlags f =>
      _ ← guard_ok (negb (bool_decide (s_session f = []) || bool_decide (s_delegate f = []))) 2;
      sessionID ← map_err (fun _ => 2) (ParseAddress (s_session f));
      delegatePub ← map_err (fun _ => 2) (ParseAddress (s_delegate f));
      caps ← map_err (fun _ => 2) (ParseCapsLenient (s_caps f));
      match newAuthorizer sessionID delegatePub caps (s_expires f) rnd with
      | None => Err 1
      | Some a => Ok a
      end
  end.

(** The rest of runWalletSign: [done] is what arrived in five minutes. *)
Definition sign_finish (listen_ok : bool) (done : option (res AuthzError authzResult)) (write_ok : bool)
    : Z * option bytes :=
  if negb listen_ok then (1, None)
  else match done with
       | None | Some (Err _) => (1, None)
       | Some (Ok r) => if write_ok then (0, Some (az_chain r)) else (1, None)
       end.
End authorizer.

(** ** Lemmas *)

Lemma Verify_minted {E : Ed25519} m sig f :
  fields_ok m -> Verify (mkDelegation (Render m) sig) = Ok f -> f = truncated m.
Proof.
  intros Hm. unfold Verify, DFields. cbn [Content]. rewrite ParseContent_Render by done.
  cbn [mbind res_bind]. repeat (case_match; [done|]). by intros [= <-].
Qed.

Lemma or_fail_ok {X A} (o : res X A) r a : or_fail o r = Ok a <-> o = Ok a.
Proof. destruct o; naive_solver. Qed.

Lemma or_resp_ok {A} (o : option A) r a : or_resp o r = Ok a <-> o = Some a.
Proof. destruct o; naive_solver. Qed.

Lemma parse_req_caps_small s c : parse_req_caps s = Ok c -> small_caps c.
Proof.
  unfold parse_req_caps. case_match; [intros Hc%or_fail_ok; by eapply ParseCapsLenient_small|].
  intros [= <-]. unfold small_caps. lia.
Qed.

Lemma drop_forge c : small_caps c -> small_caps (Z.ldiff c CapForge) /\ Has (Z.ldiff c CapForge) CapForge = false.
Proof.
  intros Hc. apply small_caps_cases in Hc. unfold small_caps.
  destruct_or! Hc; subst; vm_compute; split; try done; split; done.
Qed.

Lemma NewWalletClientAuth_ok {E : Ed25519} k chain e w :
  NewWalletClientAuth k chain e = Ok w -> w = mkWallet None [] None None (Some k) (ed_public k) chain e.
Proof. unfold NewWalletClientAuth. intros (? & _ & (? & _ & [= <-])%bind_ok)%bind_ok. done. Qed.

(** ** The gateway under concurrent requests

    Requests are served concurrently; a login callback holds the mutex twice,
    so between its check and its authorisation any other step may happen.
    [flying] are the callbacks that have checked and not yet authorised. *)

Record gstate := mkG { gw : webGateway; flying : list (bytes * WalletAuth) }.

Section machine.
Context {E : Ed25519} {P : PeerIds}.

(** What the generators and the clock deliver: a 16-byte nonce, a year of
    four digits, and a token no live login or callback uses. *)
Definition drawn_ok (s : gstate) (now : Z) (d : draws) : Prop :=
  (forall n, d_nonce d = Some n -> len n = nonceSize) /\
  four_digit_year (now - Minute) /\ four_digit_year (now + g_delegationTTL (gw s)) /\
  forall t, newLoginToken (d_token d) = Some t -> logins (gw s) !! t = None /\ forall w, (t, w) ∉ flying s.

Inductive gstep (s : gstate) : gstate -> Prop :=
| GPrepare now d body :
    drawn_ok s now d -> gstep s (mkG (fst (handleLoginPrepare (gw s) now d body)) (flying s))
| GCheck now body g :
    login_check (gw s) now body = g ->
    gstep s (mkG (fst g) (match snd g with Ok tw => tw :: flying s | Err _ => flying s end))
| GAuthorize pre t w post :
    flying s = pre ++ (t, w) :: post -> gstep s (mkG (authorizeLogin (gw s) t w) (pre ++ post))
| GSocket now token : gstep s (mkG (fst (handleWS (gw s) now token)) (flying s))
| GGrantPrepare now d body : gstep s (mkG (fst (handleGrantPrepare (gw s) now d body)) (flying s))
| GGrantCallback now body : gstep s (mkG (fst (handleGrantCallback (gw s) now body)) (flying s)).

(** [ls] was prepared for some wallet, at a time [t], without the forge
    capability, for the gateway's session or the one asked for. *)
Definition minted (g : webGateway) (ls : loginSession) (m : Fields) (t : Z) : Prop :=
  (exists delegator caps nonce,
     m = mint_fields (l_sessionKey ls) delegator (ed_public (connKey ls)) caps t (g_delegationTTL g) nonce /\
     Has caps CapForge = false) /\
  fields_ok m /\ content ls = Render m /\ expires ls = t + g_delegationTTL g /\
  (if g_multiSession g then sessionTarget (l_sessionKey ls) = Some (l_target ls)
   else l_sessionKey ls = g_sessionKey g /\ l_target ls = g_target g).

(** The authenticator of a login: the prepared text under a valid signature. *)
Definition signed_login (ls : loginSession) (m : Fields) (w : WalletAuth) : Prop :=
  exists sig, w = mkWallet None [] None None (Some (connKey ls)) (ed_public (connKey ls))
                    [mkDelegation (content ls) sig] (Some (l_sessionKey ls)) /\
    Verify (mkDelegation (content ls) sig) = Ok (truncated m).

Definition ginv (s : gstate) : Prop :=
  (g_multiSession (gw s) = false -> len (g_sessionKey (gw s)) = PublicKeySize) /\
  forall t ls, logins (gw s) !! t = Some ls ->
    exists m at_, minted (gw s) ls m at_ /\
      (forall w, authed ls = Some w -> signed_login ls m w) /\
      (forall w, (t, w) ∈ flying s -> signed_login ls m w).

Definition config (g : webGateway) : bytes * bool * bool * bytes * Z :=
  (g_target g, g_walletLogin g, g_multiSession g, g_sessionKey g, g_delegationTTL g).

(** Same configuration, and no login that was not there. *)
Definition shrinks (g g' : webGateway) : Prop := config g' = config g /\ logins g' ⊆ logins g.

Lemma minted_config g g' ls m t : config g' = config g -> minted g ls m t -> minted g' ls m t.
Proof.
  unfold config, minted. intros [= -> _ -> -> ->]. done.
Qed.

Lemma ginv_shrinks s g' fl :
  ginv s -> shrinks (gw s) g' -> (forall x, x ∈ fl -> x ∈ flying s) -> ginv (mkG g' fl).
Proof.
  intros [Hk Hl] [Hc Hs] Hf. split; cbn [gw flying].
  - destruct (gw s), g'. cbn in *. injection Hc as -> -> -> -> ->. done.
  - intros t ls Ht. destruct (Hl t ls) as (m & at_ & Hm & Ha & Hfl); [by eapply lookup_weaken|].
    exists m, at_. split; [by eapply minted_config|]. split; [done|]. intros w Hw. by apply Hfl, Hf.
Qed.

Lemma getLogin_shrinks g now t : shrinks g (fst (getLogin g now t)).
Proof.
  unfold getLogin. destruct (logins g !! t); [|by split]. case_match; [|by split].
  split; [done|]. apply delete_subseteq.
Qed.

Lemma getLogin_some g now t g' ls :
  getLogin g now t = (g', Some ls) -> g' = g /\ logins g !! t = Some ls /\ now <= expires ls.
Proof.
  unfold getLogin. destruct (logins g !! t) as [ls0|]; [|done]. case_match eqn:Ha; [done|].
  intros [= <- <-]. unfold After in Ha. go_bool. done.
Qed.

Lemma takeGrant_shrinks g now t : shrinks g (fst (takeGrant g now t)).
Proof. unfold takeGrant. repeat case_match; by split. Qed.

Lemma handleWS_shrinks g now t : shrinks g (fst (handleWS g now t)).
Proof.
  unfold handleWS. destruct (g_walletLogin g); [|by split].
  pose proof (getLogin_shrinks g now t) as Hs. destruct (getLogin g now t) as [g' [[? ? ? ? [w|] ?]|]]; exact Hs.
Qed.

Lemma grant_handlers_shrink g now d body body' :
  shrinks g (fst (handleGrantPrepare g now d body)) /\ shrinks g (fst (handleGrantCallback g now body')).
Proof.
  split.
  - unfold handleGrantPrepare. destruct (grant_prepare _ _ _ _) as [[t p]|]; by split.
  - unfold handleGrantCallback. destruct (decode_request body' get_callback) as [[t s]|]; [|by split].
    pose proof (takeGrant_shrinks g now t) as Hs. destruct (takeGrant g now t) as [g' [p|]]; exact Hs.
Qed.

Lemma login_prepare_minted {EL : Ed25519Laws E} s now d body t ls :
  (g_multiSession (gw s) = false -> len (g_sessionKey (gw s)) = PublicKeySize) ->
  drawn_ok s now d -> login_prepare (gw s) now d body = Ok (t, ls) ->
  newLoginToken (d_token d) = Some t /\ authed ls = None /\ exists m, minted (gw s) ls m now.
Proof.
  intros Hkey (Hn & Hy & Hy' & _). unfold login_prepare.
  intros ([[wal cs] se] & _ & (delegator & Hd%or_fail_ok & ([sk tg] & Hs & H)%bind_ok)%bind_ok)%bind_ok.
  apply bind_ok in H as (caps & Hc & (key & _ & (nonce & Hno%or_resp_ok & (tok & Ht%or_resp_ok & [= <- <-])%bind_ok)%bind_ok)%bind_ok).
  split; [done|]. split; [done|]. apply parse_req_caps_small, drop_forge in Hc as [Hc Hfg].
  eexists. split_and!; [by eexists _, _, _| | |done|]; cbn [content l_sessionKey l_target connKey]; [|reflexivity|].
  - apply mint_ok; [|by eapply ParseAddress_len|apply ed_public_size|done|done|done|by apply Hn].
    unfold login_session in Hs. destruct (g_multiSession (gw s)) eqn:Em.
    + apply bind_ok in Hs as (k & Hk%or_fail_ok & (? & _ & [= <- <-])%bind_ok). by eapply ParseAddress_len.
    + injection Hs as <- <-. by apply Hkey.
  - unfold login_session in Hs. destruct (g_multiSession (gw s)).
    + apply bind_ok in Hs as (k & _ & (tg' & Ht'%or_resp_ok & [= <- <-])%bind_ok). done.
    + by injection Hs as <- <-.
Qed.

Lemma login_check_ok g now body g' t w :
  login_check g now body = (g', Ok (t, w)) ->
  g' = g /\ exists ls sig f, logins g !! t = Some ls /\ now <= expires ls /\
    w = mkWallet None [] None None (Some (connKey ls)) (ed_public (connKey ls))
          [mkDelegation (content ls) sig] (Some (l_sessionKey ls)) /\
    Verify (mkDelegation (content ls) sig) = Ok f.
Proof.
  unfold login_check. destruct (decode_request body get_callback) as [[t0 sb]|]; [|done].
  destruct (getLogin g now t0) as [g0 [ls|]] eqn:Hg; [|done]. apply getLogin_some in Hg as (-> & Hl & Hx).
  intros [= <- H]. split; [done|].
  apply bind_ok in H as (sig & _ & (f & Hv%or_fail_ok & (w' & Hw%or_fail_ok & [= <- <-])%bind_ok)%bind_ok).
  exists ls, sig, f. split_and!; try done. by apply NewWalletClientAuth_ok.
Qed.

Lemma login_check_shrinks g now body : shrinks g (fst (login_check g now body)).
Proof.
  unfold login_check. destruct (decode_request body get_callback) as [[t sb]|]; [|by split].
  pose proof (getLogin_shrinks g now t) as Hs. destruct (getLogin g now t) as [g' [ls|]]; exact Hs.
Qed.

Lemma ginv_step {EL : Ed25519Laws E} s s' : ginv s -> gstep s s' -> ginv s'.
Proof.
  intros Hi Hst. destruct Hst as [now d body Hd|now body g Hg|pre t w post Hf|now t|now d body|now body].
  - unfold handleLoginPrepare. destruct (login_prepare (gw s) now d body) as [[t ls]|] eqn:Hp; [|by destruct s].
    destruct (login_prepare_minted s now d body t ls (proj1 Hi) Hd Hp) as (Ht & Ha & m & Hm).
    destruct Hi as [Hk Hl]. destruct Hd as (_ & _ & _ & Hfr). destruct (Hfr t Ht) as [_ Hfly]. split; [done|].
    cbn [fst gw flying putLogin set_logins logins].
    intros t' ls' [[<- <-]|[Hne Hx]]%lookup_insert_Some; [|exact (Hl t' ls' Hx)].
    exists m, now. split; [done|]. split; [by rewrite Ha|]. intros w Hw. by apply Hfly in Hw.
  - subst g. pose proof (login_check_shrinks (gw s) now body) as Hs.
    destruct (login_check (gw s) now body) as [g' [[t w]|r]] eqn:Hc; cbn [fst snd] in *; [|by eapply ginv_shrinks].
    apply login_check_ok in Hc as (-> & ls & sig & f & Hl & _ & Hw & Hv).
    destruct Hi as [Hk Hi]. split; [done|]. cbn [gw flying]. intros t' ls' Ht'.
    destruct (Hi t' ls' Ht') as (m & at_ & Hm & Ha & Hfl). exists m, at_. split; [done|]. split; [done|].
    intros w' [[= -> ->]|Hin]%elem_of_cons; [|by apply Hfl]. simplify_eq. exists sig. split; [done|].
    rewrite Hv. f_equal. destruct Hm as (_ & Hok & Hcon & _). rewrite Hcon in Hv. by eapply Verify_minted.
  - unfold authorizeLogin. destruct (logins (gw s) !! t) as [ls|] eqn:Hl.
    + destruct Hi as [Hk Hi]. split; [done|]. cbn [gw flying putLogin set_logins logins].
      intros t' ls' [[<- <-]|[Hne Hx]]%lookup_insert_Some.
      * destruct (Hi t ls Hl) as (m & at_ & Hm & Ha & Hfl). exists m, at_. split; [done|].
        split; [|intros w' Hw'; apply Hfl; rewrite Hf; set_solver].
        cbn [authed]. intros w' [= <-]. apply Hfl. rewrite Hf. set_solver.
      * destruct (Hi t' ls' Hx) as (m & at_ & Hm & Ha & Hfl). exists m, at_. split; [done|]. split; [done|].
        intros w' Hw'. apply Hfl. rewrite Hf. set_solver.
    + eapply ginv_shrinks; [done|by split|]. rewrite Hf. set_solver.
  - eapply ginv_shrinks; [done|apply handleWS_shrinks|done].
  - eapply ginv_shrinks; [done|exact (proj1 (grant_handlers_shrink _ now d body []))|done].
  - eapply ginv_shrinks; [done|exact (proj2 (grant_handlers_shrink _ now (mkDraws None None None) [] body))|done].
Qed.

(** A gateway in wallet-login mode as runWeb starts it. *)
Definition fresh_gateway (g : webGateway) : Prop :=
  g_walletLogin g = true /\ logins g = ∅ /\
  (g_multiSession g = false -> len (g_sessionKey g) = PublicKeySize).

Lemma config_reachable s s' : rtc gstep s s' -> config (gw s) = config (gw s').
Proof.
  induction 1 as [|x y z Hxy _ IH]; [done|]. rewrite <- IH. symmetry.
  destruct Hxy as [now d body _|now body g <-|pre t w post _|now t|now d body|now body]; cbn [gw].
  - unfold handleLoginPrepare. by destruct (login_prepare _ _ _ _) as [[t ls]|].
  - exact (proj1 (login_check_shrinks (gw x) now body)).
  - unfold authorizeLogin. by case_match.
  - exact (proj1 (handleWS_shrinks (gw x) now t)).
  - exact (proj1 (proj1 (grant_handlers_shrink _ now d body []))).
  - exact (proj1 (proj2 (grant_handlers_shrink _ now (mkDraws None None None) [] body))).
Qed.

Lemma ginv_reachable {EL : Ed25519Laws E} g s :
  fresh_gateway g -> rtc gstep (mkG g []) s -> ginv s.
Proof.
  intros (_ & Hl & Hk) Hr. remember (mkG g []) as s0 eqn:E0.
  assert (ginv s0) as H0.
  { subst s0. split; [done|]. cbn [gw flying]. intros t ls. by rewrite Hl, lookup_empty. }
  clear E0. induction Hr as [|x y z Hxy _ IH]; [done|]. apply IH. by eapply ginv_step.
Qed.
End machine.

(** A login that an honest wallet signs is authorised. *)
Lemma honest_callback {E : Ed25519} {EL : Ed25519Laws E} g now body token ls priv m at_ {P : PeerIds} :
  logins g !! token = Some ls -> now <= expires ls -> minted g ls m at_ -> len (connKey ls) = PrivateKeySize ->
  Delegator m = ed_public priv ->
  decode_request body get_callback = Ok (token, EncodeBase58 (ed_sign priv (content ls))) ->
  handleLoginCallback g now body =
    (authorizeLogin g token (mkWallet None [] None None (Some (connKey ls)) (ed_public (connKey ls))
       [Sign priv m] (Some (l_sessionKey ls))), status_ok).
Proof.
  intros Hl Hx (_ & Hok & Hc & _) Hk Hd Hb. unfold handleLoginCallback, login_check. rewrite Hb.
  assert (getLogin g now token = (g, Some ls)) as ->.
  { unfold getLogin, After. rewrite Hl. destruct (expires ls <? now) eqn:Ex; [go_bool; lia|done]. }
  assert (base58Sig (EncodeBase58 (ed_sign priv (content ls))) = Ok (ed_sign priv (content ls))) as ->.
  { unfold base58Sig, DecodeBase58, EncodeBase58. pose proof (ed_sign_size priv (content ls)) as Hs.
    rewrite base58_decode_encode; [|intros Hnil; by rewrite Hnil in Hs]. cbn [map_err mbind res_bind]. by rewrite Hs. }
  cbn [or_fail mbind res_bind].
  assert (mkDelegation (content ls) (ed_sign priv (content ls)) = Sign priv m) as -> by (unfold Sign; by rewrite Hc).
  rewrite Sign_verifies by done. cbn [or_fail mbind res_bind]. unfold NewWalletClientAuth. rewrite Hk.
  change (PrivateKeySize =? PrivateKeySize) with true. done.
Qed.

(** ** The signing page under any sequence of requests *)

Inductive page_request := RqPrepare (now : Z) (nonce : option bytes) (body : bytes) | RqCallback (body : bytes).

Definition page_step {E : Ed25519} (a : authorizer) (r : page_request) : authorizer :=
  match r with
  | RqPrepare now nonce body => fst (handlePrepare a now nonce body)
  | RqCallback body => fst (handleCallback a body)
  end.

(** The state field a request carries. *)
Definition request_state (r : page_request) : option bytes :=
  v ← Decode (match r with RqPrepare _ _ body | RqCallback body => body end); get_string (str "state") v.

(** A request without the page's secret state changes nothing. *)
Lemma page_step_wrong_state {E : Ed25519} a r : request_state r <> Some (a_state a) -> page_step a r = a.
Proof.
  unfold request_state. destruct r as [now nonce body|body]; intros Hst; cbn [page_step];
    unfold handlePrepare, handleCallback, decode_request; destruct (Decode body) as [v|]; try done;
    cbn [mbind option_bind] in *; destruct (get_string (str "state") v) as [st|]; try done; cbn [mbind option_bind].
  - destruct (get_string (str "wallet") v); [|done]. cbn. by rewrite bool_decide_eq_false_2 by congruence.
  - destruct (get_string (str "signature_base58") v); [|done]. cbn. by rewrite bool_decide_eq_false_2 by congruence.
Qed.

(** The clock and the nonce generator behave. *)
Definition request_ok (a : authorizer) (r : page_request) : Prop :=
  match r with
  | RqPrepare now nonce _ => four_digit_year (now - Minute) /\ four_digit_year (now + a_expires a) /\
                             forall n, nonce = Some n -> len n = nonceSize
  | RqCallback _ => True
  end.

(** The text on offer, and the result, are for this request's session,
    delegate and capabilities. *)
Definition page_fields (a : authorizer) (m : Fields) : Prop :=
  fields_ok m /\ SessionID m = a_session a /\ Delegate m = a_delegate a /\ FCaps m = a_caps a.

Definition page_inv {E : Ed25519} (a : authorizer) : Prop :=
  (forall c, a_content a = Some c -> exists m, page_fields a m /\ c = Render m) /\
  (forall r, a_done a = Some (Ok r) -> exists m sig, page_fields a m /\
     DecodeChain (az_chain r) = Ok [mkDelegation (Render m) sig] /\
     Verify (mkDelegation (Render m) sig) = Ok (truncated m) /\ az_signer r = Address (Delegator m)).

Definition request_params (a : authorizer) : bytes * bytes * WCaps * Z * bytes :=
  (a_session a, a_delegate a, a_caps a, a_expires a, a_state a).

Lemma page_step_params {E : Ed25519} a r : request_params (page_step a r) = request_params a.
Proof.
  destruct r as [now nonce body|body]; cbn [page_step].
  - unfold handlePrepare. by case_match.
  - unfold handleCallback. case_match; [|done]. case_match. unfold finish. repeat case_match; done.
Qed.

Lemma page_inv_finish {E : Ed25519} a r :
  page_inv a -> (forall x, r = Ok x -> exists m sig, page_fields a m /\
     DecodeChain (az_chain x) = Ok [mkDelegation (Render m) sig] /\
     Verify (mkDelegation (Render m) sig) = Ok (truncated m) /\ az_signer x = Address (Delegator m)) ->
  page_inv (finish a r).
Proof.
  intros Hi Hr. unfold finish. destruct (a_done a) eqn:Ed; [exact Hi|]. destruct Hi as [Hc _].
  split; [done|]. cbn [a_done]. intros x [= ->]. by apply Hr.
Qed.

Lemma page_inv_step {E : Ed25519} a r :
  len (a_session a) = PublicKeySize -> len (a_delegate a) = PublicKeySize -> small_caps (a_caps a) ->
  request_ok a r -> page_inv a -> page_inv (page_step a r).
Proof.
  intros Hs Hd Hc Hr Hi. destruct r as [now nonce body|body]; cbn [page_step].
  - unfold handlePrepare. match goal with |- context [match ?x with _ => _ end] => destruct x as [c|] eqn:Hp end; [|done].
    apply bind_ok in Hp as ([st w] & _ & (? & _ & (dl & Hdl%or_fail_ok & (n & Hn%or_resp_ok & [= <-])%bind_ok)%bind_ok)%bind_ok).
    destruct Hi as [_ Hdone]. destruct Hr as (Hy & Hy' & Hno). split; [|exact Hdone].
    cbn [fst set_content a_content]. intros c [= <-]. eexists. split; [|reflexivity].
    split; [|done]. apply mint_ok; try done; [by eapply ParseAddress_len|by apply Hno].
  - unfold handleCallback. match goal with |- context [match ?x with Ok _ => _ | Err _ => _ end] => destruct x as [[c sb]|] eqn:Hp end;
      [|done].
    apply bind_ok in Hp as ([st s'] & _ & (? & _ & (c' & Hcc%or_resp_ok & [= <- <-])%bind_ok)%bind_ok).
    destruct (base58Sig s') as [sig|e]; [|by apply page_inv_finish].
    destruct (Verify (mkDelegation c' sig)) as [f|e] eqn:Hv; [|by apply page_inv_finish].
    destruct (EncodeChain [mkDelegation c' sig]) as [chain|] eqn:He; [|by apply page_inv_finish].
    cbn [fst]. apply page_inv_finish; [done|]. intros y [= <-]. cbn [az_chain az_signer].
    destruct Hi as [Hcont _]. destruct (Hcont _ Hcc) as (m & Hm & ->). exists m, sig.
    pose proof (Verify_minted m sig f (proj1 Hm) Hv) as ->. split_and!; try done. by apply DecodeChain_EncodeChain.
Qed.

(** ** The claims *)

(** C18: a browser's terminal always runs under a login its wallet signed.
    Take a gateway in wallet-login mode and any interleaving of login and
    grant requests, with their callbacks split at the mutex, from its start.
    If a WebSocket is bridged, then it is over an authenticator that presents
    exactly one delegation: signed by the wallet it names, from that wallet to
    the connection key the gateway minted for this login, for the session the
    login asked for (the gateway's own unless it serves many), without the
    forge capability, and issued no longer than the delegation's lifetime
    ago. *)
Theorem web_socket_needs_signed_login {E : Ed25519} {EL : Ed25519Laws E} {P : PeerIds} g s now token g' a target
  (Hg : fresh_gateway g) (Hrun : rtc gstep (mkG g []) s)
  (Hws : handleWS (gw s) now token = (g', Ok (a, target))) :
  exists key session sig f at_,
    a = Some (mkWallet None [] None None (Some key) (ed_public key) [mkDelegation (Render f) sig] (Some session)) /\
    Verify (mkDelegation (Render f) sig) = Ok (truncated f) /\
    SessionID f = session /\ Delegate f = ed_public key /\ Has (FCaps f) CapForge = false /\
    NotBefore f = at_ - Minute /\ NotAfter f = at_ + g_delegationTTL g /\ now <= at_ + g_delegationTTL g /\
    (if g_multiSession g then sessionTarget session = Some target else session = g_sessionKey g /\ target = g_target g).
Proof.
  pose proof (ginv_reachable g s Hg Hrun) as [_ Hinv]. destruct Hg as (Hlogin & _).
  assert (config (gw s) = config g) as Hc by (symmetry; exact (config_reachable _ _ Hrun)).
  assert (g_walletLogin (gw s) = true) as Hl' by (unfold config in Hc; congruence).
  unfold handleWS in Hws. rewrite Hl' in Hws.
  destruct (getLogin (gw s) now token) as [g0 [ls|]] eqn:Hget; [|done].
  apply getLogin_some in Hget as (-> & Hls & Hx). destruct ls as [key c session tg [w|] ex]; [|done].
  injection Hws as _ <- <-. destruct (Hinv _ _ Hls) as (m & at_ & Hm & Ha & _).
  destruct (Ha w eq_refl) as (sig & -> & Hv). destruct Hm as ((dl & caps & nonce & Em & Hf) & Hok & Hcont & Hexp & Hses).
  cbn [content connKey l_sessionKey l_target expires] in *. subst c m.
  assert (g_delegationTTL (gw s) = g_delegationTTL g /\ g_multiSession (gw s) = g_multiSession g /\
    g_sessionKey (gw s) = g_sessionKey g /\ g_target (gw s) = g_target g) as (Et & Em & Ek & Eg)
    by (unfold config in Hc; split_and!; congruence).
  rewrite Em, Ek, Eg in Hses. rewrite Et in *. subst ex.
  exists key, session, sig, (mint_fields session dl (ed_public key) caps at_ (g_delegationTTL g) nonce), at_.
  split_and!; try done.
Qed.

(** A grant token works once.  Whatever a grant callback answers, its
    token is spent; it answers with a grant only when the token was pending
    and at most an hour old, and then the blob decodes to the one prepared
    delegation, under a signature that verifies for its delegator. *)
Theorem web_grant_token_once {E : Ed25519} g now body g' r token sigB58
  (Hreq : decode_request body get_callback = Ok (token, sigB58))
  (Hcb : handleGrantCallback g now body = (g', r)) :
  g_grants g' !! token = None /\
  (forall t, t <> token -> g_grants g' !! t = g_grants g !! t) /\
  forall v, r = JSON v -> exists p sig blob f,
    g_grants g !! token = Some p /\ now <= p_expires p /\
    v = JObj [(str "grant_base64", JStr (EncodeToString blob))] /\
    DecodeChain blob = Ok [mkDelegation (p_content p) sig] /\ base58Sig sigB58 = Ok sig /\
    Verify (mkDelegation (p_content p) sig) = Ok f.
Proof.
  unfold handleGrantCallback in Hcb. rewrite Hreq in Hcb. unfold takeGrant in Hcb.
  assert (g_grants g' = delete token (g_grants g)) as Hd.
  { destruct (g_grants g !! token) as [p|]; [destruct (After now (p_expires p))|]; by injection Hcb as <- _. }
  rewrite Hd. split_and!; [apply lookup_delete_eq|intros t Ht; by apply lookup_delete_ne|].
  intros v ->. destruct (g_grants g !! token) as [p|]; [|simplify_eq].
  unfold After in Hcb. destruct (p_expires p <? now) eqn:Hx; [simplify_eq|]. go_bool.
  destruct (or_fail (base58Sig sigB58) _) as [sig|] eqn:Hs; cbn [mbind res_bind] in Hcb;
    [apply or_fail_ok in Hs|unfold or_fail in Hs; case_match; simplify_eq].
  destruct (Verify (mkDelegation (p_content p) sig)) as [f|] eqn:Hv; cbn [or_fail mbind res_bind] in Hcb; [|simplify_eq].
  destruct (EncodeChain [mkDelegation (p_content p) sig]) as [blob|] eqn:Hb; cbn [or_fail] in Hcb; [|simplify_eq].
  injection Hcb as _ <-. exists p, sig, blob, f. split_and!; try done. by apply DecodeChain_EncodeChain.
Qed.

(** An honest wallet gets a terminal.  If the gateway prepared a login and
    the wallet named in the prepared text signs it and answers in time, the
    callback says ok, and a WebSocket with that token is bridged over an
    authenticator for which the wallet handshake completes against any server
    of the session whose fresh snapshot gives the wallet at least the
    capabilities the text names, while the delegation is valid; the server
    then sees the wallet's address with exactly those capabilities. *)
Theorem web_login_admits {E : Ed25519} {EL : Ed25519Laws E} {P : PeerIds}
  g now d body token ls f priv now2 body2 now3
  sessionKey src snap limiter held o clock nonceC nonceS
  (Hd : drawn_ok (mkG g []) now d)
  (Hg : g_multiSession g = false -> len (g_sessionKey g) = PublicKeySize) (Hwl : g_walletLogin g = true)
  (Hprep : login_prepare g now d body = Ok (token, ls)) (Hkey : len (connKey ls) = PrivateKeySize)
  (Hparse : ParseContent (content ls) = Ok f) (Hpriv : Delegator f = ed_public priv)
  (Hbody : decode_request body2 get_callback = Ok (token, EncodeBase58 (ed_sign priv (content ls))))
  (H2 : now2 <= expires ls) (H3 : now3 <= expires ls)
  (Hsess : l_sessionKey ls = ed_public sessionKey)
  (Hsnap : SnapshotNow src = Ok (snap, true)) (Hauth : root_authority snap (ed_public priv) held o)
  (Hsub : Subset (FCaps f) held = true) (Hlive : NotBefore f <= clock 0%nat <= NotAfter f)
  (HnC : len nonceC = walletNonceSize) (HnS : len nonceS = walletNonceSize) :
  exists g1 g2 g3 w i,
    handleLoginPrepare g now d body = (g1, prepared token (content ls)) /\
    handleLoginCallback g1 now2 body2 = (g2, status_ok) /\
    handleWS g2 now3 token = (g3, Ok (Some w, l_target ls)) /\
    duet (WalletClientHandshake w (Some nonceC))
         (WalletServerHandshake (mkWallet (Some sessionKey) (ed_public sessionKey) (Some src) limiter None [] [] None)
            clock (Some nonceS)) =
      Some (Ok i, (limiter, Ok (wallet_identity (FCaps f) o (ed_public priv)))).
Proof.
  destruct (login_prepare_minted (mkG g []) now d body token ls Hg Hd Hprep) as (_ & Ha & m & Hm). cbn [gw] in Hm.
  pose proof Hm as ((dl & caps & nonce & Em & _) & Hok & Hcon & _).
  rewrite Hcon, ParseContent_Render in Hparse by done. injection Hparse as <-.
  set (g1 := putLogin g token ls).
  assert (logins g1 !! token = Some ls) as Hl by (unfold g1; cbn; apply lookup_insert_eq).
  assert (minted g1 ls m now) as Hm1 by (by eapply minted_config).
  pose proof (honest_callback g1 now2 body2 token ls priv m now Hl H2 Hm1 Hkey Hpriv Hbody) as Hcb.
  set (w := mkWallet _ _ _ _ _ _ _ _) in Hcb.
  destruct (Fold_signed priv (ed_public sessionKey) (ed_public (connKey ls)) caps now (g_delegationTTL g) nonce snap held o (clock 0%nat))
    as [Hfold Hroot].
  { subst m. rewrite Hsess in Hok. cbn in Hpriv. subst dl. exact Hok. }
  { done. }
  { by subst m. }
  { subst m. exact Hlive. }
  assert (Sign priv m = Sign priv (mint_fields (ed_public sessionKey) (ed_public priv) (ed_public (connKey ls)) caps now
    (g_delegationTTL g) nonce)) as HS by (subst m; rewrite Hsess; cbn in Hpriv; by subst dl).
  destruct (wallet_duet (connKey ls) [Sign priv m] (Some (ed_public sessionKey)) sessionKey src snap limiter clock nonceC nonceS
    caps o (ed_public priv)) as (i & Hdu & _); [by right|done|done|done|by rewrite HS|by rewrite HS|].
  exists g1, (authorizeLogin g1 token w), (authorizeLogin g1 token w), w, i. split_and!.
  - unfold handleLoginPrepare. by rewrite Hprep.
  - exact Hcb.
  - unfold authorizeLogin. rewrite Hl. unfold handleWS. cbn [g_walletLogin putLogin set_logins].
    assert (g_walletLogin g1 = true) as -> by done. unfold getLogin. cbn [logins putLogin set_logins].
    rewrite lookup_insert_eq. cbn [expires]. unfold After. destruct (expires ls <? now3) eqn:Ex; [go_bool; lia|]. done.
  - unfold w. rewrite Hsess. subst m. exact Hdu.
Qed.

(** The signing page only ever delivers what was signed.  Whatever
    requests reach it, in whatever order, the page's parameters stay, a
    request without its secret state changes nothing, and if a chain comes out
    it holds one delegation for the session, delegate and capabilities of the
    command line, under a valid signature of the wallet reported as signer. *)
Theorem sign_page_delivers_signed {E : Ed25519} session delegate caps expires rnd a0 reqs a r
  (Hs : len session = PublicKeySize) (Hd : len delegate = PublicKeySize) (Hc : small_caps caps)
  (Hnew : newAuthorizer session delegate caps expires rnd = Some a0)
  (Hreqs : Forall (request_ok a0) reqs) (Ha : foldl page_step a0 reqs = a)
  (Hdone : a_done a = Some (Ok r)) :
  request_params a = request_params a0 /\
  (forall b q, request_params b = request_params a0 -> request_state q <> Some (a_state a0) -> page_step b q = b) /\
  exists f sig, DecodeChain (az_chain r) = Ok [mkDelegation (Render f) sig] /\
    Verify (mkDelegation (Render f) sig) = Ok (truncated f) /\
    SessionID f = session /\ Delegate f = delegate /\ FCaps f = caps /\ az_signer r = Address (Delegator f).
Proof.
  unfold newAuthorizer in Hnew. destruct rnd as [rb|]; [|done]. cbn in Hnew. injection Hnew as <-.
  set (a0 := mkAuthorizer _ _ _ _ _ _ _) in *.
  assert (forall b, request_params b = request_params a0 -> page_inv b ->
    request_params (foldl page_step b reqs) = request_params a0 /\ page_inv (foldl page_step b reqs)) as Hgen.
  { clear Ha Hdone a. induction Hreqs as [|x reqs Hx _ IH]; intros b Hb Hi; [done|]. cbn [foldl].
    assert (a_session b = session /\ a_delegate b = delegate /\ a_caps b = caps /\ a_expires b = expires)
      as (E1 & E2 & E3 & E4) by (unfold request_params in Hb; cbn in Hb; split_and!; congruence).
    apply IH; [by rewrite page_step_params|]. apply page_inv_step; try congruence.
    destruct x; [|done]. cbn [request_ok] in *. by rewrite E4. }
  destruct (Hgen a0 eq_refl) as [Hpar Hinv]; [by split|]. rewrite Ha in Hpar, Hinv. split; [done|].
  split. { intros b q Hb Hq. apply page_step_wrong_state. unfold request_params in Hb. congruence. }
  destruct (proj2 Hinv r Hdone) as (f & sig & (_ & F1 & F2 & F3) & Hdec & Hv & Hsig).
  assert (a_session a = session /\ a_delegate a = delegate /\ a_caps a = caps) as (E1 & E2 & E3)
    by (unfold request_params in Hpar; cbn in Hpar; split_and!; congruence).
  exists f, sig. split_and!; congruence.
Qed.

(** ** Witnesses: one wallet, one login, one grant *)

Definition text_peers : PeerIds := {| peer_id_text k := Some (Address k) |}.
#[local] Existing Instance text_peers.

Definition demo_gw : webGateway := mkGateway (str "/p2p/host") true false (key_of x05) Hour ∅ ∅.
Definition demo_draws : draws :=
  mkDraws (Some (replicate 64 x0c)) (Some (replicate 16 x01)) (Some (replicate 16 x02)).
Definition demo_token : bytes := hexEncode (replicate 16 x02).
Definition demo_fields : Fields :=
  mint_fields (key_of x05) (key_of x06) (key_of x0c) 1 t0 Hour (replicate 16 x01).

Definition prepare_body : bytes :=
  Marshal (JObj [(str "wallet", JStr (Address (key_of x06))); (str "caps", JStr (str "write,forge"))]).

Definition callback_body (token signature : bytes) : bytes :=
  Marshal (JObj [(str "token", JStr token); (str "signature_base58", JStr (EncodeBase58 signature))]).

Definition demo_sig : bytes := ed_sign (key_of x06) (Render demo_fields).
Definition demo_login : loginSession :=
  mkLogin (replicate 64 x0c) (Render demo_fields) (key_of x05) (str "/p2p/host") None (t0 + Hour).
Definition demo_w : WalletAuth :=
  mkWallet None [] None None (Some (replicate 64 x0c)) (key_of x0c) [mkDelegation (Render demo_fields) demo_sig]
    (Some (key_of x05)).

Definition demo_s1 : gstate := mkG (fst (handleLoginPrepare demo_gw t0 demo_draws prepare_body)) [].
Definition demo_check := login_check (gw demo_s1) (t0 + 1) (callback_body demo_token demo_sig).
Definition demo_s2 : gstate :=
  mkG (fst demo_check) (match snd demo_check with Ok tw => [tw] | Err _ => [] end).
Definition demo_s3 : gstate := mkG (authorizeLogin (gw demo_s2) demo_token demo_w) [].

Lemma demo_drawn : drawn_ok (mkG demo_gw []) t0 demo_draws.
Proof.
  split; [by intros n [= <-]|]. split; [vm_compute; split; discriminate|]. split; [vm_compute; split; discriminate|].
  intros t _. split; [apply lookup_empty|]. intros w Hw. by apply elem_of_nil in Hw.
Qed.

Lemma demo_run : rtc gstep (mkG demo_gw []) demo_s3.
Proof.
  eapply rtc_l; [exact (GPrepare (mkG demo_gw []) t0 demo_draws prepare_body demo_drawn)|].
  eapply rtc_l; [exact (GCheck demo_s1 (t0 + 1) (callback_body demo_token demo_sig) demo_check eq_refl)|].
  eapply rtc_l; [|apply rtc_refl].
  apply (GAuthorize demo_s2 [] demo_token demo_w []). vm_compute. reflexivity.
Qed.

Lemma web_socket_needs_signed_login_witness :
  exists g' sig f, handleWS (gw demo_s3) (t0 + 2) demo_token = (g', Ok (Some demo_w, str "/p2p/host")) /\
    Verify (mkDelegation (Render f) sig) = Ok (truncated f) /\ Has (FCaps f) CapForge = false.
Proof.
  destruct (handleWS (gw demo_s3) (t0 + 2) demo_token) as [g' r] eqn:Hws.
  assert (r = Ok (Some demo_w, str "/p2p/host")) as Hr.
  { change r with (snd (g', r)). rewrite <- Hws. vm_compute. reflexivity. }
  rewrite Hr in Hws.
  destruct (web_socket_needs_signed_login demo_gw demo_s3 (t0 + 2) demo_token g' (Some demo_w) (str "/p2p/host"))
    as (key & session & sig & f & at_ & _ & Hv & _ & _ & Hf & _).
  - split; [reflexivity|]. split; [reflexivity|]. intros _. reflexivity.
  - exact demo_run.
  - exact Hws.
  - exists g', sig, f. split; [rewrite Hr; reflexivity|]. split; [exact Hv|exact Hf].
Defined.

Definition demo_pending : webGateway :=
  mkGateway (str "/p2p/host") true false (key_of x05) Hour ∅ {[demo_token := mkPending (Render demo_fields) (t0 + Hour)]}.

Lemma web_grant_token_once_witness :
  exists g' v, handleGrantCallback demo_pending t0 (callback_body demo_token demo_sig) = (g', JSON v) /\
    g_grants g' !! demo_token = None.
Proof.
  destruct (handleGrantCallback demo_pending t0 (callback_body demo_token demo_sig)) as [g' r] eqn:Hcb.
  assert (exists v, r = JSON v) as [v Hv].
  { change r with (snd (g', r)). rewrite <- Hcb. eexists. vm_compute. reflexivity. }
  exists g', v. split; [rewrite Hv; reflexivity|].
  refine (proj1 (web_grant_token_once demo_pending t0 (callback_body demo_token demo_sig) g' r demo_token
    (EncodeBase58 demo_sig) _ Hcb)). vm_compute. reflexivity.
Defined.

Lemma web_login_admits_witness :
  exists g1 g2 g3 w,
    handleLoginPrepare demo_gw t0 demo_draws prepare_body = (g1, prepared demo_token (Render demo_fields)) /\
    handleLoginCallback g1 (t0 + 1) (callback_body demo_token demo_sig) = (g2, status_ok) /\
    handleWS g2 (t0 + 2) demo_token = (g3, Ok (Some w, str "/p2p/host")).
Proof.
  destruct (web_login_admits demo_gw t0 demo_draws prepare_body demo_token demo_login (truncated demo_fields) (key_of x06)
    (t0 + 1) (callback_body demo_token demo_sig) (t0 + 2) (replicate 64 x05)
    (mkSource (Ok (snap1, true)) (fun _ => Ok None)) snap1 None 7 false (fun _ => t0 + 1)
    (replicate 32 x01) (replicate 32 x02)) as (g1 & g2 & g3 & w & i & H1 & H2 & H3 & _).
  - exact demo_drawn.
  - intros _. reflexivity.
  - reflexivity.
  - vm_compute. reflexivity.
  - reflexivity.
  - vm_compute. reflexivity.
  - vm_compute. reflexivity.
  - vm_compute. reflexivity.
  - vm_compute. discriminate.
  - vm_compute. discriminate.
  - vm_compute. reflexivity.
  - reflexivity.
  - right. split; [vm_compute; discriminate|]. split; vm_compute; reflexivity.
  - vm_compute. reflexivity.
  - vm_compute. split; discriminate.
  - reflexivity.
  - reflexivity.
  - exists g1, g2, g3, w. split; [exact H1|]. split; [exact H2|exact H3].
Defined.

Definition page_a0 : authorizer := mkAuthorizer (key_of x05) (key_of x0c) 1 Hour (hexEncode [x07]) None None.
Definition page_state : bytes * json := (str "state", JStr (hexEncode [x07])).
Definition page_requests : list page_request :=
  [RqPrepare t0 (Some (replicate 16 x01)) (Marshal (JObj [page_state; (str "wallet", JStr (Address (key_of x06)))]));
   RqCallback (Marshal (JObj [page_state; (str "signature_base58", JStr (EncodeBase58 demo_sig))]))].

Lemma sign_page_delivers_signed_witness :
  exists r f sig, a_done (foldl page_step page_a0 page_requests) = Some (Ok r) /\
    DecodeChain (az_chain r) = Ok [mkDelegation (Render f) sig] /\ FCaps f = 1.
Proof.
  destruct (a_done (foldl page_step page_a0 page_requests)) as [[r|e]|] eqn:Hd.
  - destruct (sign_page_delivers_signed (key_of x05) (key_of x0c) 1 Hour (Some [x07]) page_a0 page_requests
      (foldl page_step page_a0 page_requests) r) as (_ & _ & f & sig & Hdec & _ & _ & _ & Hc & _).
    + reflexivity.
    + reflexivity.
    + unfold small_caps. lia.
    + reflexivity.
    + constructor; [|constructor; [exact I|constructor]].
      split; [vm_compute; split; discriminate|]. split; [vm_compute; split; discriminate|]. intros n [= <-]. reflexivity.
    + reflexivity.
    + exact Hd.
    + exists r, f, sig. split; [reflexivity|]. split; [exact Hdec|exact Hc].
  - assert (match a_done (foldl page_step page_a0 page_requests) with Some (Ok _) => true | _ => false end = true) as X
      by (vm_compute; reflexivity). rewrite Hd in X. discriminate.
  - assert (match a_done (foldl page_step page_a0 page_requests) with Some (Ok _) => true | _ => false end = true) as X
      by (vm_compute; reflexivity). rewrite Hd in X. discriminate.
Defined.
