(* ===== verification/SignPage.v ===== *)
(** * The signing command and its page (src/cmd/mosey/wallet.go)

    [mosey wallet sign] serves one page on the loopback interface and waits
    for the signature it brings back.  Gateway.v models the page's handlers;
    here are the command around them, the routes, and the script of the page
    itself ([signPageHTML]): its base58 and hex routines over JavaScript
    BigInt and typed arrays, and [sign], which connects a wallet, fetches the
    text from /prepare, has it signed and posts the signature to /callback.
    The wallet (the browser extension) is an input. *)

From S2P Require Import Prelude Streambuf Varint Queries Identity GoStrings WalletCaps Base58 GoTime Delegation Fold Cert.
From S2P Require Import Handshake AuthWallet Base64 Hex Json Grants WalletFlags Gateway.

(** ** The command *)

(** What the run of the command meets: the state it draws, the address the
    listener got, the requests that reach the page before the five minutes
    are over, and whether the output file can be written. *)
Record sign_env := mkSignEnv {
  sv_rnd : option bytes; sv_listen : option bytes; sv_requests : list page_request; sv_write_ok : bool
}.

Definition page_url (addr : bytes) (a : authorizer) : bytes :=
  str "http://" ++ addr ++ str "/?state=" ++ a_state a.

Section command.
Context {E : Ed25519}.

(** The exit code and the chain written to --out. *)
Definition runWalletSign (args : parsed sign_flags) (env : sign_env) : Z * option bytes :=
  match sign_setup args (sv_rnd env) with
  | Err code => (code, None)
  | Ok a => sign_finish (bool_decide (is_Some (sv_listen env))) (a_done (foldl page_step a (sv_requests env)))
              (sv_write_ok env)
  end.

(** [args]: the first argument, and the flags that follow it. *)
Definition runWallet (args : option (bytes * parsed sign_flags)) (env : sign_env) : Z * option bytes :=
  match args with
  | None => (2, None)
  | Some (sub, rest) => if bool_decide (sub = str "sign") then runWalletSign rest env else (2, None)
  end.
End command.

Inductive page_route := PageIndex | PagePrepare | PageCallback.

(** authorizer.mux: two exact patterns, and "/" for everything else. *)
Definition page_mux (path : bytes) : page_route :=
  if bool_decide (path = str "/prepare") then PagePrepare
  else if bool_decide (path = str "/callback") then PageCallback
  else PageIndex.

(** The command line that opens the URL, by runtime.GOOS. *)
Definition openBrowser (goos url : bytes) : list bytes :=
  if bool_decide (goos = str "darwin") then [str "open"; url]
  else if bool_decide (goos = str "windows") then [str "rundll32"; str "url.dll,FileProtocolHandler"; url]
  else [str "xdg-open"; url].

(** ** The script of the page *)

(** while (n > 0n) { o = ALPHABET[Number(n % 58n)] + o; n /= 58n; } *)
Fixpoint b58_digits (fuel : nat) (n : Z) (o : bytes) : bytes :=
  match fuel with
  | O => o
  | S fuel => if 0 <? n then b58_digits fuel (n / 58) (alphabet_at (n mod 58) :: o) else o
  end.

(** for (const b of bytes) { if (b !== 0) break; o = "1" + o; } *)
Fixpoint b58_ones (bs : bytes) (o : bytes) : bytes :=
  match bs with
  | b :: bs => if negb (b2z b =? 0) then o else b58_ones bs (x31 :: o)
  | [] => o
  end.

(** The loop over a BigInt runs once per base-58 digit: one more than its
    binary logarithm is enough. *)
Definition b58 (bs : bytes) : bytes :=
  let n := fold_left (fun n b => n * 256 + b2z b) bs 0 in
  let o := b58_ones bs (b58_digits (Z.to_nat (Z.log2 n + 1)) n []) in
  if bool_decide (o = []) then str "1" else o.

(** parseInt(c1 + c2, 16) stored in a Uint8Array element; NaN is stored as 0. *)
Definition js_space (c : byte) : bool := bool_decide (c ∈ [x09; x0a; x0b; x0c; x0d; x20]).

Definition parseInt2 (c1 c2 : byte) : byte :=
  match unhexdigit c1, unhexdigit c2 with
  | Some d1, Some d2 => z2b (16 * d1 + d2)
  | Some d1, None => z2b d1
  | None, Some d2 =>
      if js_space c1 || bool_decide (c1 = x2b) then z2b d2
      else if bool_decide (c1 = x2d) then z2b ((256 - d2) mod 256)
      else x00
  | None, None => x00
  end.

Fixpoint hexToBytes (h : bytes) : bytes :=
  match h with
  | c1 :: c2 :: h => parseInt2 c1 c2 :: hexToBytes h
  | _ => []
  end.

(** JSON.stringify of a string (well-formed text), and of an object whose
    values are strings. *)
Definition js_quote (s : bytes) : bytes :=
  [x22] ++ concat (map (fun c => if (b2z c <? 32) || bool_decide (c ∈ [x22; x5c]) then escape c else [c]) s) ++ [x22].

Definition stringify (l : list (bytes * bytes)) : bytes :=
  [x7b] ++ Join (map (fun kv => js_quote kv.1 ++ [x3a] ++ js_quote kv.2) l) [x2c] ++ [x7d].

(** const { name } = await resp.json(): the last member of that name. *)
Definition js_member (name : bytes) (v : json) : option json :=
  match v with
  | JObj l => head (reverse (snd <$> filter (fun kv => kv.1 = name) l))
  | _ => None
  end.

(** The globals wallet extensions inject, providers as object identities:
    window.phantom with its solana; window.solflare; window.backpack with its
    solana and isBackpack; window.solana with isPhantom, isSolflare,
    isBackpack. *)
Record window := mkWindow {
  w_phantom : option (option nat);
  w_solflare : option nat;
  w_backpack : option (nat * option nat * bool);
  w_solana : option (nat * (bool * bool * bool));
}.

(** add(name, p); [out] lists what [seen] holds. *)
Definition detect_add (out : list (bytes * nat)) (name : bytes) (p : option nat) : list (bytes * nat) :=
  match p with
  | Some p => if bool_decide (p ∈ out.*2) then out else out ++ [(name, p)]
  | None => out
  end.

Definition detect (w : window) : list (bytes * nat) :=
  let out := detect_add [] (str "Phantom") (mjoin (w_phantom w)) in
  let out := detect_add out (str "Solflare") (w_solflare w) in
  let out := detect_add out (str "Backpack")
    ('(self, sol, isBackpack) ← w_backpack w;
     match sol with Some p => Some p | None => if (isBackpack : bool) then Some self else None end) in
  match w_solana w with
  | Some (ws, (ph, sf, bp)) =>
      let who := if (ph : bool) then str "Phantom" else if (sf : bool) then str "Solflare"
                 else if (bp : bool) then str "Backpack" else str "unknown" in
      detect_add out (who ++ str " (window.solana)") (Some ws)
  | None => out
  end.

(** What the wallets box shows: a message, or a button per provider. *)
Definition renderWallets (w : window) : bytes + list (bytes * nat) :=
  match detect w with
  | [] => inl (str "No Solana wallet found (Phantom / Solflare / Backpack).")
  | found => inr found
  end.

(** A wallet extension: what connect() resolves to (the text of its public
    key), and what signMessage resolves to; [None] is a rejection. *)
Record provider := mkProvider { pv_connect : option bytes; pv_signMessage : bytes -> option bytes }.

(** What the status line ends up saying. *)
Inductive page_status := PageSigned | PrepareFailed (text : bytes) | CallbackFailed (text : bytes) | PageError.

Section script.
Context {E : Ed25519}.

(** resp.json() of a response the handlers wrote with writeJSON. *)
Definition resp_json (v : json) : option json := Unmarshal (Marshal v ++ [x0a]).

(** sign(provider).  [now] and [nonce] are what /prepare draws; [between] are
    the requests other pages make while the wallet is signing. *)
Definition page_sign (a : authorizer) (state : bytes) (p : provider) (now : Z) (nonce : option bytes)
    (between : list page_request) : authorizer * page_status :=
  match pv_connect p with
  | None => (a, PageError)
  | Some walletAddr =>
      match handlePrepare a now nonce (stringify [(str "state", state); (str "wallet", walletAddr)]) with
      | (a, HttpError _ text) => (a, PrepareFailed text)
      | (a, JSON v) =>
          let a := foldl page_step a between in
          match v ← resp_json v; js_member (str "content_hex") v with
          | Some (JStr content_hex) =>
              match pv_signMessage p (hexToBytes content_hex) with
              | None => (a, PageError)
              | Some sig =>
                  match handleCallback a (stringify [(str "state", state); (str "signature_base58", b58 sig)]) with
                  | (a, HttpError _ text) => (a, CallbackFailed text)
                  | (a, JSON _) => (a, PageSigned)
                  end
              end
          | _ => (a, PageError)
          end
      end
  end.
End script.

(** ** Lemmas *)

Lemma detect_add_keeps out name p : NoDup out.*2 -> NoDup (detect_add out name p).*2.
Proof.
  intros H. destruct p as [p|]; [|done]. cbn. case_bool_decide as Hp; [done|].
  rewrite fmap_app. apply list.NoDup_app. split; [done|]. split; [|apply NoDup_singleton].
  intros q Hq Hin. cbn in Hin. apply list_elem_of_singleton in Hin as ->. done.
Qed.

Lemma detect_add_finds out name p q :
  q ∈ (detect_add out name p).*2 <-> q ∈ out.*2 \/ p = Some q.
Proof.
  destruct p as [p|]; [|naive_solver]. cbn. case_bool_decide as Hp.
  - split; [by left|]. intros [?|[= <-]]; done.
  - rewrite fmap_app, elem_of_app. cbn. rewrite list_elem_of_singleton. naive_solver.
Qed.

(** Each installed provider gets exactly one button. *)
Theorem detect_lists_each_once w :
  NoDup (detect w).*2 /\
  forall q, q ∈ (detect w).*2 <->
    w_phantom w = Some (Some q) \/ w_solflare w = Some q \/
    (exists self b, w_backpack w = Some (self, Some q, b)) \/ w_backpack w = Some (q, None, true) \/
    (exists flags, w_solana w = Some (q, flags)).
Proof.
  destruct w as [ph sf bp ws]. unfold detect. cbn [w_phantom w_solflare w_backpack w_solana]. split.
  - destruct ws as [[q [[f1 f2] f3]]|]; repeat apply detect_add_keeps; apply NoDup_nil_2.
  - intros q. assert (q ∈ ([] : list (bytes * nat)).*2 <-> False) as Hnil by set_solver.
    destruct ws as [[q' [[f1 f2] f3]]|], ph as [[p1|]|], bp as [[[self [p2|]] [|]]|];
      rewrite ?detect_add_finds, Hnil; cbn; naive_solver.
Qed.

Lemma b58_digits_eq f n o : b58_digits f n o = reverse (alphabet_at <$> digits_loop f 58 n) ++ o.
Proof.
  revert n o. induction f as [|f IH]; intros n o; cbn [b58_digits digits_loop]; [done|].
  destruct (0 <? n); [|done]. rewrite IH, fmap_cons, reverse_cons, <- app_assoc. done.
Qed.

Lemma b58_ones_eq bs o : b58_ones bs o = replicate (leading_zeros bs) x31 ++ o.
Proof.
  revert o. induction bs as [|b bs IH]; intros o; cbn [b58_ones leading_zeros]; [done|].
  case_bool_decide as Hb.
  - subst b. change (negb (b2z x00 =? 0)) with false. cbv iota. rewrite IH.
    change (x31 :: o) with ([x31] ++ o). by rewrite app_assoc, <- replicate_cons_app.
  - assert ((b2z b =? 0) = false) as ->; [|done]. apply Z.eqb_neq. intros H. by apply Hb, b2z_zero.
Qed.

Lemma b58_encode bs : b58 bs = base58Encode bs.
Proof.
  unfold b58, base58Encode. rewrite b58_digits_eq, b58_ones_eq, app_nil_r, reverse_app, reverse_replicate.
  assert (fold_left (fun n b => n * 256 + b2z b) bs 0 = SetBytes bs) as ->.
  { unfold SetBytes, value. generalize 0. induction bs as [|b bs IH]; intros n; [done|]. cbn. apply IH. }
  fold (digits 58 (SetBytes bs)). set (o := replicate _ _ ++ _).
  case_bool_decide as Ho; [by rewrite Ho|]. destruct (len o =? 0) eqn:E; [|done]. go_bool. by apply len_0 in E.
Qed.

Lemma hexToBytes_encode bs : hexToBytes (hexEncode bs) = bs.
Proof.
  unfold hexEncode. induction bs as [|b bs IH]; [done|]. cbn [map concat app hexToBytes]. rewrite IH. f_equal.
  unfold parseInt2. pose proof (b2z_range b).
  rewrite !unhexdigit_digit
    by (first [split; [apply Z.div_pos; lia|apply Z.div_lt_upper_bound; lia]|apply Z.mod_pos_bound; lia]).
  rewrite <- Z.div_mod by lia. by rewrite z2b_b2z.
Qed.

(** Text both encoders write as it is. *)
Lemma js_quote_safe s : forallb html_safe s = true -> js_quote s = write_string s.
Proof.
  intros Hs. rewrite write_string_safe by done. unfold js_quote. cbn [app]. f_equal. f_equal.
  induction s as [|c s IH]; [done|]. cbn in Hs. apply andb_true_iff in Hs as [Hc Hs]. cbn [map concat].
  destruct (html_safe_facts c Hc) as (H1 & H2 & H3). rewrite IH by done.
  assert (((b2z c <? 32) || bool_decide (c ∈ [x22; x5c])) = false) as ->; [|done].
  apply orb_false_iff. split; [lia|]. apply bool_decide_eq_false_2. set_solver.
Qed.

Lemma stringify_safe l :
  Forall (fun kv => forallb html_safe kv.1 = true /\ forallb html_safe kv.2 = true) l ->
  stringify l = Marshal (JObj (prod_map id JStr <$> l)).
Proof.
  intros Hl. unfold stringify. cbn [Marshal]. f_equal. f_equal. f_equal.
  induction Hl as [|[k v] l [Hk Hv] _ IH]; [done|]. cbn [fmap list_fmap map]. rewrite IH.
  cbn in Hk, Hv. cbn [prod_map fst snd Marshal]. by rewrite !js_quote_safe.
Qed.

Lemma Decode_Marshal v d : readable d v -> Z.of_nat d <= maxNestingDepth -> Decode (Marshal v) = Some v.
Proof.
  intros Hv Hd. pose proof (Unmarshal_Marshal v d Hv Hd) as H. unfold Unmarshal, Decode in *.
  destruct (read_value _ _ _) as [[v' r]|]; [|done]. cbn [mbind option_bind] in H. destruct (skip_ws r); [|done]. done.
Qed.

Lemma below_all (P : Z -> Prop) (k : nat) :
  Forall (fun n => P (Z.of_nat n)) (seq 0 k) -> forall n, 0 <= n < Z.of_nat k -> P n.
Proof.
  intros HF n Hn. pose proof (proj1 (List.Forall_forall _ _) HF (Z.to_nat n)) as Hx. cbv beta in Hx.
  rewrite Z2Nat.id in Hx by lia. apply Hx, in_seq. lia.
Qed.

Lemma hexEncode_safe bs : forallb html_safe (hexEncode bs) = true.
Proof.
  unfold hexEncode. induction bs as [|b bs IH]; [done|]. cbn [map concat]. rewrite forallb_app, IH, andb_true_r.
  assert (forall n, 0 <= n < 16 -> html_safe (hexdigit n) = true) as H.
  { apply (below_all (fun n => html_safe (hexdigit n) = true) 16). repeat constructor. }
  pose proof (b2z_range b). cbn [forallb]. rewrite !H; [done|apply Z.mod_pos_bound; lia|].
  split; [apply Z.div_pos; lia|apply Z.div_lt_upper_bound; lia].
Qed.

Lemma base58_safe bs : forallb html_safe (base58Encode bs) = true.
Proof.
  assert (forall n, 0 <= n < 58 -> html_safe (alphabet_at n) = true) as H.
  { apply (below_all (fun n => html_safe (alphabet_at n) = true) 58). repeat constructor. }
  destruct bs as [|b bs]; [done|]. rewrite encode_recode by done.
  pose proof (recode_in_base 256 58 (b2z <$> b :: bs) ltac:(lia)) as HF. unfold in_base in HF.
  induction HF as [|d l Hd _ IH]; [done|]. cbn [fmap list_fmap forallb]. by rewrite H, IH.
Qed.

Lemma quiet_requests {E : Ed25519} a reqs :
  Forall (fun r => request_state r <> Some (a_state a)) reqs -> foldl page_step a reqs = a.
Proof. induction 1 as [|r reqs Hr _ IH]; [done|]. cbn [foldl]. by rewrite page_step_wrong_state. Qed.

Lemma resp_json_written k s :
  forallb html_safe k = true -> forallb html_safe s = true ->
  resp_json (JObj [(k, JStr s)]) = Some (JObj [(k, JStr s)]).
Proof.
  intros Hk Hs. unfold resp_json, Unmarshal. set (v := JObj [(k, JStr s)]).
  assert (readable (Z.to_nat maxNestingDepth) v) as Hr.
  { destruct (Z.to_nat maxNestingDepth) eqn:Ed; [unfold maxNestingDepth in Ed; lia|].
    unfold v. cbn [readable]. constructor; [|constructor]. split; [done|]. by destruct n. }
  pose proof (read_value_written v _ Hr (S (2 * length (Marshal v ++ [x0a]))) [x0a]) as H.
  rewrite Z2Nat.id in H by (unfold maxNestingDepth; lia).
  rewrite H by (rewrite length_app; lia). done.
Qed.

Section completes.
Context {E : Ed25519} {EL : Ed25519Laws E}.

(** The requests the page makes for wallet [priv]. *)
Definition prepare_request (state : bytes) (priv : bytes) (now : Z) (nonce : bytes) : page_request :=
  RqPrepare now (Some nonce) (stringify [(str "state", state); (str "wallet", Address (ed_public priv))]).

Definition callback_request (state : bytes) (sig : bytes) : page_request :=
  RqCallback (stringify [(str "state", state); (str "signature_base58", b58 sig)]).

Definition wallet_provider (priv : bytes) : provider :=
  mkProvider (Some (Address (ed_public priv))) (fun m => Some (ed_sign priv m)).

Lemma decode_stringify s1 s2 k1 k2 :
  forallb html_safe s1 = true -> forallb html_safe s2 = true -> forallb html_safe k1 = true -> forallb html_safe k2 = true ->
  Decode (stringify [(k1, s1); (k2, s2)]) = Some (JObj [(k1, JStr s1); (k2, JStr s2)]).
Proof.
  intros H1 H2 H3 H4. rewrite stringify_safe by (repeat constructor; done).
  apply (Decode_Marshal _ 1); [|unfold maxNestingDepth; lia].
  cbn. constructor; [done|]. constructor; [done|constructor].
Qed.

(** /prepare, asked by the page for an honest wallet. *)
Lemma prepare_honest a priv now nonce :
  forallb html_safe (a_state a) = true ->
  let m := mint_fields (a_session a) (ed_public priv) (a_delegate a) (a_caps a) now (a_expires a) nonce in
  handlePrepare a now (Some nonce) (stringify [(str "state", a_state a); (str "wallet", Address (ed_public priv))]) =
    (set_content a (Render m), JSON (JObj [(str "content_hex", JStr (hexEncode (Render m)))])).
Proof.
  intros Hst m. unfold handlePrepare, decode_request.
  rewrite decode_stringify by (try done; apply base58_safe). cbn [mbind option_bind].
  change (get_string (str "state") _) with (Some (a_state a)).
  change (get_string (str "wallet") _) with (Some (Address (ed_public priv))). cbn [mbind option_bind or_resp res_bind].
  rewrite bool_decide_eq_true_2 by done. cbn [guard_ok mbind res_bind].
  rewrite ParseAddress_Address by (apply ed_public_size). done.
Qed.

(** /callback, asked by the page with the signature of the prepared text. *)
Lemma callback_honest a priv m :
  forallb html_safe (a_state a) = true -> a_content a = Some (Render m) -> fields_ok m -> Delegator m = ed_public priv ->
  exists blob, EncodeChain [Sign priv m] = Ok blob /\
  handleCallback a (stringify [(str "state", a_state a); (str "signature_base58", b58 (ed_sign priv (Render m)))]) =
    (finish a (Ok (mkAuthz blob (Address (ed_public priv)))), status_ok).
Proof.
  intros Hst Hc Hm Hd. eexists. split; [reflexivity|]. unfold handleCallback, decode_request.
  rewrite b58_encode, decode_stringify by (try done; apply base58_safe). cbn [mbind option_bind].
  change (get_string (str "state") _) with (Some (a_state a)).
  change (get_string (str "signature_base58") _) with (Some (base58Encode (ed_sign priv (Render m)))).
  cbn [mbind option_bind or_resp res_bind]. rewrite bool_decide_eq_true_2 by done. cbn [guard_ok mbind res_bind].
  rewrite Hc. cbn [or_resp mbind res_bind].
  assert (base58Sig (base58Encode (ed_sign priv (Render m))) = Ok (ed_sign priv (Render m))) as ->.
  { unfold base58Sig, DecodeBase58. pose proof (ed_sign_size priv (Render m)) as Hs.
    rewrite base58_decode_encode; [|intros Hnil; by rewrite Hnil in Hs]. cbn [map_err mbind res_bind]. by rewrite Hs. }
  change (mkDelegation (Render m) (ed_sign priv (Render m))) with (Sign priv m).
  rewrite (Sign_verifies priv m Hm Hd). unfold EncodeChain. by rewrite <- Hd.
Qed.

(** Valid flags set the page up for exactly what they say. *)
Lemma sign_setup_ok f rnd session delegate caps :
  ParseAddress (s_session f) = Ok session -> ParseAddress (s_delegate f) = Ok delegate ->
  ParseCapsLenient (s_caps f) = Ok caps ->
  sign_setup (PFlags f) (Some rnd) =
    Ok (mkAuthorizer session delegate caps (s_expires f) (hexEncode rnd) None None).
Proof.
  intros Hs Hd Hc. unfold sign_setup.
  rewrite bool_decide_eq_false_2 by (intros E0; rewrite E0 in Hs; vm_compute in Hs; discriminate Hs).
  rewrite bool_decide_eq_false_2 by (intros E0; rewrite E0 in Hd; vm_compute in Hd; discriminate Hd).
  cbn [orb negb guard_ok mbind res_bind]. by rewrite Hs, Hd, Hc.
Qed.
End completes.

(** ** The claims *)

(** The page's base58 is the server's.  The encoder in the page's script
    agrees with wallet.EncodeBase58 on every byte string, so whatever a wallet
    signs, the callback decodes the very signature bytes. *)
Theorem page_b58_is_base58 (bs : bytes) :
  b58 bs = EncodeBase58 bs /\ forall b, DecodeBase58 (b58 (b :: bs)) = Ok (b :: bs).
Proof.
  split; [apply b58_encode|]. intros b. rewrite b58_encode. by apply base58_decode_encode.
Qed.

(** C37: [mosey wallet sign] works.  Let --session and --delegate parse to the
    addresses session and delegate and --caps to caps, let a page be opened
    with the state the command drew and a wallet connect and sign, whatever
    other requests (without the state) arrive meanwhile.  Then the page
    reports success, the command exits 0 and writes a chain file that decodes
    to one delegation signed by that wallet for that session, that delegate
    and those capabilities, expiring as --expires says; and that chain gives
    the delegate those capabilities over that session, at any time within the
    delegation's life, under any snapshot that entitles the wallet to them. *)
Theorem wallet_sign_completes {E : Ed25519} {EL : Ed25519Laws E} f session delegate caps rnd addr priv now nonce between
  (Hsession : ParseAddress (s_session f) = Ok session) (Hdelegate : ParseAddress (s_delegate f) = Ok delegate)
  (Hcaps : ParseCapsLenient (s_caps f) = Ok caps)
  (Hnonce : len nonce = nonceSize) (Hyear : four_digit_year (now - Minute)) (Hyear' : four_digit_year (now + s_expires f))
  (Hquiet : Forall (fun r => request_state r <> Some (hexEncode rnd)) between) :
  let state := hexEncode rnd in
  let m := mint_fields session (ed_public priv) delegate caps now (s_expires f) nonce in
  exists a blob,
    sign_setup (PFlags f) (Some rnd) = Ok a /\
    snd (page_sign a state (wallet_provider priv) now (Some nonce) between) = PageSigned /\
    runWallet (Some (str "sign", PFlags f)) (mkSignEnv (Some rnd) (Some addr)
      (prepare_request state priv now nonce :: between ++ [callback_request state (ed_sign priv (Render m))]) true)
      = (0, Some blob) /\
    DecodeChain blob = Ok [Sign priv m] /\
    forall snap held o later, root_authority snap (ed_public priv) held o -> Subset caps held = true ->
      TruncateSecond (now - Minute) <= later <= TruncateSecond (now + s_expires f) ->
      Fold [Sign priv m] delegate session snap later = Ok (caps, o).
Proof.
  intros state m. pose proof (sign_setup_ok f rnd session delegate caps Hsession Hdelegate Hcaps) as Hsetup.
  set (a := mkAuthorizer _ _ _ _ _ _ _) in Hsetup.
  assert (fields_ok m) as Hm.
  { apply mint_ok; try done; [by eapply ParseAddress_len|apply ed_public_size|by eapply ParseAddress_len|
      by eapply ParseCapsLenient_small]. }
  assert (forallb html_safe (a_state a) = true) as Hst by apply hexEncode_safe.
  pose proof (prepare_honest a priv now nonce Hst) as Hp. cbn zeta in Hp.
  change (mint_fields (a_session a) _ _ _ _ _ _) with m in Hp. set (a1 := set_content a (Render m)) in *.
  assert (foldl page_step a1 between = a1) as Hb by (by apply quiet_requests).
  destruct (callback_honest a1 priv m Hst eq_refl Hm eq_refl) as (blob & Hblob & Hcb).
  change (a_state a1) with state in Hcb. change (a_state a) with state in Hp.
  exists a, blob. split; [exact Hsetup|]. split_and!.
  - unfold page_sign, wallet_provider. cbn [pv_connect pv_signMessage]. rewrite Hp, Hb.
    rewrite (resp_json_written (str "content_hex") _ eq_refl (hexEncode_safe _)). cbn [mbind option_bind].
    change (js_member (str "content_hex") _) with (Some (JStr (hexEncode (Render m)))). cbv iota.
    rewrite hexToBytes_encode, Hcb. done.
  - unfold runWallet, runWalletSign. rewrite bool_decide_eq_true_2 by done. cbn [sv_rnd sv_listen sv_requests sv_write_ok].
    rewrite Hsetup. cbn [foldl]. rewrite foldl_app. cbn [foldl page_step prepare_request callback_request].
    rewrite Hp. cbn [fst]. rewrite Hb, Hcb. cbn [fst]. done.
  - by apply DecodeChain_EncodeChain.
  - intros snap held o later Hr Hsub Ht. by destruct (Fold_signed priv session delegate caps now
      (s_expires f) nonce snap held o later Hm Hr Hsub Ht).
Qed.

(** ** Witness *)

Definition demo_sign_flags : sign_flags :=
  mkSignFlags (Address (key_of x05)) (Address (key_of x0c)) (str "write") Hour.

Lemma wallet_sign_completes_witness :
  exists a blob, sign_setup (PFlags demo_sign_flags) (Some [x07]) = Ok a /\
    DecodeChain blob = Ok [Sign (key_of x06) (mint_fields (key_of x05) (key_of x06) (key_of x0c) 1 t0 Hour (replicate 16 x01))].
Proof.
  destruct (wallet_sign_completes demo_sign_flags (key_of x05) (key_of x0c) 1 [x07] (str "127.0.0.1:1") (key_of x06) t0
    (replicate 16 x01) []) as (a & blob & Ha & _ & _ & Hb & _).
  - vm_compute. reflexivity.
  - vm_compute. reflexivity.
  - vm_compute. reflexivity.
  - reflexivity.
  - vm_compute. split; discriminate.
  - vm_compute. split; discriminate.
  - constructor.
  - exists a, blob. split; [exact Ha|exact Hb].
Defined.
