(* ===== verification/Governance.v ===== *)
(** * Governance end to end (src/cmd/mosey/session.go, src/cmd/mosey/webgovern.go,
      src/walletsolana/txbuild.go, src/programs/mosey-session/src/lib.rs)

    The four operations a session's owner has (transfer, grant, bump the
    epoch, revoke) as one abstract datatype, with what each does to the ledger
    and to the snapshot a server reads.  The session commands and the web
    gateway's two-step governance are shown to carry out exactly these: what
    the client builds lands, the answer reports whether the node took it, and
    the next refresh shows the operation applied to what it would have shown
    before. *)

From S2P Require Import Prelude Solana SolanaTx SolanaWire Ledger Landing.
From S2P Require Import GoStrings WalletCaps Base58 Base64 GoTime Delegation Fold Hex Json Grants WalletFlags.
From S2P Require Import SessionCmd Gateway.

(** ** The abstract operations *)

Inductive gov_op :=
| GTransfer (new_owner : bytes)
| GGrant (grantee : bytes) (caps expiry : Z)
| GBump
| GRevoke (grantee : bytes).

(** What an operation does to what servers see at time [now]. *)
Definition op_snap (op : gov_op) (now : Z) (sn : snapshot) : snapshot :=
  match op with
  | GTransfer w => mkSnap w (grants sn)
  | GGrant w caps expiry =>
      mkSnap (Solana.owner sn)
        (if (expiry =? 0) || (Unix now <? expiry) then <[w := caps]> (grants sn) else delete w (grants sn))
  | GBump => mkSnap (Solana.owner sn) ∅
  | GRevoke w => mkSnap (Solana.owner sn) (delete w (grants sn))
  end.

Section governs.
Context {C : Curve} (prog : bytes) (L : ledger) (addr : bytes) (s : SolSession) (b : Z).

(** What is at a grant's address, if anything, is that grantee's grant: no
    hash collision there. *)
Definition own_slot (w ga : bytes) : Prop :=
  match L !! ga with
  | None => True
  | Some (AGrant g _) => GSession g = addr /\ GGrantee g = w
  | Some (ASession _ _) => False
  end.

(** What it does to the ledger, for the session [s] at [addr], and when it
    can: new keys are keys, capabilities are known ones, the epoch has not
    reached its limit, the grant revoked exists. *)
Inductive governs : gov_op -> ledger -> Prop :=
| governs_transfer w : len w = 32 ->
    governs (GTransfer w) (<[addr := ASession (mkSolSession (SSessionKey s) w (SEpoch s)) b]> L)
| governs_grant w caps expiry ga gb :
    len w = 32 -> 0 <= caps < 8 -> - 2 ^ 63 <= expiry < 2 ^ 63 ->
    findPDA prog [str "grant"; addr; w] = Ok (ga, gb) -> own_slot w ga ->
    governs (GGrant w caps expiry) (<[ga := AGrant (mkSolGrant addr w caps expiry (SEpoch s)) gb]> L)
| governs_bump : SEpoch s + 1 < 2 ^ 16 ->
    governs GBump (<[addr := ASession (mkSolSession (SSessionKey s) (SOwner s) (SEpoch s + 1)) b]> L)
| governs_revoke w ga g gb :
    L !! ga = Some (AGrant g gb) -> GSession g = addr -> GGrantee g = w ->
    governs (GRevoke w) (delete ga L).

(** The operation took effect: a ledger the program can reach, from which
    every refresh shows what the same refresh would have shown of [L], with
    the operation applied. *)
Definition takes_effect (op : gov_op) (L' : ledger) : Prop :=
  reachable prog L' /\
  forall src a a', sessionKey src = SSessionKey s -> faithful L a -> faithful L' a' -> a_built a' = a_built a ->
    exists src1 src2 sn, refresh src a = (src1, None) /\ snap src1 = Some sn /\
      refresh src a' = (src2, None) /\ snap src2 = Some (op_snap op (a_built a) sn).

Lemma own_slot_free w ga : own_slot w ga -> forall s0 b0, L !! ga <> Some (ASession s0 b0).
Proof. unfold own_slot. intros H s0 b0 E. by rewrite E in H. Qed.

Lemma own_slot_grant w ga g gb : own_slot w ga -> L !! ga = Some (AGrant g gb) -> GSession g = addr /\ GGrantee g = w.
Proof. unfold own_slot. intros H E. by rewrite E in H. Qed.
End governs.

(** The instruction the Go client builds for an operation. *)
Definition op_ix {C : Curve} (src : Source) (ownerPub sk : bytes) (op : gov_op) : res SolError instruction :=
  match op with
  | GTransfer w => transferOwnershipIx src ownerPub sk w
  | GGrant w caps expiry => grantIx src ownerPub sk w caps expiry
  | GBump => bumpEpochIx src ownerPub sk
  | GRevoke w => revokeIx src ownerPub sk w
  end.

(** ** On chain *)

Section on_chain.
Context {C : Curve} (prog : bytes) (L : ledger) (Hreach : reachable prog L).
Context (addr : bytes) (s : SolSession) (b : Z) (Hs : L !! addr = Some (ASession s b)).

Lemma process_transfer src ix w :
  programPubkey src = Ok prog -> len w = 32 -> transferOwnershipIx src (SOwner s) (SSessionKey s) w = Ok ix ->
  process prog L ix = Ok (<[addr := ASession (mkSolSession (SSessionKey s) w (SEpoch s)) b]> L) /\
  Forall (fun m => len (key m) = 32) (ix_accounts ix).
Proof.
  intros Hp Hw. unfold transferOwnershipIx. rewrite Hp, (session_pda prog L Hreach src Hp addr s b Hs).
  cbn [mbind res_bind]. intros <-%Ok_inj. split.
  - dispatch. rewrite drop_tag by apply ixDiscriminator_len. rewrite Hw. cbn [Z.leb Z.compare guard_ok mbind res_bind].
    rewrite take_ge by (unfold len in Hw; lia). unfold transfer_ownership.
    rewrite (load_owner prog L Hreach addr s b Hs). done.
  - cbn [ix_accounts]. repeat constructor; [by eapply addr_len|by eapply owner_len].
Qed.

Lemma op_pdas src op L' :
  programPubkey src = Ok prog -> governs prog L addr s b op L' ->
  match op with
  | GGrant w _ _ | GRevoke w => exists ga gb, grantPDA src addr w = Ok (ga, gb)
  | _ => True
  end.
Proof.
  intros Hp [|w caps e ga gb ? ? ? Hg ?| |w ga g gb Hg Hgs Hgw]; try done; exists ga, gb;
    rewrite (grant_pda prog src Hp); [done|].
  destruct (reachable_ok _ _ Hreach _ _ Hg) as (H & _). by rewrite Hgs, Hgw in H.
Qed.

(** The client can build it, and only the owner signs. *)
Lemma op_ix_built src op L' :
  programPubkey src = Ok prog -> governs prog L addr s b op L' ->
  exists ix, op_ix src (SOwner s) (SSessionKey s) op = Ok ix /\ ix_program ix = prog /\
    len (ix_accounts ix) <= 200 /\ len (ix_data ix) <= 1000 /\
    forall m, m ∈ ix_accounts ix -> isSigner m = true -> key m = SOwner s.
Proof.
  intros Hp Hg. pose proof (op_pdas src op L' Hp Hg) as Hpda.
  pose proof (session_pda prog L Hreach src Hp addr s b Hs) as Hsp.
  destruct op as [w|w caps e| |w]; cbn [op_ix];
    unfold transferOwnershipIx, grantIx, bumpEpochIx, revokeIx; rewrite Hp, Hsp; cbn [mbind res_bind];
    try (destruct Hpda as (ga & gb & ->); cbn [mbind res_bind]);
    (eexists; split; [reflexivity|]; split; [reflexivity|]; split; [by vm_compute|]; split);
    try (cbn [ix_data]; inversion Hg; subst; unfold len in *; rewrite ?length_app, ixDiscriminator_len, ?le_bytes_len; simpl length; lia);
    cbn [ix_accounts]; intros m; rewrite !elem_of_cons; intros Hm Hsig;
    repeat (destruct Hm as [->|Hm]; [by try discriminate Hsig|]); by apply elem_of_nil in Hm.
Qed.

(** The program does what the operation says. *)
Lemma op_ix_process src op L' ix :
  programPubkey src = Ok prog -> governs prog L addr s b op L' ->
  op_ix src (SOwner s) (SSessionKey s) op = Ok ix ->
  process prog L ix = Ok L' /\ Forall (fun m => len (key m) = 32) (ix_accounts ix).
Proof.
  intros Hp Hg. pose proof (op_pdas src op L' Hp Hg) as Hpda.
  destruct Hg as [w Hw|w caps e ga gb Hw Hc He Hga Hn|He|w ga g gb Hg Hgs Hgw]; cbn [op_ix]; intros Hix.
  - by eapply process_transfer.
  - eapply (process_grant prog L Hreach src Hp addr s b Hs); try done; [by rewrite (grant_pda prog src Hp)|by eapply own_slot_free].
  - by apply (process_bump prog L Hreach src Hp addr s b Hs).
  - eapply (process_revoke prog L Hreach src Hp addr s b Hs ix w ga g gb); try done.
    rewrite (grant_pda prog src Hp). destruct (reachable_ok _ _ Hreach _ _ Hg) as (H & _). by rewrite Hgs, Hgw in H.
Qed.

(** *** What servers see of it *)

(** [sn] is session [s']'s view of ledger [M] at [now]. *)
Definition views (M : ledger) (s' : SolSession) (now : Z) (sn : snapshot) : Prop :=
  Solana.owner sn = SOwner s' /\
  forall w c, grants sn !! w = Some c <->
    exists ga g gb, M !! ga = Some (AGrant g gb) /\ GSession g = addr /\ GGrantee g = w /\
      GCaps g = c /\ live_grant s' g now = true.

Lemma views_unique M s' now sn1 sn2 : views M s' now sn1 -> views M s' now sn2 -> sn1 = sn2.
Proof.
  destruct sn1 as [o1 g1], sn2 as [o2 g2]. intros [Ho1 H1] [Ho2 H2]. cbn in *. f_equal; [congruence|].
  apply map_eq. intros w. apply option_eq. intros c. by rewrite H1, H2.
Qed.

Lemma grants_of_session ga g gb :
  L !! ga = Some (AGrant g gb) -> GSession g = addr ->
  findPDA prog [str "grant"; addr; GGrantee g] = Ok (ga, gb) /\ GEpoch g <= SEpoch s.
Proof.
  intros Hg Hgs. destruct (reachable_ok _ _ Hreach _ _ Hg) as (H & _ & _ & _ & _ & _ & s0 & b0 & H0 & Hle).
  rewrite Hgs in *. rewrite Hs in H0. injection H0 as <- <-. done.
Qed.

(** The session account after an operation, and its view. *)
Definition op_session (op : gov_op) : SolSession :=
  match op with
  | GTransfer w => mkSolSession (SSessionKey s) w (SEpoch s)
  | GBump => mkSolSession (SSessionKey s) (SOwner s) (SEpoch s + 1)
  | _ => s
  end.

Lemma governs_session op L' : governs prog L addr s b op L' -> L' !! addr = Some (ASession (op_session op) b).
Proof.
  intros [w ?|w caps e ga gb ? ? ? ? Hn| |w ga g gb Hg _ _]; cbn [op_session]; [apply lookup_insert_eq|..|].
  - rewrite lookup_insert_ne; [done|]. intros ->. by destruct (own_slot_free _ _ _ _ Hn s b).
  - apply lookup_insert_eq.
  - rewrite lookup_delete_ne; [done|]. congruence.
Qed.

(** Replacing the session account keeps every grant account. *)
Lemma session_insert_grants s' ga g gb :
  <[addr := ASession s' b]> L !! ga = Some (AGrant g gb) <-> L !! ga = Some (AGrant g gb).
Proof.
  destruct (decide (addr = ga)) as [<-|Hne]; [rewrite lookup_insert_eq; naive_solver|by rewrite lookup_insert_ne].
Qed.

(** The grants of a session but for one address: what is shown to the others. *)
Lemma views_without now sn w ga gb w' c :
  views L s now sn -> findPDA prog [str "grant"; addr; w] = Ok (ga, gb) ->
  (forall g gb, L !! ga = Some (AGrant g gb) -> GGrantee g = w) ->
  w' <> w /\ grants sn !! w' = Some c <->
  exists ga' g gb', ga' <> ga /\ L !! ga' = Some (AGrant g gb') /\ GSession g = addr /\ GGrantee g = w' /\
    GCaps g = c /\ live_grant s g now = true.
Proof.
  intros [_ Hv] Hga Hown. rewrite Hv. split.
  - intros (Hne & ga' & g & gb' & HL & Hgs & <- & Hr). exists ga', g, gb'. split; [|done].
    intros ->. by destruct Hne; eapply Hown.
  - intros (ga' & g & gb' & Hne & HL & Hgs & <- & Hr). split; [|by exists ga', g, gb'].
    intros Hw. destruct (grants_of_session _ _ _ HL Hgs) as [Hp' _]. rewrite Hw in Hp'. congruence.
Qed.

Lemma views_grant now sn w caps e ga gb :
  views L s now sn -> findPDA prog [str "grant"; addr; w] = Ok (ga, gb) -> own_slot L addr w ga ->
  views (<[ga := AGrant (mkSolGrant addr w caps e (SEpoch s)) gb]> L) s now (op_snap (GGrant w caps e) now sn).
Proof.
  intros Hv Hga Hn. split; [apply Hv|]. intros w' c. cbn [op_snap grants].
  set (g0 := mkSolGrant addr w caps e (SEpoch s)).
  assert (live_grant s g0 now = (e =? 0) || (Unix now <? e)) as <-.
  { unfold live_grant, g0. cbn [GEpoch GExpiry]. rewrite Z.eqb_refl. cbn [andb]. destruct (e =? 0); [done|]. cbn. lia. }
  assert ((if live_grant s g0 now then <[w := caps]> (grants sn) else delete w (grants sn)) !! w' = Some c <->
    (w' = w /\ caps = c /\ live_grant s g0 now = true) \/ (w' <> w /\ grants sn !! w' = Some c)) as ->.
  { destruct (live_grant s g0 now); rewrite ?lookup_insert_Some, ?lookup_delete_Some; naive_solver. }
  rewrite (views_without now sn w ga gb w' c Hv Hga) by (intros g gb' HL; by eapply own_slot_grant). split.
  - intros [(-> & <- & Hlive)|(ga' & g & gb' & Hne & HL & Hr)]; [exists ga, g0, gb|exists ga', g, gb'].
    + by rewrite lookup_insert_eq.
    + by rewrite lookup_insert_ne.
  - intros (ga' & g & gb' & [[<- [= <- <-]]|[Hne HL]]%lookup_insert_Some & Hgs & Hgw & Hgc & Hlive); [by left|right].
    exists ga', g, gb'. by split_and!.
Qed.

Lemma views_revoke now sn w ga g gb :
  views L s now sn -> L !! ga = Some (AGrant g gb) -> GSession g = addr -> GGrantee g = w ->
  views (delete ga L) s now (op_snap (GRevoke w) now sn).
Proof.
  intros Hv Hg Hgs Hgw. split; [apply Hv|]. intros w' c. cbn [op_snap grants].
  destruct (grants_of_session _ _ _ Hg Hgs) as [Hga _]. rewrite Hgw in Hga.
  pose proof (views_without now sn w ga gb w' c Hv Hga ltac:(congruence)) as H.
  rewrite lookup_delete_Some. split.
  - intros [Hne Hx]. destruct (proj1 H) as (ga' & g' & gb' & Hne' & HL & Hr); [by split|].
    exists ga', g', gb'. by rewrite lookup_delete_ne.
  - intros (ga' & g' & gb' & [Hne' HL]%lookup_delete_Some & Hr).
    destruct (proj2 H) as [Hne Hx]; [by exists ga', g', gb'|by split].
Qed.

(** After a bump, no grant of the session is live. *)
Lemma views_bump now sn :
  views L s now sn ->
  views (<[addr := ASession (op_session GBump) b]> L) (op_session GBump) now (op_snap GBump now sn).
Proof.
  intros Hv. split; [apply Hv|]. intros w c. cbn [op_snap grants]. split; [done|].
  intros (ga & g & gb & HL%session_insert_grants & Hgs & _ & _ & Hl).
  destruct (grants_of_session _ _ _ HL Hgs) as [_ He]. unfold live_grant in Hl. cbn [op_session SEpoch] in Hl.
  go_bool. lia.
Qed.

Lemma governs_views op L' now sn :
  governs prog L addr s b op L' -> views L s now sn -> views L' (op_session op) now (op_snap op now sn).
Proof.
  intros [w Hw|w caps e ga gb Hw Hc He Hga Hn|He|w ga g gb Hg Hgs Hgw] Hv.
  - split; [done|]. intros w' c. cbn [op_snap grants]. rewrite (proj2 Hv). by setoid_rewrite session_insert_grants.
  - by apply views_grant.
  - by apply views_bump.
  - by eapply views_revoke.
Qed.

Lemma governs_effect src op L' :
  programPubkey src = Ok prog -> governs prog L addr s b op L' -> takes_effect prog L s op L'.
Proof.
  intros Hp Hg. destruct (op_ix_built src op L' Hp Hg) as (ix & Hix & _).
  destruct (op_ix_process src op L' ix Hp Hg Hix) as [Hpr HF].
  assert (reachable prog L') as Hr by (by eapply reachable_step). split; [done|].
  intros src0 a a' Hk Ha Ha' Ht.
  destruct (refresh_session prog L src0 a addr s b Hreach Ha Hs Hk) as (src1 & sn & H1 & H2 & H3 & H4).
  destruct (refresh_session prog L' src0 a' addr (op_session op) b Hr Ha' (governs_session _ _ Hg))
    as (src2 & sn' & H5 & H6 & H7 & H8); [rewrite Hk; by destruct op|].
  exists src1, src2, sn. split_and!; try done. rewrite H6. f_equal.
  apply (views_unique L' (op_session op) (a_built a)); [split; [done|]; by rewrite <- Ht|].
  apply governs_views; [done|by split].
Qed.
End on_chain.

(** *** What later instructions cannot undo *)

Section later.
Context {C : Curve} (prog : bytes).

(** One more instruction of the program, and any number of them. *)
Definition next (L L' : ledger) : Prop :=
  exists ix, Forall (fun m => len (key m) = 32) (ix_accounts ix) /\ process prog L ix = Ok L'.

Definition later : ledger -> ledger -> Prop := rtc next.

Lemma effect_session L L' addr s b :
  L !! addr = Some (ASession s b) -> effect prog L L' ->
  exists s', L' !! addr = Some (ASession s' b) /\ SSessionKey s' = SSessionKey s /\ SEpoch s <= SEpoch s'.
Proof.
  intros Hs [a sk o bump _ Hn _ _|a s0 b0 s' H0 Hk _ He|a sess w caps e s0 b0 bump _ _ Hn _ _ _ _|a g b0 Hg].
  - exists s. rewrite lookup_insert_ne by congruence. split_and!; [done|done|lia].
  - destruct (decide (a = addr)) as [->|Hne]; [|exists s; rewrite lookup_insert_ne by done; split_and!; [done|done|lia]].
    rewrite Hs in H0. injection H0 as <- <-. exists s'. rewrite lookup_insert_eq. split_and!; [done|done|lia].
  - exists s. rewrite lookup_insert_ne; [split_and!; [done|done|lia]|]. intros ->. by destruct (Hn s b).
  - exists s. rewrite lookup_delete_ne by congruence. split_and!; [done|done|lia].
Qed.

(** A session keeps its account and its key, and its epoch only grows. *)
Lemma session_persists L L' addr s b :
  later L L' -> reachable prog L -> L !! addr = Some (ASession s b) ->
  reachable prog L' /\
  exists s', L' !! addr = Some (ASession s' b) /\ SSessionKey s' = SSessionKey s /\ SEpoch s <= SEpoch s'.
Proof.
  intros Hl. revert s. induction Hl as [L|L M L' (ix & HF & Hp) _ IH]; intros s Hr Hs.
  { split; [done|]. exists s. split_and!; [done|done|lia]. }
  destruct (effect_session L M addr s b Hs) as (s1 & H1 & Hk1 & He1).
  { eapply process_effect; [by apply reachable_ok|done|done]. }
  destruct (IH s1) as (Hr' & s' & H' & Hk' & He'); [by eapply reachable_step|done|].
  split; [done|]. exists s'. split_and!; [done|congruence|lia].
Qed.
End later.

(** ** From the command line *)

(** The session commands that govern a registered session, as parsed. *)
Inductive owner_cmd :=
| CmdTransfer (c : onchainConfig) (newOwner : bytes)
| CmdBump (c : onchainConfig)
| CmdGrant (f : onchain_grant).

Definition cmd_config (cmd : owner_cmd) : onchainConfig :=
  match cmd with CmdTransfer c _ | CmdBump c => c | CmdGrant f => og_config f end.

(** The operation the arguments name. *)
Definition cmd_op (now : Z) (cmd : owner_cmd) : option gov_op :=
  match cmd with
  | CmdTransfer _ newOwner => w ← ok_option (ParseAddress newOwner); Some (GTransfer w)
  | CmdBump _ => Some GBump
  | CmdGrant f =>
      w ← ok_option (ParseAddress (og_to f)); caps ← ok_option (ParseCapsLenient (og_caps f));
      Some (GGrant w caps (grant_expiry now (og_expires f)))
  end.

Definition cmd_run {E : Ed25519} {C : Curve} (cmd : owner_cmd) (env : session_env) : option session_out :=
  match cmd with
  | CmdTransfer c newOwner => runSessionTransfer (PFlags (c, newOwner)) env
  | CmdBump c => runSessionBumpEpoch (PFlags c) env
  | CmdGrant f => runSessionGrant (PFlags f) env
  end.

Lemma ok_option_some {X A} (r : res X A) a : ok_option r = Some a -> r = Ok a.
Proof. destruct r; naive_solver. Qed.

(** What the command prints once confirmed. *)
Definition cmd_text (now : Z) (cmd : owner_cmd) (sessionPub sig : bytes) : bytes :=
  match cmd with
  | CmdTransfer c newOwner =>
      str "transferred session " ++ Address sessionPub ++ str " ownership to " ++ newOwner ++ [LF] ++
      printSig (c_rpc c) sig
  | CmdBump c =>
      str "bumped epoch for session " ++ Address sessionPub ++
      str " — all current grants are now revoked" ++ [LF] ++ printSig (c_rpc c) sig
  | CmdGrant f =>
      let expiry := grant_expiry now (og_expires f) in
      let exp := if negb (expiry =? 0) then FormatRFC3339 (expiry * Second) else str "no expiry" in
      str "granted " ++ og_to f ++ str " caps=" ++
      match ParseCapsLenient (og_caps f) with Ok caps => CapsString caps | Err _ => [] end ++
      str " (" ++ exp ++ str ") on session " ++ Address sessionPub ++ [LF] ++ printSig (c_rpc (og_config f)) sig
  end.

(** Every governing command builds its operation's instruction, submits it
    with the owner's signature and reports the answer. *)
Lemma cmd_run_submits {E : Ed25519} {EL : Ed25519Laws E} {C : Curve} cmd env op owner sk src :
  cmd_op (se_now env) cmd = Some op -> setupOwnerSession (cmd_config cmd) env = Ok (owner, sk, src) ->
  cmd_run cmd env =
    report (ix ← op_ix src (ed_public owner) sk op;
            submit_with (se_node env) (ed_public owner) [ix] {[ ed_public owner := owner ]})
      (cmd_text (se_now env) cmd sk) None.
Proof.
  intros Hop Hset. pose proof (toPubkey_id (ed_public owner) (ed_public_size owner)) as Hid.
  destruct cmd as [c newOwner|c|f]; cbn [cmd_op cmd_config cmd_run] in *.
  - apply bind_Some in Hop as (w & Hw%ok_option_some & [= <-]). destruct (ParseAddress_nonempty _ _ Hw) as [Hne _].
    unfold runSessionTransfer, TransferOwnership. rewrite bool_decide_eq_false_2 by done. by rewrite Hw, Hset, Hid.
  - injection Hop as <-. unfold runSessionBumpEpoch, BumpEpoch. by rewrite Hset, Hid.
  - apply bind_Some in Hop as (w & Hw%ok_option_some & Hop). apply bind_Some in Hop as (caps & Hc%ok_option_some & [= <-]).
    destruct (ParseAddress_nonempty _ _ Hw) as [Hne _]. pose proof (ParseCapsLenient_small _ _ Hc) as Hsm. unfold small_caps in Hsm.
    unfold runSessionGrant, Grant. rewrite bool_decide_eq_false_2 by done. rewrite Hw, Hc, Hset, Hid, Z.mod_small by lia.
    unfold cmd_text. by rewrite Hc.
Qed.

(** ** From the browser *)

(** The operation a /govern/build request names. *)
Definition req_op (req : govern_request) : option gov_op :=
  if bool_decide (gr_op req = str "transfer") then
    w ← ok_option (ParseAddress (gr_new_owner req)); Some (GTransfer w)
  else if bool_decide (gr_op req = str "grant") then
    w ← ok_option (ParseAddress (gr_grantee req)); caps ← ok_option (parse_req_caps (gr_caps req));
    Some (GGrant w caps (gr_expiry req))
  else if bool_decide (gr_op req = str "bump") then Some GBump
  else if bool_decide (gr_op req = str "revoke") then
    w ← ok_option (ParseAddress (gr_grantee req)); Some (GRevoke w)
  else None.

(** The session it is about: the gateway's own, or the one it names. *)
Definition req_session (g : webGateway) (req : govern_request) : res response bytes :=
  if g_multiSession g then or_fail (ParseAddress (gr_session req)) (bad (str "bad or missing session"))
  else Ok (g_sessionKey g).

(** What the browser's wallet does with a transaction that needs its
    signature alone: it puts it over the message in the empty slot. *)
Definition signs_tx {E : Ed25519} (priv : bytes) (sign : bytes -> bytes) : Prop :=
  forall msg, sign ([x01] ++ replicate 64 x00 ++ msg) = [x01] ++ ed_sign priv msg ++ msg.

Section web.
Context {E : Ed25519} {EL : Ed25519Laws E} {C : Curve}.

Lemma govern_tx_builds (src : Source) (n : node) owner session req op :
  req_op req = Some op -> len owner = 32 ->
  govern_tx (src, n) owner session req =
    or_resp (ok_option (ix ← op_ix src owner session op; buildUnsigned (n_blockhash n) owner [ix])) governError.
Proof.
  intros Hop Hl. pose proof (toPubkey_id owner Hl) as Hid. revert Hop. unfold req_op, govern_tx.
  repeat case_bool_decide; [..|done]; [| |intros [= <-]|].
  - intros (w & Hw%ok_option_some & [= <-])%bind_Some. rewrite Hw. cbn [or_fail mbind res_bind gov_transfer solana_governor].
    unfold BuildTransferOwnership. by rewrite Hid.
  - intros (w & Hw%ok_option_some & (caps & Hc%ok_option_some & [= <-])%bind_Some)%bind_Some. rewrite Hw.
    cbn [or_fail mbind res_bind]. rewrite Hc. cbn [mbind res_bind gov_grant solana_governor].
    unfold BuildGrant. by rewrite Hid.
  - cbn [gov_bump solana_governor]. unfold BuildBumpEpoch. by rewrite Hid.
  - intros (w & Hw%ok_option_some & [= <-])%bind_Some. rewrite Hw. cbn [or_fail mbind res_bind gov_revoke solana_governor].
    unfold BuildRevoke. by rewrite Hid.
Qed.

(** A message that only its fee payer signs asks for one signature. *)
Lemma one_signer (k : bytes) others n :
  NoDup (k :: others) -> 1 <= n <= len (k :: others) ->
  Forall (fun x => x = k) (take (Z.to_nat n) (k :: others)) -> n = 1.
Proof.
  intros [Hk _]%list.NoDup_cons Hn HF. destruct (decide (n = 1)) as [|Hne]; [done|].
  assert (exists m, Z.to_nat n = S (S m)) as [m Hm] by (exists (Z.to_nat n - 2)%nat; lia).
  destruct others as [|k' others]; [unfold len in Hn; simpl in Hn; lia|]. rewrite Hm in HF. cbn [take] in HF.
  apply Forall_cons_1 in HF as [_ [-> _]%Forall_cons_1]. destruct Hk. left.
Qed.

(** The unsigned transaction, signed by the browser's wallet, is the one the
    client would have signed itself. *)
Lemma browser_signs prog (sign : bytes -> bytes) priv ix bh L L' :
  signs_tx priv sign -> len bh = 32 -> ix_program ix = prog -> prog <> computeBudgetProgramID -> len prog = 32 ->
  Forall (fun m => len (key m) = 32) (ix_accounts ix) -> len (ix_accounts ix) <= 200 -> len (ix_data ix) <= 1000 ->
  (forall m, m ∈ ix_accounts ix -> isSigner m = true -> key m = ed_public priv) ->
  process prog L ix = Ok L' ->
  exists m, compileMessage (ed_public priv) bh (withPriority [ix]) = Ok m /\
    lands prog L (sign (compileUnsignedTx m)) L'.
Proof.
  intros Hsign Hbh Hp Hne Hlp HF Hn Hd Hsig Hpr.
  destruct (compiled_lands prog (ed_public priv) ix {[ ed_public priv := priv ]} bh L L')
    as (m & tx & Hm & Htx & Hl & others & Hk & Hnd & Hns & Hall); [done..|by apply ed_public_size|done|done|done| | | |done|].
  { by intros k sk [<- <-]%lookup_singleton_Some. }
  { rewrite lookup_singleton_eq. by eexists. }
  { intros m0 Hm0 Hs0. rewrite (Hsig m0 Hm0 Hs0), lookup_singleton_eq. by eexists. }
  exists m. split; [done|]. rewrite Hk in *.
  assert (numSigners m = 1) as Hone.
  { eapply one_signer; [exact Hnd|exact Hns|]. eapply Forall_impl; [|exact Hall].
    intros k [sk [<- _]%lookup_singleton_Some]. done. }
  revert Htx. unfold signTx, compileUnsignedTx. rewrite Hone, Hk.
  change (Z.to_nat 1) with 1%nat. change (Z.to_nat (1 * 64)) with 64%nat. rewrite firstn_cons, take_0. cbn [sign_all].
  rewrite lookup_singleton_eq. cbn [mbind res_bind concat].
  change (appendLen [] (len [ed_sign priv (serialized m)])) with [x01]. change (appendLen [] 1) with [x01].
  rewrite app_nil_r, Hsign. by intros [= <-].
Qed.

(** The node took the transaction and confirmTransaction is still polling. *)
Definition polling (n : node) (tx : bytes) : Prop :=
  exists sig, n_send n tx = Ok sig /\ fst (confirmTransaction (n_turns n) (Some tx)) = None.

(** /govern/submit passes the transaction on and answers with what the node
    made of it, once it has made something of it. *)
Lemma submit_answers (src : Source) (n : node) body tx :
  tx <> [] -> decode_request body (get_string (str "tx_base64")) = Ok (EncodeToString tx) ->
  (exists sig, accepted n tx /\
     handleGovernSubmit (Some (src, n)) body = Some (JSON (JObj [(str "signature", JStr sig)]))) \/
  (~ accepted n tx /\ ~ polling n tx /\ handleGovernSubmit (Some (src, n)) body = Some governError) \/
  (polling n tx /\ handleGovernSubmit (Some (src, n)) body = None).
Proof.
  intros Hne Hb. unfold handleGovernSubmit, accepted, polling. cbn [or_resp mbind res_bind]. rewrite Hb. cbn [mbind res_bind].
  rewrite Decode_Encode. cbn [or_resp mbind res_bind].
  assert ((len tx =? 0) = false) as -> by (destruct tx; [done|unfold len; simpl; lia]).
  cbn [negb guard_ok mbind res_bind gov_submit solana_governor]. unfold SubmitSigned.
  destruct (n_send n tx) as [sig|e] eqn:Es; cbn [mbind res_bind].
  - destruct (fst (confirmTransaction (n_turns n) (Some tx))) as [[e|]|] eqn:Ec; cbn [or_resp mbind res_bind].
    + right. left. split_and!; [by intros (? & _ & ?)..|done].
    + left. exists sig. split; [|done]. by exists sig.
    + right. right. split; [|done]. by exists sig.
  - right. left. split_and!; [by intros (? & ? & _)..|done].
Qed.
End web.

(** ** The claims *)

(** C14: the owner's commands govern the session.  Each of `mosey session
    transfer`, `bump-epoch` and `grant`, run with the owner's keypair, a
    session key and a node that answers, sends a transaction that lands
    whenever the operation its arguments name is possible; the command exits 0
    exactly if the node took and confirmed it; and from then on a refresh
    shows the operation applied: the new owner with the grants as they were,
    no grants at all, or the grantee with the capabilities named while the
    expiry has not passed. *)
Theorem owner_commands_govern {E : Ed25519} {EL : Ed25519Laws E} {C : Curve} prog L cmd env owner addr s b op L'
  (Hreach : reachable prog L) (Hconf : configured prog (cmd_config cmd) env owner)
  (Hsess : config_sessionPub (se_home env) (se_keys env) (cmd_config cmd) = Ok (SSessionKey s))
  (Hs : L !! addr = Some (ASession s b)) (Howner : SOwner s = ed_public owner)
  (Hop : cmd_op (se_now env) cmd = Some op) (Hgov : governs prog L addr s b op L') :
  exists tx, lands prog L tx L' /\
    (forall o, cmd_run cmd env = Some o -> (so_exit o = 0 <-> accepted (se_node env) tx)) /\
    takes_effect prog L s op L'.
Proof.
  destruct (reachable_ok _ _ Hreach _ _ Hs) as (_ & Hlk & _).
  destruct (setup_ok prog _ _ _ _ Hconf Hlk Hsess) as (src & Hset & Hp & _).
  destruct (op_ix_built prog L Hreach addr s b Hs src op L' Hp Hgov) as (ix & Hix & Hip & Hn & Hd & Hsig).
  destruct (op_ix_process prog L Hreach addr s b Hs src op L' ix Hp Hgov Hix) as [Hpr HF]. rewrite Howner in *.
  destruct (owner_submit_lands prog _ _ _ ix L L' Hconf Hip HF Hn Hd Hsig Hpr) as (tx & Hland & Hsub).
  exists tx. split; [exact Hland|]. split; [|by eapply governs_effect].
  intros o. rewrite (cmd_run_submits cmd env op owner (SSessionKey s) src Hop Hset), Hix. cbn [mbind res_bind].
  rewrite Hsub. apply report_exit.
Qed.

(** C16: a bump is final.  Once the owner's bump_epoch has been processed, no
    sequence of instructions brings a grant of before back: whatever the
    program processes afterwards, a refresh succeeds and every grantee it
    shows holds a grant that was issued after the bump, none of the grant
    accounts there were before it. *)
Theorem bump_is_final {C : Curve} prog L addr s b L1 L2 src a
  (Hreach : reachable prog L) (Hs : L !! addr = Some (ASession s b)) (Hprog : programPubkey src = Ok prog)
  (Hkey : sessionKey src = SSessionKey s)
  (Hbump : governs prog L addr s b GBump L1) (Hlater : later prog L1 L2) (Ha : faithful L2 a) :
  exists src' sn, refresh src a = (src', None) /\ snap src' = Some sn /\
    forall w c, grants sn !! w = Some c ->
      exists ga g gb, L2 !! ga = Some (AGrant g gb) /\ GSession g = addr /\ GGrantee g = w /\ GCaps g = c /\
        SEpoch s < GEpoch g /\ forall ga0 gb0, L !! ga0 <> Some (AGrant g gb0).
Proof.
  destruct (governs_effect prog L Hreach addr s b Hs src GBump L1 Hprog Hbump) as [Hr1 _].
  pose proof (governs_session prog L addr s b Hs GBump L1 Hbump) as H1.
  destruct (session_persists prog L1 L2 addr _ b Hlater Hr1 H1) as (Hr2 & s2 & H2 & Hk2 & He2).
  destruct (refresh_session prog L2 src a addr s2 b Hr2 Ha H2) as (src' & sn & Hrf & Hsn & _ & Hg);
    [by rewrite Hkey, Hk2|].
  exists src', sn. split_and!; [done..|]. intros w c (ga & g & gb & HL & Hgs & Hgw & Hgc & Hl)%Hg.
  assert (SEpoch s < GEpoch g) as Hep.
  { unfold live_grant in Hl. cbn [op_session SEpoch] in He2. go_bool. lia. }
  exists ga, g, gb. split_and!; try done. intros ga0 gb0 H0.
  destruct (grants_of_session prog L Hreach addr s b Hs ga0 g gb0 H0 Hgs) as [_ Hle]. lia.
Qed.

(** C15: the dashboard governs without a key.  For each of the four operations
    of /govern/build, asked for the wallet that owns the session, the gateway
    answers with a transaction that lacks only that wallet's signature; signed
    by the browser's wallet it lands, with exactly the operation's effect; and
    /govern/submit of it answers with a signature exactly if the node took and
    confirmed it, gives no answer while the node took it and the polls for its
    confirmation go on, and answers with a gateway error otherwise. *)
Theorem web_governance_lands {E : Ed25519} {EL : Ed25519Laws E} {C : Curve} prog L g src n body req op priv sign addr s b L'
  (Hreach : reachable prog L) (Hprog : programPubkey src = Ok prog) (Hbudget : prog <> computeBudgetProgramID)
  (Hhash : exists bh, getLatestBlockhash (n_blockhash n) = Ok bh) (Hwallet : signs_tx priv sign)
  (Hreq : decode_request body get_govern = Ok req) (Hfor : ParseAddress (gr_wallet req) = Ok (ed_public priv))
  (Hsess : req_session g req = Ok (SSessionKey s)) (Hop : req_op req = Some op)
  (Hs : L !! addr = Some (ASession s b)) (Howner : SOwner s = ed_public priv)
  (Hgov : governs prog L addr s b op L') :
  exists unsigned,
    handleGovernBuild g (Some (src, n)) body = JSON (JObj [(str "tx_base64", JStr (EncodeToString unsigned))]) /\
    lands prog L (sign unsigned) L' /\ takes_effect prog L s op L' /\
    forall body', decode_request body' (get_string (str "tx_base64")) = Ok (EncodeToString (sign unsigned)) ->
      (exists sig, accepted n (sign unsigned) /\
         handleGovernSubmit (Some (src, n)) body' = Some (JSON (JObj [(str "signature", JStr sig)]))) \/
      (~ accepted n (sign unsigned) /\ ~ polling n (sign unsigned) /\
         handleGovernSubmit (Some (src, n)) body' = Some governError) \/
      (polling n (sign unsigned) /\ handleGovernSubmit (Some (src, n)) body' = None).
Proof.
  destruct Hhash as [bh Hbh]. pose proof (ed_public_size priv) as Hlo. change PublicKeySize with 32 in Hlo.
  assert (len prog = 32) as Hlp.
  { unfold programPubkey in Hprog. destruct (DecodeBase58 _); [|done]. destruct (len a =? 32) eqn:El; [|done].
    injection Hprog as <-. lia. }
  destruct (op_ix_built prog L Hreach addr s b Hs src op L' Hprog Hgov) as (ix & Hix & Hip & Hn & Hd & Hsig).
  destruct (op_ix_process prog L Hreach addr s b Hs src op L' ix Hprog Hgov Hix) as [Hpr HF]. rewrite Howner in *.
  destruct (browser_signs prog sign priv ix bh L L' Hwallet (blockhash_len _ _ Hbh) Hip Hbudget Hlp HF Hn Hd Hsig Hpr)
    as (m & Hm & Hl).
  exists (compileUnsignedTx m). split; [|split; [exact Hl|split; [by eapply governs_effect|]]].
  - unfold handleGovernBuild. cbn [or_resp mbind res_bind]. rewrite Hreq. cbn [mbind res_bind]. rewrite Hfor.
    cbn [or_fail mbind res_bind]. fold (req_session g req). rewrite Hsess. cbn [mbind res_bind].
    rewrite (govern_tx_builds src n (ed_public priv) (SSessionKey s) req op Hop Hlo), Hix. cbn [mbind res_bind].
    unfold buildUnsigned. rewrite Hbh. cbn [mbind res_bind]. by rewrite Hm.
  - intros body'. apply submit_answers. intros Hnil. rewrite Hnil in Hl. by destruct Hl as [(sigs & msg & w & H & _)].
Qed.

(** ** Witnesses *)

#[local] Existing Instance toy_curve.

Lemma sample_governs_bump (L : ledger) addr b :
  governs sample_prog L addr sample_session b GBump
    (<[addr := ASession (mkSolSession (key_of x05) (key_of x06) 1) b]> L).
Proof. apply (governs_bump sample_prog L addr sample_session b). reflexivity. Qed.

Lemma owner_commands_govern_witness :
  exists tx (L L' : ledger), lands sample_prog L tx L' /\
    exists src2 sn', refresh sample_source (answer_of L') = (src2, None) /\ snap src2 = Some sn' /\
      Solana.owner sn' = key_of x07.
Proof.
  destruct sample_ledger as (L & addr & b & Hr & Hs & HL & _).
  destruct (owner_commands_govern sample_prog L
    (CmdTransfer (demo_onchain (Address (key_of x05))) (Address (key_of x07))) demo_session_env
    (replicate 64 x06) addr sample_session b (GTransfer (key_of x07))
    (<[addr := ASession (mkSolSession (key_of x05) (key_of x07) 0) b]> L)) as (tx & Hl & _ & _ & Href).
  - exact Hr.
  - exact (demo_configured _).
  - vm_compute. reflexivity.
  - exact Hs.
  - reflexivity.
  - vm_compute. reflexivity.
  - apply (governs_transfer sample_prog L addr sample_session b). reflexivity.
  - destruct (Href sample_source (answer_of L) (answer_of (<[addr := ASession (mkSolSession (key_of x05) (key_of x07) 0) b]> L))
      eq_refl (answer_of_faithful _) (answer_of_faithful _) eq_refl) as (_ & src2 & sn & _ & _ & H1 & H2).
    exists tx, L, (<[addr := ASession (mkSolSession (key_of x05) (key_of x07) 0) b]> L).
    split; [exact Hl|]. exists src2, (op_snap (GTransfer (key_of x07)) t0 sn).
    split; [exact H1|]. split; [exact H2|reflexivity].
Defined.

(** A bump, and then a grant of the new epoch. *)
Lemma bump_is_final_witness :
  exists (L L1 L2 : ledger) src' sn, later sample_prog L1 L2 /\
    refresh sample_source (answer_of L2) = (src', None) /\ snap src' = Some sn /\
    forall w c, grants sn !! w = Some c -> exists ga g gb, L2 !! ga = Some (AGrant g gb) /\ 0 < GEpoch g.
Proof.
  destruct sample_ledger as (L & addr & b & Hr & Hs & HL & Ha).
  set (s1 := mkSolSession (key_of x05) (key_of x06) 1). set (L1 := <[addr := ASession s1 b]> L).
  pose proof (sample_governs_bump L addr b) as Hb. fold s1 L1 in Hb.
  destruct (governs_effect sample_prog L Hr addr sample_session b Hs sample_source GBump L1 sample_program Hb) as [Hr1 _].
  set (ga := pda_candidate sample_prog [str "grant"; addr; key_of x07] 255).
  set (L2 := <[ga := AGrant (mkSolGrant addr (key_of x07) 1 0 1) 255]> L1).
  assert (ga <> addr) as Hne by (unfold ga; rewrite Ha; vm_compute; discriminate).
  assert (governs sample_prog L1 addr s1 b (GGrant (key_of x07) 1 0) L2) as Hg.
  { apply (governs_grant sample_prog L1 addr s1 b); [reflexivity|split; [discriminate|reflexivity]|split; [discriminate|reflexivity]|reflexivity|].
    unfold own_slot, L1. rewrite lookup_insert_ne by (intros E; apply Hne; by symmetry).
    rewrite HL, lookup_singleton_ne by (intros E; apply Hne; by symmetry). exact I. }
  assert (later sample_prog L1 L2) as Hlater.
  { assert (L1 !! addr = Some (ASession s1 b)) as Hs1 by apply lookup_insert_eq.
    destruct (op_ix_built sample_prog L1 Hr1 addr s1 b Hs1 sample_source _ L2 sample_program Hg) as (ix & Hix & _).
    destruct (op_ix_process sample_prog L1 Hr1 addr s1 b Hs1 sample_source _ L2 ix sample_program Hg Hix) as [Hp HF].
    apply rtc_once. exists ix. split; [exact HF|exact Hp]. }
  destruct (bump_is_final sample_prog L addr sample_session b L1 L2 sample_source (answer_of L2) Hr Hs sample_program
    eq_refl Hb Hlater (answer_of_faithful L2)) as (src' & sn & H1 & H2 & H3).
  exists L, L1, L2, src', sn. split; [exact Hlater|]. split; [exact H1|]. split; [exact H2|].
  intros w c Hw. destruct (H3 w c Hw) as (ga' & g & gb & HL2 & _ & _ & _ & He & _).
  exists ga', g, gb. split; [exact HL2|exact He].
Defined.

Definition demo_sign (priv tx : bytes) : bytes := [x01] ++ ed_sign priv (drop 65 tx) ++ drop 65 tx.

Definition demo_bump_body : bytes :=
  Marshal (JObj [(str "op", JStr (str "bump")); (str "wallet", JStr (Address (key_of x06)))]).

Definition demo_bump_req : govern_request := mkGovern (str "bump") (Address (key_of x06)) [] [] [] [] 0.

Lemma demo_signs priv : signs_tx priv (demo_sign priv).
Proof. intros msg. reflexivity. Qed.

Lemma web_governance_lands_witness :
  exists unsigned (L L' : ledger),
    handleGovernBuild demo_gw (Some (sample_source, demo_node)) demo_bump_body =
      JSON (JObj [(str "tx_base64", JStr (EncodeToString unsigned))]) /\
    lands sample_prog L (demo_sign (replicate 64 x06) unsigned) L' /\
    handleGovernSubmit (Some (sample_source, demo_node))
      (Marshal (JObj [(str "tx_base64", JStr (EncodeToString (demo_sign (replicate 64 x06) unsigned)))])) =
      Some (JSON (JObj [(str "signature", JStr (str "sig"))])).
Proof.
  destruct sample_ledger as (L & addr & b & Hr & Hs & _).
  destruct (web_governance_lands sample_prog L demo_gw sample_source demo_node demo_bump_body demo_bump_req GBump
    (replicate 64 x06) (demo_sign (replicate 64 x06)) addr sample_session b
    (<[addr := ASession (mkSolSession (key_of x05) (key_of x06) 1) b]> L)) as (unsigned & Hb & Hl & _ & Hsub).
  - exact Hr.
  - exact sample_program.
  - vm_compute. discriminate.
  - exists (key_of x01). vm_compute. reflexivity.
  - exact (demo_signs _).
  - vm_compute. reflexivity.
  - vm_compute. reflexivity.
  - reflexivity.
  - reflexivity.
  - exact Hs.
  - reflexivity.
  - exact (sample_governs_bump L addr b).
  - exists unsigned, L, (<[addr := ASession (mkSolSession (key_of x05) (key_of x06) 1) b]> L).
    split; [exact Hb|]. split; [exact Hl|].
    assert (EncodeToString unsigned = match handleGovernBuild demo_gw (Some (sample_source, demo_node)) demo_bump_body with
      | JSON (JObj [(_, JStr t)]) => t | _ => [] end) as Ht by (rewrite Hb; reflexivity).
    assert (unsigned = default [] (DecodeString (match handleGovernBuild demo_gw (Some (sample_source, demo_node)) demo_bump_body with
      | JSON (JObj [(_, JStr t)]) => t | _ => [] end))) as -> by (rewrite <- Ht, Decode_Encode; reflexivity).
    vm_compute. reflexivity.
Defined.
