(* ===== verification/GoUrl.v ===== *)
(** * What the program uses of Go's package net/url

    url.Parse: the fragment and query are cut off, a scheme is recognised,
    the authority (between two slashes and the next one) is separated from the
    path, and percent-escapes of the path and the fragment are decoded.  Only
    the grammar of the authority itself (user info, ports, IPv6 literals),
    which differs between Go releases, is a parameter: [parseAuthority]
    returns the Host field or an error.  The program reads the fields Scheme,
    Host and Path. *)

From S2P Require Import Prelude GoStrings.

(** The host of an authority; an empty authority has an empty host. *)
Class UrlAuthority := {
  parseAuthority : bytes -> option bytes;
  parseAuthority_empty : parseAuthority [] = Some [];
}.

Record URL := mkURL { Scheme : bytes; Opaque : bytes; Host : bytes; Path : bytes }.

Inductive UrlError := InvalidControl | MissingScheme | ColonSegment | BadHost | EscapeError.

(** ** Characters *)

Definition is_between (lo hi : Z) (c : byte) : bool := (lo <=? b2z c) && (b2z c <=? hi).
Definition is_lower (c : byte) : bool := is_between 97 122 c.
Definition is_upper (c : byte) : bool := is_between 65 90 c.
Definition is_digit (c : byte) : bool := is_between 48 57 c.
Definition is_ctl (c : byte) : bool := (b2z c <? 32) || (b2z c =? 127).

(** The value of a hexadecimal digit. *)
Definition unhex (c : byte) : option Z :=
  if is_digit c then Some (b2z c - 48)
  else if is_between 97 102 c then Some (b2z c - 87)
  else if is_between 65 70 c then Some (b2z c - 55)
  else None.

Definition ToLower (s : bytes) : bytes :=
  map (fun c => if is_upper c then z2b (b2z c + 32) else c) s.

(** unescape in the path and fragment modes. *)
Fixpoint unescape (s : bytes) : option bytes :=
  match s with
  | [] => Some []
  | x25 :: rest =>
      match rest with
      | a :: b :: rest =>
          match unhex a, unhex b with
          | Some x, Some y => cons (z2b (16 * x + y)) <$> unescape rest
          | _, _ => None
          end
      | _ => None
      end
  | c :: rest => cons c <$> unescape rest
  end.

(** getScheme: (scheme, rest), or the error of a leading colon. *)
Fixpoint getScheme_loop (acc s raw : bytes) : res UrlError (bytes * bytes) :=
  match s with
  | [] => Ok ([], raw)
  | c :: s =>
      if is_lower c || is_upper c then getScheme_loop (acc ++ [c]) s raw
      else if is_digit c || bool_decide (c = x2b \/ c = x2d \/ c = x2e) then
        if bool_decide (acc = []) then Ok ([], raw) else getScheme_loop (acc ++ [c]) s raw
      else if bool_decide (c = x3a) then
        if bool_decide (acc = []) then Err MissingScheme else Ok (acc, s)
      else Ok ([], raw)
  end.

Definition getScheme (raw : bytes) : res UrlError (bytes * bytes) := getScheme_loop [] raw raw.

Section parse.
Context {UA : UrlAuthority}.

(** The number of question marks of [s]. *)
Definition questions (s : bytes) : nat := length (filter (fun c => c = x3f) s).

(** A lone trailing question mark is dropped, else the query is cut off. *)
Definition cut_query (rest : bytes) : bytes :=
  if HasSuffix rest (str "?") && (questions rest =? 1)%nat then slice_to rest (len rest - 1)
  else let '(before, _, _) := Cut rest (str "?") in before.

Definition colon_segment (rest : bytes) : bool :=
  let '(segment, _, _) := Cut rest (str "/") in Contains segment (str ":").

(** authority and what follows it. *)
Definition split_authority (rest : bytes) : bytes * bytes :=
  let authority := slice_from rest 2 in
  let i := Index authority (str "/") in
  if 0 <=? i then (slice_to authority i, slice_from authority i) else (authority, []).

Definition parse (raw : bytes) : res UrlError URL :=
  if existsb is_ctl raw then Err InvalidControl
  else if bool_decide (raw = str "*") then Ok (mkURL [] [] [] (str "*"))
  else
    '(scheme, rest) ← getScheme raw;
    let scheme := ToLower scheme in
    let rest := cut_query rest in
    if negb (HasPrefix rest (str "/")) && negb (bool_decide (scheme = [])) then
      Ok (mkURL scheme rest [] [])
    else if negb (HasPrefix rest (str "/")) && colon_segment rest then Err ColonSegment
    else
      let authority :=
        (negb (bool_decide (scheme = [])) || negb (HasPrefix rest (str "///"))) &&
        HasPrefix rest (str "//") in
      let '(auth, path) := if authority then split_authority rest else ([], rest) in
      match if authority then parseAuthority auth else Some [] with
      | None => Err BadHost
      | Some host =>
          match unescape path with
          | None => Err EscapeError
          | Some path => Ok (mkURL scheme [] host path)
          end
      end.

Definition Parse (raw : bytes) : res UrlError URL :=
  let '(u, frag, _) := Cut raw (str "#") in
  url ← parse u;
  if bool_decide (frag = []) then Ok url
  else match unescape frag with None => Err EscapeError | Some _ => Ok url end.

End parse.

(** ** Lemmas *)

(** Bytes that mean nothing to the parser: not control, and none of the
    characters # ? %. *)
Definition plain (c : byte) : bool :=
  negb (is_ctl c) && negb (bool_decide (c = x23 \/ c = x3f \/ c = x25)).

Lemma Index_go_absent c s i : 0 <= i -> c ∉ s -> Index_go s [c] i = -1.
Proof.
  revert i. induction s as [|d s IH]; intros i Hi Hc; cbn [Index_go]; [done|].
  rewrite HasPrefix_single, bool_decide_eq_false_2 by set_solver. apply IH; [lia|set_solver].
Qed.

Lemma Index_absent c s : c ∉ s -> Index s [c] = -1.
Proof. by apply Index_go_absent. Qed.

Lemma Cut_absent c s : c ∉ s -> Cut s [c] = (s, [], false).
Proof. intros H. unfold Cut. by rewrite Index_absent. Qed.

Lemma Index_first c a s : c ∉ a -> Index (a ++ c :: s) [c] = len a.
Proof.
  unfold Index. intros Hc. assert (forall i, Index_go (a ++ c :: s) [c] i = i + len a) as H.
  { induction a as [|d a IH]; intros i; cbn [app Index_go].
    - rewrite HasPrefix_single, bool_decide_eq_true_2 by done. len_nil. lia.
    - rewrite HasPrefix_single, bool_decide_eq_false_2 by set_solver.
      rewrite IH by set_solver. rewrite len_cons. lia. }
  by rewrite H.
Qed.

Lemma plain_absent s : forallb plain s = true -> (x23 ∉ s) /\ (x3f ∉ s) /\ (x25 ∉ s).
Proof.
  rewrite forallb_forall. intros H.
  split_and!; intros Hin; apply list_elem_of_In in Hin; specialize (H _ Hin); vm_compute in H; congruence.
Qed.

Lemma plain_no_ctl s : forallb plain s = true -> existsb is_ctl s = false.
Proof.
  intros H. apply not_true_is_false. intros (c & Hc & Hctl)%existsb_exists.
  rewrite forallb_forall in H. specialize (H _ Hc). unfold plain in H. rewrite Hctl in H. done.
Qed.

Lemma unescape_plain s : x25 ∉ s -> unescape s = Some s.
Proof.
  induction s as [|c s IH]; intros H; [done|].
  assert (unescape (c :: s) = cons c <$> unescape s) as ->.
  { destruct c; try reflexivity. exfalso. apply H. constructor. }
  rewrite IH by set_solver. done.
Qed.

Lemma cut_query_plain s : x3f ∉ s -> cut_query s = s.
Proof.
  intros H. unfold cut_query.
  assert ((questions s =? 1)%nat = false) as ->.
  { apply Nat.eqb_neq. unfold questions. induction s as [|c s IH]; [done|].
    rewrite filter_cons_False by set_solver. apply IH. set_solver. }
  rewrite andb_false_r. change (str "?") with [x3f]. by rewrite Cut_absent.
Qed.

(** A scheme in canonical form: lower-case letters and digits, a letter
    first. *)
Definition scheme_name (sch : bytes) : bool :=
  match sch with
  | [] => false
  | c :: r => is_lower c && forallb (fun c => is_lower c || is_digit c) r
  end.

Lemma scheme_name_chars sch :
  scheme_name sch = true -> sch <> [] /\ forallb (fun c => is_lower c || is_digit c) sch = true.
Proof.
  destruct sch as [|c r]; [done|]. intros [Hc Hr]%andb_true_iff. split; [done|].
  cbn [forallb]. by rewrite Hc, Hr.
Qed.

Lemma getScheme_loop_name acc r rest raw :
  acc <> [] -> forallb (fun c => is_lower c || is_digit c) r = true ->
  getScheme_loop acc (r ++ x3a :: rest) raw = Ok (acc ++ r, rest).
Proof.
  revert acc. induction r as [|c r IH]; intros acc Hne Hl; cbn [app getScheme_loop].
  - rewrite app_nil_r. simpl. by rewrite bool_decide_eq_false_2.
  - cbn [forallb] in Hl. apply andb_true_iff in Hl as [Hc Hl].
    rewrite (bool_decide_eq_false_2 (acc = [])) by done.
    destruct (is_lower c) eqn:El; cbn [orb] in *; [|rewrite Hc; destruct (is_upper c)]; cbn [orb].
    all: rewrite IH; [by rewrite <- app_assoc|by destruct acc|done].
Qed.

(** A canonical scheme in front of a colon is recognised. *)
Lemma getScheme_name sch rest :
  scheme_name sch = true -> getScheme (sch ++ x3a :: rest) = Ok (sch, rest).
Proof.
  destruct sch as [|c r]; [done|]. intros [Hc Hr]%andb_true_iff. unfold getScheme.
  cbn [app getScheme_loop]. rewrite Hc. cbn [orb]. by apply getScheme_loop_name.
Qed.

Lemma ToLower_name s : forallb (fun c => is_lower c || is_digit c) s = true -> ToLower s = s.
Proof.
  induction s as [|c s IH]; [done|]. cbn [forallb ToLower map]. intros [Hc Hs]%andb_true_iff.
  f_equal; [|by apply IH]. assert (is_upper c = false) as ->; [|done].
  clear -Hc. destruct c; vm_compute in Hc |- *; congruence.
Qed.

Section parse_lemmas.
Context {UA : UrlAuthority}.

(** Up to the authority: scheme, colon and a rest that starts with a slash. *)
Lemma Parse_scheme sch p :
  scheme_name sch = true -> forallb plain (x2f :: p) = true ->
  Parse (sch ++ x3a :: x2f :: p) =
    (let authority := HasPrefix (x2f :: p) (str "//") in
     let '(auth, path) := if authority then split_authority (x2f :: p) else ([], x2f :: p) in
     match if authority then parseAuthority auth else Some [] with
     | None => Err BadHost
     | Some host =>
         match unescape path with
         | None => Err EscapeError
         | Some path => Ok (mkURL sch [] host path)
         end
     end).
Proof.
  intros Hn Hp. destruct (scheme_name_chars _ Hn) as [Hne Hl].
  destruct (plain_absent _ Hp) as (H23 & H3f & _).
  assert (forallb plain sch = true) as Hs.
  { apply forallb_forall. intros c Hc. rewrite forallb_forall in Hl. specialize (Hl c Hc).
    clear -Hl. destruct c; vm_compute in Hl |- *; congruence. }
  destruct (plain_absent _ Hs) as (G23 & _ & _).
  unfold Parse. change (str "#") with [x23]. rewrite Cut_absent by set_solver. unfold parse.
  assert (existsb is_ctl (sch ++ x3a :: x2f :: p) = false) as ->.
  { apply plain_no_ctl. rewrite forallb_app, Hs. simpl in Hp |- *. done. }
  rewrite (bool_decide_eq_false_2 (sch ++ x3a :: x2f :: p = str "*")).
  2: { change (str "*") with [x2a]. intros E%(f_equal len). rewrite len_app, !len_cons in E.
       pose proof (len_nonneg sch). pose proof (len_nonneg p). len_nil. lia. }
  rewrite getScheme_name by done. cbn [mbind res_bind].
  rewrite ToLower_name, cut_query_plain by done.
  change (HasPrefix (x2f :: p) (str "/")) with true. cbn [negb andb].
  rewrite (bool_decide_eq_false_2 (sch = [])) by done. cbn [negb orb andb].
  cbv zeta. destruct (HasPrefix (x2f :: p) (str "//")).
  - destruct (split_authority (x2f :: p)) as [auth path].
    destruct (parseAuthority auth) as [host|]; [|done]. by destruct (unescape path).
  - by destruct (unescape (x2f :: p)).
Qed.

(** scheme:///path *)
Lemma Parse_path sch p :
  scheme_name sch = true -> forallb plain (x2f :: p) = true ->
  Parse (sch ++ str "://" ++ x2f :: p) = Ok (mkURL sch [] [] (x2f :: p)).
Proof.
  intros Hn Hp. change (str "://" ++ x2f :: p) with (x3a :: x2f :: x2f :: x2f :: p).
  rewrite Parse_scheme by done. cbv zeta.
  change (HasPrefix _ (str "//")) with true. cbv iota.
  change (split_authority (x2f :: x2f :: x2f :: p)) with (@nil byte, x2f :: p). cbv iota beta.
  rewrite parseAuthority_empty. destruct (plain_absent _ Hp) as (_ & _ & H25).
  by rewrite unescape_plain.
Qed.

(** scheme:/path, with a single slash *)
Lemma Parse_rooted sch c p :
  scheme_name sch = true -> forallb plain (x2f :: c :: p) = true -> c <> x2f ->
  Parse (sch ++ x3a :: x2f :: c :: p) = Ok (mkURL sch [] [] (x2f :: c :: p)).
Proof.
  intros Hn Hp Hc. rewrite Parse_scheme by done. cbv zeta.
  assert (HasPrefix (x2f :: c :: p) (str "//") = false) as ->.
  { unfold HasPrefix. apply bool_decide_eq_false. change (take _ _) with [x2f; c].
    change (str "//") with [x2f; x2f]. congruence. }
  destruct (plain_absent _ Hp) as (_ & _ & H25). by rewrite unescape_plain.
Qed.

(** scheme://host *)
Lemma Parse_host sch a :
  scheme_name sch = true -> forallb plain a = true -> x2f ∉ a ->
  Parse (sch ++ str "://" ++ a) =
    match parseAuthority a with Some host => Ok (mkURL sch [] host []) | None => Err BadHost end.
Proof.
  intros Hn Hp Ha. change (str "://" ++ a) with (x3a :: x2f :: x2f :: a).
  rewrite Parse_scheme by done. cbv zeta. change (HasPrefix _ (str "//")) with true. cbv iota.
  unfold split_authority. change (slice_from (x2f :: x2f :: a) 2) with a.
  change (str "/") with [x2f]. rewrite Index_absent by done. cbn.
  by destruct (parseAuthority a).
Qed.

End parse_lemmas.
