(* ===== verification/Transport.v ===== *)
(** * transport: errors, the interface and the aggregator
    (src/transport/errors.go, src/transport/transport.go)

    Go errors are values with a text and a chain of wrapped errors;
    [IsExpectedShutdown] looks at both.  [Transport] is the interface every
    backend implements, with the laws its handler table must satisfy;
    [Multi] aggregates backends, which are objects with identity, so a store
    maps each one to its state and the aggregator holds references. *)

From stdpp Require Import functions.
From S2P Require Import Prelude GoStrings GoUrl.

(** ** Error values *)

(** The package-level errors the program compares against with errors.Is. *)
Inductive sentinel :=
| IoEOF | NetErrReset | CtxCanceled | CtxDeadlineExceeded
| ErrUnsupportedScheme | ErrUnsupported.

#[global] Instance sentinel_eq_dec : EqDecision sentinel.
Proof. solve_decision. Defined.

(** An in-place error (errors.New or one of another package), a %w wrapping
    with the text around it, or errors.Join. *)
Inductive error :=
| Sentinel (s : sentinel)
| Text (t : bytes)
| Wrapf (pre : bytes) (e : error) (post : bytes)
| Joined (es : list error).

(** Texts the program does not choose: libp2p's reset error, fmt's %q, and the
    rendering of a url.Error. *)
Class Foreign := {
  ErrReset_text : bytes;
  Quote : bytes -> bytes;
  url_error : UrlError -> bytes;
}.

Section errors.
Context {FT : Foreign}.

Definition sentinel_text (s : sentinel) : bytes :=
  match s with
  | IoEOF => str "EOF"
  | NetErrReset => ErrReset_text
  | CtxCanceled => str "context canceled"
  | CtxDeadlineExceeded => str "context deadline exceeded"
  | ErrUnsupportedScheme => str "transport: endpoint scheme not supported by this transport"
  | ErrUnsupported => str "transport: operation not supported by this backend"
  end.

Fixpoint Error (e : error) : bytes :=
  match e with
  | Sentinel s => sentinel_text s
  | Text t => t
  | Wrapf pre e post => pre ++ Error e ++ post
  | Joined es => Join (map Error es) [x0a]
  end.

(** errors.Is *)
Fixpoint Is (e : error) (target : sentinel) : bool :=
  match e with
  | Sentinel s => bool_decide (s = target)
  | Text _ => false
  | Wrapf _ e _ => Is e target
  | Joined es => existsb (fun e => Is e target) es
  end.

Definition shutdownErrorSubstrings : list bytes :=
  [str "sent go away"; str "connection closed"; str "stream reset";
   str "use of closed network connection"].

(** [None] is a nil error. *)
Definition IsExpectedShutdown (err : option error) : bool :=
  match err with
  | None => true
  | Some e =>
      if Is e IoEOF || Is e NetErrReset || Is e CtxCanceled || Is e CtxDeadlineExceeded then true
      else existsb (fun sub => Contains (Error e) sub) shutdownErrorSubstrings
  end.

End errors.

(** ** transport.Transport *)

(** [dial_env] is what the network does during one Dial; [Close] is given
    what closing the underlying listener or host returns. *)
Class Transport (B : Type) := {
  tstream : Type;
  dial_env : Type;
  Schemes : B -> list bytes;
  Endpoints : B -> list bytes;
  Handle : B -> bytes -> nat -> B;
  Unhandle : B -> bytes -> B;
  Dial : B -> dial_env -> bytes -> bytes -> res error tstream;
  Close : B -> option error -> B * option error;
}.

(** What the interface promises of the handler table; registering handlers
    changes nothing else an aggregator looks at. *)
Class TransportLaws (B : Type) `{Transport B} := {
  handler_of : B -> bytes -> option nat;
  handler_of_handle b p h q :
    handler_of (Handle b p h) q = if bool_decide (p = q) then Some h else handler_of b q;
  handler_of_unhandle b p q :
    handler_of (Unhandle b p) q = if bool_decide (p = q) then None else handler_of b q;
  Schemes_handle b p h : Schemes (Handle b p h) = Schemes b;
  Schemes_unhandle b p : Schemes (Unhandle b p) = Schemes b;
}.

(** ** transport.Multi *)

Section multi.
Context {FT : Foreign} {UA : UrlAuthority} {B : Type} {TB : Transport B}.

Abbreviation ref := nat.
Abbreviation store := (ref -> B).

Record multi := mkMulti {
  backends : list ref;
  schemes : gmap bytes ref;
  handlers : gmap bytes nat;
}.

(** The inner loop of Multi over one backend's schemes. *)
Fixpoint claim_schemes (b : ref) (ss : list bytes) (m : gmap bytes ref) : res error (gmap bytes ref) :=
  match ss with
  | [] => Ok m
  | s :: ss =>
      match m !! s with
      | Some existing =>
          if negb (existing =? b)%nat
          then Err (Text (str "transport: scheme " ++ Quote s ++ str " claimed by two backends"))
          else claim_schemes b ss (<[s := b]> m)
      | None => claim_schemes b ss (<[s := b]> m)
      end
  end.

Fixpoint claim_all (st : store) (bs : list ref) (m : gmap bytes ref) : res error (gmap bytes ref) :=
  match bs with
  | [] => Ok m
  | b :: bs => m ← claim_schemes b (Schemes (st b)) m; claim_all st bs m
  end.

Definition Multi (st : store) (bs : list ref) : res error multi :=
  if bool_decide (bs = []) then Err (Text (str "transport: Multi requires at least one backend"))
  else m ← claim_all st bs ∅; Ok (mkMulti bs m ∅).

(** Go iterates over the map in no fixed order; this is one of them. *)
Definition multi_Schemes (m : multi) : list bytes := map fst (map_to_list (schemes m)).

Definition multi_Endpoints (st : store) (m : multi) : list bytes :=
  concat (map (fun b => Endpoints (st b)) (backends m)).

Definition multi_Handle (st : store) (m : multi) (p : bytes) (h : nat) : store * multi :=
  (fold_left (fun st b => <[b := Handle (st b) p h]> st) (backends m) st,
   mkMulti (backends m) (schemes m) (<[p := h]> (handlers m))).

Definition multi_Unhandle (st : store) (m : multi) (p : bytes) : store * multi :=
  (fold_left (fun st b => <[b := Unhandle (st b) p]> st) (backends m) st,
   mkMulti (backends m) (schemes m) (delete p (handlers m))).

Definition schemeOf (endpoint : bytes) : res error bytes :=
  match endpoint with
  | [] => Err (Text (str "empty endpoint"))
  | x2f :: _ => Ok (str "libp2p")
  | _ =>
      match Parse endpoint with
      | Err e => Err (Wrapf (str "parse endpoint " ++ Quote endpoint ++ str ": ") (Text (url_error e)) [])
      | Ok u =>
          if bool_decide (Scheme u = []) then
            Err (Text (str "endpoint " ++ Quote endpoint ++ str " has no scheme"))
          else Ok (Scheme u)
      end
  end.

(** [have] is fmt's rendering of the scheme table, pointers included. *)
Definition multi_Dial (st : store) (m : multi) (env : dial_env) (have endpoint protocol : bytes)
    : res error tstream :=
  match schemeOf endpoint with
  | Err e => Err (Wrapf (str "transport: dial: ") e [])
  | Ok scheme =>
      match schemes m !! scheme with
      | None =>
          Err (Wrapf [] (Sentinel ErrUnsupportedScheme)
                 (str ": scheme " ++ Quote scheme ++ str " (have " ++ have ++ str ")"))
      | Some backend => Dial (st backend) env endpoint protocol
      end
  end.

(** The backends are closed in order and every error is kept. *)
Fixpoint close_loop (net : ref -> option error) (st : store) (bs : list ref) : store * list error :=
  match bs with
  | [] => (st, [])
  | b :: bs =>
      let '(b', err) := Close (st b) (net b) in
      let '(st, errs) := close_loop net (<[b := b']> st) bs in
      (st, match err with Some e => e :: errs | None => errs end)
  end.

Definition multi_Close (net : ref -> option error) (st : store) (m : multi) : store * option error :=
  let '(st, errs) := close_loop net st (backends m) in
  (st, match errs with [] => None | _ => Some (Joined errs) end).

(** ** Scheme tables *)

(** [m] maps exactly the schemes the backends [bs] claim. *)
Definition table_of (st : store) (bs : list ref) (m : gmap bytes ref) : Prop :=
  forall s b, m !! s = Some b <-> b ∈ bs /\ s ∈ Schemes (st b).

Definition conflict (st : store) (bs : list ref) : Prop :=
  exists a b s, a ∈ bs /\ b ∈ bs /\ a <> b /\ s ∈ Schemes (st a) /\ s ∈ Schemes (st b).

Lemma claim_schemes_ok b ss m m' :
  claim_schemes b ss m = Ok m' ->
  (forall s c, m' !! s = Some c <-> (c = b /\ s ∈ ss) \/ m !! s = Some c) /\
  (forall s c, s ∈ ss -> m !! s = Some c -> c = b).
Proof.
  revert m. induction ss as [|s ss IH]; intros m H; cbn [claim_schemes] in H.
  { injection H as <-. split; set_solver. }
  assert (claim_schemes b ss (<[s := b]> m) = Ok m' /\ forall c, m !! s = Some c -> c = b) as [H' Hs].
  { destruct (m !! s) as [c|]; [|by split].
    destruct (c =? b)%nat eqn:E; cbn [negb] in H; [|done].
    apply Nat.eqb_eq in E as ->. split; [done|congruence]. }
  destruct (IH _ H') as [Ht Hc]. clear IH H H'. split.
  - intros t c. rewrite Ht, elem_of_cons. destruct (decide (s = t)) as [->|Hne].
    + rewrite lookup_insert_eq. naive_solver.
    + rewrite lookup_insert_ne by done. naive_solver.
  - intros t c [->|Ht']%elem_of_cons Hm; [by apply Hs|].
    destruct (decide (s = t)) as [->|Hne]; [by apply Hs|].
    apply (Hc t c Ht'). by rewrite lookup_insert_ne.
Qed.

Lemma claim_schemes_err b ss m e :
  claim_schemes b ss m = Err e -> exists s c, s ∈ ss /\ m !! s = Some c /\ c <> b.
Proof.
  revert m. induction ss as [|s ss IH]; intros m H; cbn [claim_schemes] in H; [done|].
  assert ((exists c, m !! s = Some c /\ c <> b) \/ claim_schemes b ss (<[s := b]> m) = Err e)
    as [(c & Hc & Hb)|H'].
  { destruct (m !! s) as [c|]; [|by right]. destruct (c =? b)%nat eqn:E; [by right|].
    apply Nat.eqb_neq in E. left. by exists c. }
  { exists s, c. split; [left|done]. }
  destruct (IH _ H') as (t & c & Ht & Hl & Hb). exists t, c. split; [by right|].
  destruct (decide (s = t)) as [->|Hne]; [|by rewrite lookup_insert_ne in Hl].
  rewrite lookup_insert_eq in Hl. congruence.
Qed.

Lemma claim_all_ok st bs done m m' :
  table_of st done m -> claim_all st bs m = Ok m' -> table_of st (done ++ bs) m'.
Proof.
  revert done m. induction bs as [|b bs IH]; intros done m Ht H; cbn [claim_all] in H.
  { injection H as <-. by rewrite app_nil_r. }
  apply bind_ok in H as (m1 & H1 & H2). apply claim_schemes_ok in H1 as [H1 _].
  change (b :: bs) with ([b] ++ bs). rewrite app_assoc. apply (IH _ m1); [|done].
  intros s c. rewrite H1, (Ht s c). set_solver.
Qed.

Lemma claim_all_err st bs done m e :
  table_of st done m -> claim_all st bs m = Err e -> conflict st (done ++ bs).
Proof.
  revert done m. induction bs as [|b bs IH]; intros done m Ht H; cbn [claim_all] in H; [congruence|].
  apply bind_err in H as [H|(m1 & H1 & H2)].
  - apply claim_schemes_err in H as (s & c & Hs & Hm & Hc). apply Ht in Hm as [Hin Hcs].
    exists c, b, s. set_solver.
  - apply claim_schemes_ok in H1 as [H1 _]. change (b :: bs) with ([b] ++ bs). rewrite app_assoc.
    eapply (IH _ m1); [|done]. intros s c. rewrite H1, (Ht s c). set_solver.
Qed.

(** Exactly the conflict-free, non-empty lists are accepted. *)
Lemma Multi_ok st bs m :
  Multi st bs = Ok m -> backends m = bs /\ table_of st bs (schemes m) /\ handlers m = ∅ /\
    bs <> [] /\ ~ conflict st bs.
Proof.
  unfold Multi. case_bool_decide as Hbs; [done|]. intros (t & Ht & [= <-])%bind_ok.
  assert (table_of st bs t) as Htab.
  { apply (claim_all_ok st bs [] ∅); [|done]. intros s c. rewrite lookup_empty. set_solver. }
  split_and!; try done. intros (a & b & s & Ha & Hb & Hne & Hsa & Hsb). cbn [schemes] in *.
  apply Hne. enough (Some a = Some b) by congruence.
  rewrite <- (proj2 (Htab s a) (conj Ha Hsa)). by apply Htab.
Qed.

Lemma Multi_err st bs e : Multi st bs = Err e -> bs = [] \/ conflict st bs.
Proof.
  unfold Multi. case_bool_decide as Hbs; [by left|]. right.
  apply bind_err in H as [H|(m & _ & ?)]; [|done].
  apply (claim_all_err st bs [] ∅ e); [|done]. intros s c. rewrite lookup_empty. set_solver.
Qed.

End multi.

(** ** Routing *)

Section routing.
Context {FT : Foreign} {UA : UrlAuthority} {B : Type} {TB : Transport B}.

(** Multi accepts a list of backends exactly when it is non-empty and no
    scheme is claimed by two different ones; the aggregator it returns sends
    every Dial to the backend that claims the endpoint's scheme, unchanged,
    and to no other; an endpoint whose scheme nobody claims fails with an
    error that is ErrUnsupportedScheme, and one without a scheme fails with
    the parse error. *)
Theorem multi_routes_by_scheme (st : nat -> B) bs :
  (is_ok (Multi st bs) = true <-> bs <> [] /\ ~ conflict st bs) /\
  forall m env have ep proto, Multi st bs = Ok m ->
    match schemeOf ep with
    | Err e => multi_Dial st m env have ep proto = Err (Wrapf (str "transport: dial: ") e [])
    | Ok s =>
        (forall b, b ∈ bs -> s ∈ Schemes (st b) -> multi_Dial st m env have ep proto = Dial (st b) env ep proto) /\
        ((forall b, b ∈ bs -> s ∉ Schemes (st b)) ->
         exists e, multi_Dial st m env have ep proto = Err e /\ Is e ErrUnsupportedScheme = true)
    end.
Proof.
  split.
  - destruct (Multi st bs) as [m|e] eqn:E; simpl.
    + apply Multi_ok in E as (_ & _ & _ & Hne & Hc). done.
    + split; [done|]. intros [Hne Hc]. by apply Multi_err in E as [?|?].
  - intros m env have ep proto (_ & Ht & _)%Multi_ok. unfold multi_Dial.
    destruct (schemeOf ep) as [s|e]; [|done]. split.
    + intros b Hb Hs. by rewrite (proj2 (Ht s b) (conj Hb Hs)).
    + intros Hno. destruct (schemes m !! s) as [b|] eqn:E.
      * apply Ht in E as [Hb Hs]. by destruct (Hno b Hb).
      * eexists. by split.
Qed.

End routing.

(** ** The handler tables *)

Section tables.
Context {FT : Foreign} {UA : UrlAuthority} {B : Type} {TB : Transport B} {TL : TransportLaws B}.

Inductive mop := MHandle (p : bytes) (h : nat) | MUnhandle (p : bytes).

Definition multi_step (sm : (nat -> B) * multi) (o : mop) : (nat -> B) * multi :=
  match o with
  | MHandle p h => multi_Handle (fst sm) (snd sm) p h
  | MUnhandle p => multi_Unhandle (fst sm) (snd sm) p
  end.

(** An update every listed backend receives, once per mention. *)
Lemma fan_out (f : B -> B) (P : B -> Prop) (bs : list nat) (st : nat -> B) b :
  (forall x, P x -> P (f x)) -> (forall x, P (f x)) ->
  b ∈ bs -> P (fold_left (fun st b => <[b := f (st b)]> st) bs st b).
Proof.
  intros Hk Hf. induction bs as [|c bs IH] using rev_ind; [set_solver|].
  rewrite fold_left_app. simpl. intros [Hb| ->%list_elem_of_singleton]%elem_of_app.
  - destruct (decide (c = b)) as [->|Hne]; [by rewrite fn_lookup_insert|].
    rewrite fn_lookup_insert_ne by done. by apply IH.
  - by rewrite fn_lookup_insert.
Qed.

Lemma fan_out_keeps (f : B -> B) (P : nat -> B -> Prop) (bs : list nat) (st : nat -> B) :
  (forall b x, P b x -> P b (f x)) -> (forall b, P b (st b)) ->
  forall b, P b (fold_left (fun st b => <[b := f (st b)]> st) bs st b).
Proof.
  intros Hk H0. induction bs as [|c bs IH] using rev_ind; [done|].
  intros b. rewrite fold_left_app. simpl. destruct (decide (c = b)) as [->|Hne].
  - rewrite fn_lookup_insert. apply Hk, IH.
  - rewrite fn_lookup_insert_ne by done. apply IH.
Qed.

Lemma fan_out_others (f : B -> B) (bs : list nat) (st : nat -> B) b :
  b ∉ bs -> fold_left (fun st b => <[b := f (st b)]> st) bs st b = st b.
Proof.
  induction bs as [|c bs IH] using rev_ind; [done|]. intros Hb.
  rewrite fold_left_app. simpl. rewrite fn_lookup_insert_ne by set_solver. apply IH. set_solver.
Qed.

(** The aggregator's own table is the table of each of its backends. *)
Definition tables_agree (bs : list nat) (sm : (nat -> B) * multi) : Prop :=
  backends (snd sm) = bs /\ table_of (fst sm) bs (schemes (snd sm)) /\
  forall b p, b ∈ bs -> handler_of (fst sm b) p = handlers (snd sm) !! p.

Lemma fan_out_agrees (f : B -> B) (p : bytes) (v : option nat) bs (st : nat -> B) m :
  (forall b q, handler_of (f b) q = if bool_decide (p = q) then v else handler_of b q) ->
  (forall b, Schemes (f b) = Schemes b) ->
  tables_agree bs (st, m) ->
  tables_agree bs (fold_left (fun st b => <[b := f (st b)]> st) (backends m) st,
                   mkMulti (backends m) (schemes m) (partial_alter (fun _ => v) p (handlers m))).
Proof.
  intros Hf Hs (Hb & Ht & Ha). unfold tables_agree. cbn [fst snd backends schemes handlers] in *.
  rewrite Hb. split_and!; [done| |].
  - intros s b. rewrite (Ht s b).
    rewrite (fan_out_keeps f (fun b x => Schemes x = Schemes (st b))); [done| |done].
    intros c x <-. apply Hs.
  - intros b q Hin. destruct (decide (p = q)) as [->|Hne].
    + rewrite lookup_partial_alter_eq. apply (fan_out f (fun x => handler_of x q = v)); [| |done].
      all: intros; by rewrite Hf, bool_decide_eq_true_2.
    + rewrite lookup_partial_alter_ne by done. rewrite <- (Ha b q Hin).
      apply (fan_out_keeps f (fun b x => handler_of x q = handler_of (st b) q)); [|done].
      intros c x <-. by rewrite Hf, bool_decide_eq_false_2.
Qed.

Lemma multi_step_agrees bs sm o : tables_agree bs sm -> tables_agree bs (multi_step sm o).
Proof.
  destruct sm as [st m], o as [p h|p]; intros H; cbn [multi_step fst snd].
  - apply (fan_out_agrees (fun b => Handle b p h) p (Some h)); [|intros; apply Schemes_handle|done].
    intros. apply handler_of_handle.
  - apply (fan_out_agrees (fun b => Unhandle b p) p None); [|intros; apply Schemes_unhandle|done].
    intros. apply handler_of_unhandle.
Qed.

Lemma multi_step_others bs sm o b :
  backends (snd sm) = bs -> b ∉ bs -> fst (multi_step sm o) b = fst sm b.
Proof.
  destruct sm as [st m]. cbn [fst snd]. intros <- Hb. destruct o as [p h|p]; cbn.
  - by apply (fan_out_others (fun b => Handle b p h)).
  - by apply (fan_out_others (fun b => Unhandle b p)).
Qed.

(** After any sequence of Handle and Unhandle calls on an aggregator over
    backends that start without handlers, every backend of it has exactly the
    registrations of the aggregator's own table (so an inbound stream is
    dispatched the same way whichever backend it arrives on), the routing
    table is still right, and no other backend has been touched. *)
Theorem multi_handlers_fan_out (st : nat -> B) bs m ops
  (Hm : Multi st bs = Ok m) (Hempty : forall b p, b ∈ bs -> handler_of (st b) p = None) :
  let '(st', m') := fold_left multi_step ops (st, m) in
  (forall b p, b ∈ bs -> handler_of (st' b) p = handlers m' !! p) /\
  (forall s b, schemes m' !! s = Some b <-> b ∈ bs /\ s ∈ Schemes (st' b)) /\
  (forall b, b ∉ bs -> st' b = st b).
Proof.
  assert (tables_agree bs (st, m)) as H0.
  { apply Multi_ok in Hm as (Hb & Ht & Hh & _). split_and!; [done|done|].
    intros b p Hin. cbn [fst snd]. by rewrite Hh, Hempty. }
  clear Hm Hempty. assert (forall b, b ∉ bs -> fst (st, m) b = st b) as Ho by done. revert H0 Ho.
  generalize (st, m) as sm. induction ops as [|o ops IH]; intros sm H0 Ho; cbn [fold_left].
  - destruct sm, H0 as (? & ? & ?). done.
  - apply IH; [by apply multi_step_agrees|]. intros b Hb.
    rewrite (multi_step_others bs) by (done || apply H0). by apply Ho.
Qed.

End tables.
