(* ===== verification/Backends.v ===== *)
(** * The transport backends (src/transport/unix, websocket, http2, libp2p)

    Each backend is its state (listen address, handler table, whether it is
    closed) with the operations of [Transport].  The sockets, the HTTP server
    and client, the WebSocket library and the libp2p host are outside the
    program: an operation takes what they answer as arguments (whether a
    listen or dial succeeded, what a request carries) and returns what it
    hands to them. *)

From S2P Require Import Prelude GoStrings GoTime Hex GoUrl Varint Transport.

(** What a message's reader answers to one Read: some bytes, and nothing, EOF
    or another error.  A reader that has answered everything reports EOF. *)
Inductive rerr := REof | ROther (e : bytes).
Abbreviation answer := (bytes * option rerr)%type.

Section backends.
Context {FT : Foreign} {UA : UrlAuthority}.

(** ** unix: one socket per stream, the protocol id in front *)

Record UnixBackend := mkUnix {
  u_addr : bytes;                (* empty when there is no listener *)
  u_handlers : gmap bytes nat;
  u_closed : bool;               (* closeCh *)
}.

Definition unix_Scheme : bytes := str "unix".
Definition unix_prefix : bytes := str "transport/unix: ".

(** [listen]: the error of net.ListenUnix, if any. *)
Definition unix_New (ListenAddr : bytes) (listen : option error) : res error UnixBackend :=
  if bool_decide (ListenAddr = []) then Ok (mkUnix [] ∅ false)
  else match listen with
       | Some e => Err (Wrapf (unix_prefix ++ str "listen " ++ Quote ListenAddr ++ str ": ") e [])
       | None => Ok (mkUnix ListenAddr ∅ false)
       end.

Definition unix_Schemes (b : UnixBackend) : list bytes := [unix_Scheme].

Definition unix_Endpoints (b : UnixBackend) : list bytes :=
  if bool_decide (u_addr b = []) then [] else [str "unix://" ++ u_addr b].

Definition unix_Handle (b : UnixBackend) (proto : bytes) (h : nat) : UnixBackend :=
  mkUnix (u_addr b) (<[proto := h]> (u_handlers b)) (u_closed b).

Definition unix_Unhandle (b : UnixBackend) (proto : bytes) : UnixBackend :=
  mkUnix (u_addr b) (delete proto (u_handlers b)) (u_closed b).

Definition parseUnixEndpoint (endpoint : bytes) : res error bytes :=
  let bare :=
    if bool_decide (endpoint = []) then Err (Text (unix_prefix ++ str "empty endpoint"))
    else Ok endpoint in
  match Parse endpoint with
  | Ok u =>
      if bool_decide (Scheme u = unix_Scheme) then
        if bool_decide (Path u = [])
        then Err (Text (unix_prefix ++ str "endpoint " ++ Quote endpoint ++ str " has no path"))
        else Ok (Path u)
      else bare
  | Err _ => bare
  end.

(** What connecting and writing the prefix do. *)
Record unix_net := mkUnixNet { un_dial : option error; un_write : option error }.

(** An open stream: the path connected to, what has been written on the
    socket so far, and the remote id. *)
Record unix_stream := mkUnixStream { us_path : bytes; us_sent : bytes; us_remote : bytes }.

Definition unix_Dial (b : UnixBackend) (net : unix_net) (endpoint proto : bytes) : res error unix_stream :=
  path ← parseUnixEndpoint endpoint;
  _ ← guard_ok (negb (bool_decide (proto = []))) (Text (unix_prefix ++ str "protocol id required"));
  _ ← guard_ok (negb (UnixProto.maxProtoLen <? len proto))
        (Text (unix_prefix ++ str "protocol id length " ++ Itoa (len proto) ++ str " exceeds " ++
               Itoa UnixProto.maxProtoLen));
  match un_dial net with
  | Some e => Err (Wrapf (unix_prefix ++ str "dial " ++ Quote path ++ str ": ") e [])
  | None =>
      match un_write net with
      | Some e => Err (Wrapf (unix_prefix ++ str "write proto: ") e [])
      | None => Ok (mkUnixStream path (UnixProto.writeProto proto) (str "unix://" ++ path))
      end
  end.

(** closeOnce: only the first Close closes the listener and reports. *)
Definition unix_Close (b : UnixBackend) (lis : option error) : UnixBackend * option error :=
  if u_closed b then (b, None)
  else (mkUnix (u_addr b) (u_handlers b) true,
        if bool_decide (u_addr b = []) then None else lis).

(** SO_PEERCRED: (uid, pid) or an error. *)
Definition peerCredsRemoteID (cred : res error (Z * Z)) : res error bytes :=
  '(uid, pid) ← cred; Ok (str "unix:uid=" ++ Itoa uid ++ str ":pid=" ++ Itoa pid).

(** The darwin build asks for the uid first, then for the pid; [control] is
    what reaching the descriptor answers. *)
Definition peerCredsRemoteID_darwin (control : option error) (xucred pid : res error Z) : res error bytes :=
  match control with
  | Some e => Err e
  | None => uid ← xucred; pid ← pid; Ok (str "unix:uid=" ++ Itoa uid ++ str ":pid=" ++ Itoa pid)
  end.

(** What a listener does with an inbound connection: hand the rest of it to a
    handler under a remote id, or close it. *)
Inductive dispatched :=
| ToHandler (h : nat) (remote rest : bytes)
| Closed.

Definition unix_handleConn (b : UnixBackend) (sock : bytes) (cred : res error (Z * Z)) : dispatched :=
  match UnixProto.readProto sock with
  | Err _ => Closed
  | Ok (proto, rest) =>
      match u_handlers b !! proto with
      | None => Closed
      | Some h =>
          match peerCredsRemoteID cred with
          | Err _ => Closed
          | Ok remote => ToHandler h remote rest
          end
      end
  end.

(** acceptLoop: connections until Accept fails, for whatever reason.  Each is
    served with the handler table as it is when its prefix has been read. *)
Fixpoint unix_acceptLoop (conns : list (res error (UnixBackend * bytes * res error (Z * Z))))
    : list dispatched :=
  match conns with
  | Ok (b, sock, cred) :: conns => unix_handleConn b sock cred :: unix_acceptLoop conns
  | _ => []
  end.

(** The stream types of unix and websocket, and the client side of http2,
    close their connection once and repeat its answer. *)
Record once := mkOnce { o_closed : bool; o_err : option error }.

Definition once_Close (s : once) (conn : option error) : once * option error :=
  if o_closed s then (s, o_err s) else (mkOnce true conn, conn).

(** ** websocket: one connection per stream, the protocol id in the path *)

(** A supplied TLS configuration (or a fresh one) and its verification flag. *)
Record tlsConfig := mkTLS { tls_base : option nat; tls_skip : bool }.

Record WsBackend := mkWs {
  w_addr : bytes;
  w_server : bool;               (* a server and a listener exist *)
  w_useTLS : bool;
  w_handlers : gmap bytes nat;
  w_dialer : option tlsConfig;   (* TLSClientConfig of the dialer *)
  peerToken : bytes;
  w_closed : bool;
}.

Definition SchemeWS : bytes := str "ws".
Definition SchemeWSS : bytes := str "wss".
Definition ws_prefix : bytes := str "transport/websocket: ".
Definition peerTokenPrefix : bytes := str "mosey-peer-".

(** [rand]: sixteen bytes of crypto/rand, or its error. *)
Definition mintPeerToken (rand : res error bytes) : res error bytes :=
  b ← rand; Ok (hexEncode b).

(** The dialer's TLS settings: the listener's configuration, cloned, with the
    verification flag of the options. *)
Definition ws_dialer (TLSConfig : option tlsConfig) (InsecureSkipVerify : bool) : option tlsConfig :=
  if InsecureSkipVerify then
    match TLSConfig with
    | None => Some (mkTLS None true)
    | Some c => Some (mkTLS (tls_base c) true)
    end
  else TLSConfig.

(** [listen]: the address net.Listen bound, or its error. *)
Definition ws_New (ListenAddr : bytes) (TLSConfig : option tlsConfig) (InsecureSkipVerify : bool)
    (rand : res error bytes) (listen : res error bytes) : res error WsBackend :=
  match mintPeerToken rand with
  | Err e => Err (Wrapf (ws_prefix ++ str "mint peer token: ") e [])
  | Ok token =>
      let b addr server :=
        mkWs addr server (bool_decide (is_Some TLSConfig)) ∅ (ws_dialer TLSConfig InsecureSkipVerify) token false in
      if bool_decide (ListenAddr = []) then Ok (b [] false)
      else match listen with
           | Err e => Err (Wrapf (ws_prefix ++ str "listen " ++ Quote ListenAddr ++ str ": ") e [])
           | Ok addr => Ok (b addr true)
           end
  end.

Definition ws_Schemes (b : WsBackend) : list bytes := [SchemeWS; SchemeWSS].

Definition ws_Endpoints (b : WsBackend) : list bytes :=
  if bool_decide (w_addr b = []) then []
  else if w_useTLS b then [str "wss://" ++ w_addr b] else [str "ws://" ++ w_addr b].

Definition ws_with_handlers (b : WsBackend) (hs : gmap bytes nat) : WsBackend :=
  mkWs (w_addr b) (w_server b) (w_useTLS b) hs (w_dialer b) (peerToken b) (w_closed b).

Definition ws_Handle (b : WsBackend) (proto : bytes) (h : nat) : WsBackend :=
  ws_with_handlers b (<[proto := h]> (w_handlers b)).

Definition ws_Unhandle (b : WsBackend) (proto : bytes) : WsBackend :=
  ws_with_handlers b (delete proto (w_handlers b)).

(** The connection a Dial opened: the URL and subprotocols of its handshake,
    and the stream's remote id. *)
Record ws_conn := mkWsConn { wc_target : URL; wc_subprotocols : list bytes; wc_remote : bytes }.

(** [net]: the dial error with the HTTP status, if a response came back.
    [shown] renders the target. *)
Definition ws_Dial (b : WsBackend) (shown : URL -> bytes) (net : option (error * option Z))
    (endpoint proto : bytes) : res error ws_conn :=
  match Parse endpoint with
  | Err e => Err (Wrapf (ws_prefix ++ str "parse endpoint " ++ Quote endpoint ++ str ": ") (Text (url_error e)) [])
  | Ok u =>
      if negb (bool_decide (Scheme u = SchemeWS)) && negb (bool_decide (Scheme u = SchemeWSS)) then
        Err (Text (ws_prefix ++ str "unsupported scheme " ++ Quote (Scheme u) ++ str " (want ws or wss)"))
      else if bool_decide (Host u = []) then
        Err (Text (ws_prefix ++ str "endpoint " ++ Quote endpoint ++ str " missing host"))
      else
        let target := mkURL (Scheme u) (Opaque u) (Host u) proto in
        match net with
        | Some (e, Some status) =>
            Err (Wrapf (ws_prefix ++ str "dial " ++ shown target ++ str ": ") e (str " (status " ++ Itoa status ++ str ")"))
        | Some (e, None) => Err (Wrapf (ws_prefix ++ str "dial " ++ shown target ++ str ": ") e [])
        | None => Ok (mkWsConn target [peerTokenPrefix ++ peerToken b] (Scheme u ++ str "://" ++ Host u))
        end
  end.

Definition ws_Close (b : WsBackend) (srv : option error) : WsBackend * option error :=
  if w_closed b then (b, None)
  else (mkWs (w_addr b) (w_server b) (w_useTLS b) (w_handlers b) (w_dialer b) (peerToken b) true,
        if w_server b then srv else None).

(** The inner loop of selectPeerToken over one header value's candidates. *)
Fixpoint select_candidate (cs : list bytes) : option bytes :=
  match cs with
  | [] => None
  | c :: cs =>
      let candidate := TrimSpace c in
      if HasPrefix candidate peerTokenPrefix then Some (TrimPrefix candidate peerTokenPrefix)
      else select_candidate cs
  end.

Fixpoint selectPeerToken (offered : list bytes) : bytes :=
  match offered with
  | [] => []
  | raw :: offered =>
      match select_candidate (Split raw (str ",")) with
      | Some token => token
      | None => selectPeerToken offered
      end
  end.

(** What an HTTP handler answers: an error status, a failed upgrade, or a
    stream given to a mosey handler (with the subprotocol echoed back). *)
Inductive http_answer :=
| HttpStatus (code : Z)
| UpgradeFailed
| Streaming (h : nat) (remote : bytes) (echo : list bytes).

Definition ws_serveHTTP (b : WsBackend) (path : bytes) (offered : list bytes) (upgrades : bool) : http_answer :=
  match w_handlers b !! path with
  | None => HttpStatus 404
  | Some h =>
      let token := selectPeerToken offered in
      if bool_decide (token = []) then HttpStatus 400
      else if negb upgrades then UpgradeFailed
      else Streaming h (str "ws-peer:" ++ token) [peerTokenPrefix ++ token]
  end.

(** *** stream.Read: messages in, bytes out *)

(** What NextReader yields, in order: a message with its type and what its
    reader will answer, or an error.  Errors are sticky. *)
Inductive incoming :=
| Message (mt : Z) (reads : list answer)
| ConnError (close_code : option Z) (e : bytes).

Record ws_stream := mkWsStream {
  curReader : option (list answer);
  conn : list incoming;
}.

Definition BinaryMessage : Z := 2.

Definition normalizeReadErr (close_code : option Z) (e : bytes) : rerr :=
  match close_code with
  | Some c => if (c =? 1000) || (c =? 1001) || (c =? 1005) then REof else ROther e
  | None => ROther e
  end.

(** One s.curReader.Read: what the call returns, or [None] to go round the
    loop again, with the reader that is left. *)
Definition read_current (reads : list answer) : option answer * option (list answer) :=
  match reads with
  | [] => (None, None)
  | (p, Some REof) :: _ => (if 0 <? len p then Some (p, None) else None, None)
  | (p, err) :: reads => (Some (p, err), Some reads)
  end.

(** The loop from a point where curReader is nil; [None] means it waits for
    the peer. *)
Fixpoint read_next (conn : list incoming) : ws_stream * option answer :=
  match conn with
  | [] => (mkWsStream None [], None)
  | ConnError code e :: _ => (mkWsStream None conn, Some ([], Some (normalizeReadErr code e)))
  | Message mt reads :: conn =>
      if negb (mt =? BinaryMessage) then read_next conn
      else match read_current reads with
           | (Some r, cur) => (mkWsStream cur conn, Some r)
           | (None, _) => read_next conn
           end
  end.

Definition ws_Read (s : ws_stream) : ws_stream * option answer :=
  match curReader s with
  | None => read_next (conn s)
  | Some reads =>
      match read_current reads with
      | (Some r, cur) => (mkWsStream cur (conn s), Some r)
      | (None, _) => read_next (conn s)
      end
  end.

(** stream.Write: one binary message per call. *)
Definition ws_Write (p : bytes) (fail : option error) : option (Z * bytes) * res error Z :=
  match fail with
  | Some e => (None, Err e)
  | None => (Some (BinaryMessage, p), Ok (len p))
  end.

Definition ws_CloseWrite : option error := Some (Sentinel ErrUnsupported).

(** ** http2: one request per stream, the protocol id in the path *)

Record H2Backend := mkH2 {
  h_addr : bytes;
  h_useTLS : bool;
  h_handlers : gmap bytes nat;
  h_skip : bool;                 (* the https client skips verification *)
  h_closed : bool;
}.

Definition SchemeHTTP : bytes := str "http".
Definition SchemeHTTPS : bytes := str "https".

(** [configure]: http2.ConfigureServer, called for a TLS listener only. *)
Definition h2_New (ListenAddr : bytes) (TLSConfig : option tlsConfig) (InsecureSkipVerify : bool)
    (listen : res error bytes) (configure : option error) : res error H2Backend :=
  let b addr := mkH2 addr (bool_decide (is_Some TLSConfig)) ∅ InsecureSkipVerify false in
  if bool_decide (ListenAddr = []) then Ok (b [])
  else match listen with
       | Err e => Err (Wrapf (str "http2: listen " ++ Quote ListenAddr ++ str ": ") e [])
       | Ok addr =>
           match TLSConfig, configure with
           | Some _, Some e => Err (Wrapf (str "http2: configure server: ") e [])
           | _, _ => Ok (b addr)
           end
       end.

Definition h2_Schemes (b : H2Backend) : list bytes := [SchemeHTTP; SchemeHTTPS].

Definition h2_Endpoints (b : H2Backend) : list bytes :=
  if bool_decide (h_addr b = []) then []
  else if h_useTLS b then [str "https://" ++ h_addr b] else [str "http://" ++ h_addr b].

Definition h2_Handle (b : H2Backend) (proto : bytes) (h : nat) : H2Backend :=
  mkH2 (h_addr b) (h_useTLS b) (<[proto := h]> (h_handlers b)) (h_skip b) (h_closed b).

Definition h2_Unhandle (b : H2Backend) (proto : bytes) : H2Backend :=
  mkH2 (h_addr b) (h_useTLS b) (delete proto (h_handlers b)) (h_skip b) (h_closed b).

(** What the HTTP client does: refuse the request, fail, answer a status, or
    lose against the context ([ctx] is its error). *)
Inductive h2_net :=
| BadRequest (e : error)
| RoundTripFailed (e : error)
| Responded (status : Z)
| CtxDone (ctx : sentinel).

(** An open stream: the URL posted to, whether over the cleartext or the TLS
    client, and the remote id. *)
Record h2_conn := mkH2Conn { hc_target : URL; hc_tls : bool; hc_remote : bytes }.

Definition h2_Dial (b : H2Backend) (net : h2_net) (endpoint proto : bytes) : res error h2_conn :=
  match Parse endpoint with
  | Err e => Err (Wrapf (str "http2: parse endpoint " ++ Quote endpoint ++ str ": ") (Text (url_error e)) [])
  | Ok u =>
      if negb (bool_decide (Scheme u = SchemeHTTP)) && negb (bool_decide (Scheme u = SchemeHTTPS)) then
        Err (Text (str "http2: unsupported scheme " ++ Quote (Scheme u) ++ str " (want http or https)"))
      else if bool_decide (Host u = []) then
        Err (Text (str "http2: endpoint " ++ Quote endpoint ++ str " missing host"))
      else
        let target := mkURL (Scheme u) (Opaque u) (Host u) proto in
        match net with
        | BadRequest e => Err (Wrapf (str "http2: build request: ") e [])
        | RoundTripFailed e => Err (Wrapf (str "http2: dial: ") e [])
        | CtxDone c => Err (Sentinel c)
        | Responded status =>
            if negb (status =? 200) then
              Err (Text (str "http2: dial " ++ proto ++ str " " ++ endpoint ++ str ": status " ++ Itoa status))
            else Ok (mkH2Conn target (bool_decide (Scheme u = SchemeHTTPS)) (Host u))
        end
  end.

(** Close ignores what the server and the listener report. *)
Definition h2_Close (b : H2Backend) (srv : option error) : H2Backend * option error :=
  (mkH2 (h_addr b) (h_useTLS b) (h_handlers b) (h_skip b) true, None).

(** [flushes]: the response writer supports streaming. *)
Definition h2_serveHTTP (b : H2Backend) (path remoteAddr : bytes) (flushes : bool) : http_answer :=
  match h_handlers b !! path with
  | None => HttpStatus 404
  | Some h => if negb flushes then HttpStatus 500 else Streaming h remoteAddr []
  end.

(** writeFlusher.Write: [n] bytes written, flushed when there are any. *)
Definition writeFlusher_Write (n : Z) (err : option error) : (Z * option error) * bool := ((n, err), 0 <? n).

(** serverStream: the request body is closed once, and nil is reported. *)
Definition h2_server_Close (closed : bool) : bool * option error := (true, None).
Definition h2_server_CloseWrite : option error := Some (Sentinel ErrUnsupported).

End backends.

(** ** libp2p *)

(** go-multiaddr and go-libp2p's peer package. *)
Class Multiaddr := {
  maddr : Type;
  peer_id : Type;
  show_maddr : maddr -> bytes;
  show_peer : peer_id -> bytes;
  NewMultiaddr : bytes -> res error maddr;
  AddrInfoFromP2pAddr : maddr -> res error (peer_id * list maddr);
}.

Section libp2p.
Context {FT : Foreign} {UA : UrlAuthority} {MA : Multiaddr}.

Abbreviation AddrInfo := (peer_id * list maddr)%type.

(** A libp2p host: its peer id, listen addresses and stream handlers. *)
Record lhost := mkHost { host_id : peer_id; host_addrs : list maddr; host_handlers : gmap bytes nat }.

Record P2pBackend := mkP2p { host : lhost; ownsHost : bool; p_closed : bool }.

Definition p2p_Scheme : bytes := str "libp2p".

(** A nil slice is [None]; an identity is a private key. *)
Record p2p_options := mkP2pOptions {
  o_Host : option lhost;
  o_Identity : option bytes;
  o_ListenAddrs : option (list maddr);
  o_Bootstrap : option (list AddrInfo);
}.

Definition defaultListenStrings : list bytes :=
  [str "/ip4/0.0.0.0/tcp/0"; str "/ip4/0.0.0.0/udp/0/quic-v1"].

Definition ipfsBootstrapAddrs : list bytes :=
  [str "/dnsaddr/bootstrap.libp2p.io/p2p/QmNnooDu7bfjPFoTZYxMNLWUQJyrVwtbZg5gBMjTezGAJN";
   str "/dnsaddr/bootstrap.libp2p.io/p2p/QmQCU2EcMqAqQPR2i9bChDtGNJchTbq5TbXJJ16u19uLTa";
   str "/dnsaddr/bootstrap.libp2p.io/p2p/QmbLHAnMoCPnTcWj4QcMG5p5wTUNVjqEPgEoB7eU1tFqMc";
   str "/dnsaddr/bootstrap.libp2p.io/p2p/QmcZf59bWwK5XFi76CZX8cbJ4BhTzzA3gU1ZjYZcYW3dwt";
   str "/ip4/104.131.131.82/tcp/4001/p2p/QmaCpDMGvV2BGHeYERUEnRQAwe3N8SzbUtfsmvsqQLuvuJ";
   str "/ip4/104.131.131.82/udp/4001/quic-v1/p2p/QmaCpDMGvV2BGHeYERUEnRQAwe3N8SzbUtfsmvsqQLuvuJ"].

Fixpoint parse_bootstrap (addrs : list bytes) : res error (list AddrInfo) :=
  match addrs with
  | [] => Ok []
  | s :: addrs =>
      let fail e := Wrapf (str "libp2p: bootstrap addr " ++ Quote s ++ str ": ") e [] in
      ma ← map_err fail (NewMultiaddr s);
      info ← map_err fail (AddrInfoFromP2pAddr ma);
      rest ← parse_bootstrap addrs;
      Ok (info :: rest)
  end.

Definition DefaultBootstrap : res error (list AddrInfo) := parse_bootstrap ipfsBootstrapAddrs.

(** What New asks libp2p to build: identity, listen addresses (none means
    NoListenAddrs) and static relays (none means no AutoRelay). *)
Record host_config := mkHostConfig { hc_identity : bytes; hc_listen : list bytes; hc_relays : list AddrInfo }.

(** The answers of key generation, of libp2p.New and of the two DHT calls. *)
Record p2p_net := mkP2pNet {
  pn_key : res error bytes;
  pn_host : host_config -> res error lhost;
  pn_dht : option error;
  pn_bootstrap : option error;
}.

Definition listen_strings (addrs : option (list maddr)) : list bytes :=
  match addrs with
  | None => defaultListenStrings
  | Some l => map show_maddr l
  end.

Definition p2p_New (opts : p2p_options) (net : p2p_net) : res error P2pBackend :=
  match o_Host opts with
  | Some h =>
      if bool_decide (is_Some (o_Identity opts)) || bool_decide (is_Some (o_ListenAddrs opts)) ||
         bool_decide (is_Some (o_Bootstrap opts))
      then Err (Text (str "libp2p: Options.Host is exclusive with Identity/ListenAddrs/Bootstrap (configure those on the caller-supplied host instead)"))
      else Ok (mkP2p h false false)
  | None =>
      identity ← match o_Identity opts with
                 | Some k => Ok k
                 | None => map_err (fun e => Wrapf (str "libp2p: generate identity: ") e []) (pn_key net)
                 end;
      bootstrap ← match o_Bootstrap opts with Some b => Ok b | None => DefaultBootstrap end;
      h ← map_err (fun e => Wrapf (str "libp2p: new host: ") e [])
            (pn_host net (mkHostConfig identity (listen_strings (o_ListenAddrs opts)) bootstrap));
      if 0 <? len bootstrap then
        match pn_dht net, pn_bootstrap net with
        | Some e, _ => Err (Wrapf (str "libp2p: new dht: ") e [])
        | None, Some e => Err (Wrapf (str "libp2p: bootstrap dht: ") e [])
        | None, None => Ok (mkP2p h true false)
        end
      else Ok (mkP2p h true false)
  end.

Definition p2p_Schemes (b : P2pBackend) : list bytes := [p2p_Scheme].

Definition p2p_Endpoints (b : P2pBackend) : list bytes :=
  map (fun a => str "libp2p:" ++ show_maddr a ++ str "/p2p/" ++ show_peer (host_id (host b))) (host_addrs (host b)).

Definition p2p_with_handlers (b : P2pBackend) (hs : gmap bytes nat) : P2pBackend :=
  mkP2p (mkHost (host_id (host b)) (host_addrs (host b)) hs) (ownsHost b) (p_closed b).

Definition p2p_Handle (b : P2pBackend) (proto : bytes) (h : nat) : P2pBackend :=
  p2p_with_handlers b (<[proto := h]> (host_handlers (host b))).

Definition p2p_Unhandle (b : P2pBackend) (proto : bytes) : P2pBackend :=
  p2p_with_handlers b (delete proto (host_handlers (host b))).

Definition parseEndpoint (endpoint : bytes) : res error AddrInfo :=
  if bool_decide (endpoint = []) then Err (Text (str "empty endpoint"))
  else
    let n := len p2p_Scheme + 1 in
    let maStr :=
      if (n <? len endpoint) && bool_decide (slice_to endpoint n = p2p_Scheme ++ str ":")
      then slice_from endpoint n else endpoint in
    ma ← map_err (fun e => Wrapf (str "parse multiaddr " ++ Quote maStr ++ str ": ") e []) (NewMultiaddr maStr);
    map_err (fun e => Wrapf (str "multiaddr needs /p2p/<peer-id> suffix: ") e []) (AddrInfoFromP2pAddr ma).

(** host.Connect and host.NewStream: their errors, if any. *)
Record p2p_dialing := mkP2pDialing { pd_connect : option error; pd_stream : option error }.

(** An open stream: the peer it leads to and the protocol. *)
Definition p2p_Dial (b : P2pBackend) (net : p2p_dialing) (endpoint proto : bytes) : res error (AddrInfo * bytes) :=
  info ← map_err (fun e => Wrapf (str "libp2p: dial: ") e []) (parseEndpoint endpoint);
  match pd_connect net with
  | Some e => Err (Wrapf (str "libp2p: connect " ++ show_peer (fst info) ++ str ": ") e [])
  | None =>
      match pd_stream net with
      | Some e => Err (Wrapf (str "libp2p: open " ++ proto ++ str ": ") e [])
      | None => Ok (info, proto)
      end
  end.

Definition p2p_Close (b : P2pBackend) (h : option error) : P2pBackend * option error :=
  if negb (ownsHost b) then (b, None) else (mkP2p (host b) (ownsHost b) true, h).

(** ** All backends behind the interface *)

Inductive backend :=
| BUnix (b : UnixBackend) | BWs (b : WsBackend) | BH2 (b : H2Backend) | BP2p (b : P2pBackend).

Inductive any_stream :=
| SUnix (s : unix_stream) | SWs (s : ws_conn) | SH2 (s : h2_conn) | SP2p (peer : AddrInfo) (proto : bytes).

(** What each network would answer. *)
Record any_net := mkNet {
  n_unix : unix_net;
  n_shown : URL -> bytes;
  n_ws : option (error * option Z);
  n_h2 : h2_net;
  n_p2p : p2p_dialing;
}.

Definition res_map {E A C} (f : A -> C) (r : res E A) : res E C :=
  match r with Ok a => Ok (f a) | Err e => Err e end.

#[global] Instance backend_transport : Transport backend := {|
  tstream := any_stream;
  dial_env := any_net;
  Schemes b := match b with
    | BUnix b => unix_Schemes b | BWs b => ws_Schemes b | BH2 b => h2_Schemes b | BP2p b => p2p_Schemes b end;
  Endpoints b := match b with
    | BUnix b => unix_Endpoints b | BWs b => ws_Endpoints b | BH2 b => h2_Endpoints b | BP2p b => p2p_Endpoints b end;
  Handle b p h := match b with
    | BUnix b => BUnix (unix_Handle b p h) | BWs b => BWs (ws_Handle b p h)
    | BH2 b => BH2 (h2_Handle b p h) | BP2p b => BP2p (p2p_Handle b p h) end;
  Unhandle b p := match b with
    | BUnix b => BUnix (unix_Unhandle b p) | BWs b => BWs (ws_Unhandle b p)
    | BH2 b => BH2 (h2_Unhandle b p) | BP2p b => BP2p (p2p_Unhandle b p) end;
  Dial b net ep p := match b with
    | BUnix b => res_map SUnix (unix_Dial b (n_unix net) ep p)
    | BWs b => res_map SWs (ws_Dial b (n_shown net) (n_ws net) ep p)
    | BH2 b => res_map SH2 (h2_Dial b (n_h2 net) ep p)
    | BP2p b => res_map (fun '(i, q) => SP2p i q) (p2p_Dial b (n_p2p net) ep p) end;
  Close b e := match b with
    | BUnix b => let '(b, r) := unix_Close b e in (BUnix b, r)
    | BWs b => let '(b, r) := ws_Close b e in (BWs b, r)
    | BH2 b => let '(b, r) := h2_Close b e in (BH2 b, r)
    | BP2p b => let '(b, r) := p2p_Close b e in (BP2p b, r) end;
|}.

Definition table (b : backend) : gmap bytes nat :=
  match b with
  | BUnix b => u_handlers b | BWs b => w_handlers b | BH2 b => h_handlers b
  | BP2p b => host_handlers (host b)
  end.

(** The four backends keep the interface's promise. *)
#[global] Instance backend_laws : TransportLaws backend.
Proof.
  refine {| handler_of b p := table b !! p |}.
  - intros b p h q. destruct b; simpl; case_bool_decide as E; try subst q;
      by rewrite ?lookup_insert_eq, ?lookup_insert_ne by done.
  - intros b p q. destruct b; simpl; case_bool_decide as E; try subst q;
      by rewrite ?lookup_delete_eq, ?lookup_delete_ne by done.
  - by intros [].
  - by intros [].
Defined.

End libp2p.

(** ** Endpoints lead back to their backend *)

Section endpoints.
Context {FT : Foreign} {UA : UrlAuthority} {MA : Multiaddr}.

(** Listen addresses without characters that mean something in a URL: an
    absolute socket path, a host and port the authority grammar accepts, or
    multiaddresses, which start with a slash and a protocol name. *)
Definition maddr_ok (a : bytes) : Prop :=
  exists c p, a = x2f :: c :: p /\ c <> x2f /\ forallb plain a = true.

Definition host_port_ok (a : bytes) : Prop :=
  forallb plain a = true /\ (x2f ∉ a) /\ exists h, parseAuthority a = Some h /\ h <> [].

Definition address_ok (b : backend) : Prop :=
  match b with
  | BUnix b => forallb plain (u_addr b) = true /\ exists p, u_addr b = x2f :: p
  | BWs b => host_port_ok (w_addr b)
  | BH2 b => host_port_ok (h_addr b)
  | BP2p b => (forall a, a ∈ host_addrs (host b) -> maddr_ok (show_maddr a)) /\
              forallb plain (show_peer (host_id (host b))) = true
  end.

Lemma schemeOf_Parse ep s u :
  Parse ep = Ok u -> Scheme u = s -> s <> [] -> ep <> [] -> (forall r, ep <> x2f :: r) -> schemeOf ep = Ok s.
Proof.
  intros HP <- Hs Hne Hsl. destruct ep as [|c r]; [done|].
  assert (schemeOf (c :: r) = match Parse (c :: r) with
    | Err e => Err (Wrapf (str "parse endpoint " ++ Quote (c :: r) ++ str ": ") (Text (url_error e)) [])
    | Ok u => if bool_decide (Scheme u = []) then Err (Text (str "endpoint " ++ Quote (c :: r) ++ str " has no scheme"))
              else Ok (Scheme u) end) as ->.
  { destruct c; try reflexivity. by destruct (Hsl r). }
  rewrite HP. by rewrite bool_decide_eq_false_2.
Qed.

Lemma unix_endpoint p :
  forallb plain (x2f :: p) = true -> Parse (str "unix://" ++ x2f :: p) = Ok (mkURL unix_Scheme [] [] (x2f :: p)).
Proof. intros H. by apply (Parse_path unix_Scheme p). Qed.

Lemma host_endpoint sch a :
  scheme_name sch = true -> host_port_ok a ->
  exists h, h <> [] /\ Parse (sch ++ str "://" ++ a) = Ok (mkURL sch [] h []).
Proof.
  intros Hn (Hp & Hs & h & Ha & Hh). exists h. split; [done|].
  rewrite Parse_host by done. by rewrite Ha.
Qed.

Lemma endpoint_scheme (b : backend) ep :
  address_ok b -> ep ∈ Endpoints b -> exists s, schemeOf ep = Ok s /\ s ∈ Schemes b.
Proof.
  assert (forall sch a, scheme_name sch = true -> host_port_ok a ->
    (forall r, sch ++ str "://" ++ a <> x2f :: r) -> schemeOf (sch ++ str "://" ++ a) = Ok sch) as Hhp.
  { intros sch a H1 H2 H3. destruct (host_endpoint sch a H1 H2) as (h & _ & HP).
    eapply schemeOf_Parse; [exact HP|done|by destruct sch|by destruct sch|exact H3]. }
  destruct b as [b|b|b|b]; cbn [Endpoints Schemes backend_transport address_ok].
  - intros (Hp & p & Hu) Hin. unfold unix_Endpoints in Hin. case_bool_decide as E; [set_solver|].
    apply list_elem_of_singleton in Hin as ->. exists unix_Scheme. split; [|left]. rewrite Hu in *.
    by eapply schemeOf_Parse; [apply unix_endpoint|..].
  - intros Ha Hin. unfold ws_Endpoints in Hin. case_bool_decide as E; [set_solver|].
    destruct (w_useTLS b); apply list_elem_of_singleton in Hin as ->.
    + exists SchemeWSS. split; [by apply (Hhp SchemeWSS)|set_solver].
    + exists SchemeWS. split; [by apply (Hhp SchemeWS)|set_solver].
  - intros Ha Hin. unfold h2_Endpoints in Hin. case_bool_decide as E; [set_solver|].
    destruct (h_useTLS b); apply list_elem_of_singleton in Hin as ->.
    + exists SchemeHTTPS. split; [by apply (Hhp SchemeHTTPS)|set_solver].
    + exists SchemeHTTP. split; [by apply (Hhp SchemeHTTP)|set_solver].
  - intros [Ha Hid] (a & -> & Hin)%list_elem_of_fmap. destruct (Ha a Hin) as (c & p & Hs & Hc & Hp).
    exists p2p_Scheme. split; [|left]. rewrite Hs in *.
    eapply schemeOf_Parse; [apply (Parse_rooted p2p_Scheme c (p ++ str "/p2p/" ++ show_peer (host_id (host b))))|..]; try done.
    change (forallb plain ((x2f :: c :: p) ++ str "/p2p/" ++ show_peer (host_id (host b))) = true).
    rewrite forallb_app, Hp, forallb_app, Hid. done.
Qed.

(** An endpoint a backend advertises leads back to it.  When a backend of
    an aggregator listens on an ordinary address, dialing any endpoint it
    advertises through the aggregator dials that very backend, whichever other
    backends are aggregated. *)
Theorem advertised_endpoints_route_home (st : nat -> backend) bs m b env have ep proto
  (Hm : Multi st bs = Ok m) (Hb : b ∈ bs) (Ha : address_ok (st b)) (Hep : ep ∈ Endpoints (st b)) :
  multi_Dial st m env have ep proto = Dial (st b) env ep proto.
Proof.
  destruct (endpoint_scheme (st b) ep Ha Hep) as (s & Hs & Hin).
  apply Multi_ok in Hm as (_ & Ht & _). unfold multi_Dial. rewrite Hs.
  by rewrite (proj2 (Ht s b) (conj Hb Hin)).
Qed.

(** ** unix: what is dialled is what is served *)

(** A Dial over a unix socket reaches the listener's handler of the same
    protocol.  A listener bound to an ordinary absolute path advertises one
    endpoint; dialing it with a protocol id connects to that path, and the
    listener serving what arrives (the prefix the dialer wrote, then whatever
    the client sends) hands exactly the client's bytes to the handler
    registered for that id, under the caller's credentials.  An id nobody
    registered, an empty id and one of more than 256 bytes are never served:
    the first is closed by the listener, the others the dialer refuses. *)
Theorem unix_dial_reaches_handler addr p (b client : UnixBackend) proto rest uid pid
  (Haddr : addr = x2f :: p) (Hplain : forallb plain addr = true)
  (Hb : unix_New addr None = Ok b) :
  exists ep, unix_Endpoints b = [ep] /\
  if (1 <=? len proto) && (len proto <=? 256) then
    exists s, unix_Dial client (mkUnixNet None None) ep proto = Ok s /\ us_path s = addr /\
    forall hs, unix_handleConn (mkUnix addr hs false) (us_sent s ++ rest) (Ok (uid, pid)) =
      match hs !! proto with
      | Some h => ToHandler h (str "unix:uid=" ++ Itoa uid ++ str ":pid=" ++ Itoa pid) rest
      | None => Closed
      end
  else forall net, is_ok (unix_Dial client net ep proto) = false.
Proof.
  subst addr. unfold unix_New in Hb. rewrite bool_decide_eq_false_2 in Hb by done. injection Hb as <-.
  exists (str "unix://" ++ x2f :: p). split; [done|].
  assert (parseUnixEndpoint (str "unix://" ++ x2f :: p) = Ok (x2f :: p)) as Hpe.
  { unfold parseUnixEndpoint. by rewrite unix_endpoint. }
  unfold unix_Dial. rewrite Hpe. cbn [mbind res_bind]. pose proof (len_nonneg proto).
  destruct ((1 <=? len proto) && (len proto <=? 256)) eqn:E; go_bool.
  - rewrite bool_decide_eq_false_2 by (intros ->; len_nil; lia). cbn [negb guard_ok].
    assert ((UnixProto.maxProtoLen <? len proto) = false) as Hm.
    { apply Z.ltb_ge. unfold UnixProto.maxProtoLen. lia. }
    rewrite Hm. cbn [negb guard_ok un_dial un_write]. eexists. split; [done|]. split; [done|]. intros hs.
    unfold unix_handleConn. cbn [us_sent u_handlers].
    rewrite readProto_writeProto, Hm by (change (128 ^ 2) with 16384; lia).
    assert ((len proto =? 0) = false) as -> by (apply Z.eqb_neq; lia).
    by destruct (hs !! proto).
  - intros net. destruct (bool_decide (proto = [])) eqn:E0; [done|]. cbn [negb guard_ok].
    assert ((UnixProto.maxProtoLen <? len proto) = true) as ->; [|done].
    go_bool. assert (len proto <> 0) by (intros H0%len_0; done).
    apply Z.ltb_lt. unfold UnixProto.maxProtoLen. apply andb_false_iff in E as [?%Z.leb_gt|?%Z.leb_gt]; lia.
Qed.

End endpoints.

(** ** websocket: the peer token *)

Section token.
Context {FT : Foreign} {UA : UrlAuthority}.

Lemma token_prefix_graphic r :
  forallb graphic (peerTokenPrefix ++ hexEncode r) = true /\ (x2c ∉ peerTokenPrefix ++ hexEncode r).
Proof.
  destruct (hexEncode_graphic r) as [H1 H2]. split.
  - by rewrite forallb_app, H1.
  - apply not_elem_of_app. split; [|done]. by apply (bool_decide_unpack _).
Qed.

(** The listener recovers the token from the subprotocol the dialer offers. *)
Lemma selectPeerToken_offered r : selectPeerToken [peerTokenPrefix ++ hexEncode r] = hexEncode r.
Proof.
  destruct (token_prefix_graphic r) as [Hg Hc]. cbn [selectPeerToken]. change (str ",") with [x2c].
  rewrite Split_piece by done. cbn [select_candidate]. rewrite TrimSpace_graphic by done.
  rewrite HasPrefix_app. unfold TrimPrefix. by rewrite HasPrefix_app, drop_app_length.
Qed.

(** The websocket peer token identifies the dialing backend.  Whatever
    endpoint and protocol a backend built on sixteen random bytes [r] dials,
    the listener that serves the request gives the handler of that protocol
    the remote id "ws-peer:" followed by the hexadecimal text of [r] and echoes
    the offered subprotocol (404 when there is no handler); so all streams of
    one backend share a remote id, and backends whose random bytes differ never
    do. *)
Theorem ws_token_identifies_dialer addr tls skip r listen client shown ep proto s (b : WsBackend)
  (Hr : len r = 16) (Hnew : ws_New addr tls skip (Ok r) listen = Ok client)
  (Hdial : ws_Dial client shown None ep proto = Ok s) :
  Path (wc_target s) = proto /\
  ws_serveHTTP b (Path (wc_target s)) (wc_subprotocols s) true =
    match w_handlers b !! proto with
    | Some h => Streaming h (str "ws-peer:" ++ hexEncode r) (wc_subprotocols s)
    | None => HttpStatus 404
    end /\
  (forall r', str "ws-peer:" ++ hexEncode r' = str "ws-peer:" ++ hexEncode r <-> r' = r).
Proof.
  assert (peerToken client = hexEncode r) as Ht.
  { unfold ws_New in Hnew. cbn [mintPeerToken mbind res_bind] in Hnew. by go_run. }
  assert (s = mkWsConn (mkURL (Scheme (wc_target s)) (Opaque (wc_target s)) (Host (wc_target s)) proto)
                [peerTokenPrefix ++ hexEncode r] (wc_remote s)) as ->.
  { unfold ws_Dial in Hdial. go_run. by rewrite Ht. }
  cbn [wc_target Path wc_subprotocols]. split; [done|]. split.
  - unfold ws_serveHTTP. rewrite selectPeerToken_offered.
    rewrite bool_decide_eq_false_2; [by destruct (w_handlers b !! proto)|].
    intros H%(f_equal len). rewrite hexEncode_len, Hr in H. done.
  - intros r'. split; [|by intros ->]. intros H%app_inv_head. by apply hexEncode_inj.
Qed.

End token.

(** ** websocket: reading a stream of messages *)

(** io.Copy over the stream: read until an error; the inner [None] means the
    reader waits for the peer, the outer one that [n] calls were not enough. *)
Fixpoint drain (n : nat) (s : ws_stream) : bytes * option (option rerr) :=
  match n with
  | O => ([], None)
  | S n =>
      match ws_Read s with
      | (_, None) => ([], Some None)
      | (_, Some (p, Some e)) => (p, Some (Some e))
      | (s, Some (p, None)) => let '(q, o) := drain n s in (p ++ q, o)
      end
  end.

(** What a message's reader yields, and the error that cut it short. *)
Fixpoint reader_out (reads : list answer) : bytes * option rerr :=
  match reads with
  | [] => ([], None)
  | (p, Some REof) :: _ => (p, None)
  | (p, Some e) :: _ => (p, Some e)
  | (p, None) :: reads => let '(q, o) := reader_out reads in (p ++ q, o)
  end.

(** The bytes of a connection: its binary messages in order, up to the first
    error. *)
Fixpoint conn_out (conn : list incoming) : bytes * option rerr :=
  match conn with
  | [] => ([], None)
  | ConnError code e :: _ => ([], Some (normalizeReadErr code e))
  | Message mt reads :: conn =>
      if negb (mt =? BinaryMessage) then conn_out conn
      else match reader_out reads with
           | (p, Some e) => (p, Some e)
           | (p, None) => let '(q, o) := conn_out conn in (p ++ q, o)
           end
  end.

Definition stream_out (s : ws_stream) : bytes * option rerr :=
  match curReader s with
  | None => conn_out (conn s)
  | Some reads =>
      match reader_out reads with
      | (p, Some e) => (p, Some e)
      | (p, None) => let '(q, o) := conn_out (conn s) in (p ++ q, o)
      end
  end.

(** The answers still to come bound the calls of Read that return bytes. *)
Definition pending (s : ws_stream) : nat :=
  length (default [] (curReader s)) +
  sum_list_with (fun i => match i with Message _ reads => length reads | ConnError _ _ => 0 end)%nat (conn s).

Lemma read_current_spec reads :
  match read_current reads with
  | (None, cur) => cur = None /\ reader_out reads = ([], None)
  | (Some (p, Some e), _) => reader_out reads = (p, Some e)
  | (Some (p, None), cur) =>
      (length (default [] cur) < length reads)%nat /\
      reader_out reads = let '(q, o) := reader_out (default [] cur) in (p ++ q, o)
  end.
Proof.
  destruct reads as [|[p [[|e]|]] reads]; cbn; [done| |done|split; [lia|done]].
  destruct (0 <? len p) eqn:E; cbn; [rewrite app_nil_r; split; [lia|done]|].
  split; [done|]. go_bool. assert (len p = 0) as ->%len_0 by (pose proof (len_nonneg p); lia). done.
Qed.

Definition conn_pending (conn : list incoming) : nat := pending (mkWsStream None conn).

Lemma read_next_spec conn :
  match read_next conn with
  | (_, None) => conn_out conn = ([], None)
  | (_, Some (p, Some e)) => conn_out conn = (p, Some e)
  | (s, Some (p, None)) =>
      (pending s < conn_pending conn)%nat /\
      conn_out conn = let '(q, o) := stream_out s in (p ++ q, o)
  end.
Proof.
  induction conn as [|[mt reads|code e] conn IH]; cbn [read_next conn_out]; [done| |done].
  destruct (mt =? BinaryMessage); cbn [negb].
  2: { destruct (read_next conn) as [s [[p [e|]]|]]; [done| |done]. unfold conn_pending, pending in *. simpl in *.
       destruct IH. split; [lia|done]. }
  pose proof (read_current_spec reads) as Hc.
  destruct (read_current reads) as [[[p [e|]]|] cur]; [by rewrite Hc| |].
  - destruct Hc as [Hlt Hc]. rewrite Hc. split; [unfold conn_pending, pending; simpl; lia|].
    unfold stream_out. cbn [curReader Backends.conn]. destruct cur as [reads'|]; cbn [default from_option id].
    + destruct (reader_out reads') as [q [e|]]; [done|]. destruct (conn_out conn). by rewrite app_assoc.
    + cbn. by rewrite app_nil_r.
  - destruct Hc as [_ Hc]. rewrite Hc.
    destruct (read_next conn) as [s [[p [e|]]|]].
    + by rewrite IH.
    + destruct IH as [Hlt IH]. split; [unfold conn_pending, pending in *; simpl in *; lia|].
      rewrite IH. by destruct (stream_out s).
    + by rewrite IH.
Qed.

Lemma ws_Read_spec s :
  match ws_Read s with
  | (_, None) => stream_out s = ([], None)
  | (_, Some (p, Some e)) => stream_out s = (p, Some e)
  | (s', Some (p, None)) =>
      (pending s' < pending s)%nat /\ stream_out s = let '(q, o) := stream_out s' in (p ++ q, o)
  end.
Proof.
  destruct s as [[reads|] c]; [|apply read_next_spec]. unfold ws_Read. cbn [curReader].
  pose proof (read_next_spec (Message BinaryMessage reads :: c)) as H. cbn [read_next] in H.
  change (negb (BinaryMessage =? BinaryMessage)) with false in H. cbv iota in H.
  cbn [Backends.conn]. exact H.
Qed.

(** C32: reading a websocket stream to the end yields the payloads of its
    binary messages, concatenated in order, and terminates.  However the
    messages are cut into reads, whatever empty or non-binary messages come
    between them, after at most one call of Read per pending answer the reader
    has delivered exactly the bytes of the binary messages up to the first
    failure: message boundaries never surface as end-of-file, and the final
    error is the connection's (a normal close, "going away" or a close without
    status is EOF). *)
Theorem ws_stream_concatenates s n (Hn : (pending s < n)%nat) :
  drain n s = (fst (stream_out s), Some (snd (stream_out s))).
Proof.
  revert s Hn. induction n as [|n IH]; intros s Hn; [lia|]. cbn [drain].
  pose proof (ws_Read_spec s) as H. destruct (ws_Read s) as [s' [[p [e|]]|]].
  - by rewrite H.
  - destruct H as [Hlt H]. rewrite H, (IH s') by lia. by destruct (stream_out s').
  - by rewrite H.
Qed.

(** ** Witnesses *)

(** Concrete texts, an authority grammar that accepts everything, and
    multiaddresses kept as text with the peer id behind /p2p/. *)
Definition plain_foreign : Foreign :=
  {| ErrReset_text := str "stream reset";
     Quote s := [x22] ++ s ++ [x22];
     url_error _ := str "parse error" |}.

Definition any_authority : UrlAuthority :=
  {| parseAuthority a := Some a; parseAuthority_empty := eq_refl |}.

Definition text_multiaddr : Multiaddr :=
  {| maddr := bytes; peer_id := bytes; show_maddr a := a; show_peer p := p;
     NewMultiaddr a := if HasPrefix a (str "/") then Ok a else Err (Text (str "must begin with /"));
     AddrInfoFromP2pAddr a :=
       let '(addr, id, found) := Cut a (str "/p2p/") in
       if found then Ok (id, [addr]) else Err (Text (str "no peer id")) |}.

#[local] Existing Instance plain_foreign.
#[local] Existing Instance any_authority.
#[local] Existing Instance text_multiaddr.

(** A host listening on a socket and on TCP, and dialing with libp2p. *)
Definition home_unix : UnixBackend := mkUnix (str "/run/mosey.sock") ∅ false.
Definition home_ws : WsBackend := mkWs (str "10.0.0.1:8080") true false ∅ None (hexEncode (replicate 16 x2a)) false.
Definition home_store (r : nat) : backend :=
  match r with
  | 0%nat => BUnix home_unix
  | 1%nat => BWs home_ws
  | _ => BP2p (mkP2p (mkHost (str "QmA") [str "/ip4/10.0.0.1/tcp/4001"] ∅) true false)
  end.
Definition quiet_net : any_net :=
  mkNet (mkUnixNet None None) (fun u => Host u) None (Responded 200) (mkP2pDialing None None).

Lemma advertised_endpoints_route_home_witness :
  exists m, Multi home_store [0; 1; 2]%nat = Ok m /\
    multi_Dial home_store m quiet_net [] (str "libp2p:/ip4/10.0.0.1/tcp/4001/p2p/QmA") (str "/mosey/pty/1.0.0") =
    Dial (home_store 2) quiet_net (str "libp2p:/ip4/10.0.0.1/tcp/4001/p2p/QmA") (str "/mosey/pty/1.0.0").
Proof.
  destruct (Multi home_store [0; 1; 2]%nat) as [m|e] eqn:E; [|not_err E].
  exists m. split; [done|]. apply (advertised_endpoints_route_home home_store [0; 1; 2]%nat m 2%nat); [done|set_solver| |].
  - split; [|reflexivity]. intros a ->%list_elem_of_singleton. exists x69, (str "p4/10.0.0.1/tcp/4001").
    split_and!; [done|done|reflexivity].
  - change (Endpoints (home_store 2)) with [str "libp2p:/ip4/10.0.0.1/tcp/4001/p2p/QmA"]. set_solver.
Defined.

Lemma multi_handlers_fan_out_witness :
  exists m, Multi home_store [0; 1; 2]%nat = Ok m /\
  let '(st', m') := fold_left multi_step [MHandle (str "/a") 1; MHandle (str "/b") 2; MUnhandle (str "/a")] (home_store, m) in
  (forall b p, b ∈ [0; 1; 2]%nat -> handler_of (st' b) p = handlers m' !! p) /\
  (forall s b, schemes m' !! s = Some b <-> b ∈ [0; 1; 2]%nat /\ s ∈ Schemes (st' b)) /\
  (forall b, b ∉ [0; 1; 2]%nat -> st' b = home_store b).
Proof.
  destruct (Multi home_store [0; 1; 2]%nat) as [m|e] eqn:E; [|not_err E].
  exists m. split; [done|]. apply (multi_handlers_fan_out home_store [0; 1; 2]%nat m _ E).
  intros b p Hb. rewrite !elem_of_cons in Hb. destruct Hb as [->|[->|[->|Hb]]]; try reflexivity. set_solver.
Defined.

Lemma unix_dial_reaches_handler_witness :
  exists ep, unix_Endpoints home_unix = [ep] /\
  if (1 <=? len (str "/mosey/pty/1.0.0")) && (len (str "/mosey/pty/1.0.0") <=? 256) then
    exists s, unix_Dial (mkUnix [] ∅ false) (mkUnixNet None None) ep (str "/mosey/pty/1.0.0") = Ok s /\
    us_path s = str "/run/mosey.sock" /\
    forall hs, unix_handleConn (mkUnix (str "/run/mosey.sock") hs false) (us_sent s ++ str "ls") (Ok (1000, 42)) =
      match hs !! str "/mosey/pty/1.0.0" with
      | Some h => ToHandler h (str "unix:uid=" ++ Itoa 1000 ++ str ":pid=" ++ Itoa 42) (str "ls")
      | None => Closed
      end
  else forall net, is_ok (unix_Dial (mkUnix [] ∅ false) net ep (str "/mosey/pty/1.0.0")) = false.
Proof.
  apply (unix_dial_reaches_handler (str "/run/mosey.sock") (str "run/mosey.sock") home_unix
           (mkUnix [] ∅ false) (str "/mosey/pty/1.0.0") (str "ls") 1000 42); reflexivity.
Defined.

(** A browser-side backend dialing the host. *)
Definition web_ws : WsBackend := mkWs [] false false ∅ None (hexEncode (replicate 16 x07)) false.

Lemma ws_token_identifies_dialer_witness :
  exists s, ws_Dial web_ws (fun u => Host u) None (str "ws://10.0.0.1:8080") (str "/mosey/pty/1.0.0") = Ok s /\
  ws_serveHTTP (ws_Handle home_ws (str "/mosey/pty/1.0.0") 5) (Path (wc_target s)) (wc_subprotocols s) true =
    Streaming 5 (str "ws-peer:" ++ hexEncode (replicate 16 x07)) (wc_subprotocols s).
Proof.
  destruct (ws_Dial web_ws (fun u => Host u) None (str "ws://10.0.0.1:8080") (str "/mosey/pty/1.0.0")) as [s|e] eqn:E;
    [|not_err E].
  exists s. split; [done|].
  destruct (ws_token_identifies_dialer [] None false (replicate 16 x07) (Ok []) web_ws (fun u => Host u)
    (str "ws://10.0.0.1:8080") (str "/mosey/pty/1.0.0") s (ws_Handle home_ws (str "/mosey/pty/1.0.0") 5))
    as (_ & H & _); [reflexivity|reflexivity|exact E|].
  rewrite H. reflexivity.
Defined.

Lemma ws_stream_concatenates_witness :
  drain 6 (mkWsStream None [Message 1 [(str "text", None)]; Message 2 [(str "ab", None); (str "c", Some REof)];
                            Message 2 []; Message 2 [(str "de", None)]; ConnError (Some 1001) (str "bye")]) =
  (str "abcde", Some (Some REof)).
Proof. rewrite (ws_stream_concatenates _ 6) by (cbn; lia). reflexivity. Defined.
