(* ===== verification/Attach.v ===== *)
(** * attach: the client (src/attach/attach.go, src/attach/control.go)

    [Run]'s loop as a state machine: the main goroutine (dialing, waiting out
    the backoff, blocked on a pump, returned), the output goroutine of every
    stream it opened (which may outlive the pump that started it), the errors
    the pump goroutines posted, the control stream and the size watcher.  An
    event is one thing the environment or the scheduler does; [lstep] runs the
    goroutine concerned up to its next blocking point. *)

From S2P Require Import Prelude GoStrings GoTime Streambuf Varint Identity AuthWrap GoUrl Transport Backends.

(** ** Constants *)

Definition ProtoPTY : bytes := str "/mosey/pty/1.0.0".
Definition ProtoPTYResume : bytes := str "/mosey/pty-resume/1.0.0".
Definition ProtoControl : bytes := str "/mosey/control/1.0.0".
Definition errPrefix : bytes := str "mosey/attach: ".

Definition Millisecond : Z := 1000000.
Definition reconnectInitialDelay : Z := 200 * Millisecond.
Definition reconnectMaxDelay : Z := 5 * Second.

(** time.Duration arithmetic wraps at 64 bits. *)
Definition nextDelay (d : Z) : Z :=
  let d := i64 (d * 2) in
  if reconnectMaxDelay <? d then reconnectMaxDelay else d.

(** ** Substring search *)

Definition slice {A} (l : list A) (i j : Z) : list A := slice_to (slice_from l i) (j - i).

Fixpoint indexOf_loop (fuel : nat) (s sub : bytes) (i : Z) : Z :=
  if i + len sub <=? len s then
    if bool_decide (slice s i (i + len sub) = sub) then i
    else match fuel with O => -1 | S fuel => indexOf_loop fuel s sub (i + 1) end
  else -1.

(** The loop runs at most len(s)+1 times. *)
Definition indexOf (s sub : bytes) : Z := indexOf_loop (length s) s sub 0.

Definition contains (s sub : bytes) : bool :=
  (len sub =? 0) || ((len sub <=? len s) && (0 <=? indexOf s sub)).

(** ** lastSize: cols<<32 | rows *)

Definition pack_size (cols rows : Z) : Z := Z.lor (u64 (Z.shiftl cols 32)) rows.
Definition unpack_size (packed : Z) : Z * Z := (u32 (Z.shiftr packed 32), u32 packed).

Section attach.
Context {FT : Foreign}.

Definition fatalSubstrings : list bytes :=
  [str "unauthorized"; str "unsupported scheme"; str "missing host"; str "missing scheme"].

Definition isFatalDialError (err : option error) : bool :=
  match err with
  | None => false
  | Some e =>
      if Is e CtxCanceled || Is e CtxDeadlineExceeded then true
      else existsb (fun sub => contains (Error e) sub) fatalSubstrings
  end.

Definition isProtocolNotSupported (err : option error) : bool :=
  match err with
  | None => false
  | Some e => Contains (Error e) (str "protocol not supported") || Contains (Error e) (str "protocols not supported")
  end.

(** ** The control client *)

(** The messages written on the control stream, newest last. *)
Inductive ctl_msg := MResize (cols rows : Z) | MSignal (kind : Z).

Record controlClient := mkControl { c_closed : bool; c_sent : list ctl_msg }.

(** [None] in the result is the nil client of a peer without the protocol. *)
Definition newControlClient (dial : option error) : res error (option controlClient) :=
  match dial with
  | Some e =>
      if isProtocolNotSupported (Some e) then Ok None
      else Err (Wrapf (errPrefix ++ str "open " ++ ProtoControl ++ str ": ") e [])
  | None => Ok (Some (mkControl false []))
  end.

(** [wr] is what writing the message on the stream returns. *)
Definition send (c : controlClient) (msg : ctl_msg) (wr : option error) : controlClient * option error :=
  if c_closed c then (c, Some (Text (str "control stream closed")))
  else match wr with
       | Some e => (c, Some (Wrapf (str "write control: ") e []))
       | None => (mkControl false (c_sent c ++ [msg]), None)
       end.

Definition SendResize (c : controlClient) (cols rows : Z) (wr : option error) := send c (MResize cols rows) wr.
Definition SendSignal (c : controlClient) (kind : Z) (wr : option error) := send c (MSignal kind) wr.

Definition control_Close (c : controlClient) (cl : option error) : controlClient * option error :=
  if c_closed c then (c, None) else (mkControl true (c_sent c), cl).

(** localTerminalSize: what the standard input is decides. *)
Inductive stdin_kind := NotFile | NotTerminal | Terminal (size : res error (Z * Z)).

Definition localTerminalSize (k : stdin_kind) : Z * Z * option error :=
  match k with
  | NotFile | NotTerminal => (0, 0, None)
  | Terminal (Err e) => (0, 0, Some e)
  | Terminal (Ok (w, h)) => (u32 w, u32 h, None)
  end.

(** ** Run *)

(** An output goroutine: at its Read; with bytes on the screen that are not
    counted yet, and the error the same Read returned; ended, with the bytes a
    failed stdout.Write had put on the screen, which are never counted. *)
Inductive out_pc := ORead | OAdd (n : Z) (err : option error) | OStop (n : Z).

(** The bytes of [buf] a stdout.Write puts on the screen: all of them, or the
    first [n] when it fails after [n]. *)
Definition shown (buf : bytes) (werr : option (nat * error)) : bytes :=
  match werr with None => buf | Some (n, _) => take n buf end.

(** The main goroutine. *)
Inductive phase := Dialing | Waiting (d : Z) | Pumping (k : nat) | Returned (r : option error).

Record loop := mkLoop {
  ph : phase;
  proto : bytes;
  delay : Z;
  rendered : Z;                        (* renderedBytes *)
  screen : bytes;                      (* everything written to stdout *)
  streams : nat;                       (* streams opened so far *)
  outs : gmap nat out_pc;              (* their output goroutines *)
  ins : gset nat;                      (* the streams whose stdin copy runs *)
  errcs : gmap nat (list (option error)); (* what each pump's errc holds *)
  dials : list (bytes * option bytes); (* protocol and resume header of every Dial *)
  control : option controlClient;
  watching : bool;                     (* the size watcher runs *)
  lastSize : Z;
}.

(** The state before the loop, once the control stream is set up. *)
Definition start (c : option controlClient) : loop :=
  mkLoop Dialing ProtoPTY reconnectInitialDelay 0 [] 0 ∅ ∅ ∅ [] c (bool_decide (is_Some c)) 0.

(** dialPTY: the error it returns, if any, and the header it wrote. *)
Definition dialPTY (proto : bytes) (resumeSeq : Z) (dial wr : option error) : option error * option bytes :=
  match dial with
  | Some e => (Some (Wrapf (errPrefix ++ str "open " ++ proto ++ str ": ") e []), None)
  | None =>
      if bool_decide (proto = ProtoPTYResume) then
        match wr with
        | Some e => (Some (Wrapf (errPrefix ++ str "send resume header: ") e []), None)
        | None => (None, Resume.encodeVarint resumeSeq)
        end
      else (None, None)
  end.

Inductive levent :=
| EvDial (dial wr : option error) (ctx : option sentinel) (ctl : option error)
| EvTimer
| EvWaitCtx (c : sentinel)
| EvRead (k : nat) (buf : bytes) (err : option error) (werr : option (nat * error))
| EvAdd (k : nat)
| EvInput (k : nat) (err : option error)
| EvSelect (ctx : option sentinel)
| EvSelectCtx (c : sentinel)
| EvResize (cols rows : Z) (ctl : option error).

Definition post (l : loop) (k : nat) (err : option error) : gmap nat (list (option error)) :=
  <[k := default [] (errcs l !! k) ++ [err]]> (errcs l).

(** The deferred calls: the control stream is closed on the way out. *)
Definition return_ (l : loop) (r : option error) : loop :=
  mkLoop (Returned r) (proto l) (delay l) (rendered l) (screen l) (streams l) (outs l) (ins l) (errcs l) (dials l)
    (option_map (fun c => fst (control_Close c None)) (control l)) (watching l) (lastSize l).

(** What Run does with the pump's result. *)
Definition after_pump (l : loop) (err : option error) (ctx : option sentinel) : loop :=
  if IsExpectedShutdown err then return_ l None
  else match ctx with
       | Some c => return_ l (Some (Sentinel c))
       | None => mkLoop Dialing ProtoPTYResume (delay l) (rendered l) (screen l) (streams l) (outs l) (ins l) (errcs l)
                   (dials l) (control l) (watching l) (lastSize l)
       end.

(** The post-attach resend of the last size. *)
Definition resend (c : option controlClient) (packed : Z) (wr : option error) : option controlClient :=
  match c with
  | None => None
  | Some c =>
      if packed =? 0 then Some c
      else let '(cols, rows) := unpack_size packed in Some (fst (SendResize c cols rows wr))
  end.

(** pumpStream turns exactly io.EOF into nil. *)
Definition pump_result (err : option error) : option error :=
  match err with Some (Sentinel IoEOF) => None | _ => err end.

(** pumpStream's output goroutine at its Read: bytes go to stdout, an error to
    errc. *)
Definition read_step (l : loop) (k : nat) (buf : bytes) (err : option error) (werr : option (nat * error)) : option loop :=
  match outs l !! k with
  | Some ORead =>
      if 0 <? len buf then
        match werr with
        | Some (_, we) =>
            Some (mkLoop (ph l) (proto l) (delay l) (rendered l) (screen l ++ shown buf werr) (streams l)
                    (<[k := OStop (len (shown buf werr))]> (outs l)) (ins l) (post l k (Some we)) (dials l) (control l) (watching l) (lastSize l))
        | None =>
            Some (mkLoop (ph l) (proto l) (delay l) (rendered l) (screen l ++ shown buf werr) (streams l)
                    (<[k := OAdd (len buf) err]> (outs l)) (ins l) (errcs l) (dials l) (control l) (watching l) (lastSize l))
        end
      else
        match err with
        | Some _ => Some (mkLoop (ph l) (proto l) (delay l) (rendered l) (screen l) (streams l)
                      (<[k := OStop 0]> (outs l)) (ins l) (post l k err) (dials l) (control l) (watching l) (lastSize l))
        | None => Some l
        end
  | _ => None
  end.

(** Its rendered.Add, and the check of the Read's error after it. *)
Definition add_step (l : loop) (k : nat) : option loop :=
  match outs l !! k with
  | Some (OAdd n err) =>
      Some (mkLoop (ph l) (proto l) (delay l) (u64 (rendered l + u64 n)) (screen l) (streams l)
              (<[k := match err with Some _ => OStop 0 | None => ORead end]> (outs l)) (ins l)
              (match err with Some _ => post l k err | None => errcs l end)
              (dials l) (control l) (watching l) (lastSize l))
  | _ => None
  end.

(** The input goroutine's io.Copy ends. *)
Definition input_step (l : loop) (k : nat) (err : option error) : option loop :=
  if bool_decide (k ∈ ins l) then
    Some (mkLoop (ph l) (proto l) (delay l) (rendered l) (screen l) (streams l) (outs l) (ins l ∖ {[k]}) (post l k err)
            (dials l) (control l) (watching l) (lastSize l))
  else None.

(** A size from SIGWINCH or the channel, forwarded by the watcher. *)
Definition resize_step (l : loop) (cols rows : Z) (wr : option error) : option loop :=
  match control l with
  | Some cl =>
      if negb (watching l) then None
      else if (cols =? 0) || (rows =? 0) then Some l
      else
        let '(cl, err) := SendResize cl cols rows wr in
        Some (mkLoop (ph l) (proto l) (delay l) (rendered l) (screen l) (streams l) (outs l) (ins l) (errcs l) (dials l)
                (Some cl) (match err with Some _ => false | None => true end) (pack_size cols rows))
  | None => None
  end.

Definition lstep (l : loop) (e : levent) : option loop :=
  match e, ph l with
  | EvDial dial wr ctx ctl, Dialing =>
      let '(err, header) := dialPTY (proto l) (rendered l) dial wr in
      let dials := dials l ++ [(proto l, header)] in
      match err with
      | Some er =>
          let l := mkLoop (Waiting (delay l)) (proto l) (delay l) (rendered l) (screen l) (streams l) (outs l) (ins l)
                     (errcs l) dials (control l) (watching l) (lastSize l) in
          Some (if isFatalDialError (Some er) || bool_decide (is_Some ctx) then return_ l (Some er) else l)
      | None =>
          let k := streams l in
          Some (mkLoop (Pumping k) (proto l) reconnectInitialDelay (rendered l) (screen l) (S k)
                  (<[k := ORead]> (outs l)) ({[k]} ∪ ins l) (<[k := []]> (errcs l)) dials
                  (resend (control l) (lastSize l) ctl) (watching l) (lastSize l))
      end
  | EvTimer, Waiting d =>
      Some (mkLoop Dialing (proto l) (nextDelay (delay l)) (rendered l) (screen l) (streams l) (outs l) (ins l) (errcs l)
              (dials l) (control l) (watching l) (lastSize l))
  | EvWaitCtx c, Waiting d => Some (return_ l (Some (Sentinel c)))
  | EvRead k buf err werr, _ => read_step l k buf err werr
  | EvAdd k, _ => add_step l k
  | EvInput k err, _ => input_step l k err
  | EvSelect ctx, Pumping k =>
      match errcs l !! k with
      | Some (err :: rest) =>
          Some (after_pump (mkLoop (ph l) (proto l) (delay l) (rendered l) (screen l) (streams l) (outs l) (ins l)
                  (<[k := rest]> (errcs l)) (dials l) (control l) (watching l) (lastSize l)) (pump_result err) ctx)
      | _ => None
      end
  | EvSelectCtx c, Pumping k => Some (after_pump l (Some (Sentinel c)) (Some c))
  | EvResize cols rows wr, _ => resize_step l cols rows wr
  | _, _ => None
  end.

(** ** Run, before the loop *)

Inductive run_error :=
| NoTransport | NoTarget | ControlFailed (e : error) | MakeRawFailed (e : error).

(** Options checks, control stream, raw mode; [ctl] is the control dial,
    [size] the local terminal and [resizeC] whether sizes come from a channel
    instead, [sent] the write of the initial size, [raw] term.MakeRaw on a
    terminal. *)
Definition Run (transport target : bool) (ctl : option error) (resizeC : bool) (tty : stdin_kind)
    (sent raw : option error) : res run_error loop :=
  _ ← guard_ok transport NoTransport;
  _ ← guard_ok target NoTarget;
  c ← map_err ControlFailed (newControlClient ctl);
  let l := start c in
  let l :=
    match c with
    | Some cl =>
        if resizeC then l
        else
          let '(cols, rows, err) := localTerminalSize tty in
          match err with
          | None =>
              if (0 <? cols) && (0 <? rows) then
                mkLoop (ph l) (proto l) (delay l) (rendered l) (screen l) (streams l) (outs l) (ins l) (errcs l) (dials l)
                  (Some (fst (SendResize cl cols rows sent))) (watching l) (pack_size cols rows)
              else l
          | Some _ => l
          end
    | None => l
    end in
  match tty, raw with
  | Terminal _, Some e => Err (MakeRawFailed e)
  | _, _ => Ok l
  end.

End attach.

(** ** Substring search is strings.Contains *)

Lemma HasPrefix_slice s i sub :
  0 <= i -> i + len sub <= len s ->
  bool_decide (slice s i (i + len sub) = sub) = HasPrefix (slice_from s i) sub.
Proof.
  intros Hi Hl. unfold HasPrefix, slice, slice_to. replace (i + len sub - i) with (len sub) by lia.
  unfold len. by rewrite Nat2Z.id.
Qed.

Lemma HasPrefix_short s sub : len s < len sub -> HasPrefix s sub = false.
Proof.
  intros Hl. unfold HasPrefix. apply bool_decide_eq_false. intros H%(f_equal len).
  unfold len in *. rewrite length_take in H. lia.
Qed.

Lemma Index_go_short s sub i : len s < len sub -> Index_go s sub i = -1.
Proof.
  revert i. induction s as [|c s IH]; intros i Hl; cbn [Index_go]; rewrite HasPrefix_short by done; [done|].
  rewrite IH; [done|]. rewrite len_cons in Hl. lia.
Qed.

Lemma indexOf_Index fuel s sub i :
  0 <= i <= len s -> (Z.to_nat (len s - i) <= fuel)%nat ->
  indexOf_loop fuel s sub i = Index_go (slice_from s i) sub i.
Proof.
  revert i. induction fuel as [|fuel IH]; intros i Hi Hf; cbn [indexOf_loop];
    pose proof (len_nonneg sub); destruct (i + len sub <=? len s) eqn:E; go_bool.
  2, 4: symmetry; apply Index_go_short; rewrite len_slice_from; lia.
  all: rewrite HasPrefix_slice by lia.
  - assert (i = len s) by lia. subst i. rewrite slice_from_all by lia. cbn [Index_go].
    by destruct (HasPrefix [] sub).
  - destruct (decide (i = len s)) as [->|Hne].
    + rewrite slice_from_all by lia. cbn [Index_go]. destruct (HasPrefix [] sub) eqn:Ep; [done|].
      assert (len sub = 0) as ->%len_0 by lia. discriminate Ep.
    + rewrite IH by lia. destruct (slice_from s i) as [|c r] eqn:Es.
      { apply (f_equal len) in Es. rewrite len_slice_from in Es by lia. len_nil. lia. }
      cbn [Index_go]. destruct (HasPrefix (c :: r) sub); [done|]. f_equal.
      rewrite <- (slice_from_slice s i 1) by lia. by rewrite Es.
Qed.

(** The package's own substring test is strings.Contains, for every
    string and needle (the empty needle included), so its loop terminates
    within the string's length and never reads outside it. *)
Theorem contains_is_Contains s sub : contains s sub = Contains s sub.
Proof.
  unfold contains, Contains, Index, indexOf. pose proof (len_nonneg s). pose proof (len_nonneg sub).
  rewrite indexOf_Index by (unfold len in *; lia). rewrite slice_from_0.
  destruct (len sub =? 0) eqn:E0; go_bool; cbn [orb].
  - apply len_0 in E0 as ->. destruct s; by cbn.
  - destruct (len sub <=? len s) eqn:E1; go_bool; [done|]. by rewrite Index_go_short by lia.
Qed.

(** ** What is counted *)

Definition uncounted_of (o : out_pc) : Z := match o with OAdd n _ | OStop n => n | ORead => 0 end.

(** Bytes on the screen that no goroutine has added to the count yet. *)
Definition uncounted (m : gmap nat out_pc) : Z := map_fold (fun _ o n => uncounted_of o + n) 0 m.

Lemma uncounted_fresh m k o : m !! k = None -> uncounted (<[k := o]> m) = uncounted_of o + uncounted m.
Proof. intros H. unfold uncounted. rewrite map_fold_insert_L; [done| |done]. intros. lia. Qed.

Lemma uncounted_insert m k old new :
  m !! k = Some old -> uncounted (<[k := new]> m) = uncounted m - uncounted_of old + uncounted_of new.
Proof.
  intros H. rewrite <- insert_delete_eq, uncounted_fresh by apply lookup_delete_eq.
  rewrite <- (insert_delete_id m k old) at 2 by done. rewrite uncounted_fresh by apply lookup_delete_eq. lia.
Qed.

Lemma uncounted_nonneg m : map_Forall (fun _ o => 0 <= uncounted_of o) m -> 0 <= uncounted m.
Proof.
  induction m as [|k o m Hk IH] using map_ind; [done|]. intros [Ho Hm]%map_Forall_insert; [|done].
  rewrite uncounted_fresh by done. specialize (IH Hm). lia.
Qed.

(** A rejected handshake and an unknown scheme, as Dial reports them, are not
    fatal: neither text holds one of the substrings looked for. *)
Lemma rejected_dials_are_retried {FT : Foreign} resumeSeq wr :
  isFatalDialError (fst (dialPTY ProtoPTY resumeSeq
    (Some (Text (str "auth: peer failed authentication handshake"))) wr)) = false /\
  isFatalDialError (fst (dialPTY ProtoPTY resumeSeq (Some (Sentinel ErrUnsupportedScheme)) wr)) = false.
Proof. split; vm_compute; reflexivity. Qed.

Section invariant.
Context {FT : Foreign}.

Definition lrel (l : loop) (e : levent) (l' : loop) : Prop := lstep l e = Some l'.

(** Which protocol the next dial speaks. *)
Definition proto_ok (l : loop) : Prop :=
  match ph l with
  | Dialing | Waiting _ => proto l = if (streams l =? 0)%nat then ProtoPTY else ProtoPTYResume
  | Pumping k => (k < streams l)%nat
  | Returned _ => True
  end.

(** Counts are right until the screen holds 2^64 bytes. *)
Definition count_ok (l : loop) : Prop :=
  0 <= rendered l /\
  map_Forall (fun k o => (k < streams l)%nat /\ 0 <= uncounted_of o) (outs l) /\
  (len (screen l) < 2 ^ 64 -> rendered l + uncounted (outs l) = len (screen l)).

Lemma count_ok_uncounted l : count_ok l -> 0 <= uncounted (outs l).
Proof. intros (_ & H & _). apply uncounted_nonneg. intros k o Hk. by destruct (H k o Hk). Qed.

Lemma outs_insert l k o :
  map_Forall (fun k o => (k < streams l)%nat /\ 0 <= uncounted_of o) (outs l) ->
  is_Some (outs l !! k) -> 0 <= uncounted_of o ->
  map_Forall (fun k o => (k < streams l)%nat /\ 0 <= uncounted_of o) (<[k := o]> (outs l)).
Proof.
  intros H [o' Hk] Ho. apply map_Forall_insert_2; [|done]. by destruct (H k o' Hk).
Qed.

Lemma lstep_count l e l' : count_ok l -> lrel l e l' -> count_ok l'.
Proof.
  intros H Hs. pose proof (count_ok_uncounted l H) as Hu. destruct H as (H0 & Hf & Hc).
  unfold lrel in Hs. destruct e as [dial wr ctx ctl| |c|k buf err werr|k|k err|ctx|c|cols rows wr]; unfold lstep, read_step, add_step, input_step, resize_step in Hs.
  - destruct (ph l); try done. destruct (dialPTY _ _ _ _) as [[er|] header].
    + injection Hs as <-. by destruct (_ || _).
    + injection Hs as <-. unfold count_ok. cbn [rendered streams outs screen].
      assert (outs l !! streams l = None) as Hn.
      { destruct (outs l !! streams l) as [o|] eqn:E; [|done]. destruct (Hf _ _ E). lia. }
      split_and!; [done| |].
      * apply map_Forall_insert_2; [split; [lia|done]|]. eapply map_Forall_impl; [exact Hf|].
        intros i x [? ?]. split; [lia|done].
      * intros Hl. rewrite uncounted_fresh by done. cbn. by apply Hc.
  - destruct (ph l); try done. by injection Hs as <-.
  - destruct (ph l); try done. by injection Hs as <-.
  - destruct (outs l !! k) as [[| |]|] eqn:Ek; try done.
    destruct (0 <? len buf) eqn:El; go_bool.
    + destruct werr as [[i we]|]; injection Hs as <-; unfold count_ok; cbn [rendered streams outs screen].
      * pose proof (len_nonneg (take i buf)).
        split_and!; [done|apply outs_insert; [done|eauto|done]|].
        rewrite len_app. intros Hl. rewrite (uncounted_insert _ _ _ _ Ek). cbn [uncounted_of]. rewrite <- Hc by lia. lia.
      * split_and!; [done|apply outs_insert; [done|eauto|cbn; lia]|].
        cbn [shown]. rewrite len_app. intros Hl. rewrite (uncounted_insert _ _ _ _ Ek). cbn. rewrite <- Hc by lia. lia.
    + destruct err as [er|]; injection Hs as <-; [|done]. unfold count_ok. cbn [rendered streams outs screen].
      split_and!; [done|by apply outs_insert; eauto|].
      intros Hl. rewrite (uncounted_insert _ _ _ _ Ek). cbn. specialize (Hc Hl). lia.
  - destruct (outs l !! k) as [[|n err|]|] eqn:Ek; try done. injection Hs as <-.
    destruct (Hf k _ Ek) as [_ Hn]. cbn in Hn. unfold count_ok. cbn [rendered streams outs screen].
    set (o := match err with Some _ => OStop 0 | None => ORead end).
    assert (uncounted_of o = 0) as Ho by (unfold o; by destruct err).
    split_and!; [apply Z.mod_pos_bound; lia|apply outs_insert; [done|eauto|lia]|].
    intros Hl. rewrite (uncounted_insert _ _ _ _ Ek), Ho. cbn [uncounted_of]. specialize (Hc Hl).
    assert (n <= uncounted (outs l)).
    { rewrite <- (insert_delete_id (outs l) k (OAdd n err)) by done.
      rewrite uncounted_fresh by apply lookup_delete_eq. cbn [uncounted_of].
      enough (0 <= uncounted (delete k (outs l))) by lia. apply uncounted_nonneg, map_Forall_delete.
      intros i x Hx. by destruct (Hf i x Hx). }
    rewrite (u64_small n) by (split; lia). rewrite u64_small by (split; lia). lia.
  - destruct (bool_decide _); [|done]. by injection Hs as <-.
  - destruct (ph l) as [| |k|]; try done. destruct (errcs l !! k) as [[|err rest]|]; try done.
    injection Hs as <-. unfold after_pump. destruct (IsExpectedShutdown _); [done|]. by destruct ctx.
  - destruct (ph l) as [| |k|]; try done. injection Hs as <-. unfold after_pump. by destruct (IsExpectedShutdown _).
  - destruct (control l) as [cl|]; [|done]. destruct (watching l); [|done]. cbn [negb] in Hs.
    destruct (_ || _); [by injection Hs as <-|]. destruct (SendResize cl cols rows wr). by injection Hs as <-.
Qed.

(** The pump goroutines and the size watcher leave the main goroutine's
    variables alone. *)
Definition background (e : levent) : bool :=
  match e with EvRead _ _ _ _ | EvAdd _ | EvInput _ _ | EvResize _ _ _ => true | _ => false end.

Lemma lstep_background l e l' :
  background e = true -> lrel l e l' ->
  ph l' = ph l /\ proto l' = proto l /\ delay l' = delay l /\ streams l' = streams l /\ dials l' = dials l.
Proof.
  unfold lrel. intros Hb Hs. destruct e; try discriminate Hb; unfold lstep, read_step, add_step, input_step, resize_step in Hs;
    repeat case_match; by simplify_eq.
Qed.

Lemma lstep_proto l e l' : proto_ok l -> lrel l e l' -> proto_ok l'.
Proof.
  intros H Hs. destruct (background e) eqn:Eb.
  { apply lstep_background in Hs as (Hp & Hpr & _ & Hst & _); [|done].
    unfold proto_ok in *. by rewrite Hp, Hpr, Hst. }
  unfold lrel, proto_ok in *. destruct e as [dial wr ctx ctl| |c| | | |ctx|c|]; try discriminate Eb; unfold lstep, read_step, add_step, input_step, resize_step in Hs.
  - destruct (ph l) eqn:Ep; try done; destruct (dialPTY _ _ _ _) as [[er|] header]; injection Hs as <-;
       [by destruct (_ || _)|cbn; lia].
  - destruct (ph l) eqn:Ep; try done; by injection Hs as <-.
  - destruct (ph l) eqn:Ep; try done; by injection Hs as <-.
  - destruct (ph l) as [| |k|]; try done. destruct (errcs l !! k) as [[|err rest]|]; try done.
    injection Hs as <-. unfold after_pump. destruct (IsExpectedShutdown _); [done|].
    destruct ctx; [done|]. cbn. destruct (streams l); [lia|done].
  - destruct (ph l) as [| |k|]; try done. injection Hs as <-. unfold after_pump.
    by destruct (IsExpectedShutdown _).
Qed.

Lemma Run_ok transport target ctl resizeC tty sent raw l :
  Run transport target ctl resizeC tty sent raw = Ok l ->
  ph l = Dialing /\ proto l = ProtoPTY /\ delay l = reconnectInitialDelay /\ rendered l = 0 /\
  screen l = [] /\ streams l = 0%nat /\ outs l = ∅ /\ dials l = [].
Proof.
  unfold Run. intros (? & _ & (? & _ & (c & _ & H)%bind_ok)%bind_ok)%bind_ok.
  destruct c as [cl|]; [|by go_run]. destruct resizeC; [by go_run|].
  destruct (localTerminalSize tty) as [[cols rows] [err|]]; [by go_run|].
  destruct (_ && _); by go_run.
Qed.

(** A run of the client: set-up, then any events. *)
Definition attached (l0 : loop) (es : list levent) (l : loop) : Prop :=
  (exists transport target ctl resizeC tty sent raw, Run transport target ctl resizeC tty sent raw = Ok l0) /\
  steps lrel l0 es l.

Lemma attached_ok l0 es l : attached l0 es l -> count_ok l /\ proto_ok l.
Proof.
  intros [(tr & ta & ctl & rc & tty & sent & raw & Hr) Hs]. apply Run_ok in Hr as (Hp & Hpr & _ & Hre & Hsc & Hst & Ho & _).
  split.
  - eapply (steps_invariant lrel count_ok); [|apply lstep_count|exact Hs].
    unfold count_ok. rewrite Hre, Hsc, Ho. split_and!; [done|by intros ??|done].
  - eapply (steps_invariant lrel proto_ok); [|apply lstep_proto|exact Hs].
    unfold proto_ok. by rewrite Hp, Hst, Hpr.
Qed.

(** A stream that opens: the dial record it leaves. *)
Lemma dial_opens l ctx ctl l' :
  count_ok l -> proto_ok l -> len (screen l) < 2 ^ 64 -> lrel l (EvDial None None ctx ctl) l' ->
  exists h, dials l' = dials l ++ [(if (streams l =? 0)%nat then ProtoPTY else ProtoPTYResume, h)] /\
  if (streams l =? 0)%nat then h = None
  else exists bs n, h = Some bs /\ n + uncounted (outs l) = len (screen l) /\
    forall rest, Resume.readResumeSeq (map RByte bs ++ rest) = (Ok n, rest).
Proof.
  intros Hc Hp Hl Hs. pose proof (count_ok_uncounted l Hc) as Hu. destruct Hc as (H0 & _ & Hc).
  specialize (Hc Hl). unfold lrel, proto_ok in *. unfold lstep, read_step, add_step, input_step, resize_step in Hs. destruct (ph l); try done. rewrite Hp in Hs.
  destruct (streams l =? 0)%nat.
  - exists None. split; [|done]. by injection Hs as <-.
  - destruct (resume_seq_reads (rendered l) []) as (bs & He & _ & _ & _); [split; lia|].
    exists (Some bs). unfold dialPTY in Hs. rewrite bool_decide_eq_true_2, He in Hs by done.
    injection Hs as <-. split; [done|]. exists bs, (rendered l). split_and!; [done|done|]. intros rest.
    destruct (resume_seq_reads (rendered l) rest) as (bs' & He' & _ & _ & Hr); [split; lia|].
    rewrite He in He'. by injection He' as <-.
Qed.

(** C20: where the client resumes.  In every run of the client, under any
    interleaving of its goroutines, the first stream it opens speaks /mosey/pty
    without a header; every later one speaks /mosey/pty-resume and starts with
    a header from which the vterm reads back exactly the number of bytes the
    client has on the screen, less those an output goroutine has written but
    not yet counted and those of a chunk whose write to the terminal failed
    part of the way. *)
Theorem attach_resumes_where_rendered l0 es l ctx ctl l'
  (Ha : attached l0 es l) (Hl : len (screen l) < 2 ^ 64) (Hd : lstep l (EvDial None None ctx ctl) = Some l') :
  exists h, dials l' = dials l ++ [(if (streams l =? 0)%nat then ProtoPTY else ProtoPTYResume, h)] /\
  if (streams l =? 0)%nat then h = None
  else exists bs n, h = Some bs /\ n + uncounted (outs l) = len (screen l) /\
    forall rest, Resume.readResumeSeq (map RByte bs ++ rest) = (Ok n, rest).
Proof. apply attached_ok in Ha as [Hc Hp]. by eapply dial_opens. Qed.

(** A resume loses nothing and repeats one byte.  A client whose screen
    holds the first n bytes (n at least 1) of what the child printed, all of
    them counted, reopens its stream while the byte n is still in the vterm's
    ring; the header it sends makes the ring answer with a replay that
    continues the history after byte n - 1: the bytes before the last one
    rendered followed by the replay are the whole history, so the last byte
    rendered is printed again. *)
Theorem attach_resume_loses_nothing l0 es l ctx ctl l' cap ps n
  (Ha : attached l0 es l) (Hd : lstep l (EvDial None None ctx ctl) = Some l') (Hst : streams l <> 0%nat)
  (Hfits : len (concat ps) + 1 < 2 ^ 64)
  (Hscreen : screen l = slice_to (concat ps) n) (Hn : 1 <= n <= len (concat ps)) (Hall : uncounted (outs l) = 0)
  (Hring : OutputRing.FirstSeq (OutputRing.State (OutputRing.write_all (OutputRing.NewOutputRing cap) ps)) <= n) :
  exists bs seq replay,
    last (dials l') (ProtoPTY, None) = (ProtoPTYResume, Some bs) /\
    fst (Resume.readResumeSeq (map RByte bs)) = Ok seq /\
    OutputRing.From (OutputRing.write_all (OutputRing.NewOutputRing cap) ps) seq = (replay, len (concat ps) + 1, None) /\
    slice_to (concat ps) (n - 1) ++ replay = concat ps /\
    len (screen l ++ replay) = len (concat ps) + 1.
Proof.
  apply attached_ok in Ha as [Hc Hp]. set (h := concat ps) in *.
  assert (len (screen l) = n) as Hlen by (rewrite Hscreen; apply len_slice_to; lia).
  destruct (dial_opens l ctx ctl l' Hc Hp ltac:(lia) Hd) as (hd & Hdials & Hhd).
  apply Nat.eqb_neq in Hst. rewrite Hst in *. destruct Hhd as (bs & m & -> & Hm & Hread).
  assert (m = n) as -> by lia.
  assert (OutputRing.repr (OutputRing.write_all (OutputRing.NewOutputRing cap) ps) h) as Hr.
  { apply (OutputRing.repr_write_all _ [] ps); [apply OutputRing.repr_new|len_lia; unfold h in *; lia]. }
  rewrite (OutputRing.state_repr _ _ Hr) in Hring. cbn in Hring.
  exists bs, n, (slice_from h (n - 1)). split_and!.
  - rewrite Hdials. apply last_last.
  - specialize (Hread []). rewrite app_nil_r in Hread. by rewrite Hread.
  - rewrite (OutputRing.from_repr _ _ _ Hr) by lia. destruct Hr as (? & _ & Hf & _).
    assert ((n =? 0) = false) as -> by lia. assert ((n <? OutputRing.firstSeq _) = false) as -> by (apply Z.ltb_ge; lia).
    rewrite andb_false_r. do 3 f_equal. lia.
  - apply slice_split.
  - rewrite len_app, Hlen, len_slice_from by lia. lia.
Qed.

(** ** Backoff *)

(** [retried l0 es l f]: the events [es] lead from [l0] to [l], and [f] waits
    have been sat out since the last stream that opened. *)
Inductive retried (l0 : loop) : list levent -> loop -> nat -> Prop :=
| retried_nil : retried l0 [] l0 0
| retried_snoc es l f e l' :
    retried l0 es l f -> lstep l e = Some l' ->
    retried l0 (es ++ [e]) l'
      (match e with
       | EvTimer => S f
       | EvDial _ _ _ _ => if (streams l' =? streams l)%nat then f else 0
       | _ => f
       end).

Definition backoff (f : nat) : Z := Z.min (reconnectInitialDelay * 2 ^ Z.of_nat f) reconnectMaxDelay.

Lemma backoff_range f : reconnectInitialDelay <= backoff f <= reconnectMaxDelay.
Proof.
  unfold backoff, reconnectInitialDelay, reconnectMaxDelay, Millisecond, Second.
  pose proof (Z.pow_pos_nonneg 2 (Z.of_nat f)). lia.
Qed.

Lemma backoff_0 : backoff 0 = reconnectInitialDelay.
Proof. vm_compute. reflexivity. Qed.

Lemma backoff_ns f : backoff f = Z.min (200000000 * 2 ^ Z.of_nat f) 5000000000.
Proof. unfold backoff. by assert (reconnectInitialDelay = 200000000) as -> by (vm_compute; reflexivity). Qed.

Lemma nextDelay_backoff f : nextDelay (backoff f) = backoff (S f).
Proof.
  pose proof (backoff_range f) as Hr. unfold nextDelay.
  unfold reconnectInitialDelay, reconnectMaxDelay, Millisecond, Second in Hr.
  rewrite i64_small by lia. unfold backoff. rewrite Nat2Z.inj_succ, Z.pow_succ_r by lia.
  unfold reconnectInitialDelay, reconnectMaxDelay, Millisecond, Second in *.
  pose proof (Z.pow_pos_nonneg 2 (Z.of_nat f)). destruct (_ <? _) eqn:E; go_bool; lia.
Qed.

Lemma steps_retried l0 es l : steps lrel l0 es l -> exists f, retried l0 es l f.
Proof.
  induction 1 as [|l0 es l e l' _ [f IH] Hs]; [eexists; constructor|].
  eexists. by econstructor.
Qed.

Lemma retried_delay l0 es l f :
  delay l0 = backoff 0 -> ph l0 = Dialing -> retried l0 es l f ->
  delay l = backoff f /\ forall d, ph l = Waiting d -> d = delay l.
Proof.
  intros H0 Hp0. induction 1 as [|es l f e l' _ [Hd Hw] Hs]; [split; [done|congruence]|].
  destruct (background e) eqn:Eb.
  { apply lstep_background in Hs as (-> & _ & -> & _); [|done]. by destruct e. }
  destruct e as [dial wr ctx ctl| |c| | | |ctx|c|]; try discriminate Eb; unfold lstep, read_step, add_step, input_step, resize_step in Hs.
  - destruct (ph l) eqn:Ep; try done. destruct (dialPTY _ _ _ _) as [[er|] hd]; injection Hs as <-.
    + destruct (_ || _); cbn; rewrite Nat.eqb_refl; (split; [done|]); [done|]. intros d [= <-]. done.
    + cbn [streams delay ph]. assert ((S (streams l) =? streams l)%nat = false) as -> by (apply Nat.eqb_neq; lia).
      split; [by rewrite backoff_0|done].
  - destruct (ph l) eqn:Ep; try done. injection Hs as <-. cbn. rewrite Hd, nextDelay_backoff. by split.
  - destruct (ph l) eqn:Ep; try done. injection Hs as <-. by cbn.
  - destruct (ph l) as [| |k|]; try done. destruct (errcs l !! k) as [[|err rest]|]; try done.
    injection Hs as <-. unfold after_pump. destruct (IsExpectedShutdown _); [done|]. by destruct ctx.
  - destruct (ph l) as [| |k|]; try done. injection Hs as <-. unfold after_pump.
    by destruct (IsExpectedShutdown _).
Qed.

(** C33: the reconnect delay is a capped exponential.  At any point of a run,
    with f waits sat out since the last stream that opened, the delay the
    client uses (and, when it is waiting, waits for) is 200 ms times 2^f, at
    most 5 s; it is therefore always between 200 ms and 5 s and the doubling
    never overflows its 64-bit duration. *)
Theorem attach_backoff_capped l0 es l (Ha : attached l0 es l) :
  exists f, retried l0 es l f /\
    delay l = Z.min (200000000 * 2 ^ Z.of_nat f) 5000000000 /\ 200000000 <= delay l <= 5000000000 /\
    forall d, ph l = Waiting d -> d = delay l.
Proof.
  destruct Ha as [(tr & ta & ctl & rc & tty & sent & raw & Hr) Hs].
  apply Run_ok in Hr as (Hp & _ & Hd & _). destruct (steps_retried _ _ _ Hs) as [f Hf].
  destruct (retried_delay l0 es l f) as [Hl Hw]; [by rewrite backoff_0|done|done|].
  exists f. pose proof (backoff_range f) as Hb. rewrite backoff_ns in *. rewrite Hl.
  split; [exact Hf|]. split; [done|]. split; [|by rewrite <- Hl].
  clear -Hb. unfold reconnectInitialDelay, reconnectMaxDelay, Millisecond, Second in Hb. lia.
Qed.

(** C34: what makes the client give up.  A step that ends a run either saw the
    pump end in an orderly way (no error, EOF, a reset, a cancelled context or
    one of the shutdown texts) and returns nil, or returns a context error, or
    returns the error of a dial that is fatal or was made under a finished
    context; any other dial failure is waited out and any other pump failure
    is answered by a resume. *)
Theorem attach_gives_up_only l e l' r
  (Hs : lstep l e = Some l') (Hlive : forall r0, ph l <> Returned r0) (Hret : ph l' = Returned r) :
  (exists err, IsExpectedShutdown err = true /\ r = None /\
     ((exists k rest ctx, ph l = Pumping k /\ e = EvSelect ctx /\
        exists raw, errcs l !! k = Some (raw :: rest) /\ err = pump_result raw) \/
      exists c, e = EvSelectCtx c /\ err = Some (Sentinel c))) \/
  (exists c, r = Some (Sentinel c) /\ (e = EvWaitCtx c \/ e = EvSelect (Some c) \/ e = EvSelectCtx c)) \/
  (exists dial wr ctx ctl err, e = EvDial dial wr ctx ctl /\ r = Some err /\
     fst (dialPTY (proto l) (rendered l) dial wr) = Some err /\
     (isFatalDialError (Some err) = true \/ is_Some ctx)).
Proof.
  destruct (background e) eqn:Eb.
  { apply lstep_background in Hs as (Hp & _); [|done]. rewrite Hp in Hret. by destruct (Hlive r). }
  destruct e as [dial wr ctx ctl| |c| | | |ctx|c|]; try discriminate Eb; unfold lstep, read_step, add_step, input_step, resize_step in Hs.
  - right; right. destruct (ph l) eqn:Ep; try done. destruct (dialPTY _ _ _ _) as [[er|] hd] eqn:Ed; [|by simplify_eq].
    destruct (_ || _) eqn:Eo; [|by simplify_eq]. simplify_eq. cbn in Hret. injection Hret as <-.
    exists dial, wr, ctx, ctl, er. rewrite Ed. split_and!; [done|done|done|].
    apply orb_true_iff in Eo as [?|?%bool_decide_eq_true]; auto.
  - destruct (ph l) eqn:Ep; try done. by simplify_eq.
  - right; left. destruct (ph l) eqn:Ep; try done. simplify_eq. injection Hret as <-. eauto.
  - destruct (ph l) as [| |k|] eqn:Ep; try done. destruct (errcs l !! k) as [[|err rest]|] eqn:Ee; try done.
    injection Hs as <-. unfold after_pump in Hret. destruct (IsExpectedShutdown _) eqn:Es.
    + left. injection Hret as <-. exists (pump_result err). split_and!; [done|done|]. left.
      exists k, rest, ctx. split_and!; [done|done|]. by exists err.
    + right; left. destruct ctx as [c|]; [|done]. injection Hret as <-. eauto.
  - destruct (ph l) as [| |k|] eqn:Ep; try done. injection Hs as <-. unfold after_pump in Hret.
    destruct (IsExpectedShutdown _) eqn:Es.
    + left. injection Hret as <-. exists (Some (Sentinel c)). split_and!; [done|done|]. right. by exists c.
    + right; left. injection Hret as <-. eauto.
Qed.
End invariant.

(** ** Witnesses *)

Section exec.
Context {FT : Foreign}.

Fixpoint lexec (l : loop) (es : list levent) : option loop :=
  match es with
  | [] => Some l
  | e :: es => match lstep l e with Some l => lexec l es | None => None end
  end.

Lemma lexec_steps l es l' : lexec l es = Some l' -> steps lrel l es l'.
Proof.
  revert l. induction es as [|e es IH]; intros l H; cbn [lexec] in H.
  { injection H as <-. constructor. }
  destruct (lstep l e) as [m|] eqn:E; [|done].
  apply (steps_app lrel l [e] m); [by apply steps_one|by apply IH].
Qed.

Lemma lexec_snoc l es e : lexec l (es ++ [e]) = match lexec l es with Some l' => lstep l' e | None => None end.
Proof.
  revert l. induction es as [|x es IH]; intros l; cbn [app lexec]; [by destruct (lstep l e)|].
  destruct (lstep l x); [apply IH|done].
Qed.
End exec.

#[local] Existing Instance plain_foreign.

(** A first attach that renders three bytes and breaks, and a failed redial. *)
Definition blip : list levent :=
  [EvDial None None None None; EvRead 0 (str "abc") None None; EvAdd 0;
   EvRead 0 [] (Some (Text (str "broken pipe"))) None; EvSelect None;
   EvDial (Some (Text (str "no route to host"))) None None None].

(** Run a script and one more event, and name the two states. *)
Ltac run_script es e :=
  let l := fresh "l" in let l' := fresh "l'" in let E := fresh "E" in let E' := fresh "E'" in
  destruct (lexec (start None) es) as [l|] eqn:E; [|exfalso; vm_compute in E; discriminate];
  destruct (lstep l e) as [l'|] eqn:E';
  [|exfalso; assert (lexec (start None) (es ++ [e]) = None) as H by (by rewrite lexec_snoc, E);
    vm_compute in H; discriminate].

(** A decidable fact about the state a script ends in. *)
Ltac script_fact E t :=
  match type of E with
  | ?s = Some ?l =>
      let H := fresh in
      assert (option_map t s = Some true) as H by (vm_compute; reflexivity);
      rewrite E in H; cbn [option_map] in H; injection H as H; go_bool
  end.

Lemma start_attached es l : lexec (start None) es = Some l -> attached (start None) es l.
Proof.
  intros H. split; [|by apply lexec_steps].
  by exists true, true, (Some (Text (str "protocol not supported"))), false, NotFile, None, None.
Defined.

Lemma attach_backoff_capped_witness :
  exists l, lexec (start None) blip = Some l /\
  exists f, retried (start None) blip l f /\
    delay l = Z.min (200000000 * 2 ^ Z.of_nat f) 5000000000 /\ 200000000 <= delay l <= 5000000000 /\
    forall d, ph l = Waiting d -> d = delay l.
Proof.
  run_script blip EvTimer. exists l. split; [done|].
  apply (attach_backoff_capped (start None) blip l), start_attached, E.
Defined.

Lemma attach_resumes_where_rendered_witness :
  exists l l', lexec (start None) (blip ++ [EvTimer]) = Some l /\ lstep l (EvDial None None None None) = Some l' /\
  exists h, dials l' = dials l ++ [(if (streams l =? 0)%nat then ProtoPTY else ProtoPTYResume, h)] /\
  if (streams l =? 0)%nat then h = None
  else exists bs n, h = Some bs /\ n + uncounted (outs l) = len (screen l) /\
    forall rest, Resume.readResumeSeq (map RByte bs ++ rest) = (Ok n, rest).
Proof.
  run_script (blip ++ [EvTimer]) (EvDial None None None None). exists l, l'. split; [done|]. split; [done|].
  script_fact E (fun l => len (screen l) <? 2 ^ 64).
  apply (attach_resumes_where_rendered (start None) (blip ++ [EvTimer]) l None None l'); [|done|done].
  by apply start_attached.
Defined.

Lemma attach_resume_loses_nothing_witness :
  exists l l' bs seq replay, lexec (start None) (blip ++ [EvTimer]) = Some l /\
    last (dials l') (ProtoPTY, None) = (ProtoPTYResume, Some bs) /\
    fst (Resume.readResumeSeq (map RByte bs)) = Ok seq /\
    OutputRing.From (OutputRing.write_all (OutputRing.NewOutputRing 0) [str "abcde"]) seq = (replay, 6, None) /\
    slice_to (str "abcde") (3 - 1) ++ replay = str "abcde" /\
    len (screen l ++ replay) = 6.
Proof.
  run_script (blip ++ [EvTimer]) (EvDial None None None None).
  script_fact E (fun l => negb (streams l =? 0)%nat && bool_decide (screen l = str "abc") && (uncounted (outs l) =? 0)).
  destruct (attach_resume_loses_nothing (start None) (blip ++ [EvTimer]) l None None l' 0 [str "abcde"] 3)
    as (bs & seq & replay & G1 & G2 & G3 & G4 & G5).
  - by apply start_attached.
  - done.
  - by apply Nat.eqb_neq.
  - by vm_compute.
  - done.
  - split; by vm_compute.
  - done.
  - by vm_compute.
  - exists l, l', bs, seq, replay. split_and!; [done|done|done|exact G3|exact G4|exact G5].
Defined.

Definition is_dialing (l : loop) : bool := match ph l with Dialing => true | _ => false end.

Lemma is_dialing_ph l : is_dialing l = true -> ph l = Dialing.
Proof. unfold is_dialing. by destruct (ph l). Qed.

(** A cancelled dial ends the run. *)
Lemma cancelled_dial l l' :
  is_dialing l = true -> lstep l (EvDial (Some (Sentinel CtxCanceled)) None (Some CtxCanceled) None) = Some l' ->
  exists r, ph l' = Returned r.
Proof. intros Hd%is_dialing_ph. cbn [lstep]. rewrite Hd. intros [= <-]. by eexists. Qed.

Lemma attach_gives_up_only_witness :
  exists l l' r, lexec (start None) (blip ++ [EvTimer]) = Some l /\
  lstep l (EvDial (Some (Sentinel CtxCanceled)) None (Some CtxCanceled) None) = Some l' /\ ph l' = Returned r /\
  ((exists err, IsExpectedShutdown err = true /\ r = None /\
     ((exists k rest ctx, ph l = Pumping k /\ EvDial (Some (Sentinel CtxCanceled)) None (Some CtxCanceled) None = EvSelect ctx /\
        exists raw, errcs l !! k = Some (raw :: rest) /\ err = pump_result raw) \/
      exists c, EvDial (Some (Sentinel CtxCanceled)) None (Some CtxCanceled) None = EvSelectCtx c /\ err = Some (Sentinel c))) \/
  (exists c, r = Some (Sentinel c) /\
     (EvDial (Some (Sentinel CtxCanceled)) None (Some CtxCanceled) None = EvWaitCtx c \/
      EvDial (Some (Sentinel CtxCanceled)) None (Some CtxCanceled) None = EvSelect (Some c) \/
      EvDial (Some (Sentinel CtxCanceled)) None (Some CtxCanceled) None = EvSelectCtx c)) \/
  (exists dial wr ctx ctl err, EvDial (Some (Sentinel CtxCanceled)) None (Some CtxCanceled) None = EvDial dial wr ctx ctl /\
     r = Some err /\ fst (dialPTY (proto l) (rendered l) dial wr) = Some err /\
     (isFatalDialError (Some err) = true \/ is_Some ctx))).
Proof.
  run_script (blip ++ [EvTimer]) (EvDial (Some (Sentinel CtxCanceled)) None (Some CtxCanceled) None).
  script_fact E is_dialing. destruct (cancelled_dial l l' H E') as [r Er].
  exists l, l', r. split; [reflexivity|]. split; [exact E'|]. split; [exact Er|].
  apply (attach_gives_up_only l (EvDial (Some (Sentinel CtxCanceled)) None (Some CtxCanceled) None) l' r);
    [exact E'| |exact Er].
  intros r0. apply is_dialing_ph in H. rewrite H. discriminate.
Defined.
