(* ===== verification/AttachInput.v ===== *)
(** * The attach client's input (src/attach/attach.go, pumpStream)

    Every stream gets its own goroutine copying the shared standard input to
    it (io.Copy), and nothing ends that goroutine when the stream does: it
    waits in its Read until the next input.  [inputs] is the loop of Attach.v
    with these goroutines; standard input hands each chunk to any goroutine
    that is reading.  The claim accounts for every byte; the last theorem
    shows what the leftover goroutine of a broken stream does to the first
    input after a reconnect. *)

From S2P Require Import Prelude GoStrings GoUrl Transport Backends Attach.

(** io.Copy: at its Read; with a chunk to write and the error the Read
    returned with it; ended. *)
Inductive copy_pc := CRead | CWrite (buf : bytes) (rerr : option error) | CStop.

(** [takes]: the chunks standard input handed out, with the goroutine that got
    each; [reached]: what each stream took. *)
Record inputs := mkInputs {
  lp : loop;
  copies : gmap nat copy_pc;
  takes : list (nat * bytes);
  reached : gmap nat bytes;
}.

(** A step of the loop; a Read of goroutine [k] answered with [buf] and
    [rerr]; its Write taking [n] bytes. *)
Inductive ievent :=
| ILoop (e : levent)
| ITake (k : nat) (buf : bytes) (rerr : option error)
| IPut (k n : nat) (werr : option error).

Definition ErrShortWrite : error := Text (str "short write").

(** io.Copy does not report io.EOF of its reader. *)
Definition copy_end (rerr : option error) : option error :=
  match rerr with Some (Sentinel IoEOF) => None | _ => rerr end.

Section input.
Context {FT : Foreign}.

(** The goroutine sends its result to errc and ends. *)
Definition finish (s : inputs) (k : nat) (err : option error) : option inputs :=
  l ← input_step (lp s) k err;
  Some (mkInputs l (<[k := CStop]> (copies s)) (takes s) (reached s)).

Definition istep (s : inputs) (e : ievent) : option inputs :=
  match e with
  | ILoop (EvInput _ _) => None
  | ILoop e =>
      l ← lstep (lp s) e;
      if (streams l =? streams (lp s))%nat then Some (mkInputs l (copies s) (takes s) (reached s))
      else let k := streams (lp s) in
           Some (mkInputs l (<[k := CRead]> (copies s)) (takes s) (<[k := []]> (reached s)))
  | ITake k buf rerr =>
      match copies s !! k with
      | Some CRead =>
          if 0 <? len buf then
            Some (mkInputs (lp s) (<[k := CWrite buf rerr]> (copies s)) (takes s ++ [(k, buf)]) (reached s))
          else match rerr with
               | None => Some s
               | Some _ => finish s k (copy_end rerr)
               end
      | _ => None
      end
  | IPut k n werr =>
      match copies s !! k with
      | Some (CWrite buf rerr) =>
          let n := Nat.min n (length buf) in
          let s := mkInputs (lp s) (copies s) (takes s) (<[k := default [] (reached s !! k) ++ take n buf]> (reached s)) in
          match werr with
          | Some e => finish s k (Some e)
          | None =>
              if (n <? length buf)%nat then finish s k (Some ErrShortWrite)
              else match rerr with
                   | Some _ => finish s k (copy_end rerr)
                   | None => Some (mkInputs (lp s) (<[k := CRead]> (copies s)) (takes s) (reached s))
                   end
          end
      | _ => None
      end
  end.

Definition irel (s : inputs) (e : ievent) (s' : inputs) : Prop := istep s e = Some s'.

(** Run, about to dial for the first time. *)
Definition input_start (c : option controlClient) : inputs := mkInputs (start c) ∅ [] ∅.

(** What goroutine [k] was handed. *)
Definition handed (s : inputs) (k : nat) : bytes := concat (filter (fun t => t.1 = k) (takes s)).*2.

(** ** Lemmas *)

(** A stream and its goroutine, byte for byte. *)
Definition accounted (s : inputs) (k : nat) : Prop :=
  match copies s !! k, reached s !! k with
  | Some CRead, Some r => handed s k = r
  | Some (CWrite buf _), Some r => handed s k = r ++ buf
  | Some CStop, Some r => r `prefix_of` handed s k
  | None, None => handed s k = []
  | _, _ => False
  end.

Record input_inv (s : inputs) : Prop := mk_input_inv {
  in_acc : forall k, accounted s k;
  in_dom : forall k, is_Some (copies s !! k) <-> (k < streams (lp s))%nat;
  in_takes : Forall (fun t => (t.1 < streams (lp s))%nat) (takes s);
}.

Lemma lstep_streams l e l' :
  lstep l e = Some l' -> streams l' = streams l \/ streams l' = S (streams l).
Proof.
  intros H. destruct e; cbn [lstep] in H; destruct (ph l); try done;
    try (unfold read_step, add_step, input_step, resize_step in H; repeat case_match; simplify_eq; by left).
  - destruct (dialPTY _ _ _ _) as [[er|] h]; simplify_eq; [|by right]. left. by destruct (_ || _).
  - unfold after_pump in H. repeat case_match; simplify_eq; by left.
  - unfold after_pump in H. repeat case_match; simplify_eq; by left.
Qed.

Lemma finish_ok s k err s' :
  finish s k err = Some s' ->
  copies s' = <[k := CStop]> (copies s) /\ takes s' = takes s /\ reached s' = reached s /\ streams (lp s') = streams (lp s).
Proof.
  unfold finish, input_step. case_bool_decide; [|done]. intros [= <-]. done.
Qed.

Lemma handed_snoc s l c r k buf j :
  handed (mkInputs l c (takes s ++ [(k, buf)]) r) j = handed s j ++ (if bool_decide (j = k) then buf else []).
Proof.
  unfold handed. cbn [takes]. rewrite list.filter_app, fmap_app, concat_app. f_equal. rewrite filter_cons. cbn [fst].
  case_bool_decide as E; [rewrite decide_True by done|rewrite decide_False by done]; [|done]. cbn. by rewrite app_nil_r.
Qed.

(** Only goroutine [k] and what reached its stream change. *)
Lemma accounted_other s s' k j :
  j <> k -> takes s' = takes s -> copies s' !! j = copies s !! j -> reached s' !! j = reached s !! j ->
  accounted s j -> accounted s' j.
Proof. intros _ Ht Hc Hr. unfold accounted, handed. by rewrite Ht, Hc, Hr. Qed.

Lemma stopped_inv s k r c t s' err :
  input_inv s -> copies s !! k = Some c -> is_Some (reached s !! k) ->
  r `prefix_of` handed s k -> t = takes s ->
  finish (mkInputs (lp s) (copies s) t (<[k := r]> (reached s))) k err = Some s' -> input_inv s'.
Proof.
  intros [Ha Hd Ht] Hc Hr Hp -> Hf. apply finish_ok in Hf as (E1 & E2 & E3 & E4). cbn [copies takes reached lp] in *. split.
  - intros j. destruct (decide (j = k)) as [->|Hj].
    + unfold accounted. rewrite E1, E3, !lookup_insert_eq. unfold handed. by rewrite E2.
    + apply (accounted_other s s' k j Hj); [done| | |done]; rewrite ?E1, ?E3; by rewrite lookup_insert_ne.
  - intros j. rewrite E1, E4, <- Hd. destruct (decide (j = k)) as [->|Hj]; [|by rewrite lookup_insert_ne].
    rewrite lookup_insert_eq, Hc. split; intros; by eexists.
  - by rewrite E2, E4.
Qed.

Lemma istep_inv s e s' : input_inv s -> istep s e = Some s' -> input_inv s'.
Proof.
  intros HI. pose proof HI as [Ha Hd Ht]. destruct e as [e|k buf rerr|k n werr]; cbn [istep].
  - intros H. assert (exists l, lstep (lp s) e = Some l /\
      s' = if (streams l =? streams (lp s))%nat then mkInputs l (copies s) (takes s) (reached s)
           else mkInputs l (<[streams (lp s) := CRead]> (copies s)) (takes s) (<[streams (lp s) := []]> (reached s)))
      as (l & Hl & ->).
    { destruct e; try done; destruct (lstep (lp s) _) as [l|]; try done; exists l; (split; [done|]);
        cbn [mbind option_bind] in H; destruct (_ =? _)%nat; congruence. }
    destruct (lstep_streams _ _ _ Hl) as [E|E]; [rewrite E, Nat.eqb_refl; split; [exact Ha|intros j; cbn; by rewrite E|cbn; by rewrite E]|].
    assert ((streams l =? streams (lp s))%nat = false) as -> by (apply Nat.eqb_neq; lia).
    set (k := streams (lp s)). assert (copies s !! k = None) as Hk.
    { apply eq_None_not_Some. rewrite Hd. unfold k. lia. }
    split; [| |cbn; rewrite E; eapply Forall_impl; [|exact Ht]; intros t; cbv beta; lia].
    + intros j. destruct (decide (j = k)) as [->|Hj].
      * pose proof (Ha k) as Hak. unfold accounted in *. cbn [copies reached]. rewrite !lookup_insert_eq. rewrite Hk in Hak.
        by destruct (reached s !! k).
      * apply (accounted_other s _ k j Hj); [done| | |done]; cbn; by rewrite lookup_insert_ne.
    + intros j. cbn [copies lp]. rewrite E. destruct (decide (j = k)) as [->|Hj].
      * rewrite lookup_insert_eq. split; [unfold k; lia|by eexists].
      * rewrite lookup_insert_ne by done. rewrite Hd. unfold k in Hj. lia.
  - destruct (copies s !! k) as [[|buf'|]|] eqn:Hc; try done. pose proof (Ha k) as Hk. unfold accounted in Hk.
    rewrite Hc in Hk. destruct (reached s !! k) as [r|] eqn:Hr; [|done]. destruct (0 <? len buf).
    + intros [= <-]. split.
      * intros j. unfold accounted. rewrite handed_snoc. cbn [copies reached]. destruct (decide (j = k)) as [->|Hj].
        { rewrite lookup_insert_eq, Hr, bool_decide_eq_true_2 by done. by rewrite Hk. }
        rewrite lookup_insert_ne, bool_decide_eq_false_2, app_nil_r by done. exact (Ha j).
      * intros j. cbn [copies lp]. rewrite <- Hd. destruct (decide (j = k)) as [->|Hj]; [|by rewrite lookup_insert_ne].
        rewrite lookup_insert_eq, Hc. split; intros; by eexists.
      * cbn. apply Forall_app. split; [done|]. constructor; [|constructor]. cbn [fst]. apply Hd. rewrite Hc. by eexists.
    + destruct rerr; [|by intros [= <-]]. intros Hf.
      apply (stopped_inv s k r CRead (takes s) s' (copy_end (Some e)) HI Hc); [by rewrite Hr|by rewrite Hk|done|].
      rewrite insert_id by done. by destruct s.
  - destruct (copies s !! k) as [[|buf rerr|]|] eqn:Hc; try done. pose proof (Ha k) as Hk. unfold accounted in Hk.
    rewrite Hc in Hk. destruct (reached s !! k) as [r|] eqn:Hr; [|done]. cbn [default from_option id].
    set (m := Nat.min n (length buf)).
    assert ((r ++ take m buf) `prefix_of` handed s k) as Hp.
    { rewrite Hk. apply prefix_app. exists (drop m buf). by rewrite take_drop. }
    assert (forall err, finish (mkInputs (lp s) (copies s) (takes s) (<[k := r ++ take m buf]> (reached s))) k err = Some s' ->
      input_inv s') as Hstop.
    { intros err. apply (stopped_inv s k (r ++ take m buf) (CWrite buf rerr)); [done|done|by rewrite Hr|done|done]. }
    destruct werr as [we|]; [by apply Hstop|]. destruct (m <? length buf)%nat eqn:El; [by apply Hstop|].
    destruct rerr as [re|]; [by apply Hstop|]. intros [= <-]. apply Nat.ltb_ge in El.
    rewrite take_ge by lia. split.
    + intros j. destruct (decide (j = k)) as [->|Hj].
      * unfold accounted. cbn [copies reached]. rewrite !lookup_insert_eq. exact Hk.
      * apply (accounted_other s _ k j Hj); [done| | |done]; cbn; by rewrite lookup_insert_ne.
    + intros j. cbn [copies lp]. rewrite <- Hd. destruct (decide (j = k)) as [->|Hj]; [|by rewrite lookup_insert_ne].
      rewrite lookup_insert_eq, Hc. split; intros; by eexists.
    + exact Ht.
Qed.

(** With one stream, its goroutine is handed everything. *)
Lemma handed_one s :
  streams (lp s) = 1%nat -> Forall (fun t => (t.1 < streams (lp s))%nat) (takes s) -> handed s 0 = concat (takes s).*2.
Proof.
  intros E Ht. rewrite E in Ht. unfold handed. do 2 f_equal. induction Ht as [|t l H1 _ IH]; [done|].
  rewrite filter_cons. cbv beta in H1. rewrite decide_True by lia. by f_equal.
Qed.

Lemma input_inv_run c es s : steps irel (input_start c) es s -> input_inv s.
Proof.
  apply (steps_invariant irel input_inv); [|intros a e b; apply istep_inv]. split; [| |constructor].
  - intros k. unfold accounted. cbn. rewrite !lookup_empty. done.
  - intros k. cbn. rewrite lookup_empty. split; [by intros [? ?]|lia].
Qed.
End input.

(** ** The claims *)

(** No input is reordered, duplicated or invented.  In every run of the
    attach client, what reached a stream is what its own goroutine was handed,
    in order, less at most the chunk in its hands (nothing while it is
    reading); only goroutines of opened streams are handed input; and as long
    as one stream was opened, its goroutine was handed all of standard
    input. *)
Theorem attach_input_in_order {FT : Foreign} c es s (Hrun : steps irel (input_start c) es s) :
  (forall k r, reached s !! k = Some r -> exists pending, handed s k = r ++ pending /\
     match copies s !! k with
     | Some CRead => pending = []
     | Some (CWrite buf _) => pending = buf
     | _ => True
     end) /\
  Forall (fun t => (t.1 < streams (lp s))%nat) (takes s) /\
  (streams (lp s) = 1%nat -> handed s 0 = concat (takes s).*2).
Proof.
  destruct (input_inv_run c es s Hrun) as [Ha _ Ht]. split; [|split; [done|]].
  - intros k r Hr. specialize (Ha k). unfold accounted in Ha. rewrite Hr in Ha.
    destruct (copies s !! k) as [[|buf rerr|]|]; [exists []; by rewrite app_nil_r|by exists buf|destruct Ha as [p Hp]; by exists p|done].
  - intros E. by apply handed_one.
Qed.

(** ** Witness, and what happens after a reconnect *)

#[local] Existing Instance plain_foreign.

Fixpoint iexec (s : inputs) (es : list ievent) : option inputs :=
  match es with
  | [] => Some s
  | e :: es => match istep s e with Some s => iexec s es | None => None end
  end.

Lemma iexec_steps s es s' : iexec s es = Some s' -> steps irel s es s'.
Proof.
  revert s. induction es as [|e es IH]; intros s H; cbn [iexec] in H; [injection H as <-; constructor|].
  destruct (istep s e) as [t|] eqn:E; [|done]. apply (steps_app irel s [e] t); [by apply steps_one|by apply IH].
Qed.

(** One stream, two chunks. *)
Definition typing : list ievent :=
  [ILoop (EvDial None None None None); ITake 0 (str "ls") None; IPut 0 2 None; ITake 0 (str "-l") None].

Lemma attach_input_in_order_witness :
  exists s, steps irel (input_start None) typing s /\ handed s 0 = str "ls-l" /\ reached s !! 0%nat = Some (str "ls").
Proof.
  destruct (iexec (input_start None) typing) as [s|] eqn:E; [|vm_compute in E; discriminate].
  exists s. pose proof (iexec_steps _ _ _ E) as Hr. split; [exact Hr|].
  destruct (attach_input_in_order None typing s Hr) as (_ & _ & H1).
  assert (match iexec (input_start None) typing with
          | Some s => streams (lp s) = 1%nat /\ concat (takes s).*2 = str "ls-l" /\ reached s !! 0%nat = Some (str "ls")
          | None => False end) as X by (vm_compute; repeat split).
  rewrite E in X. destruct X as (X1 & X2 & X3). split; [|exact X3]. rewrite (H1 X1). exact X2.
Defined.

(** The stream breaks, the client reconnects, and the next input is handed to
    the goroutine of the broken stream: its write fails, the bytes reach no
    stream, and the client goes on without them. *)
Definition lost_input : list ievent :=
  [ILoop (EvDial None None None None); ILoop (EvRead 0 [] (Some (Text (str "broken pipe"))) None);
   ILoop (EvSelect None); ILoop (EvDial None None None None);
   ITake 0 (str "ls") None; IPut 0 0 (Some (Text (str "io: read/write on closed pipe")))].

Theorem reconnect_can_lose_input :
  exists s, steps irel (input_start None) lost_input s /\ ph (lp s) = Pumping 1 /\
    takes s = [(0%nat, str "ls")] /\ reached s !! 0%nat = Some [] /\ reached s !! 1%nat = Some [] /\
    copies s !! 0%nat = Some CStop /\ copies s !! 1%nat = Some CRead.
Proof.
  destruct (iexec (input_start None) lost_input) as [s|] eqn:E; [|vm_compute in E; discriminate].
  exists s. split; [by apply iexec_steps|].
  assert (match iexec (input_start None) lost_input with
          | Some s => ph (lp s) = Pumping 1 /\ takes s = [(0%nat, str "ls")] /\ reached s !! 0%nat = Some [] /\
              reached s !! 1%nat = Some [] /\ copies s !! 0%nat = Some CStop /\ copies s !! 1%nat = Some CRead
          | None => False end) as X by (vm_compute; repeat split).
  by rewrite E in X.
Qed.
