(* ===== verification/Launch.v ===== *)
(** * The commands that put the parts together (src/cmd/mosey/launch.go,
      attach.go, clienttransport.go, control.go, main.go)

    Which authenticator the flags select, which backends a launch listens on
    and a client dials with, what a failure closes, and how a detached launch
    reports back to the parent that started it.  Flag parsing itself, files,
    listeners and processes are inputs. *)

From S2P Require Import Prelude Identity GoStrings Cert Delegation GoTime Handshake.
From S2P Require Import AuthPSK AuthCert AuthWallet Hex GoUrl Transport Backends Grants CertCmd WalletFlags.

(** ** Authenticators *)

Inductive authenticator := APSK (a : PSKAuth) | ACert (c : CertAuth) | AWallet (w : WalletAuth).

Definition authModes (flags : list bool) : Z := foldl (fun n (f : bool) => if f then n + 1 else n) 0 flags.

Inductive auth_error :=
| ReaderSecretSame | EPsk (e : PSKError) | ECertFlags (e : CertFlagsError) | EWalletFlags (e : FlagsError)
| NoAuthMode | TwoAuthModes.

Definition is_set (s : bytes) : bool := negb (bool_decide (s = [])).

Section authenticators.
Context {H : MacPrims} {E : Ed25519} {P : ProtoCodec} {C : CertCodec}.

(** [cert] and [wallet]: whether their flags are configured and what their
    Build returns. *)
Definition buildAuthenticator (secret readerSecret : bytes) (certCfg : bool) (cert : res CertFlagsError CertAuth)
    (walletCfg : bool) (wallet : res FlagsError WalletAuth) : res auth_error authenticator :=
  if walletCfg then w ← map_err EWalletFlags wallet; Ok (AWallet w)
  else if certCfg then c ← map_err ECertFlags cert; Ok (ACert c)
  else
    let owner := mkSecret LabelOwner secret (mkCaps true true true) in
    if is_set readerSecret then
      if bool_decide (readerSecret = secret) then Err ReaderSecretSame
      else a ← map_err EPsk (NewMultiPSKAuth [owner; mkSecret LabelReader readerSecret (mkCaps false false false)]);
           Ok (APSK a)
    else a ← map_err EPsk (NewMultiPSKAuth [owner]); Ok (APSK a).

Definition buildAttachAuthenticator (secret : bytes) (certCfg : bool) (cert : res CertFlagsError CertAuth)
    (walletCfg : bool) (wallet : res FlagsError WalletAuth) : res auth_error authenticator :=
  if walletCfg then w ← map_err EWalletFlags wallet; Ok (AWallet w)
  else if certCfg then c ← map_err ECertFlags cert; Ok (ACert c)
  else a ← map_err EPsk (NewPSKAuth secret); Ok (APSK a).

(** controlFlags.authenticator *)
Definition control_authenticator (secret : bytes) (certCfg : bool) (cert : res CertFlagsError CertAuth)
    : res auth_error authenticator :=
  _ ← guard_ok (is_set secret || certCfg) NoAuthMode;
  _ ← guard_ok (negb (is_set secret && certCfg)) TwoAuthModes;
  if certCfg then c ← map_err ECertFlags cert; Ok (ACert c)
  else a ← map_err EPsk (NewPSKAuth secret); Ok (APSK a).

(** PSKAuth.KeyHex: the key of the first entry. *)
Definition KeyHex (a : PSKAuth) : bytes :=
  match order a with
  | [] => []
  | first :: _ => hexEncode (e_key (default no_entry (byLabel a !! first)))
  end.

(** The key a single secret is turned into. *)
Lemma KeyHex_derived secret a : NewPSKAuth secret = Ok a ->
  exists k, derivePSKKey secret = Ok k /\ KeyHex a = hexEncode k.
Proof.
  intros Ha%NewMultiPSKAuth_wf. destruct (pw_entry _ _ Ha _ ltac:(left)) as (k & Hk & He).
  exists k. split; [exact Hk|]. unfold KeyHex. rewrite (pw_order _ _ Ha). cbn [fmap list_fmap]. by rewrite He.
Qed.
End authenticators.

(** newLogger: the slog level a --log-level word selects. *)
Definition newLogger (level : bytes) : Z :=
  if bool_decide (level = str "debug") then -4
  else if bool_decide (level = str "info") then 0
  else if bool_decide (level = str "warn") then 4
  else 8.

(** ** Listeners *)

(** stringSliceFlag *)
Definition slice_Set (s : list bytes) (v : bytes) : list bytes := s ++ [v].
Definition slice_String (s : list bytes) : bytes := Join s (str ",").

Section listeners.
Context {FT : Foreign} {UA : UrlAuthority} {MA : Multiaddr}.

Inductive listen_error :=
| LParse (e : UrlError) | LNoScheme | LBackend (e : error) | LTLSRequired | LLoadCert | LUnixPath | LUnknown (s : bytes).

(** What the system answers to one --listen. *)
Record listen_env := mkListenEnv {
  le_p2p : p2p_net; le_bound : res error bytes; le_unix : option error; le_rand : res error bytes;
  le_configure : option error; le_tls : option nat   (* tls.LoadX509KeyPair *)
}.

Definition any_addr : bytes := str "0.0.0.0:0".
Definition host_or_any (u : URL) : bytes := if bool_decide (Host u = []) then any_addr else Host u.

(** libp2pOptsForAttach, and the same literal in buildBackends. *)
Definition libp2pOptsForAttach (noBootstrap : bool) : p2p_options :=
  mkP2pOptions None None None (if noBootstrap then Some [] else None).

Definition load_tls (cert key : bytes) (env : listen_env) : res listen_error (option tlsConfig) :=
  if bool_decide (cert = []) || bool_decide (key = []) then Err LTLSRequired
  else match le_tls env with
       | None => Err LLoadCert
       | Some n => Ok (Some (mkTLS (Some n) false))
       end.

Definition listen_one (raw : bytes) (env : listen_env) (noBootstrap : bool) (cert key : bytes) : res listen_error backend :=
  u ← map_err LParse (Parse raw);
  let s := Scheme u in
  if bool_decide (s = []) then Err LNoScheme
  else if bool_decide (s = p2p_Scheme) then
    b ← map_err LBackend (p2p_New (libp2pOptsForAttach noBootstrap) (le_p2p env)); Ok (BP2p b)
  else if bool_decide (s = SchemeHTTP) then
    b ← map_err LBackend (h2_New (host_or_any u) None false (le_bound env) (le_configure env)); Ok (BH2 b)
  else if bool_decide (s = SchemeHTTPS) then
    tls ← load_tls cert key env;
    b ← map_err LBackend (h2_New (host_or_any u) tls false (le_bound env) (le_configure env)); Ok (BH2 b)
  else if bool_decide (s = unix_Scheme) then
    if bool_decide (Path u = []) then Err LUnixPath
    else b ← map_err LBackend (unix_New (Path u) (le_unix env)); Ok (BUnix b)
  else if bool_decide (s = SchemeWS) then
    b ← map_err LBackend (ws_New (host_or_any u) None false (le_rand env) (le_bound env)); Ok (BWs b)
  else if bool_decide (s = SchemeWSS) then
    tls ← load_tls cert key env;
    b ← map_err LBackend (ws_New (host_or_any u) tls false (le_rand env) (le_bound env)); Ok (BWs b)
  else Err (LUnknown s).

Fixpoint buildBackends (listens : list (bytes * listen_env)) (noBootstrap : bool) (cert key : bytes)
    : res listen_error (list backend) :=
  match listens with
  | [] => Ok []
  | (raw, env) :: rest =>
      b ← listen_one raw env noBootstrap cert key;
      bs ← buildBackends rest noBootstrap cert key;
      Ok (b :: bs)
  end.

(** transport.Multi(backends...): the backends as references into a store. *)
Definition backend_at (bs : list backend) (r : nat) : backend := nth r bs (BUnix (mkUnix [] ∅ true)).
Definition aggregate (bs : list backend) : res error multi := Multi (backend_at bs) (seq 0 (length bs)).

(** ** The dial-only stack *)

Inductive client_error := CBackend (which : bytes) (e : error) | CAggregate (e : error) | CDial (e : error) | CAuth (e : auth_error).

(** Backends are created one after the other; the ones that exist are closed,
    the newest first, when a later one fails.  The list is what has been
    closed. *)
Definition dial_stack (noBootstrap insecureTLS : bool) (net : p2p_net) (rand : res error bytes)
    : list backend * option client_error :=
  match p2p_New (libp2pOptsForAttach noBootstrap) net with
  | Err e => ([], Some (CBackend (str "libp2p backend") e))
  | Ok p =>
  match h2_New [] None insecureTLS (Ok []) None with
  | Err e => ([BP2p p], Some (CBackend (str "http2 backend") e))
  | Ok h =>
  match unix_New [] None with
  | Err e => ([BP2p p; BH2 h], Some (CBackend (str "unix backend") e))
  | Ok u =>
  match ws_New [] None insecureTLS rand (Ok []) with
  | Err e => ([BP2p p; BH2 h; BUnix u], Some (CBackend (str "websocket backend") e))
  | Ok w => ([BP2p p; BH2 h; BUnix u; BWs w], None)
  end end end end.

(** The transport and the backends behind it, or the error and what was
    closed. *)
Definition buildClientTransport (noBootstrap insecureTLS : bool) (net : p2p_net) (rand : res error bytes)
    : res (client_error * list backend) (multi * list backend) :=
  match dial_stack noBootstrap insecureTLS net rand with
  | (opened, Some e) => Err (e, reverse opened)
  | (opened, None) =>
      match aggregate opened with
      | Err e => Err (CAggregate e, reverse opened)
      | Ok m => Ok (m, opened)
      end
  end.

(** dialControl: the authenticator first, then the same stack, then the
    control stream; [dial] is what the wrapped Dial returns. *)
Definition dialControl (auth : res auth_error authenticator) (noBootstrap insecureTLS : bool) (net : p2p_net)
    (rand : res error bytes) (dial : multi -> authenticator -> option error)
    : res (client_error * list backend) (multi * list backend) :=
  match auth with
  | Err e => Err (CAuth e, [])
  | Ok a =>
      match dial_stack noBootstrap insecureTLS net rand with
      | (opened, Some e) => Err (e, reverse opened)
      | (opened, None) =>
          match aggregate opened with
          | Err e => Err (CAggregate e, reverse opened)
          | Ok m => match dial m a with
                    | Some e => Err (CDial e, reverse opened)
                    | None => Ok (m, opened)
                    end
          end
      end
  end.
End listeners.

(** ** Launching, detached *)

Definition detachReadySentinel : bytes := str "__mosey_ready__".
Definition listening_line (ep : bytes) : bytes := str "mosey launch: listening: " ++ ep.

(** What the detached child writes to the pipe. *)
Definition child_report (endpoints : list bytes) : bytes :=
  concat (map (fun ep => listening_line ep ++ [LF]) endpoints) ++ detachReadySentinel ++ [LF].

(** The parent's loop over the lines of the pipe: the exit code and the lines
    mirrored to stderr. *)
Fixpoint mirror (lines : list bytes) : Z * list bytes :=
  match lines with
  | [] => (1, [])
  | raw :: rest =>
      if negb (len raw <? MaxScanTokenSize) then (1, [])
      else
        let line := drop_cr raw in
        if bool_decide (line = detachReadySentinel) then (0, [])
        else let '(code, out) := mirror rest in (code, line :: out)
  end.

(** The raw lines a Scanner sees: no empty last piece. *)
Definition raw_lines (content : bytes) : list bytes :=
  let ls := Split content [LF] in if bool_decide (List.last ls [] = []) then removelast ls else ls.

(** runLaunchDetachParent: resolving itself, the pipe, the log file and the
    spawn may fail; [pipe] is everything the child wrote before it closed. *)
Definition runLaunchDetachParent (exe pipe_ok log_ok spawn : bool) (pipe : bytes) : Z * list bytes :=
  if negb exe then (1, [])
  else if negb pipe_ok then (1, [])
  else if negb log_ok then (1, [])
  else if negb spawn then (1, [])
  else mirror (raw_lines pipe).

(** The end of runLaunch, from the endpoints on: what goes through the pipe
    (when this is the detached child), and the mode to run with, or an exit
    code. *)
Inductive detach_fd := NoFD | BadFD | GoodFD.

Definition launch_finish (fd : detach_fd) (endpoints : list bytes) (pidFile addressFile : bytes)
    (write_pid write_addr : bool) (mode : bytes) : option bytes * res Z Mode :=
  let parsed := match ParseMode mode with Err _ => Err 2 | Ok m => Ok m end in
  match fd with
  | NoFD => (None, parsed)
  | BadFD => (None, Err 1)
  | GoodFD =>
      (Some (child_report endpoints),
       if is_set pidFile && negb write_pid then Err 1
       else if is_set addressFile && negb write_addr then Err 1
       else parsed)
  end.

(** ** runLaunch and runAttach up to their transports *)

Record launch_flags := mkLaunchFlags {
  lf_secret : bytes; lf_reader : bytes; lf_cert : bool; lf_wallet : bool; lf_argv : list bytes; lf_listens : list bytes;
  lf_detach : bool; lf_pidfile : bytes; lf_address_file : bytes; lf_log_file : bytes
}.

(** Detach and become the parent, or go on with these listeners. *)
Inductive launch_plan := DetachParent | Serve (listens : list bytes).

Definition launch_checks (args : parsed launch_flags) (child : bool) : res Z launch_plan :=
  match args with
  | PHelp => Err 0
  | PBad => Err 2
  | PFlags f =>
      _ ← guard_ok (authModes [is_set (lf_secret f); lf_cert f; lf_wallet f] =? 1) 2;
      _ ← guard_ok (negb (len (lf_argv f) =? 0)) 2;
      let listens := if len (lf_listens f) =? 0 then [str "libp2p://"] else lf_listens f in
      _ ← guard_ok (lf_detach f || negb (is_set (lf_pidfile f) || is_set (lf_address_file f) || is_set (lf_log_file f))) 2;
      if lf_detach f && negb child then Ok DetachParent else Ok (Serve listens)
  end.

(** [pos]: the positional arguments; the target on success. *)
Definition attach_checks (args : parsed (bytes * bool * bool * list bytes)) : res Z bytes :=
  match args with
  | PHelp => Err 0
  | PBad => Err 2
  | PFlags (secret, cert, wallet, pos) =>
      _ ← guard_ok (authModes [is_set secret; cert; wallet] =? 1) 2;
      match pos with [target] => Ok target | _ => Err 2 end
  end.

(** ** main *)

Inductive subcommand := CLaunch | CAttach | CControl | CCert | CGrant | CSession | CWallet | CWeb.

(** The subcommand with its arguments, or usage and an exit code. *)
Definition main (args : list bytes) : res Z (subcommand * list bytes) :=
  match args with
  | [] | [_] => Err 2
  | _ :: sub :: rest =>
      if bool_decide (sub = str "launch") then Ok (CLaunch, rest)
      else if bool_decide (sub = str "attach") then Ok (CAttach, rest)
      else if bool_decide (sub = str "control") then Ok (CControl, rest)
      else if bool_decide (sub = str "cert") then Ok (CCert, rest)
      else if bool_decide (sub = str "grant") then Ok (CGrant, rest)
      else if bool_decide (sub = str "session") then Ok (CSession, rest)
      else if bool_decide (sub = str "wallet") then Ok (CWallet, rest)
      else if bool_decide (sub = str "web") then Ok (CWeb, rest)
      else if bool_decide (sub ∈ [str "-h"; str "--help"; str "help"]) then Err 0
      else Err 2
  end.

(** ** Lemmas *)

Lemma drop_cr_keeps s : List.last s x00 <> x0d -> drop_cr s = s.
Proof.
  intros Hl. unfold drop_cr. destruct (HasSuffix s [x0d]) eqn:E; [|done]. exfalso. apply Hl.
  unfold HasSuffix in E. apply andb_true_iff in E as [E1%Nat.leb_le E2%bool_decide_eq_true].
  cbn [length] in E1, E2. rewrite <- (take_drop (length s - 1) s), E2. by rewrite List.last_last.
Qed.

Lemma last_app_nonempty (l k : bytes) d : k <> [] -> List.last (l ++ k) d = List.last k d.
Proof.
  intros Hk. induction l as [|c l IH]; [done|]. cbn [app List.last]. rewrite IH.
  destruct (l ++ k) eqn:E; [|done]. by apply app_eq_nil in E as [_ ->].
Qed.

(** An endpoint that fits on a line of the pipe. *)
Definition line_ok (ep : bytes) : Prop :=
  (LF ∉ ep) /\ List.last ep x00 <> x0d /\ len ep < MaxScanTokenSize - 32.

Lemma listening_line_ok ep : line_ok ep ->
  (LF ∉ listening_line ep) /\ drop_cr (listening_line ep) = listening_line ep /\
  len (listening_line ep) < MaxScanTokenSize /\ listening_line ep <> detachReadySentinel.
Proof.
  intros (H1 & H2 & H3). unfold listening_line. split_and!.
  - rewrite elem_of_app. intros [Hx|Hx]; [|done]. revert Hx. apply (bool_decide_unpack _). done.
  - apply drop_cr_keeps. destruct ep as [|c ep]; [done|]. by rewrite last_app_nonempty.
  - rewrite len_app. change (len (str "mosey launch: listening: ")) with 25. lia.
  - intros Hx%(f_equal (take 1)). done.
Qed.

Lemma raw_lines_report eps :
  Forall line_ok eps -> raw_lines (child_report eps) = map listening_line eps ++ [detachReadySentinel].
Proof.
  intros Heps. unfold raw_lines.
  assert (Split (child_report eps) [LF] = map listening_line eps ++ [detachReadySentinel; []]) as ->.
  { unfold child_report. induction Heps as [|ep eps Hep _ IH]; [reflexivity|].
    cbn [map concat]. rewrite <- !app_assoc. cbn [app]. rewrite Split_app, IH.
    rewrite Split_piece by (by apply listening_line_ok). done. }
  change [detachReadySentinel; []] with ([detachReadySentinel] ++ [@nil byte]). rewrite app_assoc.
  rewrite last_last, bool_decide_eq_true_2 by done. by rewrite removelast_last.
Qed.

Lemma mirror_report eps :
  Forall line_ok eps -> mirror (map listening_line eps ++ [detachReadySentinel]) = (0, map listening_line eps).
Proof.
  induction 1 as [|ep eps Hep _ IH]; [vm_compute; reflexivity|].
  destruct (listening_line_ok ep Hep) as (_ & Hd & Hl & Hne). cbn [map app mirror].
  replace (len (listening_line ep) <? MaxScanTokenSize) with true by (symmetry; by apply Z.ltb_lt).
  cbn [negb]. rewrite Hd, bool_decide_eq_false_2 by done. by rewrite IH.
Qed.

Lemma mirror_unready eps :
  Forall line_ok eps -> fst (mirror (map listening_line eps)) = 1.
Proof.
  induction 1 as [|ep eps Hep _ IH]; [done|].
  destruct (listening_line_ok ep Hep) as (_ & Hd & Hl & Hne). cbn [map mirror].
  replace (len (listening_line ep) <? MaxScanTokenSize) with true by (symmetry; by apply Z.ltb_lt).
  cbn [negb]. rewrite Hd, bool_decide_eq_false_2 by done. by destruct (mirror _).
Qed.

(** ** The claims *)

(** C40: the PSK flags, end to end.  Let a launch run with --secret and a
    different --reader-secret.  An attach with the owner's secret completes the
    handshake and is the owner, with every capability.  An attach with the
    reader's secret is refused: the attach command always presents its secret
    under the owner's label, the launch answers with the owner's key, and the
    client rejects that answer, unless the two keys happen to give the one
    message of the launch's answer (the server label and the two nonces) the
    same MAC; the reader role the flag describes cannot be reached from the
    command line. *)
Theorem psk_flag_roles {H : MacPrims} {E : Ed25519} {P : ProtoCodec} secret reader ks kr launch nonceC nonceS certE walletE
  (Hreader : reader <> []) (Hl : buildAuthenticator secret reader false certE false walletE = Ok (APSK launch))
  (Hks : derivePSKKey secret = Ok ks) (Hkr : derivePSKKey reader = Ok kr)
  (HnC : len nonceC = pskNonceSize) (HnS : len nonceS = pskNonceSize) :
  (exists c, buildAttachAuthenticator secret false certE false walletE = Ok (APSK c) /\
     duet (ClientHandshake c (Some nonceC)) (ServerHandshake launch (Some nonceS)) =
       Some (Ok (mkIdentity LabelOwner (mkCaps true true true)), Ok (mkIdentity LabelOwner (mkCaps true true true)))) /\
  (exists c hello challenge, buildAttachAuthenticator reader false certE false walletE = Ok (APSK c) /\
     snd (run (ClientHandshake c (Some nonceC)) [PWrite true]) = [hello] /\
     snd (run (ServerHandshake launch (Some nonceS)) [PRead (Some hello); PWrite true]) = [challenge] /\
     (mac ks macLabelServer nonceC nonceS <> mac kr macLabelServer nonceC nonceS ->
      fst (run (ClientHandshake c (Some nonceC)) [PWrite true; PRead (Some challenge)]) = Err Unauthorized)).
Proof.
  unfold buildAuthenticator, is_set in Hl. rewrite bool_decide_eq_false_2 in Hl by done. cbn [negb] in Hl.
  case_bool_decide as Hrs; [done|]. apply bind_ok in Hl as (a & Ha & [= ->]).
  destruct (NewMultiPSKAuth _) as [launch'|] eqn:Hnew in Ha; [|done]. injection Ha as ->.
  pose proof (NewMultiPSKAuth_wf _ _ Hnew) as [_ Hent _].
  assert (secret <> []) as Hs.
  { intros ->. unfold NewMultiPSKAuth in Hnew. cbn in Hnew. done. }
  assert (forall s k, s <> [] -> derivePSKKey s = Ok k ->
    NewPSKAuth s = Ok (mkPSK {[LabelOwner := mkEntry LabelOwner k (mkIdentity LabelOwner (mkCaps true true true))]} [LabelOwner]))
    as Hatt.
  { intros s k Hne Hk. unfold NewPSKAuth, NewMultiPSKAuth. cbn [len length Z.of_nat Z.eqb add_entries NSLabel NSSecret byLabel].
    rewrite (bool_decide_eq_false_2 (LabelOwner = [])), (bool_decide_eq_false_2 (s = [])) by done.
    rewrite lookup_empty, Hk. reflexivity. }
  split.
  - eexists. split. { unfold buildAttachAuthenticator. rewrite (Hatt secret ks Hs Hks). reflexivity. }
    pose proof (Hatt secret ks Hs Hks) as Hc. unfold NewPSKAuth in Hc.
    exact (psk_duet _ launch _ (mkSecret LabelOwner secret (mkCaps true true true)) (mkCaps true true true) nonceC nonceS
      Hnew (list_elem_of_here _ _) Hc HnC HnS).
  - destruct (Hent (mkSecret LabelOwner secret (mkCaps true true true))) as (k & Hk & Hb); [set_solver|].
    cbn [NSSecret NSLabel NSCaps] in Hk, Hb. assert (k = ks) as -> by congruence.
    eexists _, (ClientHello nonceC LabelOwner), (ServerProof nonceS (mac ks macLabelServer nonceC nonceS)).
    split. { unfold buildAttachAuthenticator. rewrite (Hatt reader kr Hreader Hkr). reflexivity. }
    unfold ClientHandshake. cbn [order byLabel]. rewrite lookup_singleton_eq. cbn [from_option id e_label e_key e_identity].
    split; [reflexivity|]. split.
    + unfold ServerHandshake. cbn [run]. rewrite HnC. change (pskNonceSize =? pskNonceSize) with true. cbn [negb].
      rewrite bool_decide_eq_false_2 by done. cbv zeta. rewrite Hb. reflexivity.
    + intros Hmac. cbn [run negb]. rewrite HnS. change (pskNonceSize =? pskNonceSize) with true. cbn [negb].
      rewrite bool_decide_eq_false_2 by (exact Hmac). reflexivity.
Qed.

(** The client commands always get a transport for every scheme, and leak
    nothing when they do not.  The dial-only stack fails only when libp2p or
    the WebSocket token does, and then every backend created before is closed,
    the newest first; otherwise the aggregate routes each of the six schemes
    to a backend that serves it.  `mosey control` closes all four when the
    dial itself fails. *)
Theorem client_transport_complete {FT : Foreign} {UA : UrlAuthority} {MA : Multiaddr} noBootstrap insecureTLS net rand :
  match p2p_New (libp2pOptsForAttach noBootstrap) net, rand with
  | Err e, _ => buildClientTransport noBootstrap insecureTLS net rand = Err (CBackend (str "libp2p backend") e, [])
  | Ok p, Err _ => exists e h u, buildClientTransport noBootstrap insecureTLS net rand =
      Err (CBackend (str "websocket backend") e, [BUnix u; BH2 h; BP2p p])
  | Ok p, Ok _ => exists m bs, buildClientTransport noBootstrap insecureTLS net rand = Ok (m, bs) /\ bs !! 0%nat = Some (BP2p p) /\
      (forall s, s ∈ [p2p_Scheme; SchemeHTTP; SchemeHTTPS; unix_Scheme; SchemeWS; SchemeWSS] ->
         exists r b, schemes m !! s = Some r /\ bs !! r = Some b /\ s ∈ Schemes b) /\
      forall a dial e, dial m a = Some e ->
        dialControl (Ok a) noBootstrap insecureTLS net rand dial = Err (CDial e, reverse bs)
  end.
Proof.
  unfold buildClientTransport, dialControl, dial_stack.
  destruct (p2p_New (libp2pOptsForAttach noBootstrap) net) as [p|e]; [|done].
  change (h2_New [] None insecureTLS (Ok []) None) with (Ok (E := error) (mkH2 [] false ∅ insecureTLS false)).
  change (unix_New [] None) with (Ok (E := error) (mkUnix [] ∅ false)). cbv iota.
  destruct rand as [token|e].
  - change (ws_New [] None insecureTLS (Ok token) (Ok [])) with
      (Ok (E := error) (mkWs [] false false ∅ (ws_dialer None insecureTLS) (hexEncode token) false)). cbv iota.
    set (bs := [BP2p p; BH2 _; BUnix _; BWs _]).
    assert (aggregate bs = Ok (mkMulti (seq 0 4)
      (<[SchemeWSS := 3%nat]> (<[SchemeWS := 3%nat]> (<[unix_Scheme := 2%nat]> (<[SchemeHTTPS := 1%nat]>
        (<[SchemeHTTP := 1%nat]> (<[p2p_Scheme := 0%nat]> ∅)))))) ∅)) as -> by reflexivity.
    eexists _, bs. split; [reflexivity|]. split; [reflexivity|]. split.
    + intros s Hs. rewrite !elem_of_cons in Hs. destruct_or! Hs; subst; [| | | | | |set_solver].
      * exists 0%nat, (BP2p p). split; [vm_compute; reflexivity|]. split; [reflexivity|]. left.
      * eexists 1%nat, _. split; [vm_compute; reflexivity|]. split; [reflexivity|]. left.
      * eexists 1%nat, _. split; [vm_compute; reflexivity|]. split; [reflexivity|]. right. left.
      * eexists 2%nat, _. split; [vm_compute; reflexivity|]. split; [reflexivity|]. left.
      * eexists 3%nat, _. split; [vm_compute; reflexivity|]. split; [reflexivity|]. left.
      * eexists 3%nat, _. split; [vm_compute; reflexivity|]. split; [reflexivity|]. right. left.
    + intros a dial e ->. reflexivity.
  - unfold ws_New, mintPeerToken. cbn [mbind res_bind]. by eexists _, _, _.
Qed.

(** A detached launch reports exactly its endpoints.  The parent of
    `mosey launch --detach` prints the child's listening lines, in order, and
    exits 0 once the child has written them all and its ready line; if the
    child dies after writing only listening lines, the parent exits 1. *)
Theorem detach_reports_endpoints eps pid addr wp wa mode report r
  (Heps : Forall line_ok eps)
  (Hchild : launch_finish GoodFD eps pid addr wp wa mode = (Some report, r)) :
  runLaunchDetachParent true true true true report = (0, map listening_line eps) /\
  fst (runLaunchDetachParent true true true true (concat (map (fun ep => listening_line ep ++ [LF]) eps))) = 1.
Proof.
  injection Hchild as <- _. unfold runLaunchDetachParent. cbn [negb]. split.
  - rewrite raw_lines_report by done. by apply mirror_report.
  - rewrite <- (mirror_unready eps Heps). do 2 f_equal. unfold raw_lines.
    assert (Split (concat (map (fun ep => listening_line ep ++ [LF]) eps)) [LF] = map listening_line eps ++ [[]]) as ->.
    { induction Heps as [|ep eps Hep _ IH]; [reflexivity|]. cbn [map concat]. rewrite <- app_assoc. cbn [app].
      rewrite Split_app, IH, Split_piece by (by apply listening_line_ok). done. }
    rewrite last_last, bool_decide_eq_true_2 by done. by rewrite removelast_last.
Qed.

(** ** Witnesses *)

Lemma psk_flag_roles_witness :
  exists launch c hello challenge,
    buildAuthenticator (str "hunter2") (str "peeker") false (Err CFRequired) false (Err KeyRequired) = Ok (APSK launch) /\
    snd (run (ClientHandshake c (Some (nonce_of x01))) [PWrite true]) = [hello] /\
    snd (run (ServerHandshake launch (Some (nonce_of x02))) [PRead (Some hello); PWrite true]) = [challenge] /\
    fst (run (ClientHandshake c (Some (nonce_of x01))) [PWrite true; PRead (Some challenge)]) = Err Unauthorized.
Proof.
  destruct (buildAuthenticator (str "hunter2") (str "peeker") false (Err CFRequired) false (Err KeyRequired))
    as [[launch|x|x]|e] eqn:Hl.
  - destruct (psk_flag_roles (str "hunter2") (str "peeker") (str "hunter2" ++ pskInfo) (str "peeker" ++ pskInfo) launch
      (nonce_of x01) (nonce_of x02) (Err CFRequired) (Err KeyRequired)) as (_ & c & hello & challenge & _ & H1 & H2 & H3).
    + discriminate.
    + exact Hl.
    + reflexivity.
    + reflexivity.
    + reflexivity.
    + reflexivity.
    + exists launch, c, hello, challenge. split; [reflexivity|]. split; [exact H1|]. split; [exact H2|]. apply H3. vm_compute. discriminate.
  - apply (f_equal (fun r => match r with Ok (APSK _) => true | _ => false end)) in Hl. vm_compute in Hl. discriminate.
  - apply (f_equal (fun r => match r with Ok (APSK _) => true | _ => false end)) in Hl. vm_compute in Hl. discriminate.
  - apply (f_equal (fun r => match r with Ok (APSK _) => true | _ => false end)) in Hl. vm_compute in Hl. discriminate.
Defined.

Definition demo_eps : list bytes := [str "unix:///tmp/m.sock"; str "http://127.0.0.1:8080"].

Lemma demo_eps_ok : Forall line_ok demo_eps.
Proof.
  repeat constructor; try (apply (bool_decide_unpack _); vm_compute; exact I); vm_compute; discriminate || reflexivity.
Qed.

Lemma detach_reports_endpoints_witness :
  runLaunchDetachParent true true true true (child_report demo_eps) = (0, map listening_line demo_eps).
Proof.
  exact (proj1 (detach_reports_endpoints demo_eps [] [] true true (str "exclusive") (child_report demo_eps) (Ok ModeExclusive)
    demo_eps_ok eq_refl)).
Defined.

(** ** What the composition shows besides *)

(** A detached launch with a bad --mode: the child reports ready and the
    parent exits 0; only then does the child exit 2. *)
Lemma detached_bad_mode_reports_ready eps mode e :
  Forall line_ok eps -> ParseMode mode = Err e ->
  launch_finish GoodFD eps [] [] true true mode = (Some (child_report eps), Err 2) /\
  runLaunchDetachParent true true true true (child_report eps) = (0, map listening_line eps).
Proof.
  intros Heps Hm. unfold launch_finish, runLaunchDetachParent. rewrite Hm. split; [done|]. cbn [negb].
  rewrite raw_lines_report by done. by apply mirror_report.
Qed.

(** A launch that listens on http:// and on https:// builds both backends,
    and the aggregate refuses them, as both claim both schemes. *)
Lemma http_and_https_listeners_refused {FT : Foreign} {UA : UrlAuthority} {MA : Multiaddr}
  raw1 env1 u1 raw2 env2 u2 noBootstrap cert key bs :
  Parse raw1 = Ok u1 -> Scheme u1 = SchemeHTTP -> Parse raw2 = Ok u2 -> Scheme u2 = SchemeHTTPS ->
  buildBackends [(raw1, env1); (raw2, env2)] noBootstrap cert key = Ok bs -> is_ok (aggregate bs) = false.
Proof.
  intros H1 S1 H2 S2. cbn [buildBackends]. unfold listen_one. rewrite H1, H2. cbn [map_err mbind res_bind]. rewrite S1, S2.
  repeat (first [rewrite bool_decide_eq_false_2 by done|rewrite bool_decide_eq_true_2 by done]).
  intros (b1 & (x1 & _ & [= <-])%bind_ok & (bs' & (b2 & (tls & _ & (x2 & _ & [= <-])%bind_ok)%bind_ok & [= <-])%bind_ok & [= <-])%bind_ok)%bind_ok.
  reflexivity.
Qed.
