(* ===== verification/ControlCmd.v ===== *)
(** * `mosey control`: the admin commands (src/cmd/mosey/control.go)

    The five subcommands from parsed flags and positional arguments to the
    control message they send: argument counts, client ids as decimal int64,
    mode words, the dial (Launch.v), the one-shot send, and the table
    list-clients prints.  The claim joins them to the server's handler
    (Session.v): what list-clients shows is what the other commands act on. *)

From S2P Require Import Prelude Identity GoStrings GoTime Delegation Cert AuthPSK AuthCert Hex.
From S2P Require Import GoUrl Transport Backends Grants CertCmd Launch Session.

(** ** Arguments *)

Record controlFlags := mkControlFlags {
  cf_secret : bytes; cf_noBootstrap : bool; cf_insecureTLS : bool; cf_cert : CertFlags
}.

(** Either the exit code, or the flags, the endpoint and the arguments after
    it. *)
Definition parseControlArgs (args : parsed (controlFlags * list bytes)) (nWantPos : Z)
    : res Z (controlFlags * bytes * list bytes) :=
  match args with
  | PHelp => Err 0
  | PBad => Err 2
  | PFlags (cf, pos) =>
      if negb (len pos =? 1 + nWantPos) then Err 2
      else match pos with
           | [] => Err 2
           | target :: rest => Ok (cf, target, rest)
           end
  end.

(** strconv.ParseInt(s, 10, 64). *)
Definition ParseInt (s : bytes) : option Z :=
  let '(neg, d) := match s with
                   | x2d :: d => (true, d)
                   | x2b :: d => (false, d)
                   | _ => (false, s)
                   end in
  if bool_decide (d = []) then None
  else
    n ← digits_value d 0;
    let v := if (neg : bool) then - n else n in
    if (- 2 ^ 63 <=? v) && (v <? 2 ^ 63) then Some v else None.

(** ** The exchange *)

Section control.
Context {H : MacPrims} {E : Ed25519} {P : ProtoCodec} {C : CertCodec} {FT : Foreign} {UA : UrlAuthority} {MA : Multiaddr}.

(** What the commands meet: the certificate flags' Build, the network the
    backends are built on, the wrapped Dial of the control stream, and the
    stream's write and read. *)
Record control_env := mkControlEnv {
  ctl_cert : CertFlags -> res CertFlagsError CertAuth;
  ctl_net : p2p_net; ctl_rand : res error bytes;
  ctl_dial : bytes -> multi -> authenticator -> option error;
  ctl_send : bool; ctl_reply : option ControlMessage
}.

Definition open_control (env : control_env) (cf : controlFlags) (target : bytes)
    : res (client_error * list backend) (multi * list backend) :=
  dialControl (control_authenticator (cf_secret cf) (CertCmd.Configured (cf_cert cf)) (ctl_cert env (cf_cert cf)))
    (cf_noBootstrap cf) (cf_insecureTLS cf) (ctl_net env) (ctl_rand env) (ctl_dial env target).

(** The exit code, and the message that went out. *)
Definition sendOneShot (env : control_env) (cf : controlFlags) (target : bytes) (msg : ControlMessage)
    : Z * option ControlMessage :=
  match open_control env cf target with
  | Err _ => (1, None)
  | Ok _ => if negb (ctl_send env) then (1, None) else (0, Some msg)
  end.

Definition cmdControlPromote (args : parsed (controlFlags * list bytes)) (env : control_env) : Z * option ControlMessage :=
  match parseControlArgs args 1 with
  | Err code => (code, None)
  | Ok (cf, target, pos) =>
      match ParseInt (nth 0 pos []) with
      | None => (2, None)
      | Some k => sendOneShot env cf target (CPromote k)
      end
  end.

Definition cmdControlKick (args : parsed (controlFlags * list bytes)) (env : control_env) : Z * option ControlMessage :=
  match parseControlArgs args 1 with
  | Err code => (code, None)
  | Ok (cf, target, pos) =>
      match ParseInt (nth 0 pos []) with
      | None => (2, None)
      | Some k => sendOneShot env cf target (CKick k)
      end
  end.

Definition cmdControlDemote (args : parsed (controlFlags * list bytes)) (env : control_env) : Z * option ControlMessage :=
  match parseControlArgs args 0 with
  | Err code => (code, None)
  | Ok (cf, target, _) => sendOneShot env cf target CDemote
  end.

Definition cmdControlSetMode (args : parsed (controlFlags * list bytes)) (env : control_env) : Z * option ControlMessage :=
  match parseControlArgs args 1 with
  | Err code => (code, None)
  | Ok (cf, target, pos) =>
      match parseSetModeKind (nth 0 pos []) with
      | Err _ => (2, None)
      | Ok kind => sendOneShot env cf target (CSetMode kind)
      end
  end.

(** One line of the table, as it is handed to the tabwriter. *)
Definition TAB : byte := x09.

Definition client_line (c : ClientInfo) : bytes :=
  Itoa (ClientId c) ++ [TAB] ++ ILabel c ++ [TAB] ++ (if ICanWrite c then str "yes" else str "no") ++ [TAB] ++
  Itoa (ICols c) ++ str "x" ++ Itoa (IRows c) ++ [LF].

Definition table_header : bytes :=
  str "ID" ++ [TAB] ++ str "LABEL" ++ [TAB] ++ str "WRITE" ++ [TAB] ++ str "COLSxROWS" ++ [LF].

Definition clients_table (l : list ClientInfo) : bytes := table_header ++ concat (client_line <$> l).

(** The exit code, the message that went out and the table. *)
Definition cmdControlListClients (args : parsed (controlFlags * list bytes)) (env : control_env)
    : Z * option ControlMessage * bytes :=
  match parseControlArgs args 0 with
  | Err code => (code, None, [])
  | Ok (cf, target, _) =>
      match open_control env cf target with
      | Err _ => (1, None, [])
      | Ok _ =>
          if negb (ctl_send env) then (1, None, [])
          else match ctl_reply env with
               | Some (CClientList l) => (0, Some CListClients, clients_table l)
               | _ => (1, Some CListClients, [])
               end
      end
  end.

Inductive control_sub := KListClients | KPromote | KKick | KDemote | KSetMode.

Definition runControl (args : list bytes) : res Z (control_sub * list bytes) :=
  match args with
  | [] => Err 2
  | sub :: rest =>
      if bool_decide (sub = str "list-clients") then Ok (KListClients, rest)
      else if bool_decide (sub = str "promote") then Ok (KPromote, rest)
      else if bool_decide (sub = str "kick") then Ok (KKick, rest)
      else if bool_decide (sub = str "demote") then Ok (KDemote, rest)
      else if bool_decide (sub = str "set-mode") then Ok (KSetMode, rest)
      else if bool_decide (sub = str "-h") || bool_decide (sub = str "--help") || bool_decide (sub = str "help")
      then Err 0
      else Err 2
  end.
End control.

(** ** Numbers read back *)

Lemma decimal_value fuel v : 0 <= v < 10 ^ Z.of_nat fuel -> digits_value (decimal fuel v) 0 = Some v.
Proof.
  revert v. induction fuel as [|fuel IH]; intros v Hv; [simpl in *; f_equal; lia|].
  cbn [decimal]. destruct (v <? 10) eqn:El.
  - rewrite digit_value by lia. cbn [digits_value]. f_equal.
  - rewrite digits_value_app, IH.
    + cbn [mbind option_bind]. rewrite digit_value by (Z.to_euclidean_division_equations; lia).
      cbn [digits_value]. f_equal. Z.to_euclidean_division_equations; lia.
    + rewrite Nat2Z.inj_succ, Z.pow_succ_r in Hv by lia. Z.to_euclidean_division_equations; lia.
Qed.

Lemma decimal_head fuel v : (0 < fuel)%nat -> 0 <= v -> exists c r, decimal fuel v = c :: r /\ c <> x2d /\ c <> x2b.
Proof.
  revert v. induction fuel as [|fuel IH]; intros v Hf Hv; [lia|]. cbn [decimal].
  assert (forall d, 0 <= d <= 9 -> digit d <> x2d /\ digit d <> x2b) as Hd.
  { intros d Hd. unfold digit. split; intros Hx%(f_equal b2z); rewrite b2z_z2b, Z.mod_small in Hx by lia;
      [change (b2z x2d) with 45 in Hx|change (b2z x2b) with 43 in Hx]; lia. }
  destruct (v <? 10) eqn:El.
  - exists (digit v), []. split; [done|]. apply Hd. lia.
  - destruct fuel as [|fuel].
    + eexists _, _. split; [reflexivity|]. apply Hd. Z.to_euclidean_division_equations; lia.
    + destruct (IH (v / 10)) as (c & r & -> & Hc); [lia|Z.to_euclidean_division_equations; lia|].
      by exists c, (r ++ [digit (v mod 10)]).
Qed.

Lemma ParseInt_Itoa k : - 2 ^ 63 <= k < 2 ^ 63 -> ParseInt (Itoa k) = Some k.
Proof.
  intros Hk. unfold ParseInt, Itoa. destruct (k <? 0) eqn:En.
  - destruct (decimal_head 20 (- k)) as (c & r & Hd & _); [lia|lia|].
    rewrite bool_decide_eq_false_2 by congruence. rewrite decimal_value by (change (Z.of_nat 20) with 20; lia).
    cbn [mbind option_bind]. replace (- - k) with k by lia.
    assert ((- 2 ^ 63 <=? k) && (k <? 2 ^ 63) = true) as -> by lia. done.
  - destruct (decimal_head 20 k) as (c & r & Hd & H1 & H2); [lia|lia|].
    assert ((match decimal 20 k with x2d :: d => (true, d) | x2b :: d => (false, d) | _ => (false, decimal 20 k) end)
      = (false, decimal 20 k)) as ->.
    { rewrite Hd. destruct c; try done. }
    rewrite bool_decide_eq_false_2 by congruence. rewrite decimal_value by (change (Z.of_nat 20) with 20; lia).
    cbn [mbind option_bind]. assert ((- 2 ^ 63 <=? k) && (k <? 2 ^ 63) = true) as -> by lia. done.
Qed.

(** ** The claim *)

Lemma promoteClient_client s k c : client s k = Some c ->
  exists c', client (fst (promoteClient s k)) k = Some c' /\ canWrite c' = true.
Proof.
  intros Hc. unfold promoteClient. rewrite Hc. cbn [fst]. rewrite client_update, bool_decide_eq_true_2 by done.
  assert (forall t : Session, is_Some (client t k) ->
    exists c', set_canWrite true <$> client t k = Some c' /\ canWrite c' = true) as Ht.
  { intros t [x ->]. by eexists. }
  apply Ht. case_bool_decide; [|by eexists].
  change (is_Some (client (match client s (writerID s) with
    | Some _ => if negb (writerID s =? k) then update s (writerID s) (set_canWrite false) else s | None => s end) k)).
  destruct (client s (writerID s)); [|by eexists]. destruct (negb _); [|by eexists].
  rewrite client_update, Hc. case_bool_decide; by eexists.
Qed.

(** The table has a line for every registered client. *)
Lemma table_has_line s k c : client s k = Some c ->
  exists before after, clients_table (snapshotToProto (listClients s)) =
    before ++ client_line (mkInfo (id c) (Label (identity c)) (canWrite c) (cols c) (rows c)) ++ after.
Proof.
  intros Hc. assert (snapshot_of c ∈ listClients s) as Hin.
  { unfold listClients. apply list_elem_of_fmap. exists (k, c). split; [done|].
    apply elem_of_map_to_list. by rewrite lookup_live. }
  apply list_elem_of_split in Hin as (l1 & l2 & Hl). unfold clients_table, snapshotToProto. rewrite Hl.
  rewrite !fmap_app, !fmap_cons, concat_app, app_assoc. cbn [concat]. by eexists _, _.
Qed.

(** What list-clients shows is what the other commands act on.  For an
    owner whose control stream opens and takes the message, and any client k
    registered at the server: list-clients exits 0 and prints a line that
    starts with k's number; given that number, `kick` exits 0 having sent a
    message that ends k's attachment and touches no other client, and
    `promote` one after which k may write; a word that is not a decimal int64
    is refused with exit code 2 before anything is sent. *)
Theorem control_acts_on_listed {H : MacPrims} {E : Ed25519} {P : ProtoCodec} {C : CertCodec}
  {FT : Foreign} {UA : UrlAuthority} {MA : Multiaddr} s st k c cf ep (env : control_env) m
  (Hwf : wf s) (Hids : nextID s < 2 ^ 63) (Howner : IsOwner (IdentityOf st) = true) (Hc : client s k = Some c)
  (Hopen : open_control env cf ep = Ok m) (Hsend : ctl_send env = true)
  (Hreply : ctl_reply env = snd (handleMessage false s st CListClients)) :
  (exists before after, cmdControlListClients (PFlags (cf, [ep])) env = (0, Some CListClients, before ++ Itoa k ++ [TAB] ++ after)) /\
  (exists msg, cmdControlKick (PFlags (cf, [ep; Itoa k])) env = (0, Some msg) /\
     let s' := fst (handleMessage false s st msg) in
     client s' k = Some (kick c) /\ forall j, j <> k -> client s' j = client s j) /\
  (exists msg c', cmdControlPromote (PFlags (cf, [ep; Itoa k])) env = (0, Some msg) /\
     client (fst (handleMessage false s st msg)) k = Some c' /\ canWrite c' = true) /\
  (forall word, ParseInt word = None ->
     cmdControlKick (PFlags (cf, [ep; word])) env = (2, None) /\
     cmdControlPromote (PFlags (cf, [ep; word])) env = (2, None)).
Proof.
  pose proof (wf_client s k c Hwf Hc) as (Hid & Hk & _).
  assert (ParseInt (Itoa k) = Some k) as Hp by (apply ParseInt_Itoa; lia).
  split; [|split; [|split]].
  - destruct (table_has_line s k c Hc) as (before & after & Ht). unfold client_line in Ht. cbn [ClientId] in Ht.
    rewrite Hid in Ht. rewrite <- !app_assoc in Ht. eexists before, _.
    unfold cmdControlListClients, parseControlArgs. change (negb (len [ep] =? 1 + 0)) with false. cbn match.
    rewrite Hopen, Hsend, Hreply. cbn [handleMessage snd negb]. rewrite Ht. reflexivity.
  - exists (CKick k). unfold cmdControlKick, parseControlArgs. change (negb (len [ep; Itoa k] =? 1 + 1)) with false.
    cbn match. cbn [nth]. rewrite Hp. unfold sendOneShot. rewrite Hopen, Hsend. split; [done|].
    cbn [handleMessage fst]. rewrite Howner. cbn [negb fst]. unfold kickClient. rewrite Hc. cbn [fst].
    split; [by rewrite client_update, Hc, bool_decide_eq_true_2|].
    intros j Hj. by rewrite client_update, bool_decide_eq_false_2.
  - exists (CPromote k). unfold cmdControlPromote, parseControlArgs. change (negb (len [ep; Itoa k] =? 1 + 1)) with false.
    cbn match. cbn [nth]. rewrite Hp. unfold sendOneShot. rewrite Hopen, Hsend.
    cbn [handleMessage fst]. rewrite Howner. cbn [negb fst].
    destruct (promoteClient_client s k c Hc) as (c' & Hc' & Hw). by exists c'.
  - intros word Hw. unfold cmdControlKick, cmdControlPromote, parseControlArgs.
    change (negb (len [ep; word] =? 1 + 1)) with false. cbn match. cbn [nth]. by rewrite Hw.
Qed.

(** ** Witness *)

#[local] Existing Instance tail_codec.
#[local] Existing Instance plain_foreign.
#[local] Existing Instance any_authority.
#[local] Existing Instance text_multiaddr.

Definition demo_owner : stream := mkStream (str "a") (mkIdentity (str "owner") (mkCaps true true true)).

(** A session with one attached client, and a control stream that opens. *)
Definition demo_session : Session := (addClientLocked (initSession ModeSupersede) demo_owner (IdentityOf demo_owner)).1.1.

Definition demo_control : controlFlags := mkControlFlags (str "hunter2") true false (mkCertFlags [] [] [] [] []).

Definition demo_control_env (reply : option ControlMessage) : control_env :=
  mkControlEnv (fun _ => Err CFRequired)
    (mkP2pNet (Ok (str "k")) (fun _ => Ok (mkHost [] [] ∅)) None None) (Ok (replicate 16 x2a)) (fun _ _ _ => None) true
    reply.

Lemma demo_opens reply :
  exists m, open_control (demo_control_env reply) demo_control (str "unix:///run/m.sock") = Ok m.
Proof.
  assert (is_ok (open_control (demo_control_env reply) demo_control (str "unix:///run/m.sock")) = true) as Hok
    by (vm_compute; reflexivity).
  destruct (open_control _ _ _) as [m|]; [by exists m|done].
Qed.

Lemma control_acts_on_listed_witness :
  let env := demo_control_env (snd (handleMessage false demo_session demo_owner CListClients)) in
  exists msg, cmdControlKick (PFlags (demo_control, [str "unix:///run/m.sock"; str "1"])) env = (0, Some msg) /\
    exists c, client (fst (handleMessage false demo_session demo_owner msg)) 1 = Some c /\ done c = true.
Proof.
  intros env. destruct (client demo_session 1) as [c|] eqn:Hc; [|vm_compute in Hc; discriminate].
  destruct (demo_opens (snd (handleMessage false demo_session demo_owner CListClients))) as [m Ho].
  destruct (control_acts_on_listed demo_session demo_owner 1 c demo_control (str "unix:///run/m.sock") env m)
    as (_ & (msg & Hk & Hs & _) & _).
  - pose proof (wf_addClientLocked (initSession ModeSupersede) demo_owner (IdentityOf demo_owner)
      (wf_init ModeSupersede)) as H. apply H. reflexivity.
  - reflexivity.
  - reflexivity.
  - exact Hc.
  - exact Ho.
  - reflexivity.
  - reflexivity.
  - exists msg. split; [exact Hk|]. exists (kick c). split; [exact Hs|reflexivity].
Defined.
