(* ===== verification/Commands.v ===== *)
(** * The serving and attaching commands, whole (src/cmd/mosey/launch.go,
      attach.go, web.go)

    runLaunch, runAttach and runWeb from their parsed flags to what they end
    up running: an exit code, or a program served (a target attached, a
    gateway listening) behind the authenticator the flags chose.  The claim is
    that none of them ever gets to its network side without one. *)

From S2P Require Import Prelude Solana Session.
From S2P Require Import Identity GoStrings WalletCaps Base58 GoTime Delegation Cert Handshake.
From S2P Require Import AuthPSK AuthCert AuthWallet Hex GoUrl Transport Backends Grants CertCmd WalletFlags Gateway Launch.

(** The dial stack and the authenticators, as the environment builds them. *)
Section commands.
Context {H : MacPrims} {E : Ed25519} {P : ProtoCodec} {C : CertCodec}.
Context {FT : Foreign} {UA : UrlAuthority} {MA : Multiaddr} {PI : PeerIds}.

(** ** mosey launch *)

(** [ln_fd]: what $MOSEY_DETACHED_FD holds; the builds of the two flag
    groups; one environment per listener; the parent's system calls and the
    bytes it reads from the pipe; whether the two files can be written. *)
Record launch_env := mkLaunchEnv {
  ln_fd : detach_fd;
  ln_cert : res CertFlagsError CertAuth; ln_wallet : res FlagsError WalletAuth;
  ln_listen : bytes -> listen_env; ln_noBootstrap : bool; ln_httpCert : bytes; ln_httpKey : bytes;
  ln_exe : bool; ln_pipe_ok : bool; ln_log : bool; ln_spawn : bool; ln_pipe : bytes;
  ln_pid : bool; ln_addr : bool; ln_mode : bytes
}.

(** An exit, or a program under vterm.Run: the authenticator its streams are
    wrapped with, the backends, their aggregate and the mode.  Either way,
    what the detached child wrote to the pipe. *)
Inductive launched :=
| LExit (code : Z)
| LServing (a : authenticator) (bs : list backend) (m : multi) (mode : Mode) (argv : list bytes).

Definition runLaunch (args : parsed launch_flags) (env : launch_env) : launched * option bytes :=
  match launch_checks args (negb (match ln_fd env with NoFD => true | _ => false end)), args with
  | Err code, _ => (LExit code, None)
  | Ok DetachParent, _ =>
      (LExit (fst (runLaunchDetachParent (ln_exe env) (ln_pipe_ok env) (ln_log env) (ln_spawn env) (ln_pipe env))), None)
  | Ok (Serve listens), PFlags f =>
      match buildAuthenticator (lf_secret f) (lf_reader f) (lf_cert f) (ln_cert env) (lf_wallet f) (ln_wallet env) with
      | Err _ => (LExit 2, None)
      | Ok a =>
      match buildBackends (map (fun raw => (raw, ln_listen env raw)) listens) (ln_noBootstrap env)
              (ln_httpCert env) (ln_httpKey env) with
      | Err _ => (LExit 2, None)
      | Ok bs =>
      match aggregate bs with
      | Err _ => (LExit 1, None)
      | Ok m =>
          match launch_finish (ln_fd env) (multi_Endpoints (backend_at bs) m) (lf_pidfile f) (lf_address_file f)
                  (ln_pid env) (ln_addr env) (ln_mode env) with
          | (rep, Err code) => (LExit code, rep)
          | (rep, Ok mode) => (LServing a bs m mode (lf_argv f), rep)
          end
      end end end
  | Ok (Serve _), _ => (LExit 2, None)
  end.

(** The exit code once vterm.Run returned. *)
Definition launch_exit (r : option RunError) : Z :=
  match r with
  | None => 0
  | Some (ChildExit code) => code
  | Some _ => 1
  end.

(** ** mosey attach *)

Record attach_env := mkAttachEnv {
  ae_cert : res CertFlagsError CertAuth; ae_wallet : res FlagsError WalletAuth;
  ae_noBootstrap : bool; ae_insecureTLS : bool; ae_net : p2p_net; ae_rand : res error bytes
}.

(** An exit code, or the authenticator, the transport and the target that
    attach.Run gets. *)
Definition runAttach (args : parsed (bytes * bool * bool * list bytes)) (env : attach_env)
    : res Z (authenticator * multi * bytes) :=
  target ← attach_checks args;
  match args with
  | PFlags (secret, certCfg, walletCfg, _) =>
      a ← map_err (fun _ => 2) (buildAttachAuthenticator secret certCfg (ae_cert env) walletCfg (ae_wallet env));
      '(m, _) ← map_err (fun _ => 1) (buildClientTransport (ae_noBootstrap env) (ae_insecureTLS env) (ae_net env) (ae_rand env));
      Ok (a, m, target)
  | _ => Err 2
  end.

(** ** mosey web *)

Definition defaultDelegationTTL : Z := 16 * Hour.

Record web_flags := mkWebFlags {
  wf_target : bytes; wf_secret : bytes; wf_walletLogin : bool; wf_session : bytes; wf_sessionName : bytes;
  wf_rpc : bytes; wf_program : bytes; wf_ttl : Z; wf_cert : bool; wf_wallet : bool
}.

(** The flag checks; whether the browser picks the session. *)
Definition web_checks (f : web_flags) : res Z bool :=
  let multiSession := is_set (wf_rpc f) && is_set (wf_program f) in
  let staticModes := authModes [is_set (wf_secret f); wf_cert f; wf_wallet f] in
  if wf_walletLogin f then
    _ ← guard_ok (staticModes =? 0) 2;
    if multiSession then Ok true
    else
      _ ← guard_ok (is_set (wf_session f) || is_set (wf_sessionName f)) 2;
      _ ← guard_ok (is_set (wf_target f)) 2;
      Ok false
  else
    _ ← guard_ok (is_set (wf_target f)) 2;
    _ ← guard_ok (staticModes =? 1) 2;
    Ok multiSession.

(** What is listening: the gateway, the authenticator every socket uses in
    static mode, and the chain source of the dashboard. *)
Record gateway_up := mkUp { up_gateway : webGateway; up_static : option authenticator; up_source : option Solana.Source }.

Definition web_gateway (f : web_flags) (multiSession : bool) (home : option bytes) (read : bytes -> res KeyFileError bytes)
    (env : attach_env) : res Z gateway_up :=
  let gw multi key := mkGateway (wf_target f) (wf_walletLogin f) multi key (wf_ttl f) ∅ ∅ in
  if wf_walletLogin f then
    if multiSession then
      src ← map_err (fun _ => 2) (Solana.New (Solana.mkOptions (wf_rpc f) [] (wf_program f) (replicate 32 x00) 0 0 [] false false));
      Ok (mkUp (gw true []) None (Some src))
    else
      key ← map_err (fun _ => 2) (resolveSessionPub home read (wf_session f) (wf_sessionName f));
      Ok (mkUp (gw false key) None None)
  else
    a ← map_err (fun _ => 2) (buildAttachAuthenticator (wf_secret f) (wf_cert f) (ae_cert env) (wf_wallet f) (ae_wallet env));
    Ok (mkUp (gw false []) (Some a) None).

Definition runWeb (args : parsed web_flags) (home : option bytes) (read : bytes -> res KeyFileError bytes)
    (env : attach_env) : res Z (gateway_up * multi) :=
  match args with
  | PHelp => Err 0
  | PBad => Err 2
  | PFlags f =>
      multiSession ← web_checks f;
      '(m, _) ← map_err (fun _ => 1) (buildClientTransport (ae_noBootstrap env) (ae_insecureTLS env) (ae_net env) (ae_rand env));
      up ← web_gateway f multiSession home read env;
      Ok (up, m)
  end.

(** ** Lemmas *)

(** The authenticator is the one of the single model the flags configure. *)
Definition chosen (secret : bytes) (cert wallet : bool) (c : res CertFlagsError CertAuth) (w : res FlagsError WalletAuth)
    (a : authenticator) : Prop :=
  match a with
  | APSK _ => secret <> [] /\ cert = false /\ wallet = false
  | ACert x => c = Ok x /\ secret = [] /\ cert = true /\ wallet = false
  | AWallet x => w = Ok x /\ secret = [] /\ cert = false /\ wallet = true
  end.

Lemma one_mode secret cert wallet :
  authModes [is_set secret; cert; wallet] = 1 ->
  (secret <> [] /\ cert = false /\ wallet = false) \/ (secret = [] /\ cert = true /\ wallet = false) \/
  (secret = [] /\ cert = false /\ wallet = true).
Proof. unfold is_set. case_bool_decide; destruct cert, wallet; cbn; intros; try lia; naive_solver. Qed.

Lemma map_err_ok {X Y A} (f : X -> Y) (r : res X A) a : map_err f r = Ok a -> r = Ok a.
Proof. destruct r; by intros [= ->]. Qed.

Lemma buildAttach_chosen secret cert wallet c w a :
  authModes [is_set secret; cert; wallet] = 1 ->
  buildAttachAuthenticator secret cert c wallet w = Ok a -> chosen secret cert wallet c w a.
Proof.
  intros Hm. unfold buildAttachAuthenticator.
  destruct (one_mode _ _ _ Hm) as [(? & -> & ->)|[(? & -> & ->)|(? & -> & ->)]];
    intros (x & Hx%map_err_ok & [= <-])%bind_ok; by cbn.
Qed.

Lemma build_chosen secret reader cert wallet c w a :
  authModes [is_set secret; cert; wallet] = 1 ->
  buildAuthenticator secret reader cert c wallet w = Ok a -> chosen secret cert wallet c w a.
Proof.
  intros Hm. unfold buildAuthenticator.
  destruct (one_mode _ _ _ Hm) as [(? & -> & ->)|[(? & -> & ->)|(? & -> & ->)]].
  - destruct (is_set reader); [case_bool_decide; [done|]|]; intros (x & Hx%map_err_ok & [= <-])%bind_ok; by cbn.
  - intros (x & Hx%map_err_ok & [= <-])%bind_ok. by cbn.
  - intros (x & Hx%map_err_ok & [= <-])%bind_ok. by cbn.
Qed.
End commands.

(** ** The claim *)

(** C25: no command reaches the network unauthenticated.  Whatever the flags,
    files and answers of the system: if `mosey launch` serves, exactly one
    authentication model was configured, its authenticator wraps the
    transport, there is a program and a real mode; if `mosey attach` dials, it
    dials with the authenticator of the one configured model; if `mosey web`
    listens, it is either in wallet-login mode with no login yet and, unless
    the browser picks the session, a 32-byte session key, or in static mode
    with the authenticator of the one configured model. *)
Theorem commands_always_authenticate {H : MacPrims} {E : Ed25519} {EL : Ed25519Laws E} {P : ProtoCodec} {C : CertCodec}
  {FT : Foreign} {UA : UrlAuthority} {MA : Multiaddr} {PI : PeerIds} :
  (forall f env a bs m mode argv rep, runLaunch (PFlags f) env = (LServing a bs m mode argv, rep) ->
     chosen (lf_secret f) (lf_cert f) (lf_wallet f) (ln_cert env) (ln_wallet env) a /\
     aggregate bs = Ok m /\ mode <> ModeUnspecified /\ argv = lf_argv f /\ argv <> []) /\
  (forall secret cert wallet pos env a m target, runAttach (PFlags (secret, cert, wallet, pos)) env = Ok (a, m, target) ->
     chosen secret cert wallet (ae_cert env) (ae_wallet env) a /\ pos = [target]) /\
  (forall f home read env up m, runWeb (PFlags f) home read env = Ok (up, m) ->
     if wf_walletLogin f then up_static up = None /\ fresh_gateway (up_gateway up)
     else exists a, up_static up = Some a /\ g_walletLogin (up_gateway up) = false /\
            chosen (wf_secret f) (wf_cert f) (wf_wallet f) (ae_cert env) (ae_wallet env) a).
Proof.
  split; [|split].
  - intros f env a bs m mode argv rep. unfold runLaunch.
    destruct (launch_checks _ _) as [[|listens]|] eqn:Ec; [done| |done].
    unfold launch_checks in Ec. apply bind_ok in Ec as (? & H1%guard_ok_ok & (? & H2%guard_ok_ok & _)%bind_ok). go_bool.
    destruct (buildAuthenticator _ _ _ _ _ _) as [a'|] eqn:Ea; [|done].
    destruct (buildBackends _ _ _ _) as [bs'|]; [|done]. destruct (aggregate bs') as [m'|] eqn:Em; [|done].
    destruct (launch_finish _ _ _ _ _ _ _) as [rep' [mode'|]] eqn:Ef; [|done].
    intros [= -> -> -> -> <- ->]. split_and!; [by eapply build_chosen|done| |done|intros Hx; by rewrite Hx in H2].
    intros ->. assert (ParseMode (ln_mode env) = Ok ModeUnspecified) as [? _]%ParseMode_iff; [|done].
    revert Ef. unfold launch_finish. destruct (ParseMode _), (ln_fd env); try done; try congruence;
      repeat match goal with |- context [if ?b then _ else _] => destruct b end; congruence.
  - intros secret cert wallet pos env a m target. unfold runAttach.
    intros (t & Ht & (a' & Ha%map_err_ok & ([m' bs] & _ & [= -> -> ->])%bind_ok)%bind_ok)%bind_ok.
    unfold attach_checks in Ht. apply bind_ok in Ht as (? & Hm%guard_ok_ok & Ht). go_bool.
    split; [by eapply buildAttach_chosen|]. destruct pos as [|y [|]]; try done. by injection Ht as ->.
  - intros f home read env up m. unfold runWeb, web_checks, web_gateway.
    destruct (wf_walletLogin f).
    + intros (ms & _ & ([m' bs] & _ & (up' & Hup & [= -> ->])%bind_ok)%bind_ok)%bind_ok. destruct ms.
      * apply bind_ok in Hup as (src & _ & [= <-]). by split_and!.
      * apply bind_ok in Hup as (k & Hk%map_err_ok & [= <-]). split; [done|]. split; [done|]. split; [done|]. intros _.
        cbn [up_gateway g_sessionKey]. revert Hk. unfold resolveSessionPub. destruct (_ && _); [done|].
        destruct (negb _).
        { intros Hp%map_err_ok. unfold ParseAddress in Hp. apply bind_ok in Hp as (b & _ & Hp).
          destruct (len b =? PublicKeySize) eqn:El; [|done]. injection Hp as ->. by apply Z.eqb_eq in El. }
        destruct (negb _); [|done]. intros (? & _ & (? & _ & [= <-])%bind_ok)%bind_ok. apply ed_public_size.
    + intros (ms & Hc & ([m' bs] & _ & (up' & Hup & [= -> ->])%bind_ok)%bind_ok)%bind_ok.
      apply bind_ok in Hc as (? & _ & (? & Hm%guard_ok_ok & _)%bind_ok). go_bool.
      apply bind_ok in Hup as (a & Ha%map_err_ok & [= <-]). exists a. split_and!; [done|done|].
      by eapply buildAttach_chosen.
Qed.

(** ** Witness *)

#[local] Existing Instance tail_codec.
#[local] Existing Instance plain_foreign.
#[local] Existing Instance any_authority.
#[local] Existing Instance text_multiaddr.
#[local] Existing Instance text_peers.

Definition demo_p2p : p2p_net := mkP2pNet (Ok (str "k")) (fun _ => Ok (mkHost [] [] ∅)) None None.

Definition demo_launch : launch_flags :=
  mkLaunchFlags (str "hunter2") [] false false [str "bash"] [str "unix:///run/m.sock"] false [] [] [].

Definition demo_launch_env : launch_env :=
  mkLaunchEnv NoFD (Err CFRequired) (Err KeyRequired)
    (fun _ => mkListenEnv demo_p2p (Ok []) None (Ok []) None None) false [] [] true true true true [] true true (str "supersede").

Definition demo_web : web_flags :=
  mkWebFlags (str "unix:///run/m.sock") [] true (Address (key_of x05)) [] [] [] defaultDelegationTTL false false.

Definition demo_attach_env : attach_env :=
  mkAttachEnv (Err CFRequired) (Err KeyRequired) true false demo_p2p (Ok (replicate 16 x2a)).

Definition is_serving `{MacPrims, Ed25519, ProtoCodec, Multiaddr} (l : launched) : bool :=
  match l with LServing _ _ _ _ _ => true | LExit _ => false end.

Lemma commands_always_authenticate_witness :
  (exists a bs m mode argv rep, runLaunch (PFlags demo_launch) demo_launch_env = (LServing a bs m mode argv, rep) /\
     mode <> ModeUnspecified /\ argv = [str "bash"]) /\
  (exists up m, runWeb (PFlags demo_web) None (fun _ => Err KNotExist) demo_attach_env = Ok (up, m) /\
     fresh_gateway (up_gateway up)).
Proof.
  destruct commands_always_authenticate as (Hl & _ & Hw). split.
  - assert (is_serving (fst (runLaunch (PFlags demo_launch) demo_launch_env)) = true) as Hs by (vm_compute; reflexivity).
    destruct (runLaunch (PFlags demo_launch) demo_launch_env) as [[code|a bs m mode argv] rep] eqn:Er; [discriminate|].
    destruct (Hl _ _ _ _ _ _ _ _ Er) as (_ & _ & Hm & Hv & _). exists a, bs, m, mode, argv, rep.
    split; [reflexivity|]. split; [exact Hm|exact Hv].
  - destruct (runWeb (PFlags demo_web) None (fun _ => Err KNotExist) demo_attach_env) as [[up m]|] eqn:Er;
      [|not_err Er].
    exists up, m. split; [reflexivity|]. exact (proj2 (Hw _ _ _ _ _ _ Er)).
Defined.
