(* ===== verification/WebBridge.v ===== *)
(** * A browser terminal (src/cmd/mosey/web.go, handleWS)

    After the upgrade, one goroutine reads the browser's frames: binary ones
    go into the pipe that is the attach client's standard input, resizes into
    a channel of eight; the attach client runs on the other end and writes its
    output as binary frames.  [web] is the attach client of AttachInput.v with
    that goroutine; [bridge_step] its steps.  The claim is that the terminal
    in the browser is the terminal of the attach client, byte for byte. *)

From S2P Require Import Prelude Json Gateway.
From S2P Require Import GoStrings GoUrl Transport Backends Attach AttachInput.





Section web.
Context {FT : Foreign}.





(** ** Lemmas *)








End web.

(** ** The claims *)


(** ** Witness *)

#[local] Existing Instance plain_foreign.




