(* ===== verification/Terminal.v ===== *)
(** * Between the user's terminal and the child

    Both ends of a session put together.  Input: `mosey attach` copies its
    standard input to the PTY stream (AttachInput.v), the stream carries it,
    and the bridge of that client writes it to the PTY (VtermInput.v).  Output:
    the pump puts what the child prints into the ring and the clients' queues,
    the bridge writes it to the stream (VtermOutput.v), and the attach client
    renders it (Attach.v).  A stream is one that delivers what was written to
    it, in order, so far. *)

From S2P Require Import Prelude GoStrings GoUrl Transport Backends Attach AttachInput.
From S2P Require Import WebBridge.
From S2P Require Import Streambuf Varint Queries Identity Session Bridge VtermPolicy VtermIO VtermOutput VtermInput.

Lemma concat_nonempty (l : list bytes) : concat (filter (fun p => p <> []) l) = concat l.
Proof.
  induction l as [|p l IH]; [done|]. rewrite filter_cons. case_decide as Hp; cbn [concat]; [by rewrite IH|].
  by rewrite Hp, IH.
Qed.




(** ** The claims *)

(** C6: what the user types is what the child gets.  Take a run of the attach
    client that has opened one stream and a run of the session in which
    client k reads that stream, which delivers a prefix of what was written
    to it, and in which k has write permission whenever its input is read.
    Then the bytes k has typed into the child's terminal are a prefix of the
    bytes the user's terminal handed to the client; and once nothing is in
    flight (the client is waiting for input, the stream is drained, the
    bridge holds no chunk) they are all of them. *)
Theorem keystrokes_reach_child {FT : Foreign} c ies s r m es w k
  (Hclient : steps irel (input_start c) ies s) (Hone : streams (lp s) = 1%nat) (Hreached : reached s !! 0%nat = Some r)
  (Hserver : reach m es w) (Hlen : len es < 2 ^ 63) (Hwire : concat (reads k es) `prefix_of` r)
  (Hperm : writes_throughout (initWorld m) es k = true) :
  concat (typed_by k (ptyf (sess w))) `prefix_of` concat (takes s).*2 /\
  (copies s !! 0%nat = Some CRead -> concat (reads k es) = r -> holding w k = [] ->
   concat (typed_by k (ptyf (sess w))) = concat (takes s).*2).
Proof.
  destruct (input_inv_run c ies s Hclient) as [Hacc _ Htakes]. specialize (Hacc 0%nat). unfold accounted in Hacc.
  rewrite Hreached in Hacc. rewrite (handed_one s Hone Htakes) in Hacc.
  destruct (taken_run m es w k Hserver Hlen) as [_ Ht]. unfold taken in Ht.
  rewrite (accepted_all _ _ w k (steps_exec _ _ _ Hserver) Hperm) in Ht.
  assert (concat (typed_by k (ptyf (sess w))) ++ concat (holding w k) = concat (reads k es)) as Hr.
  { rewrite <- concat_app, Ht. apply concat_nonempty. }
  split.
  - transitivity (concat (reads k es)); [rewrite <- Hr; by eexists|]. transitivity r; [exact Hwire|].
    destruct (copies s !! 0%nat) as [[|buf rerr|]|]; [by rewrite Hacc|rewrite Hacc; by eexists|done|done].
  - intros Hc Hd Hh. rewrite Hc in Hacc. rewrite Hh in Hr. cbn [concat] in Hr. rewrite app_nil_r in Hr. congruence.
Qed.


(** ** Witnesses *)

#[local] Existing Instance plain_foreign.

(** The owner of VtermIO.v types "ls"; the attach client has taken two more
    bytes since. *)
Lemma keystrokes_reach_child_witness :
  exists s, steps irel (input_start None) typing s /\
    typed_by 1 (ptyf (sess (runs ModeMultiWrite run_type))) = [str "ls"] /\
    concat (typed_by 1 (ptyf (sess (runs ModeMultiWrite run_type)))) `prefix_of` concat (takes s).*2.
Proof.
  destruct (iexec (input_start None) typing) as [s|] eqn:E; [|vm_compute in E; discriminate].
  exists s. pose proof (iexec_steps _ _ _ E) as Hi. split; [exact Hi|]. split; [vm_compute; reflexivity|].
  assert (match iexec (input_start None) typing with
          | Some s => streams (lp s) = 1%nat /\ reached s !! 0%nat = Some (str "ls")
          | None => False end) as X by (vm_compute; repeat split).
  rewrite E in X. destruct X as [X1 X2].
  apply (keystrokes_reach_child None typing s (str "ls") ModeMultiWrite run_type (runs ModeMultiWrite run_type) 1 Hi X1 X2).
  - apply runs_reach; [vm_compute; reflexivity|repeat constructor].
  - reflexivity.
  - exists []. vm_compute. reflexivity.
  - vm_compute. reflexivity.
Defined.


