(* ===== verification/GoFlag.v ===== *)
(** * What the program uses of Go's package flag

    A flag set is its flags in the order of their definition with their
    current values; [Parse] is FlagSet.Parse under ContinueOnError, with
    strconv.ParseBool and time.ParseDuration behind the typed flags.  The
    theorems say that a command line written from settings is read back as
    those settings. *)

From Stdlib Require Import Floats.SpecFloat.
From S2P Require Import Prelude GoStrings WalletCaps Base58 GoTime Delegation Fold Cert Handshake AuthWallet.

(** ** Values *)

Definition ParseBool (s : bytes) : option bool :=
  if bool_decide (s ∈ [str "1"; str "t"; str "T"; str "TRUE"; str "true"; str "True"]) then Some true
  else if bool_decide (s ∈ [str "0"; str "f"; str "F"; str "FALSE"; str "false"; str "False"]) then Some false
  else None.

Definition is_decimal (c : byte) : bool := (48 <=? b2z c) && (b2z c <=? 57).

(** leadingInt: [None] on overflow. *)
Fixpoint leadingInt (s : bytes) (x : Z) : option (Z * bytes) :=
  match s with
  | c :: s' =>
      if is_decimal c then
        if 2 ^ 63 / 10 <? x then None
        else let x := x * 10 + (b2z c - 48) in if 2 ^ 63 <? x then None else leadingInt s' x
      else Some (x, s)
  | [] => Some (x, [])
  end.

(** leadingFraction: digits that no longer fit are dropped. *)
Fixpoint leadingFraction (s : bytes) (x : Z) (scale : spec_float) (overflow : bool) : Z * spec_float * bytes :=
  match s with
  | c :: s' =>
      if is_decimal c then
        let y := x * 10 + (b2z c - 48) in
        if overflow || ((2 ^ 63 - 1) / 10 <? x) || (2 ^ 63 <? y) then leadingFraction s' x scale true
        else leadingFraction s' y (fmul scale (float_of_Z 10)) false
      else (x, scale, s)
  | [] => (x, scale, [])
  end.

(** uint64 of a non-negative float64. *)
Definition uint64_of (x : spec_float) : Z :=
  match x with
  | S754_finite false m e => if 0 <=? e then Z.pos m * 2 ^ e else Z.pos m / 2 ^ (- e)
  | _ => 0
  end.

Definition unitMap (u : bytes) : option Z :=
  if bool_decide (u = str "ns") then Some 1
  else if bool_decide (u ∈ [str "us"; [xc2; xb5; x73]; [xce; xbc; x73]]) then Some 1000
  else if bool_decide (u = str "ms") then Some (10 ^ 6)
  else if bool_decide (u = str "s") then Some Second
  else if bool_decide (u = str "m") then Some (60 * Second)
  else if bool_decide (u = str "h") then Some (3600 * Second)
  else None.

Fixpoint span_unit (s : bytes) : bytes * bytes :=
  match s with
  | c :: s' => if bool_decide (c = x2e) || is_decimal c then ([], s) else let '(u, r) := span_unit s' in (c :: u, r)
  | [] => ([], [])
  end.

(** One number with its unit: its nanoseconds and the rest of the text. *)
Definition duration_term (s : bytes) : option (Z * bytes) :=
  match s with
  | [] => None
  | c :: _ =>
      if negb (bool_decide (c = x2e) || is_decimal c) then None
      else
        '(v, s1) ← leadingInt s 0;
        let pre := negb (len s1 =? len s) in
        let '(f, scale, s2, post) :=
          match s1 with
          | x2e :: s1 => let '(f, scale, s2) := leadingFraction s1 0 fone false in (f, scale, s2, negb (len s2 =? len s1))
          | _ => (0, fone, s1, false)
          end in
        if negb pre && negb post then None
        else
          let '(u, rest) := span_unit s2 in
          if bool_decide (u = []) then None
          else
            unit ← unitMap u;
            if 2 ^ 63 / unit <? v then None
            else
              let v := v * unit in
              let v := if 0 <? f then v + uint64_of (fmul (float_of_Z f) (fdiv (float_of_Z unit) scale)) else v in
              if 2 ^ 63 <? v then None else Some (v, rest)
  end.

(** A term takes a byte at least, so the length of the text is fuel enough. *)
Fixpoint duration_terms (fuel : nat) (s : bytes) (d : Z) : option Z :=
  match s, fuel with
  | [], _ => Some d
  | _, O => None
  | _, S fuel => '(v, s) ← duration_term s; if 2 ^ 63 <? d + v then None else duration_terms fuel s (d + v)
  end.

Definition ParseDuration (s : bytes) : option Z :=
  let '(neg, s) := match s with
                   | x2d :: s => (true, s)
                   | x2b :: s => (false, s)
                   | _ => (false, s)
                   end in
  if bool_decide (s = str "0") then Some 0
  else if bool_decide (s = []) then None
  else d ← duration_terms (length s) s 0;
       if (neg : bool) then Some (- d) else if 2 ^ 63 - 1 <? d then None else Some d.

(** ** Flag sets *)

(** A flag.Value: a string, a bool, a duration, or a slice that collects. *)
Inductive fval := VString (s : bytes) | VBool (b : bool) | VDuration (d : Z) | VList (l : list bytes).

#[global] Instance fval_eq_dec : EqDecision fval.
Proof. solve_decision. Defined.

Abbreviation flags := (list (bytes * fval)).

Inductive flag_error := ErrHelp | BadSyntax (s : bytes) | NotDefined (name : bytes) | InvalidValue (name : bytes)
  | NeedsArgument (name : bytes).

(** Value.Set *)
Definition set_val (old : fval) (s : bytes) : option fval :=
  match old with
  | VString _ => Some (VString s)
  | VBool _ => VBool <$> ParseBool s
  | VDuration _ => VDuration <$> ParseDuration s
  | VList l => Some (VList (l ++ [s]))
  end.

Definition is_bool (v : fval) : bool := match v with VBool _ => true | _ => false end.

Fixpoint flag_lookup (fs : flags) (name : bytes) : option fval :=
  match fs with
  | (n, v) :: fs => if bool_decide (n = name) then Some v else flag_lookup fs name
  | [] => None
  end.

Fixpoint flag_update (fs : flags) (name : bytes) (v : fval) : flags :=
  match fs with
  | (n, w) :: fs => if bool_decide (n = name) then (n, v) :: fs else (n, w) :: flag_update fs name v
  | [] => []
  end.

(** One argument: not a flag, the terminator, malformed, or a name with the
    value after its first '='. *)
Inductive word := NotFlag | Terminator | BadFlag | IsFlag (name : bytes) (value : option bytes).

Fixpoint cut_eq (s : bytes) : bytes * option bytes :=
  match s with
  | c :: s => if bool_decide (c = x3d) then ([], Some s) else let '(n, v) := cut_eq s in (c :: n, v)
  | [] => ([], None)
  end.

Definition flag_word (name : bytes) : word :=
  match name with
  | [] => BadFlag
  | c :: r =>
      if bool_decide (c = x2d) || bool_decide (c = x3d) then BadFlag
      else let '(n, v) := cut_eq r in IsFlag (c :: n) v
  end.

Definition classify (s : bytes) : word :=
  match s with
  | x2d :: x2d :: [] => Terminator
  | x2d :: x2d :: name => flag_word name
  | x2d :: ((_ :: _) as name) => flag_word name
  | _ => NotFlag
  end.

(** FlagSet.Parse: the set with its new values and the arguments left. *)
Fixpoint Parse (fs : flags) (args : list bytes) : res flag_error (flags * list bytes) :=
  match args with
  | [] => Ok (fs, [])
  | s :: rest =>
      match classify s with
      | NotFlag => Ok (fs, args)
      | Terminator => Ok (fs, rest)
      | BadFlag => Err (BadSyntax s)
      | IsFlag name v =>
          match flag_lookup fs name with
          | None => if bool_decide (name ∈ [str "help"; str "h"]) then Err ErrHelp else Err (NotDefined name)
          | Some old =>
              if is_bool old then
                match set_val old (default (str "true") v) with
                | Some x => Parse (flag_update fs name x) rest
                | None => Err (InvalidValue name)
                end
              else match v, rest with
                   | Some v, _ =>
                       match set_val old v with
                       | Some x => Parse (flag_update fs name x) rest
                       | None => Err (InvalidValue name)
                       end
                   | None, v :: rest =>
                       match set_val old v with
                       | Some x => Parse (flag_update fs name x) rest
                       | None => Err (InvalidValue name)
                       end
                   | None, [] => Err (NeedsArgument name)
                   end
          end
      end
  end.

(** FlagSet.Var panics on a name that is taken, starts with '-' or holds '=';
    an empty name could never be given. *)
Definition name_ok (name : bytes) : bool :=
  match name with
  | [] => false
  | c :: _ => negb (bool_decide (c = x2d)) && negb (bool_decide (x3d ∈ name))
  end.

Definition defines (fs : flags) : bool :=
  forallb (fun f => name_ok f.1) fs && bool_decide (NoDup fs.*1).

(** The value of a flag by kind; the commands ask for flags they defined. *)
Definition get_str (fs : flags) (name : bytes) : bytes :=
  match flag_lookup fs name with Some (VString s) => s | _ => [] end.
Definition get_bool (fs : flags) (name : bytes) : bool :=
  match flag_lookup fs name with Some (VBool b) => b | _ => false end.
Definition get_dur (fs : flags) (name : bytes) : Z :=
  match flag_lookup fs name with Some (VDuration d) => d | _ => 0 end.
Definition get_list (fs : flags) (name : bytes) : list bytes :=
  match flag_lookup fs name with Some (VList l) => l | _ => [] end.

(** ** Command lines from settings *)

(** --name=v, --name v or --name, with one dash or two. *)
Inductive form := FEq (v : bytes) | FNext (v : bytes) | FBare.
Record setting := mkSetting { set_name : bytes; two_dashes : bool; set_form : form }.

Definition set_text (s : setting) : bytes :=
  match set_form s with FEq v | FNext v => v | FBare => str "true" end.

Definition render_setting (s : setting) : list bytes :=
  let d := (if two_dashes s then [x2d; x2d] else [x2d]) ++ set_name s in
  match set_form s with
  | FEq v => [d ++ x3d :: v]
  | FNext v => [d; v]
  | FBare => [d]
  end.

Definition command_line (ss : list setting) : list bytes := concat (map render_setting ss).

(** The setting names a flag of the set, in a form its kind takes, with a
    text that parses. *)
Definition fits_flag (fs : flags) (s : setting) : Prop :=
  exists old, flag_lookup fs (set_name s) = Some old /\ is_Some (set_val old (set_text s)) /\
    match set_form s with FEq _ => True | FNext _ => is_bool old = false | FBare => is_bool old = true end.

Definition texts (name : bytes) (ss : list setting) : list bytes :=
  map set_text (filter (fun s => set_name s = name) ss).

(** The value [texts] leave a flag with: the last one for a scalar, all of
    them in order for a slice. *)
Definition set_all (v : option fval) (ts : list bytes) : option fval :=
  foldl (fun o t => o ≫= fun v => set_val v t) v ts.

(** ** Lemmas *)

Lemma cut_eq_name n v : x3d ∉ n -> cut_eq n = (n, None) /\ cut_eq (n ++ x3d :: v) = (n, Some v).
Proof.
  induction n as [|c n IH]; intros Hn; [by split|]. apply not_elem_of_cons in Hn as [Hc Hn].
  destruct (IH Hn) as [E1 E2]. cbn [cut_eq app]. rewrite E1, E2, bool_decide_eq_false_2; [done|congruence].
Qed.

Lemma classify_flag (two : bool) name v :
  name_ok name = true ->
  classify ((if two then [x2d; x2d] else [x2d]) ++ name) = IsFlag name None /\
  classify (((if two then [x2d; x2d] else [x2d]) ++ name) ++ x3d :: v) = IsFlag name (Some v).
Proof.
  destruct name as [|c n]; [done|]. intros [Hc Hn]%andb_true_iff.
  apply negb_true_iff, bool_decide_eq_false in Hc, Hn. apply not_elem_of_cons in Hn as [Hc' Hn].
  destruct (cut_eq_name n v Hn) as [E1 E2].
  assert (flag_word (c :: n) = IsFlag (c :: n) None /\ flag_word (c :: n ++ x3d :: v) = IsFlag (c :: n) (Some v)) as [F1 F2].
  { cbn [flag_word]. rewrite E1, E2, !bool_decide_eq_false_2 by congruence. done. }
  destruct two; cbn [app]; [by destruct c|]. destruct c; try done.
Qed.

Lemma lookup_name_ok fs name v : defines fs = true -> flag_lookup fs name = Some v -> name_ok name = true.
Proof.
  intros [Hf _]%andb_true_iff. induction fs as [|[n w] fs IH]; [done|]. cbn in Hf |- *.
  apply andb_true_iff in Hf as [Hn Hf]. case_bool_decide as E; [|auto]. by subst n.
Qed.

Lemma lookup_update fs name v k old :
  flag_lookup fs name = Some old ->
  flag_lookup (flag_update fs name v) k = if bool_decide (name = k) then Some v else flag_lookup fs k.
Proof.
  induction fs as [|[n w] fs IH]; [done|]. cbn [flag_lookup flag_update].
  destruct (bool_decide (n = name)) eqn:E; cbn [flag_lookup].
  - apply bool_decide_eq_true in E as ->. intros _. by case_bool_decide.
  - apply bool_decide_eq_false in E. intros H. rewrite (IH H). repeat case_bool_decide; congruence.
Qed.

Lemma update_names fs name v : (flag_update fs name v).*1 = fs.*1.
Proof. induction fs as [|[n w] fs IH]; [done|]. cbn. case_bool_decide; cbn; congruence. Qed.

Lemma defines_names fs gs : fs.*1 = gs.*1 -> defines fs = true -> defines gs = true.
Proof.
  intros E. unfold defines. rewrite E. intros [H1 H2]%andb_true_iff. apply andb_true_iff. split; [|done].
  clear H2. revert gs E. induction fs as [|[n w] fs IH]; intros [|[n' w'] gs] E; try done. cbn in *.
  injection E as <- E. apply andb_true_iff in H1 as [? ?]. apply andb_true_iff. auto.
Qed.

(** Setting a value keeps the kind, and the kind decides what can be set. *)
Lemma set_val_kind old t x u :
  set_val old t = Some x -> is_bool x = is_bool old /\ (is_Some (set_val old u) -> is_Some (set_val x u)).
Proof.
  destruct old; cbn; intros H; [| | |].
  - injection H as <-. done.
  - apply fmap_Some in H as (b' & _ & ->). done.
  - apply fmap_Some in H as (d' & _ & ->). done.
  - injection H as <-. by split; [|intros _; eexists].
Qed.

Lemma fits_update fs name old t x s :
  flag_lookup fs name = Some old -> set_val old t = Some x -> fits_flag fs s -> fits_flag (flag_update fs name x) s.
Proof.
  intros Hl Hs (v & Hv & Ht & Hk). unfold fits_flag. rewrite (lookup_update fs name x (set_name s) old Hl).
  case_bool_decide as E; [|by exists v]. subst name. assert (v = old) as -> by congruence.
  destruct (set_val_kind old t x (set_text s) Hs) as [Hb Hi]. exists x. split; [done|]. split; [auto|].
  by destruct (set_form s); rewrite ?Hb.
Qed.

Lemma Parse_setting fs s old x args :
  defines fs = true -> fits_flag fs s -> flag_lookup fs (set_name s) = Some old -> set_val old (set_text s) = Some x ->
  Parse fs (render_setting s ++ args) = Parse (flag_update fs (set_name s) x) args.
Proof.
  intros Hd (v & Hv & _ & Hk) Hl Hs. assert (v = old) as -> by congruence.
  pose proof (lookup_name_ok fs _ _ Hd Hl) as Hn. unfold render_setting, set_text in *.
  destruct (set_form s) as [t|t|]; cbn [app Parse].
  - rewrite (proj2 (classify_flag (two_dashes s) _ t Hn)), Hl. destruct (is_bool old); cbn [default from_option id]; by rewrite Hs.
  - rewrite (proj1 (classify_flag (two_dashes s) _ [] Hn)), Hl, Hk, Hs. done.
  - rewrite (proj1 (classify_flag (two_dashes s) _ [] Hn)), Hl, Hk. cbn [default]. by rewrite Hs.
Qed.

(** A command line goes through the parser, whatever follows it. *)
Lemma Parse_command_line fs ss :
  defines fs = true -> Forall (fits_flag fs) ss ->
  exists fs', (forall args, Parse fs (command_line ss ++ args) = Parse fs' args) /\ fs'.*1 = fs.*1 /\
    forall name, flag_lookup fs' name = set_all (flag_lookup fs name) (texts name ss).
Proof.
  revert fs. induction ss as [|s ss IH]; intros fs Hd HF; [by exists fs|].
  apply Forall_cons_1 in HF as [Hs HF]. pose proof Hs as (old & Hl & [x Hx] & _).
  destruct (IH (flag_update fs (set_name s) x)) as (fs' & Hp & Hn & Hv).
  { by apply (defines_names fs); [rewrite update_names|]. }
  { eapply Forall_impl; [|exact HF]. intros r. by eapply fits_update. }
  exists fs'. split; [|split].
  - intros args. unfold command_line. cbn [map concat]. rewrite <- app_assoc. by erewrite Parse_setting.
  - by rewrite Hn, update_names.
  - intros name. rewrite Hv, (lookup_update fs (set_name s) x name old Hl). unfold texts. rewrite filter_cons.
    case_bool_decide as E; [|by rewrite decide_False]. subst name. rewrite decide_True by done.
    cbn [map set_all foldl]. unfold set_all. cbn [foldl]. rewrite Hl. cbn [mbind option_bind]. by rewrite Hx.
Qed.

(** ** The claims *)

(** A command line is read back.  Take a flag set that can be defined and
    any settings of its flags, each written with one dash or two, with '=' or
    with the value as its own word, bools bare, in any order and repeated at
    will.  Parsing the words gives every flag the value its own settings leave
    it with (the last one, or all of them for a repeatable flag; the default
    if there are none), and the arguments after "--" untouched, however they
    look; without "--" the same holds if the next argument is no flag. *)
Theorem command_line_reads_back fs ss rest
  (Hd : defines fs = true) (Hfit : Forall (fits_flag fs) ss) :
  exists fs', Parse fs (command_line ss ++ [x2d; x2d] :: rest) = Ok (fs', rest) /\
    (match rest with [] => True | w :: _ => classify w = NotFlag end -> Parse fs (command_line ss ++ rest) = Ok (fs', rest)) /\
    fs'.*1 = fs.*1 /\ forall name, flag_lookup fs' name = set_all (flag_lookup fs name) (texts name ss).
Proof.
  destruct (Parse_command_line fs ss Hd Hfit) as (fs' & Hp & Hn & Hv). exists fs'.
  split; [by rewrite Hp|]. split; [|done]. intros Hr. rewrite Hp. destruct rest as [|w rest]; [done|].
  cbn [Parse]. by rewrite Hr.
Qed.

(** ** Witness: a repeated flag, a duration, and words that look like flags *)

Definition demo_set : flags := [(str "to", VString []); (str "expires", VDuration 0); (str "listen", VList []); (str "v", VBool false)].

Definition demo_settings : list setting :=
  [mkSetting (str "listen") true (FNext (str "a")); mkSetting (str "expires") false (FEq (str "1h30m"));
   mkSetting (str "v") false FBare; mkSetting (str "listen") true (FEq (str "b"))].

Lemma command_line_reads_back_witness :
  exists fs', Parse demo_set (command_line demo_settings ++ [x2d; x2d] :: [str "-v=x"]) = Ok (fs', [str "-v=x"]) /\
    flag_lookup fs' (str "listen") = Some (VList [str "a"; str "b"]) /\
    flag_lookup fs' (str "expires") = Some (VDuration (5400 * Second)).
Proof.
  destruct (command_line_reads_back demo_set demo_settings [str "-v=x"] ltac:(vm_compute; reflexivity)
    ltac:(repeat constructor; eexists; (split; [reflexivity|]); split; try (vm_compute; reflexivity);
          try exact I; vm_compute; eexists; reflexivity)) as (fs' & Hp & _ & _ & Hv).
  exists fs'. split; [exact Hp|]. split; [exact (Hv (str "listen"))|].
  assert (set_all (flag_lookup demo_set (str "expires")) (texts (str "expires") demo_settings) =
    Some (VDuration (5400 * Second))) as E by (vm_compute; reflexivity).
  exact (eq_trans (Hv (str "expires")) E).
Defined.
