(* ===== verification/Flags.v ===== *)
(** * The commands' flags (the flag sets of src/cmd/mosey and src/cmd/internal)

    Each command defines a flag set and turns the parsed values into the
    configuration its body works on: [X_set] is the set with its defaults,
    [parse_X] the arguments read into that configuration.  No set can panic
    when it is defined, and the claim follows two command lines, of a launch
    and of an attach with the same secret, to the handshake between them. *)

From S2P Require Import Prelude Solana Session.
From S2P Require Import Identity GoStrings WalletCaps Base58 GoTime Delegation Cert Handshake.
From S2P Require Import AuthPSK AuthCert AuthWallet Hex GoUrl Transport Backends Grants CertCmd WalletFlags SessionCmd.
From S2P Require Import Gateway Launch ControlCmd Commands GoFlag.

(** parseOnchain and its copies: -h ends with PHelp, any other error with
    PBad. *)
Definition read_flags {A} (fs : flags) (args : list bytes) (k : flags -> list bytes -> A) : parsed A :=
  match Parse fs args with
  | Ok (fs, rest) => PFlags (k fs rest)
  | Err ErrHelp => PHelp
  | Err _ => PBad
  end.

Abbreviation S_ name := (str name, VString []) (only parsing).
Abbreviation B_ name := (str name, VBool false) (only parsing).

(** ** Shared groups *)

Definition cert_Register : flags := [S_ "cert"; S_ "key"; S_ "master-pub"; S_ "workspace"; S_ "revocation-file"].

Definition cert_of (fs : flags) : CertFlags :=
  mkCertFlags (get_str fs (str "cert")) (get_str fs (str "key")) (get_str fs (str "master-pub"))
    (get_str fs (str "workspace")) (get_str fs (str "revocation-file")).

Definition Server_Register : flags :=
  [S_ "wallet-session-key"; S_ "session-name"; S_ "wallet-program"; S_ "wallet-rpc";
   (str "wallet-max-staleness", VDuration 0); S_ "wallet-commitment"; S_ "wallet-dev-owner";
   (str "wallet-dev-grant", VList [])].

Definition server_of (fs : flags) : ServerFlags :=
  mkServerFlags (get_str fs (str "wallet-session-key")) (get_str fs (str "session-name"))
    (get_str fs (str "wallet-program")) (get_str fs (str "wallet-rpc")) (get_dur fs (str "wallet-max-staleness"))
    (get_str fs (str "wallet-commitment")) (get_str fs (str "wallet-dev-owner")) (get_list fs (str "wallet-dev-grant")).

Definition Client_Register : flags := [S_ "wallet-grant"; S_ "wallet-conn-key"; S_ "wallet-session"].

Definition client_of (fs : flags) : ClientFlags :=
  mkClientFlags (get_str fs (str "wallet-conn-key")) (get_str fs (str "wallet-grant")) (get_str fs (str "wallet-session")).

(** ** launch, attach, control, web *)

Definition launch_set : flags :=
  [S_ "secret"; S_ "reader-secret"] ++ cert_Register ++ Server_Register ++
  [(str "mode", VString (str "supersede")); S_ "http-cert"; S_ "http-key"; (str "listen", VList []);
   B_ "no-p2p-bootstrap"; (str "log-level", VString (str "warn")); B_ "detach"; S_ "pidfile"; S_ "address-file";
   S_ "log-file"].

Definition parse_launch (args : list bytes) : parsed launch_flags :=
  read_flags launch_set args (fun fs argv =>
    mkLaunchFlags (get_str fs (str "secret")) (get_str fs (str "reader-secret"))
      (Configured (cert_of fs)) (Server_Configured (server_of fs)) argv (get_list fs (str "listen"))
      (get_bool fs (str "detach")) (get_str fs (str "pidfile")) (get_str fs (str "address-file"))
      (get_str fs (str "log-file"))).

Definition attach_set : flags :=
  [S_ "secret"; B_ "no-p2p-bootstrap"; B_ "insecure-tls"; (str "log-level", VString (str "warn"))] ++
  cert_Register ++ Client_Register.

Definition parse_attach (args : list bytes) : parsed (bytes * bool * bool * list bytes) :=
  read_flags attach_set args (fun fs pos =>
    (get_str fs (str "secret"), Configured (cert_of fs), Client_Configured (client_of fs), pos)).

Definition control_set : flags := [S_ "secret"; B_ "no-p2p-bootstrap"; B_ "insecure-tls"] ++ cert_Register.

Definition parse_control (args : list bytes) : parsed (controlFlags * list bytes) :=
  read_flags control_set args (fun fs pos =>
    (mkControlFlags (get_str fs (str "secret")) (get_bool fs (str "no-p2p-bootstrap")) (get_bool fs (str "insecure-tls"))
       (cert_of fs), pos)).

Definition web_set : flags :=
  [(str "listen", VString (str "127.0.0.1:8080")); S_ "target"; S_ "secret"; B_ "wallet-login"; S_ "session";
   S_ "session-name"; S_ "wallet-rpc"; S_ "wallet-program"; (str "delegation-ttl", VDuration defaultDelegationTTL);
   B_ "no-p2p-bootstrap"; B_ "insecure-tls"; (str "log-level", VString (str "warn"))] ++
  cert_Register ++ Client_Register.

Definition parse_web (args : list bytes) : parsed web_flags :=
  read_flags web_set args (fun fs _ =>
    mkWebFlags (get_str fs (str "target")) (get_str fs (str "secret")) (get_bool fs (str "wallet-login"))
      (get_str fs (str "session")) (get_str fs (str "session-name")) (get_str fs (str "wallet-rpc"))
      (get_str fs (str "wallet-program")) (get_dur fs (str "delegation-ttl")) (Configured (cert_of fs))
      (Client_Configured (client_of fs))).

(** ** grant, wallet sign *)

Definition grant_set : flags :=
  [S_ "wallet-keypair"; S_ "session"; (str "caps", VString (str "view-only")); (str "expires", VDuration (24 * Hour));
   S_ "to"; (str "out", VString (str "."))].

Definition parse_grant (args : list bytes) : parsed grant_flags :=
  read_flags grant_set args (fun fs _ =>
    mkGrantFlags (get_str fs (str "wallet-keypair")) (get_str fs (str "session")) (get_str fs (str "caps"))
      (get_dur fs (str "expires")) (get_str fs (str "to"))).

Definition sign_set : flags :=
  [S_ "session"; S_ "delegate"; (str "caps", VString (str "view-only")); (str "expires", VDuration (24 * Hour));
   (str "out", VString (str "grant.json")); B_ "no-browser"].

Definition parse_sign (args : list bytes) : parsed sign_flags :=
  read_flags sign_set args (fun fs _ =>
    mkSignFlags (get_str fs (str "session")) (get_str fs (str "delegate")) (get_str fs (str "caps"))
      (get_dur fs (str "expires"))).

(** ** cert *)

Definition mint_master_set : flags := [S_ "out"].
Definition parse_mint_master (args : list bytes) : parsed bytes :=
  read_flags mint_master_set args (fun fs _ => get_str fs (str "out")).

Definition mint_agent_set : flags :=
  [S_ "master-key"; S_ "workspace"; S_ "agent-id"; S_ "label"; (str "caps", VString (str "owner"));
   (str "valid-for", VDuration (90 * 24 * Hour)); S_ "out"].
Definition parse_mint_agent (args : list bytes) : parsed agent_flags :=
  read_flags mint_agent_set args (fun fs _ =>
    mkAgentFlags (get_str fs (str "master-key")) (get_str fs (str "workspace")) (get_str fs (str "agent-id"))
      (get_str fs (str "label")) (get_str fs (str "caps")) (get_dur fs (str "valid-for")) (get_str fs (str "out"))).

Definition revoke_set : flags := [S_ "revocation-file"; S_ "serial"].
Definition parse_revoke (args : list bytes) : parsed (bytes * bytes) :=
  read_flags revoke_set args (fun fs _ => (get_str fs (str "revocation-file"), get_str fs (str "serial"))).

(** ** session *)

Definition onchain_set (getenv : bytes -> bytes) (withSessionFlag : bool) : flags :=
  let c := register_flags getenv in
  [(str "keypair", VString (c_keypair c)); (str "rpc", VString (c_rpc c)); (str "program", VString (c_program c));
   S_ "wallet-session-key"; S_ "session-name"] ++ (if withSessionFlag then [S_ "session"] else []).

Definition onchain_of (fs : flags) : onchainConfig :=
  mkOnchain (get_str fs (str "keypair")) (get_str fs (str "wallet-session-key")) (get_str fs (str "session-name"))
    (get_str fs (str "session")) (get_str fs (str "rpc")) (get_str fs (str "program")).

Definition parse_register (getenv : bytes -> bytes) (args : list bytes) : parsed onchainConfig :=
  read_flags (onchain_set getenv false) args (fun fs _ => onchain_of fs).

Definition parse_bump (getenv : bytes -> bytes) (args : list bytes) : parsed onchainConfig :=
  read_flags (onchain_set getenv true) args (fun fs _ => onchain_of fs).

Definition transfer_set (getenv : bytes -> bytes) : flags := onchain_set getenv true ++ [S_ "new-owner"].
Definition parse_transfer (getenv : bytes -> bytes) (args : list bytes) : parsed (onchainConfig * bytes) :=
  read_flags (transfer_set getenv) args (fun fs _ => (onchain_of fs, get_str fs (str "new-owner"))).

Definition session_grant_set (getenv : bytes -> bytes) : flags :=
  onchain_set getenv true ++ [S_ "to"; (str "caps", VString (str "view-only")); (str "expires", VDuration 0)].
Definition parse_session_grant (getenv : bytes -> bytes) (args : list bytes) : parsed onchain_grant :=
  read_flags (session_grant_set getenv) args (fun fs _ =>
    mkOnchainGrant (onchain_of fs) (get_str fs (str "to")) (get_str fs (str "caps")) (get_dur fs (str "expires"))).

(** ** Lemmas *)

(** Every command's set can be defined: no name twice, none malformed, so
    registering the flags never panics. *)
Theorem flag_sets_defined getenv :
  forallb defines
    [launch_set; attach_set; control_set; web_set; grant_set; sign_set; mint_master_set; mint_agent_set; revoke_set;
     onchain_set getenv false; onchain_set getenv true; transfer_set getenv; session_grant_set getenv] = true.
Proof.
  assert (forall b, defines (onchain_set getenv b) = defines (onchain_set (fun _ => []) b)) as H1 by done.
  assert (defines (transfer_set getenv) = defines (transfer_set (fun _ => []))) as H2 by done.
  assert (defines (session_grant_set getenv) = defines (session_grant_set (fun _ => []))) as H3 by done.
  cbn [forallb]. rewrite !H1, H2, H3. vm_compute. reflexivity.
Qed.

Lemma set_all_string d ts : set_all (Some (VString d)) ts = Some (VString (List.last ts d)).
Proof.
  revert d. unfold set_all. induction ts as [|t ts IH]; intros d; [done|]. cbn [foldl mbind option_bind set_val].
  rewrite IH. do 2 f_equal. destruct ts as [|u ts]; [done|]. cbn [List.last]. clear. revert u.
  induction ts as [|v ts IH]; intros u; [done|apply IH].
Qed.

(** What a command line gives a string flag. *)
Definition given (name : bytes) (ss : list setting) : bytes := List.last (texts name ss) [].

Lemma parsed_string fs' fs ss name :
  (forall n, flag_lookup fs' n = set_all (flag_lookup fs n) (texts n ss)) -> flag_lookup fs name = Some (VString []) ->
  get_str fs' name = given name ss.
Proof. intros H Hn. unfold get_str. by rewrite H, Hn, set_all_string. Qed.

Section psk.
Context {H : MacPrims}.

Definition owner_identity : Identity := mkIdentity LabelOwner (mkCaps true true true).

(** The server built from a secret, with or without a reader's, and the client
    built from the same secret. *)
Lemma same_secret_meets {E : Ed25519} {P : ProtoCodec} secret reader cert wallet certA walletA a c nonceC nonceS :
  buildAuthenticator secret reader false cert false wallet = Ok a ->
  buildAttachAuthenticator secret false certA false walletA = Ok c ->
  len nonceC = pskNonceSize -> len nonceS = pskNonceSize ->
  exists a' c', a = APSK a' /\ c = APSK c' /\
    duet (ClientHandshake c' (Some nonceC)) (ServerHandshake a' (Some nonceS)) = Some (Ok owner_identity, Ok owner_identity).
Proof.
  intros Ha Hc HnC HnS. unfold buildAttachAuthenticator in Hc.
  apply bind_ok in Hc as (c' & Hc%map_err_ok & [= <-]). unfold NewPSKAuth in Hc.
  assert (exists entries a', NewMultiPSKAuth entries = Ok a' /\ a = APSK a' /\
    mkSecret LabelOwner secret (mkCaps true true true) ∈ entries) as (entries & a' & Hn & -> & Hin).
  { unfold buildAuthenticator in Ha. destruct (is_set reader); [case_bool_decide; [done|]|];
      apply bind_ok in Ha as (a' & Ha%map_err_ok & [= <-]); eexists _, a'; (split; [exact Ha|]); split; [done|left|done|left]. }
  exists a', c'. split_and!; [done|done|].
  exact (psk_duet entries a' c' (mkSecret LabelOwner secret (mkCaps true true true)) (mkCaps true true true)
    nonceC nonceS Hn Hin Hc HnC HnS).
Qed.
End psk.

(** With a secret and exactly one model, neither of the other two is
    configured. *)
Lemma secret_alone secret cert wallet :
  secret <> [] -> authModes [is_set secret; cert; wallet] = 1 -> cert = false /\ wallet = false.
Proof. intros Hs Hm. destruct (one_mode _ _ _ Hm) as [(_ & -> & ->)|[(-> & _)|(-> & _)]]; done. Qed.

Section meet.
Context {H : MacPrims} {E : Ed25519} {P : ProtoCodec} {FT : Foreign} {UA : UrlAuthority} {MA : Multiaddr}.

(** What a serving launch was started from. *)
Lemma serving_flags f env a bs m mode argv rep :
  runLaunch (PFlags f) env = (LServing a bs m mode argv, rep) -> lf_secret f <> [] ->
  argv = lf_argv f /\ buildAuthenticator (lf_secret f) (lf_reader f) false (ln_cert env) false (ln_wallet env) = Ok a.
Proof.
  intros Hr Hs. unfold runLaunch in Hr. destruct (launch_checks _ _) as [[|listens]|] eqn:Hc; [done| |done].
  unfold launch_checks in Hc. apply bind_ok in Hc as (u & Hm & _). apply guard_ok_ok in Hm. apply Z.eqb_eq in Hm.
  destruct (secret_alone _ _ _ Hs Hm) as [E1 E2]. rewrite E1, E2 in Hr.
  destruct (buildAuthenticator _ _ _ _ _ _) as [a'|] eqn:Ha; [|done].
  destruct (buildBackends _ _ _ _) as [bs'|]; [|done]. destruct (aggregate bs') as [m'|]; [|done].
  destruct (launch_finish _ _ _ _ _ _ _) as [rep' [mode'|]]; [|done]. injection Hr as -> -> -> -> <- ->. done.
Qed.
End meet.

(** ** The claims *)

(** C26: two command lines with the same secret meet.  Let `mosey launch` be
    given any settings of its flags, a "--" and a program with arguments, and
    `mosey attach` any settings of its own and an endpoint, the --secret each
    ends up with being the same and not empty.  If the launch serves and the
    attach gets as far as dialling, then the program is run with exactly the
    words after "--", even those that look like flags, the endpoint is the
    one given, and the two sides' handshake completes with both knowing the
    client as the owner with every capability. *)
Theorem command_lines_meet {H : MacPrims} {E : Ed25519} {P : ProtoCodec} {FT : Foreign} {UA : UrlAuthority} {MA : Multiaddr}
  ls args_a words ep env envA a bs m mode argv rep c m' target nonceC nonceS
  (Hl : Forall (fits_flag launch_set) ls) (Ha : Forall (fits_flag attach_set) args_a)
  (Hsecret : given (str "secret") ls = given (str "secret") args_a) (Hset : given (str "secret") ls <> [])
  (Hep : classify ep = NotFlag)
  (Hserve : runLaunch (parse_launch (command_line ls ++ str "--" :: words)) env = (LServing a bs m mode argv, rep))
  (Hattach : runAttach (parse_attach (command_line args_a ++ [ep])) envA = Ok (c, m', target))
  (HnC : len nonceC = pskNonceSize) (HnS : len nonceS = pskNonceSize) :
  argv = words /\ target = ep /\
  exists a' c', a = APSK a' /\ c = APSK c' /\
    duet (ClientHandshake c' (Some nonceC)) (ServerHandshake a' (Some nonceS)) = Some (Ok owner_identity, Ok owner_identity).
Proof.
  destruct (Parse_command_line launch_set ls ltac:(vm_compute; reflexivity) Hl) as (fl & Hpl & _ & Hvl).
  destruct (Parse_command_line attach_set args_a ltac:(vm_compute; reflexivity) Ha) as (fa & Hpa & _ & Hva).
  unfold parse_launch, read_flags in Hserve. rewrite Hpl in Hserve.
  change (Parse fl (str "--" :: words)) with (Ok (E := flag_error) (fl, words)) in Hserve.
  unfold parse_attach, read_flags in Hattach. rewrite Hpa in Hattach.
  assert (Parse fa [ep] = Ok (fa, [ep])) as Hep' by (cbn [Parse]; by rewrite Hep). rewrite Hep' in Hattach. clear Hep'.
  pose proof (parsed_string fl launch_set ls (str "secret") Hvl ltac:(reflexivity)) as Hsl.
  pose proof (parsed_string fa attach_set args_a (str "secret") Hva ltac:(reflexivity)) as Hsa.
  apply serving_flags in Hserve as [-> Hba]; cbn [lf_secret] in *; [|by rewrite Hsl].
  unfold runAttach in Hattach. apply bind_ok in Hattach as (t & Ht & Hattach).
  unfold attach_checks in Ht. apply bind_ok in Ht as (u & Hm%guard_ok_ok%Z.eqb_eq & [= <-]).
  assert (get_str fa (str "secret") <> []) as Hne by (by rewrite Hsa, <- Hsecret).
  destruct (secret_alone _ _ _ Hne Hm) as [E1 E2]. rewrite E1, E2 in Hattach.
  apply bind_ok in Hattach as (c0 & Hca%map_err_ok & ([m0 x] & _ & Hr)%bind_ok). cbn in Hr. injection Hr as -> -> <-.
  split; [done|]. split; [done|]. rewrite Hsa, <- Hsecret in Hca. rewrite Hsl in Hba. by eapply same_secret_meets.
Qed.

(** ** Witness *)

#[local] Existing Instance tail_codec.
#[local] Existing Instance plain_foreign.
#[local] Existing Instance any_authority.
#[local] Existing Instance text_multiaddr.

(** mosey launch --secret=hunter2 -listen unix:///run/m.sock -- sh -c --secret *)
Definition demo_launch_line : list setting :=
  [mkSetting (str "secret") true (FEq (str "hunter2"));
   mkSetting (str "listen") false (FNext (str "unix:///run/m.sock"))].
Definition demo_words : list bytes := [str "sh"; str "-c"; str "--secret"].

(** mosey attach --insecure-tls -secret hunter2 unix:///run/m.sock *)
Definition demo_attach_line : list setting :=
  [mkSetting (str "insecure-tls") true FBare; mkSetting (str "secret") false (FNext (str "hunter2"))].

Lemma demo_launch_fits : Forall (fits_flag launch_set) demo_launch_line.
Proof. repeat constructor; eexists; (split; [reflexivity|]); split; [by eexists|done|by eexists|done]. Qed.

Lemma demo_attach_fits : Forall (fits_flag attach_set) demo_attach_line.
Proof. repeat constructor; eexists; (split; [reflexivity|]); split; [by eexists|done|by eexists|done]. Qed.

Lemma command_lines_meet_witness :
  exists a bs m mode rep c m' a' c',
    runLaunch (parse_launch (command_line demo_launch_line ++ str "--" :: demo_words)) demo_launch_env =
      (LServing a bs m mode demo_words, rep) /\
    runAttach (parse_attach (command_line demo_attach_line ++ [str "unix:///run/m.sock"])) demo_attach_env =
      Ok (c, m', str "unix:///run/m.sock") /\
    duet (ClientHandshake c' (Some (nonce_of x01))) (ServerHandshake a' (Some (nonce_of x02))) =
      Some (Ok owner_identity, Ok owner_identity).
Proof.
  assert (is_serving (fst (runLaunch (parse_launch (command_line demo_launch_line ++ str "--" :: demo_words)) demo_launch_env))
    = true) as Hs by (vm_compute; reflexivity).
  destruct (runLaunch (parse_launch (command_line demo_launch_line ++ str "--" :: demo_words)) demo_launch_env)
    as [[code|a bs m mode argv] rep] eqn:El; [discriminate|]. clear Hs.
  destruct (runAttach (parse_attach (command_line demo_attach_line ++ [str "unix:///run/m.sock"])) demo_attach_env)
    as [[[c m'] target]|] eqn:Ea; [|not_err Ea].
  destruct (command_lines_meet demo_launch_line demo_attach_line demo_words (str "unix:///run/m.sock")
    demo_launch_env demo_attach_env a bs m mode argv rep c m' target (nonce_of x01) (nonce_of x02)
    demo_launch_fits demo_attach_fits ltac:(reflexivity) ltac:(discriminate) ltac:(reflexivity) El Ea
    ltac:(reflexivity) ltac:(reflexivity)) as (-> & -> & a' & c' & _ & _ & Hd).
  exists a, bs, m, mode, rep, c, m', a', c'. split; [reflexivity|]. split; [reflexivity|exact Hd].
Defined.
