(* ===== verification/System.v ===== *)
(** * A launched session as a whole
    (src/vterm/vterm.go Run over src/auth/wrap.go, as src/cmd/mosey/launch.go
    composes them)

    [mosey launch] wraps its transport with an authenticator, installs the
    auth handler, and runs the vterm on the wrapped transport; the streams the
    gate admits are the ones the session's handlers work on.  [sys] is the
    wrapped transport, the streams handed to a session handler and the session
    with its goroutines; one step is an inbound stream, a handler's turn on an
    admitted stream, or a step of the session.  The theorems follow the bytes
    typed into the child's terminal back to the handshake, and for the wallet
    authenticator to the signed delegations and the on-chain accounts, of the
    client that typed them. *)

From S2P Require Import Attach.
From S2P Require Import Prelude Streambuf Varint Queries Identity Session Bridge VtermPolicy VtermIO.
From S2P Require Import GoStrings WalletCaps Base58 GoTime Delegation Fold Cert Handshake AuthPSK AuthCert AuthWallet.
From S2P Require Import AuthWrap.

(** ** Where a client object comes from *)

(** Objects keep their identity and remote. *)
Definition kept (s s' : Session) : Prop :=
  forall k c', heap s' !! k = Some c' ->
    exists c, heap s !! k = Some c /\ identity c = identity c' /\ remote c = remote c'.

Definition keeps_who (f : sessionClient -> sessionClient) : Prop :=
  forall c, identity (f c) = identity c /\ remote (f c) = remote c.

Lemma kept_heap s s' : heap s' = heap s -> kept s s'.
Proof. intros E k c. rewrite E. eauto. Qed.

Lemma kept_trans s1 s2 s3 : kept s1 s2 -> kept s2 s3 -> kept s1 s3.
Proof.
  intros H1 H2 k c3 (c2 & Hc2 & ? & ?)%H2. destruct (H1 k c2 Hc2) as (c1 & ? & ? & ?).
  exists c1. split_and!; congruence.
Qed.

Lemma kept_update s k f : keeps_who f -> kept s (update s k f).
Proof.
  intros Hf j c' Hj. simpl in Hj. apply lookup_alter_Some in Hj as [(<- & c & Hc & ->)|[? Hc]]; [|by eauto].
  exists c. destruct (Hf c). by split_and!.
Qed.

Lemma kept_for_clients s f : keeps_who f -> kept s (for_clients s f).
Proof.
  intros Hf j c' Hj. rewrite heap_for_clients in Hj. apply fmap_Some in Hj as (c & Hc & ->).
  exists c. destruct (Hf c). case_bool_decide; by split_and!.
Qed.

Lemma kick_who : keeps_who kick.
Proof. done. Qed.
Lemma canWrite_who b : keeps_who (set_canWrite b).
Proof. done. Qed.
Lemma geometry_who w h : keeps_who (set_geometry w h).
Proof. done. Qed.
Lemma offer_who chunk : keeps_who (offer chunk).
Proof. intros c. unfold offer. by case_match. Qed.
Lemma take_who : keeps_who take_chunk.
Proof. done. Qed.
Lemma written_who chunk fail : keeps_who (written chunk fail).
Proof. done. Qed.

#[local] Hint Resolve kick_who canWrite_who geometry_who offer_who take_who written_who kept_update kept_for_clients : mosey.
#[local] Hint Extern 2 (kept _ _) => (by apply kept_heap) : mosey.

Lemma kept_control s st msg : kept s (controlLocked s st msg).1.
Proof.
  destruct msg; simpl; auto with mosey.
  - destruct (_ || _); [auto with mosey|]. unfold resizeLocked.
    destruct (clientByRemoteIDLocked _ _); simpl; [|auto with mosey].
    destruct (minGeometryLocked _). simpl. auto with mosey.
  - destruct (CanWrite _); simpl; [|auto with mosey]. unfold applySignal.
    destruct (os_signal kind), (running s); auto with mosey.
  - destruct (IsOwner _); simpl; [|auto with mosey]. case_bool_decide; auto with mosey.
  - unfold demoteRemote. destruct (clientByRemoteIDLocked _ _) as [c|]; [|auto with mosey]. simpl.
    eapply kept_trans; [apply (kept_update s (id c) (set_canWrite false)); auto with mosey|].
    destruct (_ =? _); auto with mosey.
  - destruct (IsOwner _); simpl; [|auto with mosey]. unfold promoteClient.
    destruct (client s k) as [c0|]; [|auto with mosey]. simpl.
    eapply kept_trans; [|apply kept_update; auto with mosey]. case_bool_decide; [|auto with mosey].
    destruct (client s (writerID s)); [destruct (negb _)|]; auto with mosey.
    eapply kept_trans; [apply (kept_update s (writerID s) (set_canWrite false)); auto with mosey|auto with mosey].
  - destruct (IsOwner _); simpl; [|auto with mosey]. unfold kickClient.
    destruct (client _ _); simpl; auto with mosey.
Qed.

Lemma kept_remove s k : kept s (removeClient s k).1.
Proof.
  unfold removeClient. destruct (client _ _); simpl; [|case_match; auto with mosey].
  eapply kept_trans; [apply (kept_update _ k kick); auto with mosey|]. case_match; auto with mosey.
Qed.

Lemma kept_attach s st k c' :
  heap (addClientLocked s st (IdentityOf st)).1.1 !! k = Some c' ->
  (exists c, heap s !! k = Some c /\ identity c = identity c' /\ remote c = remote c') \/
  (identity c' = IdentityOf st /\ remote c' = RemoteID st).
Proof.
  unfold addClientLocked. destruct (admission s _) as [[s' cw]|] eqn:Ha; [|by eauto].
  assert (kept s s') as Hk.
  { unfold admission in Ha. destruct (mode s); repeat case_bool_decide; simplify_eq; auto with mosey. }
  simpl. destruct (default (0, 0) _) as [pc pr]. intros H.
  assert (forall m, heap s' = m -> <[i64 (nextID s' + 1) := mkClient (i64 (nextID s' + 1)) (IdentityOf st) (RemoteID st)
    [] false cw pc pr 0 []]> m !! k = Some c' -> (exists c, heap s !! k = Some c /\ identity c = identity c' /\
      remote c = remote c') \/ (identity c' = IdentityOf st /\ remote c' = RemoteID st)) as HH.
  { intros m <- [[<- <-]|[_ Hc]]%lookup_insert_Some; [by right|]. left. by apply Hk. }
  destruct (pendingResize s' !! _), (bool_decide _ && cw); simpl in H; by eapply HH.
Qed.

(** A client object was there before the step, or is the one its attach made. *)
Lemma object_step w e w' k c' :
  Bridge.wstep w e = Some w' -> heap (sess w') !! k = Some c' ->
  (exists c, heap (sess w) !! k = Some c /\ identity c = identity c' /\ remote c = remote c') \/
  exists st a, e = EvAttach st a /\ identity c' = IdentityOf st /\ remote c' = RemoteID st.
Proof.
  intros He. assert (kept (sess w) (sess w') -> heap (sess w') !! k = Some c' ->
    exists c, heap (sess w) !! k = Some c /\ identity c = identity c' /\ remote c = remote c') as HK by (intros H; apply H).
  destruct e; [|intros Hc; left; revert Hc; apply HK; clear HK..].
  - simpl in He. simplify_eq. unfold attachStep. destruct (fromSeq_of a); [|by left; eauto].
    pose proof (kept_attach (sess w) st k c'). destruct (addClientLocked _ _ _) as [[s' [j|]] sz]; simpl in *; naive_solver.
  - wstep_inv He. destruct (_ && _); auto with mosey.
  - wstep_inv He. auto with mosey.
  - wstep_inv He. unfold sendReplay. case_match; auto with mosey.
  - wstep_inv He. auto with mosey.
  - wstep_inv He; auto with mosey.
  - wstep_inv He; auto with mosey.
  - wstep_inv He; auto with mosey.
  - wstep_inv He; auto with mosey.
  - wstep_inv He; auto with mosey.
  - pose proof (kept_remove (sess w) k0). wstep_inv He; done.
  - pose proof (kept_control (sess w) st msg) as Hg. simpl in He.
    destruct (controlLocked (sess w) st msg) as [s' sz]. wstep_inv He; done.
  - wstep_inv He; auto with mosey.
  - wstep_inv He; auto with mosey.
  - assert (heap (pumpRead (sess w) buf).1 = heap (sess w)) as Hg.
    { unfold pumpRead. destruct (process _ _) as [[d o] r]. by destruct (0 <? len r), (0 <? len o). }
    simpl in He. destruct (pumpRead (sess w) buf) as [s' o]. wstep_inv He; auto with mosey.
  - wstep_inv He. unfold broadcast. auto with mosey.
  - wstep_inv He. eapply kept_trans; [apply (kept_for_clients _ kick); auto with mosey|auto with mosey].
Qed.

Lemma object_origin m es w k c :
  reach m es w -> heap (sess w) !! k = Some c ->
  exists st a, EvAttach st a ∈ es /\ identity c = IdentityOf st /\ remote c = RemoteID st.
Proof.
  intros Hr. unfold reach in Hr. remember (initWorld m) as w0 eqn:E0. revert c.
  induction Hr as [|w0 es w1 e w2 Hr IH [_ Hs]]; intros c Hc; subst; [done|].
  destruct (object_step _ _ _ _ _ Hs Hc) as [(c0 & Hc0 & Hi & Hm)|(st & a & -> & Hi & Hm)].
  - destruct (IH eq_refl c0 Hc0) as (st & a & Hin & ? & ?). exists st, a.
    split; [apply elem_of_app; by left|]. split; congruence.
  - exists st, a. split; [apply elem_of_app; right; left|]. done.
Qed.

(** The closures Run registers. *)
Definition handlePTY : nat := 0.
Definition handlePTYResume : nat := 1.
Definition handleControl_ : nat := 2.

Section system.
Context {A : Type} {AU : Authenticator A}.

(** [opened]: the streams a session handler was invoked on and still holds,
    with the closure. *)
Record sys := mkSys {
  net : Wrapped (A := A);
  opened : gmap nat (nat * stream);
  term : option world;
}.

(** What happens: Serve; Run starting (with its mode) and its deferred
    Unhandles; an inbound stream; a PTY handler running up to its admission
    (with the reads the resume header takes); a control handler's next
    message; any other step of the session's goroutines. *)
Inductive sevent :=
| SServe
| SRun (start_ok : bool) (m : Mode) (argv : list bytes)
| SExit
| SStream (s : nat) (remote proto : bytes) (env : aenv) (acts : list (peer_act amsg))
| SHandler (s : nat) (header : list read1)
| SControl (s : nat) (msg : ControlMessage)
| STerm (e : event).

(** The registrations of vterm.Run, and its deferred Unhandles. *)
Definition register : list (wevent (A := A)) :=
  [EHandle ProtoPTY handlePTY; EHandle ProtoPTYResume handlePTYResume; EHandle ProtoControl handleControl_].
Definition unregister : list (wevent (A := A)) :=
  [EUnhandle ProtoControl; EUnhandle ProtoPTYResume; EUnhandle ProtoPTY].

(** What the wrapped transport sees of an event. *)
Definition net_events (e : sevent) : list (wevent (A := A)) :=
  match e with
  | SServe => [EServe]
  | SRun start_ok m argv => match runStart true start_ok m argv with Ok _ => register | Err _ => [] end
  | SExit => unregister
  | SStream s remote proto env acts => [EStream s remote proto env acts]
  | _ => []
  end.

Definition net_run (w : Wrapped (A := A)) (es : list wevent) : Wrapped :=
  fold_left (fun w e => fst (AuthWrap.wstep w e)) es w.

(** A stream the gate hands to a session handler. *)
Definition open_stream (m : gmap nat (nat * stream)) (remote : bytes) (out : list weffect) : gmap nat (nat * stream) :=
  match out with
  | [Invoke h s id] => <[s := (h, mkStream remote id)]> m
  | _ => m
  end.

Definition sstep (y : sys) (e : sevent) : option sys :=
  match e with
  | SServe => Some (mkSys (net_run (net y) [EServe]) (opened y) (term y))
  | SRun start_ok m argv =>
      match term y, runStart true start_ok m argv with
      | None, Ok s => Some (mkSys (net_run (net y) register) (opened y) (Some (mkWorld s ∅ ∅ [] None [])))
      | None, Err _ => Some y
      | Some _, _ => None
      end
  | SExit => Some (mkSys (net_run (net y) unregister) (opened y) (term y))
  | SStream s remote proto env acts =>
      let '(n, out) := AuthWrap.wstep (net y) (EStream s remote proto env acts) in
      match opened y !! s with
      | Some _ => None
      | None => Some (mkSys n (open_stream (opened y) remote out) (term y))
      end
  | SHandler s header =>
      '(h, st) ← opened y !! s;
      w ← term y;
      w ← if (h =? handlePTY)%nat then Bridge.wstep w (EvAttach st FreshPTY)
          else if (h =? handlePTYResume)%nat then Bridge.wstep w (EvAttach st (ResumePTY header))
          else None;
      Some (mkSys (net y) (delete s (opened y)) (Some w))
  | SControl s msg =>
      '(h, st) ← opened y !! s;
      w ← term y;
      w ← if (h =? handleControl_)%nat then Bridge.wstep w (EvControl (Z.of_nat s) st msg) else None;
      Some (mkSys (net y) (opened y) (Some w))
  | STerm e =>
      match e with
      | EvAttach _ _ | EvControl _ _ _ => None
      | _ => w ← term y; w ← Bridge.wstep w e; Some (mkSys (net y) (opened y) (Some w))
      end
  end.

(** Control messages carry uint32 fields. *)
Definition sevent_ok (e : sevent) : Prop :=
  match e with SControl _ msg => msg_ok msg | _ => True end.

Definition srel (y : sys) (e : sevent) (y' : sys) : Prop := sevent_ok e /\ sstep y e = Some y'.

(** launch: Wrap, before Serve and Run. *)
Definition launched (a : A) : sys := mkSys (Wrap a) ∅ None.

Definition nets (es : list sevent) : list (wevent (A := A)) := concat (map net_events es).

(** [remote] completed a server handshake as [id] at some point of [es]. *)
Definition proved (a : A) (es : list sevent) (remote : bytes) (id : Identity) : Prop :=
  exists later, authenticated a (nets es) remote id later.

(** ** Lemmas *)

Lemma after_app a es es' : after a (es ++ es') = net_run (after a es) es'.
Proof. unfold after, net_run. by rewrite fold_left_app. Qed.

Lemma nets_snoc es e : nets (es ++ [e]) = nets es ++ net_events e.
Proof. unfold nets. rewrite map_app, concat_app. simpl. by rewrite app_nil_r. Qed.

(** A stream of the transport's history came from outside. *)
Lemma nets_stream (es : list sevent) s r proto env acts :
  EStream s r proto env acts ∈ nets es -> SStream s r proto env acts ∈ es.
Proof.
  unfold nets. rewrite list_elem_of_In, in_concat. intros (l & (e & <- & He)%in_map_iff & Hin).
  destruct e as [|st m argv| |s' r' p' env' acts'|? ?|? ?|?]; simpl in Hin; try naive_solver.
  - by destruct (runStart true st m argv); simpl in Hin; naive_solver.
  - destruct Hin as [[= -> -> -> -> ->]|[]]. by apply list_elem_of_In.
Qed.

Lemma proved_snoc a es e r i : proved a es r i -> proved a (es ++ [e]) r i.
Proof.
  intros (later & b & s & env & acts & E & H1 & H2). exists (later ++ net_events e), b, s, env, acts.
  rewrite nets_snoc, E, <- app_assoc. done.
Qed.

(** Stream [s] came in from a remote that proved the identity it carries. *)
Definition came_in (a : A) (es : list sevent) (s : nat) (st : stream) : Prop :=
  proved a es (RemoteID st) (IdentityOf st) /\
  exists proto env acts, SStream s (RemoteID st) proto env acts ∈ es.

(** A promotion of client [k] by an owner: the control message, the stream it
    came on and the identity its remote proved. *)
Definition owner_promoted (a : A) (es : list sevent) (k : Z) : Prop :=
  exists s st, came_in a es s st /\ SControl s (CPromote k) ∈ es /\ IsOwner (IdentityOf st) = true.

(** The stream an event of the session works on came in. *)
Definition admitted (a : A) (es : list sevent) (e : event) : Prop :=
  match e with
  | EvAttach st _ => proved a es (RemoteID st) (IdentityOf st)
  | EvControl _ st msg => exists s, came_in a es s st /\ SControl s msg ∈ es
  | _ => True
  end.

Record sys_inv (a : A) (es : list sevent) (y : sys) : Prop := mk_sys_inv {
  si_net : net y = after a (nets es);
  si_open : forall s h st, opened y !! s = Some (h, st) -> came_in a es s st;
  si_term : forall w, term y = Some w ->
    exists m ws, reach m ws w /\ len ws <= len es /\ Forall (admitted a es) ws;
}.

Lemma came_in_snoc a es x s st : came_in a es s st -> came_in a (es ++ [x]) s st.
Proof.
  intros [H (proto & env & acts & Hin)]. split; [by apply proved_snoc|]. exists proto, env, acts.
  apply elem_of_app. by left.
Qed.

Lemma admitted_snoc a es x e : admitted a es e -> admitted a (es ++ [x]) e.
Proof.
  destruct e; simpl; auto using proved_snoc. intros (s & H & Hin). exists s.
  split; [by apply came_in_snoc|]. apply elem_of_app. by left.
Qed.

(** A step of the session on behalf of an admitted stream. *)
Lemma term_step a es x w w' e :
  (exists m ws, reach m ws w /\ len ws <= len es /\ Forall (admitted a es) ws) ->
  event_ok e -> Bridge.wstep w e = Some w' -> admitted a (es ++ [x]) e ->
  exists m ws, reach m ws w' /\ len ws <= len (es ++ [x]) /\ Forall (admitted a (es ++ [x])) ws.
Proof.
  intros (m & ws & Hr & Hl & HF) Hok Hs He. exists m, (ws ++ [e]). split; [|split].
  - eapply steps_snoc; [exact Hr|by split].
  - rewrite !len_app. change (len [e]) with 1. change (len [x]) with 1. lia.
  - apply Forall_app. split; [|by constructor].
    eapply Forall_impl; [|exact HF]. intros e'. apply admitted_snoc.
Qed.

Lemma term_keep a es x w :
  (exists m ws, reach m ws w /\ len ws <= len es /\ Forall (admitted a es) ws) ->
  exists m ws, reach m ws w /\ len ws <= len (es ++ [x]) /\ Forall (admitted a (es ++ [x])) ws.
Proof.
  intros (m & ws & Hr & Hl & HF). exists m, ws. split; [done|]. split.
  - rewrite len_app. change (len [x]) with 1. lia.
  - eapply Forall_impl; [|exact HF]. intros e'. apply admitted_snoc.
Qed.

(** Only a recorded remote's stream is opened. *)
Lemma open_stream_proved a es s0 remote proto env acts m n out :
  AuthWrap.wstep (after a (nets es)) (EStream s0 remote proto env acts) = (n, out) ->
  (forall s h st, m !! s = Some (h, st) -> came_in a (es ++ [SStream s0 remote proto env acts]) s st) ->
  forall s h st, open_stream m remote out !! s = Some (h, st) ->
    came_in a (es ++ [SStream s0 remote proto env acts]) s st.
Proof.
  intros Hs Hm. cbn [AuthWrap.wstep] in Hs.
  destruct (handlers _ !! proto) as [[|h0]|]; [unfold serve_auth in Hs|unfold gate in Hs|].
  - destruct (fst (run _ _)) as [a' []]; injection Hs as <- <-; exact Hm.
  - injection Hs as <- <-. destruct (identities _ !! remote) as [i|] eqn:Ei; [|exact Hm].
    apply identities_latest in Ei as (later & Ha & _).
    intros s' h st. cbn [open_stream].
    intros [[<- [= _ <-]]|[_ H]]%lookup_insert_Some; [|by eapply Hm]. split; [apply proved_snoc; by exists later|].
    exists proto, env, acts. apply elem_of_app. right. left.
  - injection Hs as <- <-. exact Hm.
Qed.

Lemma sys_inv_run a es y : steps srel (launched a) es y -> sys_inv a es y.
Proof.
  intros Hr. remember (launched a) as y0 eqn:E0.
  induction Hr as [|y0 es y1 x y2 Hr IH [Hok Hs]]; subst; [by split|].
  destruct (IH eq_refl) as [Hn Ho Ht]. clear IH Hr.
  assert (forall s h st, opened y1 !! s = Some (h, st) -> came_in a (es ++ [x]) s st) as Ho'
    by eauto using came_in_snoc.
  assert (forall w, term y1 = Some w ->
    exists m ws, reach m ws w /\ len ws <= len (es ++ [x]) /\ Forall (admitted a (es ++ [x])) ws) as Ht'
    by eauto using term_keep.
  assert (net_run (net y1) (net_events x) = after a (nets (es ++ [x]))) as Hn'
    by (by rewrite nets_snoc, after_app, Hn).
  destruct x as [|start_ok m argv| |s remote proto env acts|s header|s msg|e]; cbn [sstep net_events] in *.
  - injection Hs as <-. by split.
  - destruct (term y1) eqn:Et; [done|]. destruct (runStart true start_ok m argv) as [s0|] eqn:Er;
      [|injection Hs as <-; split; [done|done|congruence]].
    injection Hs as <-. split; [done|done|]. intros w [= <-].
    unfold runStart in Er. apply bind_ok in Er as (? & _ & (? & _ & (? & _ & [= <-])%bind_ok)%bind_ok).
    eexists _, []. split; [constructor|]. split; [apply len_nonneg|constructor].
  - injection Hs as <-. by split.
  - destruct (AuthWrap.wstep _ _) as [n out] eqn:Ew. destruct (opened y1 !! s); [done|]. injection Hs as <-.
    split; [| |done].
    + rewrite <- Hn'. cbn [net]. unfold net_run. cbn [fold_left]. by rewrite Ew.
    + rewrite Hn in Ew. by eapply open_stream_proved.
  - destruct (opened y1 !! s) as [[h st]|] eqn:Eo; [cbn [mbind option_bind] in Hs|done].
    destruct (term y1) as [w|] eqn:Et; [cbn [mbind option_bind] in Hs|done].
    destruct (if (h =? handlePTY)%nat then _ else _) as [w'|] eqn:Ew; [|done]. injection Hs as <-.
    split; [done| |].
    + intros s' h' st'. cbn [opened]. intros [_ H]%lookup_delete_Some. eauto.
    + intros ? [= <-]. destruct (h =? handlePTY)%nat; [|destruct (h =? handlePTYResume)%nat; [|done]];
        (eapply term_step; [by apply Ht| |exact Ew|]; [done|]); by apply (Ho' s h).
  - destruct (opened y1 !! s) as [[h st]|] eqn:Eo; [cbn [mbind option_bind] in Hs|done].
    destruct (term y1) as [w|] eqn:Et; [cbn [mbind option_bind] in Hs|done].
    destruct (h =? handleControl_)%nat; [|done].
    destruct (Bridge.wstep _ _) as [w'|] eqn:Ew; [|done]. injection Hs as <-. split; [done|done|].
    intros ? [= <-]. eapply term_step; [by apply Ht| |exact Ew|]; [done|]. exists s.
    split; [by eapply Ho'|]. apply elem_of_app. right. left.
  - assert (exists w w', term y1 = Some w /\ Bridge.wstep w e = Some w' /\ y2 = mkSys (net y1) (opened y1) (Some w') /\
      event_ok e /\ admitted a (es ++ [STerm e]) e) as (w & w' & Et & Ew & -> & He & Hadm).
    { destruct (term y1) as [w|]; [|by destruct e]. exists w.
      destruct e; try done; cbn [mbind option_bind] in Hs;
        (destruct (Bridge.wstep w _) as [w'|] eqn:Ew; [|done]); injection Hs as <-; by exists w'. }
    split; [done|done|]. intros ? [= <-]. eapply term_step; [by apply Ht|done|exact Ew|done].
Qed.

(** Typed bytes, traced to a handshake. *)
Lemma typed_traced a es y w k p :
  steps srel (launched a) es y -> len es < 2 ^ 63 -> term y = Some w -> WriteInput k p ∈ ptyf (sess w) ->
  exists c, heap (sess w) !! k = Some c /\ proved a es (remote c) (identity c) /\
    (CanWrite (identity c) = true \/ owner_promoted a es k).
Proof.
  intros Hr Hl Hw Hp. destruct (sys_inv_run a es y Hr) as [_ _ Ht].
  destruct (Ht w Hw) as (m & ws & Hws & Hlen & HF). pose proof (proj1 (List.Forall_forall _ _) HF) as HF'.
  destruct (ty_log _ _ (typing_run m ws w Hws ltac:(lia)) k p Hp) as (c & Hc & Hauth).
  exists c. split; [done|]. split.
  - destruct (object_origin m ws w k c Hws Hc) as (st & ak & Hin & -> & ->).
    apply list_elem_of_In in Hin. exact (HF' _ Hin).
  - destruct Hauth as [?|Hpr]; [by left|right]. unfold promoted in Hpr.
    apply List.Exists_exists in Hpr as (e & Hin & Hpe). specialize (HF' _ Hin).
    destruct e; try done. destruct msg; try done. destruct Hpe as [? ->].
    destruct HF' as (s & Hin' & Hs). by exists s, st.
Qed.
End system.

(** ** A writer that gets in *)

(** Modes in which whoever may write is admitted as a writer. *)
Definition open_mode (m : Mode) : Prop := m = ModeSupersede \/ m = ModeMultiWrite.

Lemma attach_opens w st :
  open_mode (mode (sess w)) ->
  exists w1 k size c, Bridge.wstep w (EvAttach st FreshPTY) = Some w1 /\
    bridges w1 !! k = Some (mkBridge (BAdmitted 0 size) OutStop InStop false) /\ heap (sess w1) !! k = Some c /\
    identity c = IdentityOf st /\ remote c = RemoteID st /\ canWrite c = CanWrite (IdentityOf st).
Proof.
  intros Hm. cbn [Bridge.wstep]. unfold attachStep. cbn [fromSeq_of].
  assert (exists s', admission (sess w) (IdentityOf st) = Some (s', CanWrite (IdentityOf st))) as [s' Ha]
    by (unfold admission; destruct Hm as [-> | ->]; eauto).
  unfold addClientLocked. rewrite Ha. cbn [nextID with_nextID].
  destruct (default (0, 0) _) as [pc pr].
  set (s1 := match pendingResize _ !! _ with Some _ => _ | None => _ end).
  set (k := i64 (nextID s' + 1)). set (c := mkClient k _ _ _ _ _ _ _ _ _).
  set (s2 := with_clients _ _). set (s3 := if bool_decide _ && _ then _ else s2).
  assert (heap s3 !! k = Some c) as Hh.
  { unfold s3. destruct (_ && _); unfold s2; cbn [heap with_writerID with_clients with_heap]; apply lookup_insert_eq. }
  eexists _, k, _, c. split; [reflexivity|]. split; [apply lookup_insert_eq|]. split; [exact Hh|]. done.
Qed.

Lemma update_heap s k f c : heap s !! k = Some c -> heap (update s k f) !! k = Some (f c).
Proof. intros H. unfold update. cbn [heap with_heap]. by rewrite lookup_alter_eq, H. Qed.

(** From its admission, a client that may write types a chunk. *)
Lemma admitted_types w k size c p :
  bridges w !! k = Some (mkBridge (BAdmitted 0 size) OutStop InStop false) -> heap (sess w) !! k = Some c ->
  canWrite c = true -> 0 < len p ->
  exists w' log, steps wrel w [EvAttachSize k; EvReplay k; EvSend k; EvInput k p false; EvInWrite k] w' /\
    ptyf (sess w') = log ++ [WriteInput k p] /\
    exists c', heap (sess w') !! k = Some c' /\ identity c' = identity c /\ remote c' = remote c.
Proof.
  intros Hb Hc Hw Hp. destruct size as [sc sr].
  set (s1 := if (0 <? sc) && (0 <? sr) then applyPTYSize (sess w) sc sr else sess w).
  set (w1 := with_bridge (with_sess w s1) k (mkBridge (BReplay 0) OutStop InStop false)).
  assert (heap s1 = heap (sess w)) as Hs1 by (unfold s1; by destruct (_ && _)).
  set (replay := replayOf (sess w1) 0).
  set (wr := with_bridge w1 k (mkBridge (BSend replay) OutStop InStop false)).
  set (w2 := with_bridge (with_sess wr (sendReplay (sess wr) k replay)) k (mkBridge BPump OutSelect InRead false)).
  assert (exists c2, heap (sess w2) !! k = Some c2 /\ identity c2 = identity c /\
    remote c2 = remote c /\ canWrite c2 = true) as (c2 & Hc2 & Hi & Hm & Hw2).
  { assert (heap (sess w1) !! k = Some c) as H1 by (cbn; by rewrite Hs1).
    unfold w2. cbn [sess with_bridge with_sess]. unfold sendReplay. destruct (0 <? len replay); [|by exists c].
    exists (offer replay c). split; [by apply update_heap|]. unfold offer.
    destruct (len (outCh c) <? clientBufferChunks); by split. }
  set (w3 := with_bridge w2 k (mkBridge BPump OutSelect (InWrite p false) false)).
  set (w4 := with_bridge (with_sess w3 (with_ptyf (sess w3) (ptyf (sess w3) ++ [WriteInput k p]))) k
               (mkBridge BPump OutSelect InRead false)).
  assert (bridges w1 !! k = Some (mkBridge (BReplay 0) OutStop InStop false)) as Hb1 by apply lookup_insert_eq.
  assert (bridges wr !! k = Some (mkBridge (BSend replay) OutStop InStop false)) as Hbr by apply lookup_insert_eq.
  assert (bridges w2 !! k = Some (mkBridge BPump OutSelect InRead false)) as Hb2 by apply lookup_insert_eq.
  assert (bridges w3 !! k = Some (mkBridge BPump OutSelect (InWrite p false) false)) as Hb3 by apply lookup_insert_eq.
  exists w4, (ptyf (sess w3)). split; [|split; [done|by exists c2]].
  apply (steps_app wrel w [EvAttachSize k] w1 [_; _; _; _]); [|apply (steps_app wrel w1 [EvReplay k] wr [_; _; _]);
    [|apply (steps_app wrel wr [EvSend k] w2 [_; _]); [|apply (steps_app wrel w2 [EvInput k p false] w3 [_])]]]; apply steps_one; (split; [done|]); cbn [Bridge.wstep].
  - by rewrite Hb.
  - by rewrite Hb1.
  - by rewrite Hbr.
  - rewrite Hb2. cbn [mbind option_bind]. rewrite Hc2. cbn [mbind option_bind b_in].
    assert ((0 <? len p) = true) as -> by lia. by rewrite Hw2.
  - by rewrite Hb3.
Qed.

Section admitted.
Context {A : Type} {AU : Authenticator A}.

(** The session's own goroutines, as steps of the whole. *)
Lemma term_steps (y : sys (A := A)) w es w' :
  steps wrel w es w' -> term y = Some w ->
  Forall (fun e => match e with EvAttach _ _ | EvControl _ _ _ => False | _ => True end) es ->
  exists y', steps srel y (map STerm es) y' /\ term y' = Some w'.
Proof.
  induction 1 as [|w0 es w1 e w2 Hr IH [_ Hs]]; intros Ht HF; [by exists y; split; [constructor|]|].
  apply Forall_app in HF as [HF He]. apply Forall_cons_1 in He as [He _].
  destruct (IH Ht HF) as (y1 & H1 & Ht1). exists (mkSys (net y1) (opened y1) (Some w2)). split; [|done].
  rewrite map_app. eapply steps_snoc; [exact H1|]. split; [done|].
  destruct e; try done; cbn [sstep]; rewrite Ht1; cbn [mbind option_bind]; by rewrite Hs.
Qed.

(** The two streams of a client that authenticates. *)
Lemma gate_opens (y : sys (A := A)) s1 s2 r i env acts env' acts' h :
  handlers (net y) !! ProtoAuth = Some HServe -> handlers (net y) !! ProtoPTY = Some (HGated h) ->
  opened y !! s1 = None -> opened y !! s2 = None ->
  snd (fst (run (server_handshake (auth (net y)) env) acts)) = Ok i ->
  exists y', steps srel y [SStream s1 r ProtoAuth env acts; SStream s2 r ProtoPTY env' acts'] y' /\
    term y' = term y /\ opened y' !! s2 = Some (h, mkStream r i).
Proof.
  intros Hs Hp H1 H2 Ho. destruct (fst (run _ acts)) as [a' o] eqn:E. cbn [snd] in Ho. subst o.
  set (n := mkWrapped a' (handlers (net y)) (<[r := i]> (identities (net y))) (localIdentity (net y))).
  set (y1 := mkSys n (opened y) (term y)).
  exists (mkSys n (<[s2 := (h, mkStream r i)]> (opened y)) (term y)). split; [|split; [done|apply lookup_insert_eq]].
  apply (steps_app srel y [_] y1 [_]); apply steps_one; (split; [done|]); cbn [sstep AuthWrap.wstep].
  - rewrite Hs. unfold serve_auth. rewrite E, H1. done.
  - change (handlers (net y1)) with (handlers (net y)). rewrite Hp. unfold gate.
    change (identities (net y1)) with (<[r := i]> (identities (net y))). rewrite lookup_insert_eq.
    change (opened y1) with (opened y). by rewrite H2.
Qed.
End admitted.

(** ** The claims *)

(** C2: nobody types into a launched session without having authenticated.
    In every run of a launched session, with any authenticator and under every
    interleaving of inbound streams, handlers and goroutines, each byte
    written to the child's terminal comes from a client whose remote completed
    the server handshake as the very identity the session knows it by; and
    that identity carries the write capability, or a control stream of a
    remote that completed the handshake as an owner asked for the client's
    promotion. *)
Theorem typed_bytes_are_authenticated {A} {AU : Authenticator A} (a : A) es y w k p
  (Hrun : steps srel (launched a) es y) (Hlen : len es < 2 ^ 63) (Hterm : term y = Some w)
  (Htyped : WriteInput k p ∈ ptyf (sess w)) :
  exists c, heap (sess w) !! k = Some c /\ proved a es (remote c) (identity c) /\
    (CanWrite (identity c) = true \/ owner_promoted a es k).
Proof. by eapply typed_traced. Qed.

(** C11: whoever authenticates as a writer gets to type.  From every state of a
    launched session whose mode admits writers and whose handlers are
    installed, let a remote complete the server handshake on a new stream as
    an identity with the write capability, open a terminal, and send a chunk:
    the handler, admission, replay and input loop all go through, and the
    chunk reaches the child's terminal under that identity and remote. *)
Theorem authenticated_writer_types {A} {AU : Authenticator A} (y : sys (A := A)) w s1 s2 r i env acts env' acts' p
  (Hterm : term y = Some w) (Hmode : open_mode (mode (sess w)))
  (Hserve : handlers (net y) !! ProtoAuth = Some HServe)
  (Hpty : handlers (net y) !! ProtoPTY = Some (HGated handlePTY))
  (Hs1 : opened y !! s1 = None) (Hs2 : opened y !! s2 = None)
  (Hauth : snd (fst (run (server_handshake (auth (net y)) env) acts)) = Ok i)
  (Hwrite : CanWrite i = true) (Hp : 0 < len p) :
  exists k y' w' log c,
    steps srel y
      [SStream s1 r ProtoAuth env acts; SStream s2 r ProtoPTY env' acts'; SHandler s2 [];
       STerm (EvAttachSize k); STerm (EvReplay k); STerm (EvSend k); STerm (EvInput k p false); STerm (EvInWrite k)] y' /\
    term y' = Some w' /\ ptyf (sess w') = log ++ [WriteInput k p] /\
    heap (sess w') !! k = Some c /\ identity c = i /\ remote c = r.
Proof.
  destruct (gate_opens y s1 s2 r i env acts env' acts' handlePTY Hserve Hpty Hs1 Hs2 Hauth) as (y1 & H1 & Ht1 & Ho1).
  rewrite Hterm in Ht1. destruct (attach_opens w (mkStream r i) Hmode) as (w1 & k & size & c & Hw1 & Hb & Hc & Hi & Hr & Hcw).
  cbn [IdentityOf RemoteID] in *. rewrite Hwrite in Hcw.
  destruct (admitted_types w1 k size c p Hb Hc Hcw Hp) as (w' & log & H3 & Hlog & c' & Hc' & Hi' & Hr').
  set (y2 := mkSys (net y1) (delete s2 (opened y1)) (Some w1)).
  destruct (term_steps y2 w1 _ w' H3 eq_refl) as (y' & H4 & Ht'); [by repeat constructor|].
  exists k, y', w', log, c'. split; [|split_and!; congruence].
  apply (steps_app srel y [_; _] y1 (_ :: _)); [exact H1|].
  apply (steps_app srel y1 [_] y2); [|exact H4]. apply steps_one. split; [done|]. cbn [sstep].
  rewrite Ho1, Ht1. cbn [mbind option_bind]. rewrite Hw1. done.
Qed.

(** ** Witnesses *)

Section exec.
Context {A : Type} {AU : Authenticator A}.

Fixpoint sexec (y : sys (A := A)) (es : list sevent) : option sys :=
  match es with
  | [] => Some y
  | e :: es => match sstep y e with Some y => sexec y es | None => None end
  end.

Lemma sexec_steps y es y' : sexec y es = Some y' -> Forall sevent_ok es -> steps srel y es y'.
Proof.
  revert y. induction es as [|e es IH]; intros y H HF; cbn [sexec] in H.
  { injection H as <-. constructor. }
  destruct (sstep y e) as [z|] eqn:E; [|done]. apply Forall_cons_1 in HF as [H1 H2].
  apply (steps_app srel y [e] z); [by apply steps_one|by apply IH].
Qed.

(** What the child's terminal was given in the state a script ends in. *)
Definition typed (y : option (sys (A := A))) : list ptyCall :=
  match y with Some y => match term y with Some w => ptyf (sess w) | None => [] end | None => [] end.

(** A script that ends with something typed ends in a state with a session. *)
Lemma script_typed a es k p :
  WriteInput k p ∈ typed (sexec (launched a) es) -> Forall sevent_ok es ->
  exists y w, steps srel (launched a) es y /\ term y = Some w /\ WriteInput k p ∈ ptyf (sess w).
Proof.
  intros Hin HF. destruct (sexec (launched a) es) as [y|] eqn:E; [|apply not_elem_of_nil in Hin; done].
  cbn [typed] in Hin. destruct (term y) as [w|] eqn:Et; [|apply not_elem_of_nil in Hin; done].
  exists y, w. split; [by apply sexec_steps|done].
Qed.
End exec.

Definition owner_acts : list (peer_act AuthMessage) :=
  [PRead (Some (ClientHello (nonce_of x01) LabelOwner)); PWrite true;
   PRead (Some (ClientProof (mac (str "hunter2" ++ pskInfo) macLabelClient (nonce_of x02) (nonce_of x01))))].

(** The session's goroutines from the attach of client 1 to its first line. *)
Definition typing_steps {A} {AU : Authenticator A} : list sevent :=
  [STerm (EvAttachSize 1); STerm (EvReplay 1); STerm (EvSend 1); STerm (EvInput 1 (str "ls") false); STerm (EvInWrite 1)].

Definition psk_run : list (@sevent PSKAuth psk_authenticator) :=
  [SServe; SRun true ModeMultiWrite [str "sh"];
   @SStream PSKAuth psk_authenticator 1 (str "A") ProtoAuth (Some (nonce_of x02)) owner_acts;
   @SStream PSKAuth psk_authenticator 2 (str "A") ProtoPTY None []; SHandler 2 []] ++ typing_steps.

Lemma typed_bytes_are_authenticated_witness :
  exists y w c, steps srel (launched team_auth) psk_run y /\ term y = Some w /\
    WriteInput 1 (str "ls") ∈ ptyf (sess w) /\ heap (sess w) !! 1 = Some c /\
    proved team_auth psk_run (remote c) (identity c).
Proof.
  destruct (script_typed team_auth psk_run 1 (str "ls")) as (y & w & Hr & Ht & Hin).
  { apply list_elem_of_In. vm_compute. auto. }
  { repeat constructor. }
  destruct (typed_bytes_are_authenticated team_auth psk_run y w 1 (str "ls") Hr ltac:(reflexivity) Ht Hin)
    as (c & Hc & Hp & _).
  exists y, w, c. split; [exact Hr|]. split; [exact Ht|]. split; [exact Hin|]. split; [exact Hc|exact Hp].
Defined.

(** The team's session, serving and running. *)
Definition team_sys : sys :=
  match sexec (launched team_auth) [SServe; SRun true ModeMultiWrite [str "sh"]] with
  | Some y => y
  | None => launched team_auth
  end.

Lemma authenticated_writer_types_witness :
  exists k y' w' log c,
    steps srel team_sys
      [@SStream PSKAuth psk_authenticator 1 (str "A") ProtoAuth (Some (nonce_of x02)) owner_acts;
       @SStream PSKAuth psk_authenticator 2 (str "A") ProtoPTY None []; SHandler 2 [];
       STerm (EvAttachSize k); STerm (EvReplay k); STerm (EvSend k); STerm (EvInput k (str "ls") false); STerm (EvInWrite k)] y' /\
    term y' = Some w' /\ ptyf (sess w') = log ++ [WriteInput k (str "ls")] /\
    heap (sess w') !! k = Some c /\ IsOwner (identity c) = true.
Proof.
  destruct (@authenticated_writer_types PSKAuth psk_authenticator team_sys
    (match term team_sys with Some w => w | None => initWorld ModeMultiWrite end)
    1 2 (str "A")
    (match snd (fst (run (@server_handshake PSKAuth psk_authenticator (auth (net team_sys)) (Some (nonce_of x02))) owner_acts)) with
     | Ok i => i | Err _ => mkIdentity [] zeroCaps end)
    (Some (nonce_of x02)) owner_acts None [] (str "ls")
    ltac:(vm_compute; reflexivity) ltac:(right; vm_compute; reflexivity) ltac:(vm_compute; reflexivity)
    ltac:(vm_compute; reflexivity) ltac:(vm_compute; reflexivity) ltac:(vm_compute; reflexivity)
    ltac:(vm_compute; reflexivity) ltac:(vm_compute; reflexivity) ltac:(reflexivity))
    as (k & y' & w' & log & c & H1 & H2 & H3 & H4 & H5 & _).
  exists k, y', w', log, c. split; [exact H1|]. split; [exact H2|]. split; [exact H3|]. split; [exact H4|].
  rewrite H5. vm_compute. reflexivity.
Defined.
