(* ===== verification/Trust.v ===== *)
(** * From the terminal to the chain

    The whole of a wallet session put together: the session and its transport
    (System.v), the wallet authenticator (AuthWallet.v, Fold.v), the Solana
    source it polls (Solana.v) and the on-chain program the source reads
    (Ledger.v).  A byte typed into the child is traced to a connection key
    that signed the server's nonce, to the signed delegations that reach that
    key, and to the wallet the program's accounts name as owner or grantee of
    the session. *)

From S2P Require Import Attach.
From S2P Require Import Solana SolanaTx SolanaWire Ledger.
From S2P Require Import Prelude Streambuf Varint Queries Identity Session Bridge VtermPolicy VtermIO.
From S2P Require Import GoStrings WalletCaps Base58 GoTime Delegation Fold Cert Handshake AuthPSK AuthCert AuthWallet.
From S2P Require Import AuthWrap System.

Section trust.
Context {E : Ed25519} {C : Curve}.

(** [states]: the states of the ledger that reads are answered from. *)
Context (states : ledger -> Prop).

(** A read of the chain: it failed, or the node answered from one of the
    states. *)
Definition honest (a : attempt) : Prop :=
  (exists e, a_rpc a = Err e) \/ exists L, states L /\ faithful L a.

(** A Solana source of session [sid] as a handshake finds it at time [t]: new
    once, refreshed by honest reads since, in the order in which they were
    stored (concurrent refreshes amount to such a list, and a lookup to one of
    its refreshes: Refreshers.v), and ready to make one more.  Reads from
    other states do not matter once an honest one has been stored. *)
Definition chain_source (sid : bytes) (src : SnapshotSource) : Prop :=
  exists S0 older attempts t a, snap S0 = None /\ sessionKey S0 = sid /\ Forall honest attempts /\
    (older = [] \/ Exists (fun a => snd (refresh S0 a) = None) attempts) /\ honest a /\
    src = solana_source (fst (run_loop S0 (older ++ attempts))) t a.

(** A state of the ledger entitles wallet [root] to [held] over session
    [sid]: as the session's owner, or by a grant of it that is live at [t]. *)
Definition on_chain (sid root : bytes) (held : WCaps) (owner : bool) : Prop :=
  exists L addr s b t, states L /\ L !! addr = Some (ASession s b) /\ SSessionKey s = sid /\
    if owner then root = SOwner s /\ held = AllCaps
    else exists ga g gb, L !! ga = Some (AGrant g gb) /\ GSession g = addr /\ GGrantee g = root /\
           GCaps g = held /\ live_grant s g t = true.

(** What stands behind identity [i] in the handshake in which the server, with
    source [src] and clock [now], drew [nonceS] and the peer did [acts]: the
    peer sent a hello with a connection key, its own nonce and a chain, took
    the server's challenge, and answered with a signature of that key over
    the transcript with the server's nonce; the chain is one of signed
    delegations, live at a reading of the clock, to that key from a wallet
    that the source's fresh snapshot (or its lookup) and a state of the ledger
    entitle. *)
Definition vouched (sid : bytes) (src : SnapshotSource) (now : nat -> Z) (nonceS : bytes)
    (acts : list (peer_act WalletMessage)) (i : Identity) (caps : WCaps) (owner : bool) : Prop :=
  exists connPub nonceC chain sig rest snap root held k,
    acts = PRead (Some (WalletHello connPub nonceC chain)) :: PWrite true :: PRead (Some (WalletProof sig)) :: rest /\
    ed_verify connPub (walletTranscript walletClientLabel nonceS nonceC sid) sig = true /\
    SnapshotNow src = Ok (snap, true) /\ entitled src snap root held owner /\
    delegated sid (now k) root held chain connPub caps /\ on_chain sid root held owner /\
    i = wallet_identity caps owner root.

(** ** Lemmas *)

Context (prog : bytes) (Hstates : forall L, states L -> reachable prog L).

Lemma shows_on_chain L sid t sn root held (o : bool) :
  states L -> shows L sid t sn ->
  (if o then root = Solana.owner sn /\ held = AllCaps else grants sn !! root = Some held) ->
  on_chain sid root held o.
Proof.
  intros Hr (addr & s & b & HL & Hk & Ho & Hg) H. exists L, addr, s, b, t. split_and!; try done.
  destruct o; [by rewrite <- Ho|]. by apply Hg.
Qed.

(** A read that stored a snapshot was answered by a reachable ledger. *)
Lemma stores_shows S a sn :
  honest a -> stores S a sn -> exists L, states L /\ shows L (sessionKey S) (a_built a) sn.
Proof.
  intros [[e He]|(L & Hr & Hf)] [Hok Hs].
  { unfold refresh, Refresh, fetch in Hok. rewrite He in Hok. done. }
  exists L. split; [done|]. pose proof (refresh_shows prog L S a (reachable_ok prog L (Hstates L Hr)) Hf) as H.
  destruct (refresh S a) as [S' [e|]]; simpl in *; [done|]. destruct H as (sn' & Hs' & _ & _ & _ & Hsh).
  assert (sn' = sn) as -> by congruence. done.
Qed.

(** The read that counts is one of the honest ones. *)
Lemma latest_read S0 older attempts before a0 after :
  older ++ attempts = before ++ a0 :: after -> Forall honest attempts ->
  older = [] \/ Exists (fun a => snd (refresh S0 a) = None) attempts -> Forall (refresh_failed S0) after ->
  honest a0.
Proof.
  intros Heq HF Hold Hfail.
  assert (a0 ∈ attempts \/ exists k, after = k ++ attempts) as [Hin|[k ->]].
  { apply app_eq_app in Heq as (k & [[Hl Hr]|[Hl Hr]]).
    - destruct k as [|x k]; simpl in Hr.
      + left. rewrite <- Hr. left.
      + injection Hr as <- ->. right. by exists k.
    - left. rewrite Hr. apply elem_of_app. right. left. }
  - apply list_elem_of_In in Hin. exact (proj1 (List.Forall_forall _ _) HF a0 Hin).
  - exfalso. destruct Hold as [->|Hex].
    + apply (f_equal length) in Heq. rewrite !length_app in Heq. simpl in Heq. rewrite length_app in Heq. lia.
    + apply Forall_app in Hfail as [_ Hfail]. apply List.Exists_exists in Hex as (x & Hx & Hok).
      destruct (proj1 (List.Forall_forall _ _) Hfail x Hx) as [e He]. congruence.
Qed.

Lemma entitled_on_chain sid src sn root held o :
  chain_source sid src -> SnapshotNow src = Ok (sn, true) -> entitled src sn root held o ->
  on_chain sid root held o.
Proof.
  intros (S0 & older & attempts & t & a & H0 & Hk & HF & Hold & Ha & ->) Hn He. cbn [SnapshotNow solana_source] in Hn.
  destruct (run_loop_inv S0 (older ++ attempts) H0) as (HkS & _ & Hinv). set (S := fst (run_loop S0 _)) in *.
  unfold SourceSnapshot in Hn. destruct (snap S) as [sn0|] eqn:Es; [|done]. injection Hn as <- _.
  destruct Hinv as (before & a0 & after & Heq & Hst & _ & Hfail).
  assert (honest a0) as Ha0 by (eapply (latest_read S0 older attempts before a0 after); done).
  destruct (stores_shows S0 a0 sn0 Ha0 Hst) as (L & Hr & Hsh). rewrite Hk in Hsh.
  destruct He as [[(-> & -> & ->)|(_ & Hg & ->)]|(_ & Hv & ->)].
  - by eapply (shows_on_chain _ _ _ _ _ _ true).
  - by eapply (shows_on_chain _ _ _ _ _ _ false).
  - cbn [VerifyNow solana_source] in Hv. unfold SourceVerifyNow in Hv.
    destruct (refresh S a) as [S' [e|]] eqn:Er; [done|]. cbn [snd] in Hv.
    destruct (snap S') as [sn'|] eqn:Es'; [|done]. injection Hv as Hv.
    destruct (stores_shows S a sn' Ha) as (L' & Hr' & Hsh'); [by split; rewrite Er|]. rewrite HkS, Hk in Hsh'.
    by eapply (shows_on_chain _ _ _ _ _ _ false).
Qed.

(** What a successful server handshake over a chain source establishes. *)
Lemma handshake_vouched (w : WalletAuth) src now nonce acts i :
  chain_source (wsessionID w) src ->
  snd (fst (run (@server_handshake _ wallet_authenticator w (src, now, nonce)) acts)) = Ok i ->
  exists nonceS caps owner, nonce = Some nonceS /\ vouched (wsessionID w) src now nonceS acts i caps owner /\
    (CanWrite i = true -> Has caps CapWrite = true) /\ (IsOwner i = true -> owner = true /\ caps = AllCaps).
Proof.
  intros Hc. cbn [server_handshake wallet_authenticator]. rewrite run_pmap.
  destruct (fst (run _ acts)) as [l r] eqn:Er. cbn [snd]. intros ->.
  destruct nonce as [nonceS|].
  - apply wallet_server_run_ok in Er
      as (src' & cp & nc & chain & sig & caps & o & root & Hs & (rest & ->) & _ & _ & Hsig & Hres & ->).
    cbn [source with_source wsessionID] in Hs, Hsig. destruct (source w); [|done]. injection Hs as <-.
    apply resolveCaps_ok in Hres as (sn & held & k & Hsn & He & Hd). cbn [wsessionID with_source] in Hd.
    exists nonceS, caps, o. split; [done|]. split; [|split].
    + exists cp, nc, chain, sig, rest, sn, root, held, k. split_and!; try done. by eapply entitled_on_chain.
    + unfold CanWrite. simpl. intros [[_ Hcaps%Z.eqb_eq]%andb_true_iff|?]%orb_true_iff; [by rewrite Hcaps|done].
    + unfold IsOwner. simpl. rewrite andb_true_iff, Z.eqb_eq. done.
  - exfalso. revert Er. unfold WalletServerHandshake, readWalletHello. cbn [sessionPriv with_source source].
    destruct (sessionPriv w), (source w); cbn [fmap option_fmap option_map]; try done. cbn [run].
    destruct acts as [|[ok|[m|]] acts]; cbn [run fst]; try done. destruct m; cbn [run fst]; try done.
    by repeat (destruct (negb _); [done|]).
Qed.

(** The session id of the authenticator never changes. *)
Lemma session_id_kept (w : WalletAuth) evs : wsessionID (auth (after w evs)) = wsessionID w.
Proof.
  induction evs as [|e evs IH] using rev_ind; [done|]. rewrite after_snoc, <- IH. clear IH.
  generalize (after w evs) as n. intros n.
  destruct e as [p h|p| |s r p [[src now] nonce] acts]; cbn [AuthWrap.wstep fst];
    [unfold Handle, Unhandle; by try case_bool_decide..|].
  destruct (handlers n !! p) as [[|h]|]; [|done|done]. unfold serve_auth.
  cbn [server_handshake wallet_authenticator]. rewrite run_pmap.
  destruct (fst (run _ acts)) as [l [i|e]]; done.
Qed.

Definition auth_stream (s : nat) (r : bytes) (src : SnapshotSource) (now : nat -> Z) (nonce : option bytes)
    (acts : list (peer_act WalletMessage)) : sevent (A := WalletAuth) :=
  @SStream WalletAuth wallet_authenticator s r ProtoAuth (src, now, nonce) acts.

(** Every handshake of the run polled a source that reads the chain. *)
Definition chain_run (sid : bytes) (es : list (sevent (A := WalletAuth))) : Prop :=
  forall s r src now nonce acts, auth_stream s r src now nonce acts ∈ es -> chain_source sid src.

(** An identity proved in a run is vouched for by a handshake of that run. *)
Lemma proved_vouched (w : WalletAuth) es r i :
  chain_run (wsessionID w) es -> proved w es r i ->
  exists s src now nonceS acts caps owner, auth_stream s r src now (Some nonceS) acts ∈ es /\
    vouched (wsessionID w) src now nonceS acts i caps owner /\
    (CanWrite i = true -> Has caps CapWrite = true) /\ (IsOwner i = true -> owner = true /\ caps = AllCaps).
Proof.
  intros Hrun (later & before & s & [[src now] nonce] & acts & Heq & _ & Hok).
  assert (auth_stream s r src now nonce acts ∈ es) as Hin.
  { apply nets_stream. rewrite Heq. apply elem_of_app. right. left. }
  pose proof Hin as Hc. apply Hrun in Hc. rewrite <- (session_id_kept w before) in Hc |- *.
  destruct (handshake_vouched _ _ _ _ _ _ Hc Hok) as (nonceS & caps & o & -> & Hv & Hw).
  by exists s, src, now, nonceS, acts, caps, o.
Qed.
End trust.

(** ** The claims *)

(** C1: every byte typed into a wallet session traces to the chain.  Take any
    run of a launched session under the wallet authenticator whose source
    reads the ledger of the mosey-session program.  Each byte written to the
    child's terminal comes from a client c for which one of two things holds.
    Either a handshake of the run on a stream of c's remote vouches for c's
    identity with the write capability: in it the peer sent a hello with a
    connection key and a chain and, once the server had sent the nonce it drew
    for that handshake, a signature by that key over the transcript with that
    nonce; the chain is one of signed delegations for this session, each live
    at a reading of the server's clock in it and none wider than the last,
    that reach this key, from a wallet that the server's fresh snapshot and a
    reachable state of the ledger name as the session's owner or as the holder
    of a live grant.  Or c was promoted over a control stream whose remote is
    vouched for in the same way with the full capability set from the
    session's on-chain owner. *)
Theorem typed_bytes_trace_to_chain {E : Ed25519} {C : Curve} prog (a : WalletAuth) es y w k p
  (Hrun : steps srel (launched a) es y) (Hlen : len es < 2 ^ 63) (Hchain : chain_run (reachable prog) (wsessionID a) es)
  (Hterm : term y = Some w) (Htyped : WriteInput k p ∈ ptyf (sess w)) :
  exists c, heap (sess w) !! k = Some c /\
    ((exists s src now nonceS acts caps owner, auth_stream s (remote c) src now (Some nonceS) acts ∈ es /\
        vouched (reachable prog) (wsessionID a) src now nonceS acts (identity c) caps owner /\ Has caps CapWrite = true) \/
     (exists s st, came_in a es s st /\ SControl s (CPromote k) ∈ es /\
        exists s' src now nonceS acts, auth_stream s' (RemoteID st) src now (Some nonceS) acts ∈ es /\
          vouched (reachable prog) (wsessionID a) src now nonceS acts (IdentityOf st) AllCaps true)).
Proof.
  destruct (typed_traced a es y w k p Hrun Hlen Hterm Htyped) as (c & Hc & Hp & Hauth). exists c. split; [done|].
  destruct Hauth as [Hw|(s & st & Hs & Hin & Ho)].
  - left. destruct (proved_vouched (reachable prog) prog (fun _ H => H) a es _ _ Hchain Hp)
      as (s & src & now & n & acts & caps & o & Hst & Hv & Hcw & _). exists s, src, now, n, acts, caps, o. auto.
  - right. destruct (proved_vouched (reachable prog) prog (fun _ H => H) a es _ _ Hchain (proj1 Hs))
      as (s' & src & now & n & acts & caps & o & Hst & Hv & _ & Hio).
    destruct (Hio Ho) as [-> ->]. exists s, st. split; [done|]. split; [done|]. by exists s', src, now, n, acts.
Qed.

(** ** Witness *)

#[local] Existing Instance toy_curve.

(** The ledger of Ledger.v, where wallet 6 owns session 5, read once; a client
    whose two-hop chain starts at wallet 6 attaches and types. *)
Definition read_source (L : ledger) : SnapshotSource :=
  solana_source (fst (run_loop sample_source [answer_of L])) t0 (answer_of L).

Definition wallet_run (src : SnapshotSource) : list (@sevent WalletAuth wallet_authenticator) :=
  [SServe; SRun true ModeMultiWrite [str "sh"];
   auth_stream 1 (str "A") src (fun _ => t0 + 1) (Some (replicate 32 x02)) wallet_acts;
   @SStream WalletAuth wallet_authenticator 2 (str "A") ProtoPTY (src, fun _ => t0, None) []; SHandler 2 []]
  ++ typing_steps.

Lemma typed_bytes_trace_to_chain_witness :
  exists L y w c, reachable sample_prog L /\
    steps srel (launched wallet_server) (wallet_run (read_source L)) y /\ term y = Some w /\
    WriteInput 1 (str "ls") ∈ ptyf (sess w) /\ heap (sess w) !! 1 = Some c /\
    exists s src now nonceS acts caps owner, auth_stream s (remote c) src now (Some nonceS) acts ∈ wallet_run (read_source L) /\
      vouched (reachable sample_prog) (wsessionID wallet_server) src now nonceS acts (identity c) caps owner /\
      Has caps CapWrite = true.
Proof.
  destruct sample_ledger as (L & addr & b & Hr & Hs & HL & Ha).
  assert (b = 255) as ->.
  { destruct (reachable_ok _ _ Hr _ _ Hs) as (Hp & _). 
    assert (findPDA sample_prog [str "session"; SSessionKey sample_session] = Ok (addr, 255)) as Hp'
      by (rewrite Ha; reflexivity). congruence. }
  destruct (script_typed wallet_server (wallet_run (read_source L)) 1 (str "ls")) as (y & w & Hst & Ht & Hin).
  { apply list_elem_of_In. rewrite HL, Ha. vm_compute. auto. }
  { repeat constructor. }
  destruct (typed_bytes_trace_to_chain sample_prog wallet_server (wallet_run (read_source L)) y w 1 (str "ls")
    Hst ltac:(reflexivity)) as (c & Hc & Hv).
  - intros s r src now nonce acts Hi. exists sample_source, [], [answer_of L], t0, (answer_of L).
    assert (honest (reachable sample_prog) (answer_of L)) as Hh by (right; exists L; split; [exact Hr|apply answer_of_faithful]).
    split; [reflexivity|]. split; [reflexivity|]. split; [constructor; [exact Hh|constructor]|].
    split; [left; reflexivity|]. split; [exact Hh|].
    apply list_elem_of_In in Hi. unfold wallet_run, auth_stream in Hi. cbn [app In typing_steps] in Hi.
    repeat (destruct Hi as [Hi|Hi]; [try discriminate Hi; by inversion Hi|]). destruct Hi.
  - exact Ht.
  - exact Hin.
  - exists L, y, w, c. split; [exact Hr|]. split; [exact Hst|]. split; [exact Ht|]. split; [exact Hin|].
    split; [exact Hc|]. destruct Hv as [Hv|(s & st & _ & Hx & _)]; [exact Hv|exfalso].
    apply list_elem_of_In in Hx. unfold wallet_run, auth_stream in Hx. cbn [app In typing_steps] in Hx.
    repeat (destruct Hx as [Hx|Hx]; [discriminate Hx|]). destruct Hx.
Defined.
