(* ===== verification/CertTrust.v ===== *)
(** * From the terminal to the master key

    A session under the certificate authenticator put together: the session
    and its transport (System.v), the certificate handshake (AuthCert.v), the
    certificates and the revocation file (Cert.v), the reload of that file on
    SIGHUP (launch.go) and the command that revokes (CertCmd.v).  A byte typed
    into the child is traced to a certificate the master signed; and a
    revoked certificate opens no further handshake. *)

From S2P Require Import Attach.
From S2P Require Import Prelude Streambuf Varint Queries Identity Session Bridge VtermPolicy VtermIO.
From S2P Require Import GoStrings Base58 GoTime Delegation Cert Handshake AuthPSK AuthCert AuthWrap Grants CertCmd System.

Section cert_trust.
Context {E : Ed25519} {P : ProtoCodec}.

(** What stands behind identity [i] in the handshake in which the server drew
    [nonce] and the peer did [acts]: the peer sent a hello with a certificate
    the master signed, whose claim is for this workspace, in its window at
    [wall] and not on the list the SIGHUPs so far left in effect; it took the
    server's hello, and answered with a signature by the key the certificate
    names over the server's nonce. *)
Definition certified (a : CertAuth) (files : list file) (wall : Z) (nonce : bytes)
    (acts : list (peer_act CertMessage)) (i : Identity) (claim : Claim) : Prop :=
  exists cert peerNonce content sig rest,
    acts = PRead (Some (CertHello (Some cert) peerNonce)) :: PWrite true ::
      PRead (Some (SignedNonce sig)) :: PWrite true :: rest /\
    ed_verify (masterPub a) (CContent cert) (CSignature cert) = true /\
    unmarshalContent (CContent cert) = Some content /\ claim = claim_of content /\
    claim_valid wall (mkVerifyOptions (masterPub a) (workspaceID a) None (revoked (watchRevocationFile a files))) claim /\
    ed_verify (PeerPubKey claim) (certProofLabel ++ nonce) sig = true /\ i = claimToIdentity claim.

(** An auth stream of a run: who, the revocation file as the SIGHUPs so far
    found it, the clock, the nonce, what the peer did. *)
Definition cert_stream (s : nat) (r : bytes) (files : list file) (wall : Z) (nonce : option bytes)
    (acts : list (peer_act CertMessage)) : sevent (A := CertAuth) :=
  @SStream CertAuth cert_authenticator s r ProtoAuth (files, wall, nonce) acts.

(** ** Lemmas *)

(** The list in effect is the last one that loaded. *)
Lemma watch_last (a : CertAuth) files :
  watchRevocationFile a files =
    UpdateRevoked a (default (revoked a)
      (list.last (omap (fun f => match LoadRevocationFile f with Ok r => Some r | Err _ => None end) files))).
Proof.
  induction files as [|f files IH] using rev_ind; [by destruct a|].
  unfold watchRevocationFile in *. rewrite fold_left_app, IH, omap_app. cbn [fold_left omap list_omap].
  unfold reload_revocations. destruct (LoadRevocationFile f) as [r|]; [|by rewrite app_nil_r].
  by rewrite list.last_snoc.
Qed.

Lemma watch_keeps (a : CertAuth) files :
  masterPub (watchRevocationFile a files) = masterPub a /\ workspaceID (watchRevocationFile a files) = workspaceID a.
Proof. by rewrite watch_last. Qed.

Lemma handshake_certified (a : CertAuth) files wall nonce acts i :
  snd (fst (run (@server_handshake _ cert_authenticator a (files, wall, nonce)) acts)) = Ok i ->
  exists n claim, nonce = Some n /\ certified a files wall n acts i claim.
Proof.
  cbn [server_handshake cert_authenticator]. rewrite run_pmap.
  destruct (fst (run _ acts)) as [j|] eqn:Er; cbn [snd]; [|done]. intros [= ->].
  destruct nonce as [n|]; [|by unfold CertServerHandshake, runHandshake in Er].
  apply server_run_ok in Er as (cert & pn & claim & sig & (rest & ->) & Hv & _ & Hs & ->).
  destruct cert as [cert|]; [|done]. destruct (watch_keeps a files) as [Hm Hw]. rewrite Hm, Hw in Hv.
  apply CertVerify_iff in Hv as (_ & Hsig & content & Hu & Hc & Hvalid).
  exists n, claim. split; [done|]. exists cert, pn, content, sig, rest. by split_and!.
Qed.

(** The authenticator itself never changes. *)
Lemma cert_auth_kept (a : CertAuth) evs : auth (after a evs) = a.
Proof.
  induction evs as [|e evs IH] using rev_ind; [done|]. rewrite after_snoc. revert IH. generalize (after a evs) as n.
  intros n <-. destruct e as [p h|p| |s r p [[files wall] nonce] acts]; cbn [AuthWrap.wstep fst];
    [unfold Handle, Unhandle; by try case_bool_decide..|].
  destruct (handlers n !! p) as [[|h]|]; [|done|done]. unfold serve_auth.
  cbn [server_handshake cert_authenticator]. rewrite run_pmap. by destruct (fst (run _ acts)).
Qed.

(** An identity proved in a run is certified by a handshake of that run. *)
Lemma proved_certified (a : CertAuth) es r i :
  proved a es r i ->
  exists s files wall nonce acts claim, cert_stream s r files wall (Some nonce) acts ∈ es /\
    certified a files wall nonce acts i claim.
Proof.
  intros (later & before & s & [[files wall] nonce] & acts & Heq & _ & Hok).
  rewrite cert_auth_kept in Hok. destruct (handshake_certified _ _ _ _ _ _ Hok) as (n & claim & -> & Hc).
  exists s, files, wall, n, acts, claim. split; [|done].
  apply nets_stream. rewrite Heq. apply elem_of_app. right. left.
Qed.

Lemma claim_can_write c : CanWrite (claimToIdentity c) = true -> HasWrite c || HasOwner c = true.
Proof. unfold CanWrite. simpl. destruct (HasOwner c), (HasWrite c); done. Qed.
End cert_trust.

(** ** The claims *)

(** C5: every byte typed into a certificate session traces to the master key.
    In any run of a launched session under the certificate authenticator, with
    SIGHUPs reloading the revocation file as they come, each byte written to
    the child's terminal comes from a client c for which one of two things
    holds.  Either a handshake of the run on a stream of c's remote certified
    c's identity with the write or the owner bit: in it the peer presented a
    certificate the master key signed, for this workspace, within its validity
    window at that time, with a serial not on the list last loaded, and, once
    the server had sent the nonce it drew for that handshake, a signature over
    that nonce by the key the certificate names.  Or c was promoted over a control stream
    whose remote was certified in the same way with the owner bit. *)
Theorem typed_bytes_trace_to_master {E : Ed25519} {P : ProtoCodec} (a : CertAuth) es y w k p
  (Hrun : steps srel (launched a) es y) (Hlen : len es < 2 ^ 63)
  (Hterm : term y = Some w) (Htyped : WriteInput k p ∈ ptyf (sess w)) :
  exists c, heap (sess w) !! k = Some c /\
    ((exists s files wall nonce acts claim, cert_stream s (remote c) files wall (Some nonce) acts ∈ es /\
        certified a files wall nonce acts (identity c) claim /\ HasWrite claim || HasOwner claim = true) \/
     (exists s st, came_in a es s st /\ SControl s (CPromote k) ∈ es /\
        exists s' files wall nonce acts claim, cert_stream s' (RemoteID st) files wall (Some nonce) acts ∈ es /\
          certified a files wall nonce acts (IdentityOf st) claim /\ HasOwner claim = true)).
Proof.
  destruct (typed_traced a es y w k p Hrun Hlen Hterm Htyped) as (c & Hc & Hp & Hauth). exists c. split; [done|].
  destruct Hauth as [Hw|(s & st & Hs & Hin & Ho)].
  - left. destruct (proved_certified a es _ _ Hp) as (s & files & wall & nonce & acts & claim & Hst & Hce).
    exists s, files, wall, nonce, acts, claim. split_and!; [done|done|].
    destruct Hce as (cert & pn & content & sig & rest & _ & _ & _ & _ & _ & _ & Hi). rewrite Hi in Hw. by apply claim_can_write.
  - right. exists s, st. split_and!; [done|done|].
    destruct (proved_certified a es _ _ (proj1 Hs)) as (s' & files & wall & nonce & acts & claim & Hst & Hce).
    exists s', files, wall, nonce, acts, claim. split_and!; [done|done|].
    destruct Hce as (cert & pn & content & sig & rest & _ & _ & _ & _ & _ & _ & Hi). by rewrite Hi in Ho.
Qed.

(** C23: revoking a certificate and sending SIGHUP shuts it out.  Let `mosey
    cert revoke` succeed on a revocation file that loads and is missing, empty
    or ends in a line feed, for a serial without white space around it and
    shorter than the line scanner's limit, and let the server get a SIGHUP and
    read the result.  (On a file that does not end in a line feed the command
    can succeed and revoke nothing: revocation_glues_lines in Cert.v.)  Then the serials revoked before and the new
    one are in effect, also after further SIGHUPs that find a file that does
    not load; and a handshake that succeeds from then on is never with a
    certificate of that serial. *)
Theorem revoke_and_reload_locks_out {E : Ed25519} {P : ProtoCodec} (a : CertAuth) before broken path serial f f' old
    wall nonce acts i
  (Hload : LoadRevocationFile f = Ok old) (Hlines : whole_lines f)
  (Hrevoke : cmdRevoke (PFlags (path, serial)) f = (0, f'))
  (Hclean : TrimSpace serial = serial) (Hlen : len serial < MaxScanTokenSize)
  (Hbroken : Forall (fun b => is_ok (LoadRevocationFile b) = false) broken) :
  let files := before ++ [f'] ++ broken in
  revoked (watchRevocationFile a files) = {[serial]} ∪ old /\
  (snd (fst (run (@server_handshake _ cert_authenticator a (files, wall, nonce)) acts)) = Ok i ->
   exists n claim, nonce = Some n /\ certified a files wall n acts i claim /\ Serial claim <> serial /\ Serial claim ∉ old).
Proof.
  intros files. unfold cmdRevoke in Hrevoke. destruct (_ || _); [done|].
  destruct (AppendRevocation f serial) as [f0|] eqn:Ea; [|done]. injection Hrevoke as ->.
  destruct (revocation_append_load f serial f' old Hload Hlines Ea Hclean Hlen) as [Hf' _].
  assert (revoked (watchRevocationFile a files) = {[serial]} ∪ old) as Hrev.
  { rewrite watch_last. unfold files. rewrite !omap_app. cbn [omap list_omap]. rewrite Hf'.
    assert (omap (fun f => match LoadRevocationFile f with Ok r => Some r | Err _ => None end) broken = []) as ->.
    { induction Hbroken as [|b bs Hb _ IH]; [done|]. cbn [omap list_omap]. by destruct (LoadRevocationFile b). }
    cbn [app]. by rewrite list.last_snoc. }
  split; [done|]. intros Hok. destruct (handshake_certified a files wall nonce acts i Hok) as (n & claim & Hn & Hc).
  exists n, claim. split; [done|]. split; [done|].
  destruct Hc as (cert & pn & content & sig & rest & _ & _ & _ & _ & [_ _ Hlive _] & _).
  cbn [Revoked] in Hlive. rewrite Hrev in Hlive. set_solver.
Qed.

(** ** Witnesses *)

(** The agent of Cert.v, certified for workspace "ws", attaches and types. *)
Definition cert_run : list (@sevent CertAuth cert_authenticator) :=
  [SServe; SRun true ModeMultiWrite [str "sh"];
   cert_stream 1 (str "A") [revoked_file] (t0 + 5) (Some (replicate 32 x02)) sample_acts;
   @SStream CertAuth cert_authenticator 2 (str "A") ProtoPTY ([], t0, None) []; SHandler 2 []]
  ++ typing_steps.

Lemma typed_bytes_trace_to_master_witness :
  exists y w c s files wall nonce acts claim,
    steps srel (launched sample_auth) cert_run y /\ term y = Some w /\ WriteInput 1 (str "ls") ∈ ptyf (sess w) /\
    heap (sess w) !! 1 = Some c /\ cert_stream s (remote c) files wall (Some nonce) acts ∈ cert_run /\
    certified sample_auth files wall nonce acts (identity c) claim /\ HasWrite claim || HasOwner claim = true.
Proof.
  destruct (script_typed sample_auth cert_run 1 (str "ls")) as (y & w & Hr & Ht & Hin).
  { apply list_elem_of_In. vm_compute. auto. }
  { repeat constructor. }
  destruct (typed_bytes_trace_to_master sample_auth cert_run y w 1 (str "ls") Hr ltac:(reflexivity) Ht Hin)
    as (c & Hc & [Hv|(s & st & _ & Hx & _)]).
  - destruct Hv as (s & files & wall & nonce & acts & claim & H1 & H2 & H3).
    exists y, w, c, s, files, wall, nonce, acts, claim. split; [exact Hr|]. split; [exact Ht|]. split; [exact Hin|].
    split; [exact Hc|]. split; [exact H1|]. split; [exact H2|exact H3].
  - exfalso. apply list_elem_of_In in Hx. unfold cert_run, cert_stream in Hx. cbn [app In typing_steps] in Hx.
    repeat (destruct Hx as [Hx|Hx]; [discriminate Hx|]). destruct Hx.
Defined.

(** Serial "s9" is revoked; the agent of serial "s1" still gets in. *)
Lemma revoke_and_reload_locks_out_witness :
  exists f' old, LoadRevocationFile revoked_file = Ok old /\
    cmdRevoke (PFlags (str "r.txt", str "s9")) revoked_file = (0, f') /\
    revoked (watchRevocationFile sample_auth ([] ++ [f'] ++ [Unreadable])) = {[str "s9"]} ∪ old /\
    exists n claim, certified sample_auth ([] ++ [f'] ++ [Unreadable]) (t0 + 5) n sample_acts (claimToIdentity sample_claim) claim /\
      Serial claim <> str "s9".
Proof.
  destruct (LoadRevocationFile revoked_file) as [old|e] eqn:El.
  2:{ exfalso. assert (is_ok (LoadRevocationFile revoked_file) = true) as H by (vm_compute; reflexivity).
      rewrite El in H. discriminate H. }
  exists (File (str "s0" ++ [LF] ++ str "s9" ++ [LF])), old. split; [reflexivity|]. split; [vm_compute; reflexivity|].
  destruct (revoke_and_reload_locks_out sample_auth [] [Unreadable] (str "r.txt") (str "s9") revoked_file
    (File (str "s0" ++ [LF] ++ str "s9" ++ [LF])) old (t0 + 5) (Some (replicate 32 x02)) sample_acts
    (claimToIdentity sample_claim)) as [Hrev Hin].
  - exact El.
  - right. exists (str "s0"). reflexivity.
  - vm_compute. reflexivity.
  - vm_compute. reflexivity.
  - vm_compute. reflexivity.
  - repeat constructor.
  - split; [exact Hrev|]. destruct (Hin ltac:(vm_compute; reflexivity)) as (n & claim & _ & H1 & H2 & _).
    exists n, claim. split; [exact H1|exact H2].
Defined.

(** ** What revocation does not reach

    The transport keeps the identity of every remote that ever completed a
    handshake: a handshake that fails later does not take it away, and the
    gate of application streams asks for nothing newer. *)

Lemma refused_handshake_keeps_identity {A} {AU : Authenticator A} (n : Wrapped (A := A)) s r env acts e s' proto h env' acts' id :
  handlers n !! ProtoAuth = Some HServe -> handlers n !! proto = Some (HGated h) -> identities n !! r = Some id ->
  snd (fst (run (server_handshake (auth n) env) acts)) = Err e ->
  snd (AuthWrap.wstep (fst (AuthWrap.wstep n (EStream s r ProtoAuth env acts))) (EStream s' r proto env' acts')) =
    [Invoke h s' id].
Proof.
  intros Hs Hg Hi He. cbn [AuthWrap.wstep]. rewrite Hs. unfold serve_auth.
  destruct (fst (run (server_handshake (auth n) env) acts)) as [a' [i|e']]; cbn [snd] in He; [done|].
  cbn [fst AuthWrap.wstep handlers]. rewrite Hg. unfold gate. cbn [identities]. by rewrite Hi.
Qed.

(** The agent of serial "s1" authenticates; its serial is then revoked and
    reloaded, and its next handshake is refused. *)
Definition late_file : file := File (str "s1" ++ [LF]).

Definition refused_run : list (@sevent CertAuth cert_authenticator) :=
  [SServe; SRun true ModeMultiWrite [str "sh"];
   cert_stream 1 (str "A") [] (t0 + 5) (Some (replicate 32 x02)) sample_acts;
   cert_stream 2 (str "A") [late_file] (t0 + 6) (Some (replicate 32 x02)) sample_acts;
   @SStream CertAuth cert_authenticator 3 (str "A") ProtoPTY ([late_file], t0 + 7, None) []; SHandler 3 []]
  ++ typing_steps.

(** The terminal it opens afterwards is served, and what it types reaches the
    child. *)
Theorem revoked_remote_keeps_access :
  is_ok (snd (fst (run (@server_handshake _ cert_authenticator sample_auth
    ([late_file], t0 + 6, Some (replicate 32 x02))) sample_acts))) = false /\
  WriteInput 1 (str "ls") ∈ System.typed (sexec (launched sample_auth) refused_run).
Proof.
  split; [vm_compute; reflexivity|]. apply list_elem_of_In. vm_compute. auto.
Qed.
