(* ===== verification/Lockout.v ===== *)
(** * Mass revocation at the handshake

    A bump of the session's epoch (Governance.v) seen from a server: once its
    Solana source has read the chain after the bump, the wallet handshake
    (AuthWallet.v, Trust.v) admits nobody on the strength of a grant from
    before it, whatever the program has processed since. *)

From S2P Require Import Attach.
From S2P Require Import Solana SolanaTx SolanaWire Ledger Landing.
From S2P Require Import Prelude Streambuf Varint Queries Identity Session Bridge VtermPolicy VtermIO.
From S2P Require Import GoStrings WalletCaps Base58 GoTime Delegation Fold Cert Handshake AuthPSK AuthCert AuthWallet.
From S2P Require Import AuthWrap System Trust Governance.

(** Wallet [root] may act on session [s] of ledger [L2] by right the bump of
    [L] left: as the owner, or by a grant that did not exist in [L]. *)
Definition right_since (L L2 : ledger) (addr root : bytes) (held : WCaps) (owner : bool) (epoch : Z) : Prop :=
  exists s2 b2, L2 !! addr = Some (ASession s2 b2) /\
    if owner then root = SOwner s2 /\ held = AllCaps
    else exists ga g gb, L2 !! ga = Some (AGrant g gb) /\ GSession g = addr /\ GGrantee g = root /\ GCaps g = held /\
           epoch < GEpoch g /\ forall ga0 gb0, L !! ga0 <> Some (AGrant g gb0).

Section lockout.
Context {C : Curve} (prog : bytes) (L : ledger) (Hreach : reachable prog L).
Context (addr : bytes) (s : SolSession) (b : Z) (Hs : L !! addr = Some (ASession s b)).
Context (L1 : ledger) (Hbump : governs prog L addr s b GBump L1) (Hr1 : reachable prog L1).

Lemma later_reachable L2 : later prog L1 L2 -> reachable prog L2.
Proof.
  intros Hl. pose proof (governs_session prog L addr s b Hs GBump L1 Hbump) as H1.
  by destruct (session_persists prog L1 L2 addr _ b Hl Hr1 H1).
Qed.

(** What the ledgers after the bump entitle a wallet to. *)
Lemma on_chain_since root held o :
  on_chain (later prog L1) (SSessionKey s) root held o ->
  exists L2, later prog L1 L2 /\ right_since L L2 addr root held o (SEpoch s).
Proof.
  intros (L2 & addr2 & s2 & b2 & t & Hl & H2 & Hk & Ho).
  pose proof (governs_session prog L addr s b Hs GBump L1 Hbump) as H1.
  destruct (session_persists prog L1 L2 addr _ b Hl Hr1 H1) as (Hr2 & s' & H' & Hk' & He').
  cbn [op_session SSessionKey SEpoch] in Hk', He'.
  destruct (session_unique prog L2 (reachable_ok _ _ Hr2) _ _ _ _ _ _ H2 H') as [-> ->]; [congruence|].
  exists L2. split; [done|]. exists s', b. split; [done|]. destruct o; [done|].
  destruct Ho as (ga & g & gb & Hg & Hgs & Hgw & Hgc & Hlive). exists ga, g, gb.
  assert (SEpoch s < GEpoch g) as Hep by (unfold live_grant in Hlive; go_bool; lia).
  split_and!; try done. intros ga0 gb0 H0.
  destruct (grants_of_session prog L Hreach addr s b Hs ga0 g gb0 H0 Hgs) as [_ Hle]. lia.
Qed.
End lockout.

(** ** The claim *)

(** C10: a bump of the epoch locks every earlier grantee out.  Let the owner's
    bump_epoch turn ledger L into L1, and let a server's source have read the
    chain since: either all its reads or a tail of them, one of which
    succeeded, failed or were answered from states that followed L1, and so is
    the read a lookup would make.  Then in a wallet handshake that succeeds
    the peer presented, besides its connection key's signature over the nonce
    the server drew and live delegations that reach that key, a root wallet
    that is the session's owner in a state after the bump or that holds there
    a grant issued after the bump: no grant account of L opens a session any
    more. *)
Theorem bump_locks_out_grantees {E : Ed25519} {C : Curve} prog L addr s b L1 (w : WalletAuth) src now nonce acts i
  (Hreach : reachable prog L) (Hs : L !! addr = Some (ASession s b)) (Hbump : governs prog L addr s b GBump L1)
  (Hr1 : reachable prog L1) (Hsid : wsessionID w = SSessionKey s)
  (Hsource : chain_source (later prog L1) (wsessionID w) src)
  (Hok : snd (fst (run (@server_handshake _ wallet_authenticator w (src, now, nonce)) acts)) = Ok i) :
  exists connPub nonceS nonceC sig chain rest root held k caps o L2,
    nonce = Some nonceS /\
    acts = PRead (Some (WalletHello connPub nonceC chain)) :: PWrite true :: PRead (Some (WalletProof sig)) :: rest /\
    ed_verify connPub (walletTranscript walletClientLabel nonceS nonceC (wsessionID w)) sig = true /\
    delegated (wsessionID w) (now k) root held chain connPub caps /\ i = wallet_identity caps o root /\
    Label i = Address root /\
    later prog L1 L2 /\ right_since L L2 addr root held o (SEpoch s).
Proof.
  destruct (handshake_vouched (later prog L1) prog (later_reachable prog L addr s b Hs L1 Hbump Hr1)
    w src now nonce acts i Hsource Hok) as (nS & caps & o & Hn & Hv & _).
  destruct Hv as (cp & nC & chain & sig & rest & snap & root & held & k & Ha & Hsig & _ & _ & Hd & Hon & Hi). rewrite Hsid in Hon.
  destruct (on_chain_since prog L Hreach addr s b Hs L1 Hbump Hr1 root held o Hon) as (L2 & Hlater & Hright).
  exists cp, nS, nC, sig, chain, rest, root, held, k, caps, o, L2. split_and!; try done. by rewrite Hi.
Qed.

(** ** Witness *)

#[local] Existing Instance toy_curve.

(** The owner of the sample session bumps; read after the bump, the owner's
    own chain still gets in. *)
Lemma bump_locks_out_grantees_witness :
  exists L L1 addr b i root held o L2,
    reachable sample_prog L /\ governs sample_prog L addr sample_session b GBump L1 /\
    snd (fst (run (@server_handshake _ wallet_authenticator wallet_server
      (read_source L1, fun _ => t0 + 1, Some (replicate 32 x02))) wallet_acts)) = Ok i /\
    later sample_prog L1 L2 /\ right_since L L2 addr root held o 0.
Proof.
  destruct sample_ledger as (L & addr & b & Hr & Hs & HL & Ha).
  set (L1 := <[addr := ASession (mkSolSession (key_of x05) (key_of x06) 1) b]> L).
  pose proof (sample_governs_bump L addr b) as Hb. fold L1 in Hb.
  destruct (governs_effect sample_prog L Hr addr sample_session b Hs sample_source GBump L1 sample_program Hb) as [Hr1 _].
  assert (b = 255) as Hb255.
  { destruct (reachable_ok _ _ Hr _ _ Hs) as (Hp & _).
    assert (findPDA sample_prog [str "session"; SSessionKey sample_session] = Ok (addr, 255)) as Hp'
      by (rewrite Ha; reflexivity). congruence. }
  destruct (snd (fst (run (@server_handshake _ wallet_authenticator wallet_server
    (read_source L1, fun _ => t0 + 1, Some (replicate 32 x02))) wallet_acts))) as [i|e] eqn:Ei.
  2:{ exfalso. revert Ei. unfold L1. rewrite HL, insert_singleton_eq, Hb255, Ha. vm_compute. discriminate. }
  destruct (bump_locks_out_grantees sample_prog L addr sample_session b L1 wallet_server (read_source L1)
    (fun _ => t0 + 1) (Some (replicate 32 x02)) wallet_acts i Hr Hs Hb Hr1 eq_refl)
    as (_ & _ & _ & _ & _ & _ & root & held & _ & _ & o & L2 & _ & _ & _ & _ & _ & _ & Hl & Hright).
  - exists sample_source, [], [answer_of L1], t0, (answer_of L1).
    assert (honest (later sample_prog L1) (answer_of L1)) as Hh
      by (right; exists L1; split; [apply rtc_refl|apply answer_of_faithful]).
    split; [reflexivity|]. split; [reflexivity|]. split; [constructor; [exact Hh|constructor]|].
    split; [left; reflexivity|]. split; [exact Hh|reflexivity].
  - exact Ei.
  - exists L, L1, addr, b, i, root, held, o, L2. split; [exact Hr|]. split; [exact Hb|]. split; [exact Ei|].
    split; [exact Hl|exact Hright].
Defined.
