(* ===== verification/Screen.v ===== *)
(** * The rendered screen (src/screen/screen.go)

    [vtScreen] wraps a terminal emulator of another package (vt10x).  The
    emulator is a type class of operations with what the wrapper relies on:
    it keeps the size it is given.  The theorem says what an observer that
    feeds it bytes and resizes it may count on. *)

From S2P Require Import Prelude.

(** What the package uses of vt10x.Terminal: sizes are (columns, rows), a
    write returns how many bytes it took or fails. *)
Class Vt10x := {
  Terminal : Type;
  vt_new : Z -> Z -> Terminal;
  vt_write : Terminal -> bytes -> Terminal * res bytes Z;
  vt_size : Terminal -> Z * Z;
  vt_resize : Terminal -> Z -> Z -> Terminal;
  vt_string : Terminal -> bytes;
  vt_cell : Terminal -> Z -> Z -> Z;     (* the rune *)
  vt_cursor : Terminal -> Z * Z;
}.

(** The size is the one given last. *)
Class Vt10xLaws (V : Vt10x) := {
  vt_size_new c r : vt_size (vt_new c r) = (c, r);
  vt_size_write t p : vt_size (fst (vt_write t p)) = vt_size t;
  vt_size_resize t c r : vt_size (vt_resize t c r) = (c, r);
}.

Section screen.
Context {V : Vt10x}.

Record Cell := mkCell { Char : Z }.

Record vtScreen := mkScreen { term : Terminal; cols : Z; rows : Z }.

Definition New (c r : Z) : vtScreen := mkScreen (vt_new c r) c r.

Definition Write (s : vtScreen) (p : bytes) : vtScreen * res bytes Z :=
  let '(t, r) := vt_write (term s) p in (mkScreen t (cols s) (rows s), r).

Definition Size (s : vtScreen) : Z * Z := vt_size (term s).

Definition Resize (s : vtScreen) (c r : Z) : vtScreen := mkScreen (vt_resize (term s) c r) c r.

Definition Text (s : vtScreen) : bytes := vt_string (term s).

Definition CellAt (s : vtScreen) (col row : Z) : Cell :=
  let '(c, r) := vt_size (term s) in
  if (col <? 0) || (row <? 0) || (c <=? col) || (r <=? row) then mkCell 0 else mkCell (vt_cell (term s) col row).

Definition Cursor (s : vtScreen) : Z * Z := vt_cursor (term s).

(** What an observer does with a screen. *)
Inductive screen_op := OpWrite (p : bytes) | OpResize (c r : Z).

Definition screen_step (s : vtScreen) (o : screen_op) : vtScreen :=
  match o with
  | OpWrite p => fst (Write s p)
  | OpResize c r => Resize s c r
  end.

(** The size asked for last. *)
Definition asked (c r : Z) (ops : list screen_op) : Z * Z :=
  foldl (fun size o => match o with OpResize c r => (c, r) | OpWrite _ => size end) (c, r) ops.
End screen.

(** Whatever is written, a screen has the size asked for last, in its own
    fields and in the emulator; a cell outside of it is the zero cell, a cell
    inside is the emulator's. *)
Theorem screen_keeps_size {V : Vt10x} {VL : Vt10xLaws V} c r ops col row :
  let s := foldl screen_step (New c r) ops in
  Size s = asked c r ops /\ (cols s, rows s) = asked c r ops /\
  CellAt s col row =
    if (0 <=? col) && (col <? fst (asked c r ops)) && (0 <=? row) && (row <? snd (asked c r ops))
    then mkCell (vt_cell (term s) col row) else mkCell 0.
Proof.
  intros s. assert (Size s = asked c r ops /\ (cols s, rows s) = asked c r ops) as [H1 H2].
  { unfold s. induction ops as [|o ops IH] using rev_ind; [by split; [apply vt_size_new|]|].
    destruct IH as [IH1 IH2]. unfold asked in *. rewrite !foldl_app. cbn [foldl]. destruct o as [p|c' r']; cbn [screen_step].
    - unfold Write, Size in *. pose proof (vt_size_write (term (foldl screen_step (New c r) ops)) p) as Hw.
      destruct (vt_write _ p) as [t n]. cbn in *. split; [congruence|done].
    - split; [apply vt_size_resize|done]. }
  split; [done|]. split; [done|]. unfold CellAt. unfold Size in H1. rewrite H1.
  destruct (asked c r ops) as [a b]. cbn [fst snd].
  destruct (col <? 0) eqn:E1, (row <? 0) eqn:E2, (a <=? col) eqn:E3, (b <=? row) eqn:E4,
    (0 <=? col) eqn:E5, (col <? a) eqn:E6, (0 <=? row) eqn:E7, (row <? b) eqn:E8; go_bool; try lia; done.
Qed.

(** An emulator that renders nothing: the laws can hold. *)
Definition blank_vt : Vt10x := {|
  Terminal := Z * Z; vt_new c r := (c, r); vt_write t p := (t, Ok (len p)); vt_size t := t;
  vt_resize _ c r := (c, r); vt_string _ := []; vt_cell _ _ _ := 32; vt_cursor _ := (0, 0);
|}.

Lemma blank_laws : Vt10xLaws blank_vt.
Proof. done. Qed.
