(* ===== verification/Framing.v ===== *)
(** * Message framing on a stream
    (the readers and writers of src/auth/psk.go, src/auth/cert.go,
    src/auth/wallet.go, src/vterm/control.go and src/cmd/mosey/control.go)

    Every protobuf message of the protocols goes through protodelim, which
    asks its reader for single bytes and for exact blocks.  A stream delivers
    bytes in pieces of any size, and bytes that follow a message belong to the
    next reader, so the adapters must not read ahead.  [stream_in] is what a
    stream will deliver; the readers are the source's; protodelim is a class:
    a program over the two reads it makes, with its framing as the law.
    [brun] runs a handshake over bytes and [dial_bytes] is the dial of
    src/auth/wrap.go over them, which the theorem compares with the dial over
    messages. *)

From S2P Require Import Prelude Identity Cert Handshake AuthPSK AuthCert AuthWallet AuthWrap.

(** The pieces successive Reads find, then an end. *)
Definition stream_in := list bytes.

(** io.ReadFull: Read into the rest of the buffer until it is full. *)
Fixpoint ReadFull (need : nat) (r : stream_in) : option (bytes * stream_in) :=
  match need, r with
  | O, _ => Some ([], r)
  | S _, [] => None
  | S _, c :: r' =>
      if (length c <=? need)%nat then
        '(p, r'') ← ReadFull (need - length c) r'; Some (c ++ p, r'')
      else Some (take need c, drop need c :: r')
  end.

(** singleByteReader: ReadFull of one byte. *)
Definition ReadByte (r : stream_in) : option (byte * stream_in) :=
  match ReadFull 1 r with
  | Some ([b], r) => Some (b, r)
  | _ => None
  end.

(** vterm's delimReader, which also checks the count; the same reads. *)
Definition delim_ReadByte (r : stream_in) : option (byte * stream_in) :=
  match ReadFull 1 r with
  | None => None
  | Some (p, r) => if negb (length p =? 1)%nat then None else Some (hd x00 p, r)
  end.

Lemma delim_ReadByte_eq r : delim_ReadByte r = ReadByte r.
Proof.
  unfold delim_ReadByte, ReadByte. destruct (ReadFull 1 r) as [[p r']|]; [|done].
  by destruct p as [|b [|b' p]].
Qed.

(** ** protodelim *)

(** A program that reads through a ByteReader and a Reader. *)
Inductive dprog (M : Type) :=
| DRet (r : option M)
| DByte (k : option byte -> dprog M)
| DFull (n : nat) (k : option bytes -> dprog M).
Arguments DRet {M} r.
Arguments DByte {M} k.
Arguments DFull {M} n k.

(** Over the adapter of readAuth, readCertMsg, readWalletMsg and delimReader;
    a read that fails has used the stream up. *)
Fixpoint drun {M} (p : dprog M) (r : stream_in) : option M * stream_in :=
  match p with
  | DRet m => (m, r)
  | DByte k => match ReadByte r with
               | Some (b, r) => drun (k (Some b)) r
               | None => drun (k None) []
               end
  | DFull n k => match ReadFull n r with
                 | Some (bs, r) => drun (k (Some bs)) r
                 | None => drun (k None) []
                 end
  end.

(** Over one contiguous byte string. *)
Fixpoint drun_flat {M} (p : dprog M) (s : bytes) : option M * bytes :=
  match p with
  | DRet m => (m, s)
  | DByte k => match s with b :: s => drun_flat (k (Some b)) s | [] => drun_flat (k None) [] end
  | DFull n k => if (n <=? length s)%nat then drun_flat (k (Some (take n s))) (drop n s) else drun_flat (k None) []
  end.

(** MarshalTo writes [frame m]; UnmarshalFrom, given the frame of a message
    within its size limit and whatever follows, returns the message and leaves
    the rest. *)
Class Protodelim (M : Type) := {
  frame : M -> bytes;
  fits : M -> bool;
  UnmarshalFrom : dprog M;
  unmarshal_frame m rest : fits m = true -> drun_flat UnmarshalFrom (frame m ++ rest) = (Some m, rest);
}.

Section messages.
Context {M : Type} {P : Protodelim M}.

(** MarshalTo on a stream that takes every byte. *)
Definition writeMsg (out : bytes) (m : M) : bytes := out ++ frame m.

(** UnmarshalFrom over the adapter. *)
Definition readMsg (r : stream_in) : option (M * stream_in) :=
  match drun UnmarshalFrom r with
  | (Some m, r) => Some (m, r)
  | (None, _) => None
  end.

Fixpoint read_messages (n : nat) (r : stream_in) : option (list M * stream_in) :=
  match n with
  | O => Some ([], r)
  | S n => '(m, r) ← readMsg r; '(ms, r) ← read_messages n r; Some (m :: ms, r)
  end.

(** What a write does: all of the frame is taken, or an error after [n] bytes. *)
Inductive wout := WAll | WFail (n : nat).

Definition wrote_all (w : wout) : bool := match w with WAll => true | WFail _ => false end.
Definition wrote (bs : bytes) (w : wout) : bytes := match w with WAll => bs | WFail n => take n bs end.

(** A handshake over a stream: its result, the bytes it wrote, and what is
    left to read.  [ws] are the outcomes of its writes; a stream with none
    left fails. *)
Fixpoint brun {A} (p : prog M A) (ws : list wout) (r : stream_in) : A * bytes * stream_in :=
  match p with
  | Ret a => (a, [], r)
  | Send m k =>
      let '(w, ws) := match ws with w :: ws => (w, ws) | [] => (WFail 0, []) end in
      let '(a, out, r) := brun (k (wrote_all w)) ws r in
      (a, wrote (writeMsg [] m) w ++ out, r)
  | Recv k =>
      match readMsg r with
      | Some (m, r) => brun (k (Some m)) ws r
      | None => brun (k None) ws []
      end
  end.
End messages.

Definition readAuth {P : Protodelim AuthMessage} (r : stream_in) := readMsg (M := AuthMessage) r.
Definition writeAuth {P : Protodelim AuthMessage} (out : bytes) (msg : AuthMessage) := writeMsg out msg.
Definition readCertMsg {P : Protodelim CertMessage} (r : stream_in) := readMsg (M := CertMessage) r.
Definition writeCertMsg {P : Protodelim CertMessage} (out : bytes) (msg : CertMessage) := writeMsg out msg.
Definition readWalletMsg {P : Protodelim WalletMessage} (r : stream_in) := readMsg (M := WalletMessage) r.
Definition writeWalletMsg {P : Protodelim WalletMessage} (out : bytes) (msg : WalletMessage) := writeMsg out msg.

(** Wrapped.Dial from the opened auth stream on. *)
Definition dial_bytes {A} {AU : Authenticator A} {P : Protodelim amsg} (w : Wrapped (A := A)) (env : aenv)
    (ws : list wout) (r : stream_in) (open_app : bool) : Wrapped * res WDialError Identity :=
  match brun (client_handshake (auth w) env) ws r with
  | (Err e, _, _) => (w, Err (HandshakeErr e))
  | (Ok localID, _, r) =>
      match ReadByte r with
      | None => (w, Err NoAck)
      | Some (b, _) =>
          if negb (bool_decide (b = ackOK)) then (w, Err (BadAck b))
          else
            let w := mkWrapped (auth w) (handlers w) (identities w) localID in
            if negb open_app then (w, Err OpenApp) else (w, Ok localID)
      end
  end.

(** ** Lemmas *)

Lemma ReadFull_flat need r :
  match ReadFull need r with
  | Some (p, r') => concat r = p ++ concat r' /\ length p = need
  | None => (length (concat r) < need)%nat
  end.
Proof.
  revert need. induction r as [|c r IH]; intros [|need]; cbn [ReadFull]; try done; [cbn; lia|].
  destruct (length c <=? S need)%nat eqn:E.
  - apply Nat.leb_le in E. specialize (IH (S need - length c)%nat).
    destruct (ReadFull (S need - length c) r) as [[p r']|]; cbn [mbind option_bind concat].
    + destruct IH as [-> Hl]. split; [by rewrite app_assoc|]. rewrite length_app. lia.
    + rewrite length_app. lia.
  - apply Nat.leb_gt in E. cbn [concat]. split; [by rewrite app_assoc, take_drop|]. rewrite length_take. lia.
Qed.

Lemma ReadByte_flat r :
  match ReadByte r with
  | Some (b, r') => concat r = b :: concat r'
  | None => concat r = []
  end.
Proof.
  unfold ReadByte. pose proof (ReadFull_flat 1 r) as H. destruct (ReadFull 1 r) as [[p r']|].
  - destruct H as [H Hl]. destruct p as [|b [|]]; try done.
  - apply nil_length_inv. lia.
Qed.

(** However the stream is cut, the adapter sees one byte string. *)
Lemma drun_cut {M} (p : dprog M) r :
  let '(m, r') := drun p r in drun_flat p (concat r) = (m, concat r').
Proof.
  revert r. induction p as [m|k IH|n k IH]; intros r; cbn [drun drun_flat]; [done| |].
  - pose proof (ReadByte_flat r) as H. destruct (ReadByte r) as [[b r']|].
    + rewrite H. apply IH.
    + rewrite H. exact (IH None []).
  - pose proof (ReadFull_flat n r) as H. destruct (ReadFull n r) as [[bs r']|].
    + destruct H as [H Hl]. assert ((n <=? length (concat r))%nat = true) as ->.
      { apply Nat.leb_le. rewrite H, length_app. lia. }
      rewrite H, take_app_length', drop_app_length' by done. apply IH.
    + assert ((n <=? length (concat r))%nat = false) as -> by (apply Nat.leb_gt; lia). exact (IH None []).
Qed.

Lemma readMsg_frame {M} {P : Protodelim M} r m rest :
  fits m = true -> concat r = frame m ++ rest -> exists r', readMsg r = Some (m, r') /\ concat r' = rest.
Proof.
  intros Hf H. unfold readMsg. pose proof (drun_cut UnmarshalFrom r) as Hc.
  destruct (drun UnmarshalFrom r) as [o r']. rewrite H, unmarshal_frame in Hc by done. injection Hc as <- Hr. by exists r'.
Qed.

(** [acts] is a whole conversation of [p]: every read yields a message, none
    is left over. *)
Fixpoint plays {M A} (p : prog M A) (acts : list (peer_act M)) : Prop :=
  match p, acts with
  | Ret _, [] => True
  | Send _ k, PWrite ok :: acts => plays (k ok) acts
  | Recv k, PRead (Some m) :: acts => plays (k (Some m)) acts
  | _, _ => False
  end.

Definition received {M} (acts : list (peer_act M)) : list M :=
  omap (fun a => match a with PRead m => m | PWrite _ => None end) acts.
Definition outcomes {M} (acts : list (peer_act M)) : list bool :=
  omap (fun a => match a with PWrite ok => Some ok | PRead _ => None end) acts.

(** A conversation over bytes is the conversation over messages, and leaves
    what follows it on the stream. *)
Lemma brun_plays {M A} {P : Protodelim M} (p : prog M A) acts ws r rest :
  plays p acts -> map wrote_all ws = outcomes acts -> Forall (fun m => fits m = true) (received acts) ->
  concat r = concat (map frame (received acts)) ++ rest ->
  exists r', brun p ws r =
      (fst (run p acts), concat (zip_with (fun m w => wrote (frame m) w) (snd (run p acts)) ws), r') /\
    concat r' = rest.
Proof.
  revert acts ws r. induction p as [a|m k IH|k IH]; intros acts ws r Hp Hw Hf Hr.
  - destruct acts; [|done]. destruct ws; [|done]. by exists r.
  - destruct acts as [|[ok|] acts]; try done. destruct ws as [|w ws]; [done|]. cbn in Hw. injection Hw as Hok Hw.
    rewrite <- Hok in *. destruct (IH _ acts ws r Hp Hw Hf Hr) as (r' & E & Hr'). exists r'. split; [|done].
    cbn [brun run]. rewrite E. by destruct (run (k (wrote_all w)) acts).
  - destruct acts as [|[|[m|]] acts]; try done. cbn in Hf. apply Forall_cons_1 in Hf as [Hm Hf].
    cbn [received omap list_omap map concat] in Hr. rewrite <- app_assoc in Hr.
    destruct (readMsg_frame r m _ Hm Hr) as (r1 & E & H1). cbn [brun run]. rewrite E. by apply IH.
Qed.

(** The next byte on the stream. *)
Lemma ReadByte_head r b rest : concat r = b :: rest -> exists r', ReadByte r = Some (b, r') /\ concat r' = rest.
Proof.
  intros H. pose proof (ReadByte_flat r) as Hb. destruct (ReadByte r) as [[c r']|]; [|congruence].
  rewrite H in Hb. injection Hb as <- Hr. by exists r'.
Qed.

Lemma ReadByte_end r : concat r = [] -> ReadByte r = None.
Proof. intros H. pose proof (ReadByte_flat r) as Hb. destruct (ReadByte r) as [[c r']|]; [congruence|done]. Qed.

(** ** The claims *)

(** Messages survive any fragmentation, and nothing after them is
    touched.  Write any messages within the size limit one after the other, let any bytes follow,
    and cut the whole into pieces at will: reading as many messages gives
    exactly those messages, and the stream then holds exactly the bytes that
    followed. *)
Theorem framed_messages_read_back {M} {P : Protodelim M} (ms : list M) rest (r : stream_in)
  (Hfits : Forall (fun m => fits m = true) ms) (Hcut : concat r = foldl writeMsg [] ms ++ rest) :
  exists r', read_messages (length ms) r = Some (ms, r') /\ concat r' = rest.
Proof.
  assert (forall out, foldl writeMsg out ms = out ++ concat (map frame ms)) as Hw.
  { clear. induction ms as [|m ms IH]; intros out; cbn; [by rewrite app_nil_r|].
    rewrite IH. unfold writeMsg. by rewrite <- app_assoc. }
  rewrite Hw in Hcut. cbn [app] in Hcut. clear Hw. revert r Hcut.
  induction Hfits as [|m ms Hm _ IH]; intros r Hcut; cbn [length read_messages]; [by exists r|].
  cbn [map concat] in Hcut. rewrite <- app_assoc in Hcut. destruct (readMsg_frame r m _ Hm Hcut) as (r1 & -> & H1).
  cbn [mbind option_bind]. destruct (IH r1 H1) as (r2 & -> & H2). by exists r2.
Qed.

(** C30: a dial over the wire is the dial over messages.  Let the bytes of an
    auth stream be the messages of any whole conversation of the client's
    handshake, framed, followed by anything, and let the stream cut them and
    fail the writes as it will: the dial gives the same result and the same
    wrapper as the dial over messages whose acknowledgement is the first byte
    after the conversation; the framing neither loses nor swallows it. *)
Theorem dial_over_bytes {A} {AU : Authenticator A} {P : Protodelim amsg} (w : Wrapped (A := A)) env acts ws rest r app
  (Hplay : plays (client_handshake (auth w) env) acts) (Hws : map wrote_all ws = outcomes acts)
  (Hfits : Forall (fun m => fits m = true) (received acts))
  (Hcut : concat r = concat (map frame (received acts)) ++ rest) :
  dial_bytes w env ws r app = Dial w (mkDialEnv true env acts (head rest) app).
Proof.
  destruct (brun_plays _ acts ws r rest Hplay Hws Hfits Hcut) as (r' & E & Hr').
  unfold dial_bytes, Dial. rewrite E. cbn [open_auth denv dacts ack open_app negb].
  destruct (fst (run (client_handshake (auth w) env) acts)); [|done]. destruct rest as [|b rest].
  - by rewrite ReadByte_end.
  - destruct (ReadByte_head r' b rest Hr') as (r2 & -> & _). done.
Qed.

(** ** Witness: one-byte messages with a length prefix, cut badly *)

Definition one_byte_read : dprog byte :=
  DByte (fun l => match l with
                  | None => DRet None
                  | Some n => DFull (Z.to_nat (b2z n)) (fun p => match p with Some [c] => DRet (Some c) | _ => DRet None end)
                  end).

#[local] Instance one_byte : Protodelim byte.
Proof.
  refine {| frame c := [x01; c]; fits _ := true; UnmarshalFrom := one_byte_read |}. intros m rest _. reflexivity.
Defined.

Definition bad_cut : stream_in := [[x01]; []; [x41; x01]; [x42; x43]].

Lemma framed_messages_read_back_witness :
  concat bad_cut = foldl writeMsg [] [x41; x42] ++ [x43] /\
  exists r', read_messages 2 bad_cut = Some ([x41; x42], r') /\ concat r' = [x43].
Proof.
  assert (concat bad_cut = foldl writeMsg [] [x41; x42] ++ [x43]) as H by reflexivity. split; [exact H|].
  exact (framed_messages_read_back [x41; x42] [x43] bad_cut ltac:(repeat constructor) H).
Defined.

(** Blocks with a length byte: a codec for the messages of AuthPSK.v. *)
Definition block (bs : bytes) : bytes := z2b (len bs) :: bs.

Definition read_block {M} (k : bytes -> dprog M) : dprog M :=
  DByte (fun l => match l with
                  | None => DRet None
                  | Some n => DFull (Z.to_nat (b2z n)) (fun p => match p with Some bs => k bs | None => DRet None end)
                  end).

Lemma read_block_written {M} (k : bytes -> dprog M) bs rest :
  (len bs <? 256) = true -> drun_flat (read_block k) (block bs ++ rest) = drun_flat (k bs) rest.
Proof.
  intros H. unfold read_block, block. cbn [app drun_flat]. rewrite b2z_z2b, Z.mod_small by (unfold len in *; lia).
  assert (Z.to_nat (len bs) = length bs) as -> by (unfold len; lia).
  assert ((length bs <=? length (bs ++ rest))%nat = true) as -> by (apply Nat.leb_le; rewrite length_app; lia).
  by rewrite take_app_length, drop_app_length.
Qed.

#[local] Instance block_codec : Protodelim AuthMessage.
Proof.
  refine {|
    frame m := match m with
               | ClientHello n l => x01 :: block n ++ block l
               | ServerProof n c => x02 :: block n ++ block c
               | ClientProof c => x03 :: block c
               | AuthUnset => [x00]
               end;
    fits m := match m with
              | ClientHello a b | ServerProof a b => (len a <? 256) && (len b <? 256)
              | ClientProof a => len a <? 256
              | AuthUnset => true
              end;
    UnmarshalFrom := DByte (fun t => match t with
      | Some x01 => read_block (fun n => read_block (fun l => DRet (Some (ClientHello n l))))
      | Some x02 => read_block (fun n => read_block (fun c => DRet (Some (ServerProof n c))))
      | Some x03 => read_block (fun c => DRet (Some (ClientProof c)))
      | Some x00 => DRet (Some AuthUnset)
      | _ => DRet None
      end) |}.
  intros [a b|a b|a|] rest H; cbn [drun_flat app]; [apply andb_true_iff in H as [H1 H2]; rewrite <- app_assoc..| |done];
    by rewrite ?read_block_written.
Defined.

(** The reader of AuthWrap.v dials, its stream delivering byte by byte. *)
Definition reader_bytes : stream_in :=
  (fun b => [b]) <$> concat (map frame (received (dacts reader_dial))) ++ [ackOK].

Lemma dial_over_bytes_witness :
  dial_bytes (Wrap reader_auth) (Some (nonce_of x01)) [WAll; WAll] reader_bytes true = Dial (Wrap reader_auth) reader_dial /\
  match snd (Dial (Wrap reader_auth) reader_dial) with Ok _ => true | Err _ => false end = true.
Proof.
  split; [|vm_compute; reflexivity].
  exact (@dial_over_bytes PSKAuth psk_authenticator block_codec (Wrap reader_auth) (Some (nonce_of x01))
    (dacts reader_dial) [WAll; WAll] [ackOK] reader_bytes true
    ltac:(vm_compute; exact I) ltac:(reflexivity) ltac:(repeat constructor) ltac:(vm_compute; reflexivity)).
Defined.
