(* ===== verification/Spike.v ===== *)
(** * The cross-language check of delegation texts (src/spike/wallet-sig/verify.go)

    A stand-alone program with its own renderer and base58 decoder: it reads
    what a JavaScript signer produced, renders the same fields again, compares
    the bytes and verifies the signature.  The theorem says that what it
    passes is exactly what the wallet package accepts. *)

From S2P Require Import Prelude GoStrings WalletCaps Base58 GoTime Delegation Hex Json.

(** The decoded standard input. *)
Record input := mkInput {
  i_session : bytes; i_delegator : bytes; i_delegate : bytes; i_caps : bytes;
  i_not_before : bytes; i_not_after : bytes; i_nonce : bytes;
  i_content_hex : bytes; i_pubkey : bytes; i_sig : bytes;
}.

(** A string of the nested fields struct; a repeated object decodes over the
    earlier one. *)
Definition fields_string (name : bytes) : json -> option bytes :=
  get_field (fun old x => get_field set_string old name x) [] (str "fields").

Definition decode_input (stdin : bytes) : option input :=
  v ← Decode stdin;
  session ← fields_string (str "session") v;
  delegator ← fields_string (str "delegator") v;
  delegate ← fields_string (str "delegate") v;
  caps ← fields_string (str "caps") v;
  nb ← fields_string (str "not_before") v;
  na ← fields_string (str "not_after") v;
  nonce ← fields_string (str "nonce") v;
  content ← get_string (str "content_hex") v;
  pubkey ← get_string (str "pubkey_base58") v;
  sig ← get_string (str "sig_base58") v;
  Some (mkInput session delegator delegate caps nb na nonce content pubkey sig).

Definition b58Alphabet : bytes := str "123456789ABCDEFGHJKLMNPQRSTUVWXYZabcdefghijkmnopqrstuvwxyz".

(** The two loops of b58decode; a byte of a longer rune is in no alphabet. *)
Fixpoint b58_value (s : bytes) (n : Z) : option Z :=
  match s with
  | [] => Some n
  | c :: s => let idx := Index b58Alphabet [c] in if idx <? 0 then None else b58_value s (n * 58 + idx)
  end.

Fixpoint b58_zeros (s out : bytes) : bytes :=
  match s with
  | c :: s => if bool_decide (c = x31) then b58_zeros s (x00 :: out) else out
  | [] => out
  end.

Definition b58decode (s : bytes) : option bytes := n ← b58_value s 0; Some (b58_zeros s (BigBytes n)).

Definition render (i : input) : bytes :=
  Join [str "mosey session authorization v1"; [];
        str "session: " ++ i_session i; str "delegator: " ++ i_delegator i; str "delegate: " ++ i_delegate i;
        str "caps: " ++ i_caps i; str "not-before: " ++ i_not_before i; str "not-after: " ++ i_not_after i;
        str "nonce: " ++ i_nonce i] [x0a].

(** What is printed. *)
Inductive verdict :=
| Identical (n : Z) | Mismatch (js go : bytes)
| PubkeyDecode (bad_char : bool) (n : Z) | SigDecode (bad_char : bool) (n : Z)
| Verifies | DoesNotVerify
| Displayed (content : bytes).

Section main.
Context {E : Ed25519}.

(** A decoded key or signature with whether it has the wanted size. *)
Definition decoded (text : bytes) (size : Z) (report : bool -> Z -> verdict) : bytes * list verdict :=
  match b58decode text with
  | None => ([], [report true 0])
  | Some b => (b, if len b =? size then [] else [report false (len b)])
  end.

(** main after the input is decoded: the exit code and the lines. *)
Definition check_input (i : input) : Z * list verdict :=
  let goContent := render i in
  let goHex := hexEncode goContent in
  let '(fail, out) := if bool_decide (goHex = i_content_hex i) then (false, [Identical (len goContent)])
                      else (true, [Mismatch (i_content_hex i) goHex]) in
  let '(pub, out1) := decoded (i_pubkey i) 32 PubkeyDecode in
  let '(sig, out2) := decoded (i_sig i) 64 SigDecode in
  let fail := fail || negb (bool_decide (out1 = [])) || negb (bool_decide (out2 = [])) in
  let '(fail, out3) := if fail then (true, [])
                       else if ed_verify pub goContent sig then (false, [Verifies]) else (true, [DoesNotVerify]) in
  (if fail then 1 else 0, out ++ out1 ++ out2 ++ out3 ++ [Displayed goContent]).

Definition main (stdin : bytes) : Z * list verdict :=
  match decode_input stdin with
  | None => (1, [])
  | Some i => check_input i
  end.
End main.

(** ** Lemmas *)

Lemma b58_index c : Index b58Alphabet [c] = alphabet_index c.
Proof. by destruct c; vm_compute. Qed.

Lemma b58_zeros_eq s out : b58_zeros s out = replicate (leading_ones s) x00 ++ out.
Proof.
  revert out. induction s as [|c s IH]; intros out; cbn [b58_zeros leading_ones]; [done|].
  case_bool_decide; [|done]. rewrite IH. change (x00 :: out) with ([x00] ++ out).
  by rewrite app_assoc, <- replicate_cons_app.
Qed.

(** The program's decoder is the package's. *)
Lemma b58decode_eq s : b58decode s = match base58Decode s with Ok b => Some b | Err _ => None end.
Proof.
  assert (forall n, b58_value s n = match decode_loop s n with Ok m => Some m | Err _ => None end) as H.
  { induction s as [|c s IH]; intros n; cbn [b58_value decode_loop]; [done|]. rewrite b58_index. by case_match. }
  unfold b58decode, base58Decode. rewrite H. destruct (decode_loop s 0); [|done].
  cbn [mbind option_bind res_bind]. by rewrite b58_zeros_eq.
Qed.

(** The strings a signer puts in for fields [f]. *)
Definition spells (i : input) (f : Fields) : Prop :=
  i_session i = Address (SessionID f) /\ i_delegator i = Address (Delegator f) /\
  i_delegate i = Address (Delegate f) /\ i_caps i = CapsString (FCaps f) /\
  i_not_before i = renderTime (NotBefore f) /\ i_not_after i = renderTime (NotAfter f) /\
  i_nonce i = EncodeBase58 (Nonce f).

Lemma render_spells i f : spells i f -> render i = Render f.
Proof. intros (H1 & H2 & H3 & H4 & H5 & H6 & H7). unfold render. by rewrite H1, H2, H3, H4, H5, H6, H7. Qed.

(** ** The claims *)

(** The stand-alone checker and the wallet package agree.  For any fields
    a delegation can have, spelt by the package's encoders, and the
    delegator's address as the public key, the program exits 0 exactly if the
    signer's bytes are the package's rendering and the decoded signature makes
    a delegation that the package verifies, with those fields. *)
Theorem spike_accepts_iff_verifies {E : Ed25519} (i : input) f
  (Hf : fields_ok f) (Hi : spells i f) (Hk : i_pubkey i = Address (Delegator f)) :
  fst (check_input i) = 0 <->
  i_content_hex i = hexEncode (Render f) /\
  exists sig, b58decode (i_sig i) = Some sig /\ Verify (mkDelegation (Render f) sig) = Ok (truncated f).
Proof.
  unfold check_input, decoded. rewrite (render_spells i f Hi), Hk, (b58decode_eq (Address _)).
  assert (len (Delegator f) = 32) as Hd by apply Hf.
  unfold Address. rewrite base58_decode_encode by (apply (nonempty_len _ 32); [done|lia]). rewrite Hd. cbn [Z.eqb Pos.eqb].
  rewrite (bool_decide_eq_true_2 ([] = [])) by done.
  assert (forall sig, Verify (mkDelegation (Render f) sig) = Ok (truncated f) <->
    (len sig =? 64) = true /\ ed_verify (Delegator f) (Render f) sig = true) as HV.
  { intros sig. unfold Verify, DFields. cbn [Content Signature]. rewrite ParseContent_Render by done.
    cbn [mbind res_bind truncated Delegator]. rewrite Hd. change (negb (32 =? PublicKeySize)) with false. cbv iota.
    unfold SignatureSize. destruct (len sig =? 64); cbn [negb]; [|naive_solver].
    destruct (ed_verify _ _ sig); cbn [negb]; naive_solver. }
  clear Hf Hi Hk. revert HV. generalize (truncated f) (Render f) (Delegator f) (i_content_hex i) (b58decode (i_sig i)).
  intros g c pub h o HV. destruct (bool_decide (hexEncode c = h)) eqn:Hx.
  2: { apply bool_decide_eq_false in Hx. destruct o as [sig|]; cbn [orb fst]; split; [done|naive_solver|done|naive_solver]. }
  apply bool_decide_eq_true in Hx. destruct o as [sig|]; cbn [orb negb fst]; [|split; [done|intros (_ & sig & [=] & _)]].
  destruct (len sig =? 64) eqn:El.
  2: { rewrite bool_decide_eq_false_2 by done. cbn [negb fst]. split; [done|].
       intros (_ & s & [= <-] & [Hl _]%HV). congruence. }
  rewrite bool_decide_eq_true_2 by done. cbn [negb].
  destruct (ed_verify pub c sig) eqn:Ev; cbn [fst]; (split; [|]); try done.
  - intros _. split; [done|]. exists sig. split; [done|]. by apply HV.
  - intros (_ & s & [= <-] & [_ Hl]%HV). congruence.
Qed.

(** ** Witness *)

Definition sample_input : input :=
  let f := sample_fields in
  mkInput (Address (SessionID f)) (Address (Delegator f)) (Address (Delegate f)) (CapsString (FCaps f))
    (renderTime (NotBefore f)) (renderTime (NotAfter f)) (EncodeBase58 (Nonce f)) (hexEncode (Render f))
    (Address (Delegator f)) (EncodeBase58 (ed_sign (key_of x06) (Render f))).

Lemma spike_accepts_iff_verifies_witness :
  fst (check_input sample_input) = 0 /\
  exists sig, Verify (mkDelegation (Render sample_fields) sig) = Ok (truncated sample_fields).
Proof.
  assert (fst (check_input sample_input) = 0) as H by (vm_compute; reflexivity). split; [exact H|].
  destruct (proj1 (spike_accepts_iff_verifies sample_input sample_fields sample_ok
    ltac:(repeat split) eq_refl) H) as (_ & sig & _ & Hv).
  exists sig. exact Hv.
Defined.
