(* ===== verification/H2Stream.v ===== *)
(** * The streams of the HTTP/2 backend (src/transport/http2/stream.go)

    A dialled stream writes into the pipe that is its request body and reads
    the response body; the server's stream is the other way round, flushing
    each write.  [pipe] is io.Pipe as its writer sees it; what the HTTP
    library reads from it and when it stops are inputs, as are the answers of
    the response body. *)

From S2P Require Import Prelude GoStrings GoUrl Transport Backends.

(** ** io.Pipe *)

(** [got]: the bytes the reading side took. *)
Record pipe := mkPipe { got : bytes; w_done : bool; r_done : bool }.

Definition ErrClosedPipe : error := Text (str "io: read/write on closed pipe").

(** Write blocks until the reader took everything, or ([stop]) closed its end
    after some bytes. *)
Definition pipe_Write (p : pipe) (b : bytes) (stop : option nat) : pipe * (Z * option error) :=
  if w_done p || r_done p then (p, (0, Some ErrClosedPipe))
  else match stop with
       | None => (mkPipe (got p ++ b) false false, (len b, None))
       | Some n => (mkPipe (got p ++ take n b) false true, (len (take n b), Some ErrClosedPipe))
       end.

(** PipeWriter.Close never fails. *)
Definition pipe_Close (p : pipe) : pipe * option error := (mkPipe (got p) true (r_done p), None).

(** ** clientStream *)

(** [body_closes] counts the Close calls on the response body. *)
Record clientStream := mkClientStream {
  cs_writer : pipe;
  body_closes : nat;
  cs_remote : bytes;
  closeOnce : once;
}.

Definition cs_new (remote : bytes) : clientStream := mkClientStream (mkPipe [] false false) 0 remote (mkOnce false None).

(** [answer] is the response body's. *)
Definition cs_Read (s : clientStream) (answer : Z * option error) : Z * option error := answer.

Definition cs_Write (s : clientStream) (b : bytes) (stop : option nat) : clientStream * (Z * option error) :=
  let '(w, r) := pipe_Write (cs_writer s) b stop in
  (mkClientStream w (body_closes s) (cs_remote s) (closeOnce s), r).

Definition cs_Close (s : clientStream) : clientStream * option error :=
  if o_closed (closeOnce s) then (s, o_err (closeOnce s))
  else let '(w, err) := pipe_Close (cs_writer s) in
       (mkClientStream w (S (body_closes s)) (cs_remote s) (mkOnce true err), err).

Definition cs_CloseWrite (s : clientStream) : clientStream * option error :=
  let '(w, err) := pipe_Close (cs_writer s) in
  (mkClientStream w (body_closes s) (cs_remote s) (closeOnce s), err).

Definition cs_RemoteID (s : clientStream) : bytes := cs_remote s.

(** ** serverStream *)

(** [ss_flushed]: what left the server. *)
Record serverStream := mkServerStream {
  ss_body_closes : nat;
  ss_flushed : bytes;
  ss_remote : bytes;
  ss_closed : bool;
}.

(** [n] and [err] are what the response writer answers: it took [n] bytes. *)
Definition ss_Write (s : serverStream) (b : bytes) (n : Z) (err : option error) : serverStream * (Z * option error) :=
  let '(r, flush) := writeFlusher_Write n err in
  (mkServerStream (ss_body_closes s) (if flush then ss_flushed s ++ slice_to b n else ss_flushed s)
     (ss_remote s) (ss_closed s), r).

Definition ss_Close (s : serverStream) : serverStream * option error :=
  if ss_closed s then (s, None)
  else (mkServerStream (S (ss_body_closes s)) (ss_flushed s) (ss_remote s) true, None).

Definition ss_CloseWrite (s : serverStream) : option error := h2_server_CloseWrite.

(** ** A dialled stream in use *)

Inductive client_op := OpWrite (b : bytes) (stop : option nat) | OpCloseWrite | OpClose.

Definition client_step (s : clientStream) (o : client_op) : clientStream :=
  match o with
  | OpWrite b stop => fst (cs_Write s b stop)
  | OpCloseWrite => fst (cs_CloseWrite s)
  | OpClose => fst (cs_Close s)
  end.

Definition is_close (o : client_op) : bool := match o with OpClose => true | _ => false end.
Definition ends_body (o : client_op) : bool := match o with OpWrite _ _ => false | _ => true end.

(** The specification of what the server's side of the request body is given:
    the writes up to the first close, or up to the reader's own end. *)
Fixpoint request_body (ops : list client_op) : bytes :=
  match ops with
  | OpWrite b None :: ops => b ++ request_body ops
  | OpWrite b (Some n) :: _ => take n b
  | _ => []
  end.

Lemma client_step_shape s o :
  closeOnce s = mkOnce (negb (body_closes s =? 0)%nat) None -> (body_closes s <= 1)%nat ->
  (body_closes s = 1%nat -> w_done (cs_writer s) = true) ->
  let s' := client_step s o in
  closeOnce s' = mkOnce (negb (body_closes s' =? 0)%nat) None /\ (body_closes s' <= 1)%nat /\
  w_done (cs_writer s') = w_done (cs_writer s) || ends_body o /\
  (body_closes s' =? 1)%nat = (body_closes s =? 1)%nat || is_close o.
Proof.
  destruct s as [[g wd rd] n r once0]. cbn [closeOnce body_closes cs_writer w_done]. intros -> Hn Hd.
  destruct n as [|[|]]; [|rewrite Hd in * by done|lia];
    destruct o as [b [k|]| |], wd, rd; cbn; split_and!; auto; lia.
Qed.

Lemma request_body_done s ops :
  w_done (cs_writer s) || r_done (cs_writer s) = true -> got (cs_writer (foldl client_step s ops)) = got (cs_writer s).
Proof.
  revert s. induction ops as [|o ops IH]; intros s H; [done|]. cbn [foldl].
  destruct s as [[g wd rd] n r [c e]]. cbn [cs_writer w_done r_done got] in *.
  destruct o as [b stop| |]; cbn [client_step].
  - unfold cs_Write, pipe_Write. cbn [cs_writer w_done r_done]. rewrite H. by apply IH.
  - by apply IH.
  - unfold cs_Close. cbn [closeOnce o_closed]. destruct c; by apply IH.
Qed.

(** Half-closing does what it says.  Along any use of a dialled stream, the
    request body is ended exactly if Close or CloseWrite was called; the
    response body is closed once, by Close alone, however often it is called;
    Close reports no error; and the request body is given exactly the writes
    before the first close. *)
Theorem h2_half_close remote ops :
  let s := foldl client_step (cs_new remote) ops in
  w_done (cs_writer s) = existsb ends_body ops /\
  body_closes s = (if existsb is_close ops then 1 else 0)%nat /\
  snd (cs_Close s) = None /\
  got (cs_writer s) = request_body ops.
Proof.
  intros s.
  assert (closeOnce s = mkOnce (negb (body_closes s =? 0)%nat) None /\ (body_closes s <= 1)%nat /\
    w_done (cs_writer s) = existsb ends_body ops /\ (body_closes s =? 1)%nat = existsb is_close ops /\
    (existsb is_close ops = true -> existsb ends_body ops = true)) as (H1 & H2 & H3 & H4 & _).
  { unfold s. induction ops as [|o ops IH] using rev_ind; [split_and!; auto|].
    destruct IH as (H1 & H2 & H3 & H4 & H5). rewrite foldl_app. cbn [foldl].
    destruct (client_step_shape (foldl client_step (cs_new remote) ops) o H1 H2) as (G1 & G2 & G3 & G4).
    { intros E. rewrite H3. apply H5. by rewrite <- H4, E. }
    rewrite !existsb_app. cbn [existsb]. rewrite !orb_false_r. split_and!; [done|done|by rewrite G3, H3|by rewrite G4, H4|].
    intros [E|E]%orb_true_iff; [by rewrite H5|]. destruct o; try done. by rewrite orb_true_r. }
  split; [done|]. split; [|split].
  - rewrite <- H4. by destruct (body_closes s) as [|[|]]; [| |lia].
  - unfold cs_Close. rewrite H1. by destruct (body_closes s) as [|[|]].
  - clear. unfold s. assert (forall g r n e, (let s0 := mkClientStream (mkPipe g false false) n r (mkOnce false e) in
      got (cs_writer (foldl client_step s0 ops))) = g ++ request_body ops) as H; [|apply (H [])].
    induction ops as [|op ops IH]; intros g r n e; cbn [foldl request_body]; [by rewrite app_nil_r|].
    destruct op as [b [k|]| |].
    + rewrite request_body_done by done. done.
    + change (client_step _ _) with (mkClientStream (mkPipe (g ++ b) false false) n r (mkOnce false e)).
      rewrite IH. by rewrite <- app_assoc.
    + rewrite request_body_done by done. by rewrite app_nil_r.
    + rewrite request_body_done by done. by rewrite app_nil_r.
Qed.
